(* ===== verification/_CoqProject ===== *)
-Q . S2P
Prelude.v
Host.v
Text.v
PlanCache.v
YieldCalculator.v
StellarXdr.v
BackendTypes.v
StellarSubmit.v
BackendExample.v
Watchdog.v
LoanLifecycle.v
StellarAnchor.v
PlanApi.v
PlanPayouts.v
KycWebhook.v
Webhooks.v
Middleware.v
Gateway.v
BackendLedger.v
BackendSystem.v
AccessControl.v
Token.v
MockToken.v
LoanNft.v
PlanVault.v
InheritanceTypes.v
YieldMath.v
InheritanceCore.v
InheritanceEmergency.v
InheritanceTriggers.v
InheritancePlans.v
InheritanceExample.v
InheritanceClaims.v
InheritanceBatch.v
InheritanceWills.v
InheritanceMessages.v
InheritanceDisputes.v
InheritanceYield.v
InheritanceLedger.v
InheritanceSystem.v
InheritanceHistory.v
InheritanceProgress.v
LendingTypes.v
LendingMath.v
LendingCore.v
LendingExample.v
LendingPool.v
LendingLoans.v
LendingSolvency.v
LendingRewards.v
LendingInsurance.v
LendingYield.v
LendingAdmin.v
LendingSystem.v
BackendChain.v
