(* ===== verification/Prelude.v ===== *)
(** * XourceX, verified

    XourceX lets an owner lock money in an inheritance plan, lend what is idle,
    and have beneficiaries paid once the owner falls silent.  Its parts are six
    Soroban contracts (src/contracts) and one HTTP service (src/backend).  This
    library models the code of both and proves what makes it correct.  A source
    function is a definition of the same name; names below are files.

    ** How the parts interact

    The lending contract keeps pools of tokens, mints loan NFTs and may pay the
    yield of plans; the inheritance contract keeps plans, each with a vault
    contract of its own that holds the plan's tokens and obeys only it; both
    embed the access-control library.  The backend keeps its own table of plans,
    watches their deadlines, calls four entry points of the inheritance contract
    through a Stellar RPC server, records payouts, and serves users behind a
    rate limiter, a region guard and authentication.

    ** Conventions

    - Prelude: machine integers as Z with their ranges and wrap-around, lists,
      options, maps.  Host: the monad [M W E A], a state-passing function that
      ends in [Ok], in [Fail] with an error, or in [Trap], a panic; record
      update; [keeps f m] (m leaves f alone) and [moves R m] (m moves the state
      along a preorder), with the tactics that prove them along a program.
    - Contracts: arithmetic is checked or saturating as the source writes it;
      plain operators trap on overflow, as the contracts are built with overflow
      checks.  An invocation that fails or traps is rolled back ([invoke]).
    - Backend: arithmetic wraps, as in a release build.  BackendTypes has the
      tables as records and maps, a list of faults by which the environment makes
      a statement fail or a lock be held, and a list of replies by which it
      answers requests; past their ends statements succeed and the network is
      down.  [transaction] rolls the tables back on an early return.
    - Text: Rust strings as lists of Unicode scalar values.

    ** Contracts: files, sources, and what is proved

    - AccessControl: access-control/src/lib.rs.  The lock of a guarded call
      excludes reentry; the pause circuit breaker; role sets.
    - Token, MockToken: the token interface the contracts rely on ([TokenOps],
      [TokenLaws]) and mock-token/src/lib.rs, which implements it in a network
      that mints nothing by itself; a transfer to oneself mints, which is why the
      law excludes it.
    - LoanNft: loan-nft/src/lib.rs.  Owners, approvals, operators and the list of
      each owner's tokens stay consistent along every call.
    - PlanVault: plan-vault/src/lib.rs.  Initialised once, releases only to its
      controller's order.
    - LendingTypes, LendingMath, LendingCore: data, arithmetic and storage of
      lending-contract/src/lib.rs and reserves.rs.  LendingPool (deposits,
      withdrawals, flash loans), LendingLoans (borrow, repay, liquidate,
      refinance, split, consolidate), LendingRewards, LendingInsurance,
      LendingYield, LendingAdmin: its entry points, with a functional contract of
      each and its errors.  LendingSolvency: the tokens held cover everything
      owed, along every sequence of calls.  LendingSystem: all entry points as one
      step relation with receivers that call back during flash loans.
    - YieldMath: inheritance-contract/src/yield_math.rs.  InheritanceTypes and
      InheritanceCore: data, storage, guards and vaults of
      inheritance-contract/src/lib.rs; InheritanceEmergency, InheritanceTriggers,
      InheritancePlans, InheritanceClaims, InheritanceWills, InheritanceMessages,
      InheritanceDisputes (with disputes.rs), InheritanceYield: its entry points.
      InheritanceBatch: removing several beneficiaries by swaps equals filtering.
    - InheritanceLedger and InheritanceSystem: every entry point is one call, with
      the postings it may make on an abstract ledger that has an account per plan
      ([posts]); a call that succeeds makes exactly one of them, a batch or a call
      on yield some of them, and without yield every plan stays backed by its
      vault.  InheritanceHistory: what is never taken back, so that a plan pays an
      email at most once, also through batches.  InheritanceProgress: the claims
      that must be paid, and the error of every failing guard.

    ** Backend: files, sources, and what is proved

    - PlanCache: cache.rs, over Redis or in memory.  Keys, index sets, expiry,
      invalidation.  An exchange with Redis can fail, whether or not the server
      carried it out; the history of a cache says which lists such failures left
      [exposed], and an invalidation that succeeds leaves no other list.  A failed
      invalidation is logged and ignored by the handlers, as the source does
      ([invalidate_plan_cache] in BackendTypes).  YieldCalculator:
      yield_calculator.rs, on binary64 numbers.
    - StellarXdr, StellarSubmit: xdr.rs and stellar_submit.rs.  Validation of
      envelopes, reading of events; simulation, submission, polling.  Polling
      ends.  What a client reports as landed was in a reply of the network.
    - Watchdog: inactivity_watchdog.rs.  Claiming under a lease, triggering with
      retries, recording.  With a signer a plan is TRIGGERED only on the
      contract's own event; without one the sweep only marks plans.  A database
      error ends a sweep with the plans not yet settled left TRIGGERING.
    - LoanLifecycle: loan_lifecycle.rs.  Errors record nothing; what a settlement
      records was verified.
    - PlanApi, StellarAnchor, PlanPayouts: the plans' handlers of api.rs and
      stellar_anchor.rs.  Lists are exact, a new plan is listed at once unless
      Redis failed, statistics partition the plans, and payouts and claims record
      the split of [shares_of], exact for totals Decimal can multiply exactly and
      within rounding of it for all others.
    - KycWebhook: kyc_webhook.rs and the users' endpoints of api.rs.  Only a body
      signed by the provider changes a status through the webhook.
    - Webhooks: webhooks.rs.  Each due dispatch of a batch is posted once and
      finished, rescheduled or failed as its endpoint replied.
    - Middleware, Gateway: middleware.rs, auth.rs, password.rs and the router of
      api.rs.  The limiter's bound; who reaches which handler; a sign-in's token
      is accepted.
    - BackendLedger, BackendSystem: requests through the gate to all handlers,
      interleaved with the watchdog and the webhook worker.  Plans only advance:
      their terms stay, inactive ones stay so and are never paid again, payouts
      are only added; and only authenticated requests touch these tables.  Runs
      are sequences of whole requests in which no handler panics; a sweep of the
      watchdog may be interrupted between any two plans, and a plan cancelled
      while it is in flight is triggered nevertheless (cancelled_plan_triggered).
    - BackendChain: the four calls of the client are entry points of the
      inheritance contract, and the events it emits pass the backend's checks.
    - BackendExample, InheritanceExample, LendingExample: concrete services and
      deployments on which every theorem with hypotheses is applied.

    ** Bounds and fuel

    - YieldMath's power loop halves a 64-bit exponent: 64 rounds suffice, and
      the loop is proved to end with its result.
    - The decimal printer of LendingMath writes a 64-bit number: 20 digits.
    - [await_loop] polls at most [poll_budget] times, the poll timeout divided by
      the poll interval plus two; polling_ends shows that the fuel never runs out.
    - [trim_prefix] removes a non-empty prefix at most once per character.
    - The trigger loop runs on the configured number of attempts, as the source.

    ** Parameters

    Code outside the repository is an argument with named laws: SHA-256 and the
    pseudo-random stream of the host, deployment addresses, peers of a contract;
    PostgreSQL's identifiers and row order ([Postgres]), decimals ([DecimalOps]:
    rust_decimal and NUMERIC), the commands of the Redis server as documented and
    the order of a HashSet ([CacheLibs]), XDR and JSON codecs, HMAC, hexadecimal, Ed25519,
    tokens, password hashes, URIs, Unicode lowercasing, the router's choice among
    patterns, the PDF library.  The code behind a plan's vault is PlanVault; the
    lending contract linked to the inheritance contract is a peer whose replies
    are numbers of its declared type.

    ** Not modelled

    - Files no crate includes: lending-contract/src/reentrancy.rs;
      inheritance-contract/src/safe_math.rs, gas_optimization.rs and
      yield_math_mock.rs.
    - Input and output without decisions about plans: backend main.rs (start-up),
      config.rs, db.rs, telemetry.rs, metrics.rs, the sockets of ws.rs and the
      page layout of pdf.rs; log lines; security headers; the frontend.
    - The lifetimes of ledger storage, which only remove entries; other clients
      writing the cache's keys in Redis, or the server losing them.
    - Replacing a contract's code: an upgrade records its version and hash.
    - Several workers inside one statement: row locks are visible only as the
      environment's choice that a lock is held. *)
From stdpp Require Export base gmap sets list strings fin_maps.
From Stdlib Require Export ZArith Lia.
#[global] Open Scope Z_scope.

(** * Machine integers *)

Definition u64_max : Z := 18446744073709551615.
Definition u32_max : Z := 4294967295.
Definition u128_max : Z := 340282366920938463463374607431768211455.
Definition i128_max : Z := 170141183460469231731687303715884105727.
Definition i128_min : Z := -170141183460469231731687303715884105728.

(** Range predicates: a [u64] argument or field is a [Z] in range. *)
Definition u64 (z : Z) : Prop := 0 <= z <= u64_max.
Definition u32 (z : Z) : Prop := 0 <= z <= u32_max.
Definition u128 (z : Z) : Prop := 0 <= z <= u128_max.
Definition i128 (z : Z) : Prop := i128_min <= z <= i128_max.

#[global] Instance u64_dec z : Decision (u64 z).
Proof. unfold u64. apply _. Defined.
#[global] Instance u32_dec z : Decision (u32 z).
Proof. unfold u32. apply _. Defined.
#[global] Instance u128_dec z : Decision (u128 z).
Proof. unfold u128. apply _. Defined.

(** [x as u64], [x as u32]: truncating casts. *)
Definition as_u64 (z : Z) : Z := z mod (u64_max + 1).
Definition as_u32 (z : Z) : Z := z mod (u32_max + 1).

(** [checked_*] of the standard library: [None] out of range. *)
Definition checked (hi z : Z) : option Z :=
  if (0 <=? z) && (z <=? hi) then Some z else None.
Definition checked_add64 (a b : Z) : option Z := checked u64_max (a + b).
Definition checked_sub64 (a b : Z) : option Z := checked u64_max (a - b).
Definition checked_mul64 (a b : Z) : option Z := checked u64_max (a * b).
Definition checked_add128 (a b : Z) : option Z := checked u128_max (a + b).
Definition checked_sub128 (a b : Z) : option Z := checked u128_max (a - b).
Definition checked_mul128 (a b : Z) : option Z := checked u128_max (a * b).
Definition checked_div (a b : Z) : option Z :=
  if b =? 0 then None else Some (a / b).
Definition checked_i128 (z : Z) : option Z :=
  if (i128_min <=? z) && (z <=? i128_max) then Some z else None.
Definition checked_add_i128 (a b : Z) : option Z := checked_i128 (a + b).

(** [saturating_*]. *)
Definition saturating_sub (a b : Z) : Z := Z.max 0 (a - b).
Definition saturating_add64 (a b : Z) : Z := Z.min u64_max (a + b).
Definition saturating_add32 (a b : Z) : Z := Z.min u32_max (a + b).
Definition saturating_mul64 (a b : Z) : Z := Z.min u64_max (a * b).
Definition saturating_add128 (a b : Z) : Z := Z.min u128_max (a + b).
Definition saturating_mul128 (a b : Z) : Z := Z.min u128_max (a * b).

Lemma checked_Some hi z r : checked hi z = Some r <-> r = z /\ 0 <= z <= hi.
Proof.
  unfold checked.
  destruct (Z.leb_spec 0 z), (Z.leb_spec z hi); simpl; split;
    first [by intros [-> ?]; lia | intros; simplify_eq; lia | by intros [-> ?]].
Qed.

Lemma checked_in hi z : 0 <= z <= hi -> checked hi z = Some z.
Proof. intros. by apply checked_Some. Qed.

Lemma checked_None hi z : checked hi z = None <-> z < 0 \/ hi < z.
Proof.
  unfold checked.
  destruct (Z.leb_spec 0 z), (Z.leb_spec z hi); simpl; split;
    first [done | lia | intros; simplify_eq; lia].
Qed.

Lemma checked_i128_Some z r : checked_i128 z = Some r <-> r = z /\ i128 z.
Proof.
  unfold checked_i128, i128.
  destruct (Z.leb_spec i128_min z), (Z.leb_spec z i128_max); simpl;
    split; first [by intros [-> ?]; lia | intros; simplify_eq; lia | by intros [-> ?]].
Qed.

Lemma checked_add_i128_Some a b r :
  checked_add_i128 a b = Some r <-> r = a + b /\ i128 (a + b).
Proof. apply checked_i128_Some. Qed.

Lemma checked_add_i128_None a b : checked_add_i128 a b = None <-> ~ i128 (a + b).
Proof.
  destruct (checked_add_i128 a b) eqn:Hc; split; try done.
  - by apply checked_add_i128_Some in Hc as [-> ?].
  - intros _ Hi. assert (checked_add_i128 a b = Some (a + b)) as Hs by by apply checked_add_i128_Some.
    congruence.
Qed.

Lemma as_u64_small z : u64 z -> as_u64 z = z.
Proof. unfold u64, as_u64. intros. apply Z.mod_small. unfold u64_max in *. lia. Qed.

Lemma as_u64_range z : u64 (as_u64 z).
Proof.
  unfold u64, as_u64. pose proof (Z.mod_pos_bound z (u64_max + 1)).
  unfold u64_max in *. lia.
Qed.

Lemma as_u32_small z : u32 z -> as_u32 z = z.
Proof. unfold u32, as_u32. intros. apply Z.mod_small. unfold u32_max in *. lia. Qed.

Lemma as_u32_range z : u32 (as_u32 z).
Proof.
  unfold u32, as_u32. pose proof (Z.mod_pos_bound z (u32_max + 1)).
  unfold u32_max in *. lia.
Qed.

(** Unfold every range and width constant, then [lia]. *)
Ltac unfold_ranges :=
  unfold saturating_sub, saturating_add64, saturating_add32, saturating_mul64,
    saturating_add128, saturating_mul128, u64, u32, u128, i128 in *;
  unfold u64_max, u32_max, u128_max, i128_max, i128_min in *.
Ltac ulia := unfold_ranges; lia.
Ltac unia := unfold_ranges; nia.

(** Floor division facts used by the rounding arguments. *)
Lemma div_le_mul a b c : 0 < b -> a / b <= c <-> a < (c + 1) * b.
Proof.
  intros Hb. split; intros H.
  - pose proof (Z.div_mod a b ltac:(lia)). pose proof (Z.mod_pos_bound a b Hb). nia.
  - assert (a / b < c + 1) by (apply Z.div_lt_upper_bound; lia). lia.
Qed.

Lemma le_div_mul a b c : 0 < b -> c <= a / b <-> c * b <= a.
Proof.
  intros Hb. split; intros H.
  - pose proof (Z.mul_div_le a b Hb). nia.
  - apply Z.div_le_lower_bound; lia.
Qed.

Lemma div_floor a b : 0 < b -> (a / b) * b <= a < (a / b + 1) * b.
Proof.
  intros Hb. pose proof (Z.div_mod a b ltac:(lia)).
  pose proof (Z.mod_pos_bound a b Hb). lia.
Qed.

Lemma mul_frac_le a b c : 0 <= a -> 0 <= b <= c -> 0 < c -> 0 <= a * b / c <= a.
Proof.
  intros. split; [apply Z.div_pos; nia|].
  apply div_le_mul; nia.
Qed.

(** * Sums over finite maps *)

Section msum.
Context `{Countable K} {V : Type}.
Implicit Types (f g : K -> V -> Z) (m : gmap K V).

(** The sum of [f k v] over the entries of a map. *)
Definition msum f m : Z := map_fold (fun k v acc => f k v + acc) 0 m.

Lemma msum_empty f : msum f ∅ = 0.
Proof. apply map_fold_empty. Qed.

Lemma msum_insert_fresh f m k v : m !! k = None -> msum f (<[k := v]> m) = f k v + msum f m.
Proof. intros Hk. unfold msum. rewrite map_fold_insert_L; [done|intros; lia|done]. Qed.

Lemma msum_delete f m k : msum f (delete k m) = msum f m - from_option (f k) 0 (m !! k).
Proof.
  destruct (m !! k) as [v|] eqn:Hk; simpl.
  - rewrite <-(insert_delete_id m k v Hk) at 2.
    rewrite msum_insert_fresh by apply lookup_delete_eq. lia.
  - rewrite delete_id by done. lia.
Qed.

Lemma msum_insert f m k v :
  msum f (<[k := v]> m) = msum f m - from_option (f k) 0 (m !! k) + f k v.
Proof.
  rewrite <-insert_delete_eq, msum_insert_fresh by apply lookup_delete_eq.
  rewrite msum_delete. lia.
Qed.

Lemma msum_mono f g m :
  (forall k v, m !! k = Some v -> f k v <= g k v) -> msum f m <= msum g m.
Proof.
  induction m as [|k v m Hk IH] using map_ind; intros Hle.
  - by rewrite !msum_empty.
  - rewrite !msum_insert_fresh by done.
    assert (f k v <= g k v) by (apply Hle; apply lookup_insert_eq).
    assert (msum f m <= msum g m); [|lia].
    apply IH. intros k' v' Hk'. apply Hle. rewrite lookup_insert_ne; [done|].
    intros ->. congruence.
Qed.

Lemma msum_zero m : msum (fun _ _ => 0) m = 0.
Proof.
  induction m as [|k v m Hk IH] using map_ind; [apply msum_empty|].
  by rewrite msum_insert_fresh, IH.
Qed.

Lemma msum_nonneg f m : (forall k v, m !! k = Some v -> 0 <= f k v) -> 0 <= msum f m.
Proof. intros Hf. rewrite <-(msum_zero m). by apply msum_mono. Qed.

Lemma msum_lookup_le f m k v :
  (forall k v, m !! k = Some v -> 0 <= f k v) -> m !! k = Some v -> f k v <= msum f m.
Proof.
  intros Hf Hk. pose proof (msum_delete f m k) as Hd. rewrite Hk in Hd. simpl in Hd.
  assert (0 <= msum f (delete k m)); [|lia].
  apply msum_nonneg. intros k' v' [_ ?]%lookup_delete_Some. by apply Hf.
Qed.
End msum.

(** ** Maps *)

Lemma alter_present {K V} `{Countable K} (f : V -> V) (k : K) (m : gmap K V) :
  alter f k m = match m !! k with Some v => <[k := f v]> m | None => m end.
Proof.
  apply map_eq. intros i. destruct (decide (i = k)) as [->|Hn].
  - rewrite lookup_alter_eq. destruct (m !! k) eqn:Hk; cbn; [by rewrite lookup_insert_eq|done].
  - rewrite lookup_alter_ne by done. destruct (m !! k); [by rewrite lookup_insert_ne|done].
Qed.
