(* ===== verification/Host.v ===== *)
(** The contract host: the state-and-error monad every entry point is written
    in, transactional invocation, the ledger environment, sub-states, record
    update, and the inversion and framing automation. *)
From S2P Require Import Prelude.

(** * Outcomes *)

(** An entry point returns a value, returns an [Err], or panics.  The state is
    kept on [Fail] because a caller inside the same contract may catch the
    [Err] and go on; the host rolls it back only when the [Err] leaves the
    contract (see [invoke]). *)
Inductive outcome (W E A : Type) :=
  | Ok (a : A) (w : W)
  | Fail (e : E) (w : W)
  | Trap.
Arguments Ok {W E A} a w.
Arguments Fail {W E A} e w.
Arguments Trap {W E A}.

Definition M (W E A : Type) : Type := W -> outcome W E A.

(** [Result<A, E>] of a pure function. *)
Inductive result (E A : Type) := ROk (a : A) | RErr (e : E).
Arguments ROk {E A} a.
Arguments RErr {E A} e.

Section monad.
Context {W E : Type}.

Definition ret {A} (a : A) : M W E A := fun w => Ok a w.
Definition fail {A} (e : E) : M W E A := fun w => Fail e w.
Definition trap {A} : M W E A := fun _ => Trap.
Definition bind {A B} (m : M W E A) (k : A -> M W E B) : M W E B := fun w =>
  match m w with
  | Ok a w' => k a w'
  | Fail e w' => Fail e w'
  | Trap => Trap
  end.
Definition gets {A} (f : W -> A) : M W E A := fun w => Ok (f w) w.
Definition modify (f : W -> W) : M W E unit := fun w => Ok tt (f w).

(** [if cond { return Err(e); }]. *)
Definition reject_if (b : bool) (e : E) : M W E unit :=
  if b then fail e else ret tt.
(** [if cond { panic!(..) }]. *)
Definition panic_if (b : bool) : M W E unit := if b then trap else ret tt.
(** [opt.ok_or(e)?]. *)
Definition ok_or {A} (o : option A) (e : E) : M W E A :=
  match o with Some a => ret a | None => fail e end.
(** [opt.unwrap()], [opt.expect(..)]. *)
Definition unwrap {A} (o : option A) : M W E A :=
  match o with Some a => ret a | None => trap end.
(** [res?] for a pure [Result]. *)
Definition of_result {A} (r : result E A) : M W E A :=
  match r with ROk a => ret a | RErr e => fail e end.
(** [if cond { stmt }]. *)
Definition when (b : bool) (m : M W E unit) : M W E unit :=
  if b then m else ret tt.
(** Run [m] and hand its [Result] to the caller without returning. *)
Definition attempt {A} (m : M W E A) : M W E (result E A) := fun w =>
  match m w with
  | Ok a w' => Ok (ROk a) w'
  | Fail e w' => Ok (RErr e) w'
  | Trap => Trap
  end.
(** Run [m], then [fin] whatever [m] returned: a [Drop] guard. *)
Definition finally {A} (m : M W E A) (fin : M W E unit) : M W E A :=
  bind (attempt m) (fun r => bind fin (fun _ => of_result r)).

(** Plain [+], [-], [*] on [u64]: the release profile sets
    [overflow-checks = true], so they panic out of range. *)
Definition add64 (a b : Z) : M W E Z := unwrap (checked_add64 a b).
Definition sub64 (a b : Z) : M W E Z := unwrap (checked_sub64 a b).
Definition mul64 (a b : Z) : M W E Z := unwrap (checked_mul64 a b).
(** The same for [i128]. *)
Definition wrap_i128 (z : Z) : M W E Z := unwrap (checked_i128 z).
End monad.

Declare Scope host_scope.
Delimit Scope host_scope with host.
Notation "'let!' x := m 'in' k" := (bind m (fun x => k))
  (at level 10, x name, m at level 100, k at level 200) : host_scope.
Notation "'do!' m ; k" := (bind m (fun _ => k))
  (at level 10, m at level 100, k at level 200) : host_scope.
#[global] Open Scope host_scope.

(** [?] on a pure [Result]. *)
Definition rbind {E A B} (m : result E A) (k : A -> result E B) : result E B :=
  match m with ROk a => k a | RErr e => RErr e end.
Notation "'let?' x := m 'in' k" := (rbind m (fun x => k))
  (at level 10, x name, m at level 100, k at level 200) : host_scope.
Notation "'do?' m ; k" := (rbind m (fun _ => k))
  (at level 10, m at level 100, k at level 200) : host_scope.
Definition rok_or {E A} (o : option A) (e : E) : result E A :=
  match o with Some a => ROk a | None => RErr e end.
Definition rreject_if {E} (b : bool) (e : E) : result E unit :=
  if b then RErr e else ROk tt.

Lemma rbind_ROk {E A B} (m : result E A) (k : A -> result E B) b :
  rbind m k = ROk b <-> exists a, m = ROk a /\ k a = ROk b.
Proof. destruct m; simpl; naive_solver. Qed.
Lemma rok_or_ROk {E A} (o : option A) (e : E) a : rok_or o e = ROk a <-> o = Some a.
Proof. destruct o; simpl; naive_solver. Qed.
Lemma rreject_if_ROk {E} b (e : E) u : rreject_if b e = ROk u <-> b = false.
Proof. destruct b, u; simpl; naive_solver. Qed.

(** [for x in xs.iter() { .. }] threading an accumulator. *)
Fixpoint foldM {W E A B} (f : B -> A -> M W E B) (xs : list A) (acc : B) : M W E B :=
  match xs with
  | [] => ret acc
  | x :: xs' => let! acc' := f acc x in foldM f xs' acc'
  end.

(** * The ledger environment *)

(** Addresses are opaque identifiers compared for equality. *)
Abbreviation address := positive.

(** What an invocation can read from [Env]: the ledger header, the running
    contract's own address and the addresses whose authorisation covers the
    invocation ([Address::require_auth] succeeds exactly for those). *)
Record Env := mkEnv {
  timestamp : Z;
  sequence : Z;
  current_contract : address;
  auths : gset address
}.

Definition require_auth {W E} (env : Env) (a : address) : M W E unit :=
  panic_if (negb (bool_decide (a ∈ auths env))).

(** The environment a callee sees: the caller is its direct invoker, whose
    authorisation is implicit. *)
Definition sub_env (env : Env) (callee : address) : Env :=
  {| timestamp := timestamp env; sequence := sequence env;
     current_contract := callee;
     auths := {[ current_contract env ]} ∪ auths env |}.

(** A top-level invocation: storage changes survive only a normal return. *)
Inductive reply (E A : Type) := Returned (a : A) | Errored (e : E) | Panicked.
Arguments Returned {E A} a.
Arguments Errored {E A} e.
Arguments Panicked {E A}.

Definition invoke {W E A} (m : M W E A) (w : W) : reply E A * W :=
  match m w with
  | Ok a w' => (Returned a, w')
  | Fail e _ => (Errored e, w)
  | Trap => (Panicked, w)
  end.

(** The state a run ends in. *)
Definition after {W E A} (m : M W E A) (w : W) : W :=
  match m w with Ok _ w' | Fail _ w' => w' | Trap => w end.

(** * Sub-states *)

(** A component state held inside a larger one. *)
Class Sub (W S : Type) := { sget : W -> S; sput : S -> W -> W }.
Class SubLaws (W S : Type) `{Sub W S} : Prop := {
  sget_sput : forall s w, sget (sput s w) = s;
  sput_sget : forall w, sput (sget w) w = w;
}.

(** Run a component's operation inside the larger state. *)
Definition zoom {W S E A} `{Sub W S} (m : M S E A) : M W E A := fun w =>
  match m (sget w) with
  | Ok a s => Ok a (sput s w)
  | Fail e s => Fail e (sput s w)
  | Trap => Trap
  end.

(** * Record update *)

(** [r <| f := v |>] rebuilds [r] from its projections with [f] replaced; a
    record type provides the rebuilding as its [Eta] instance. *)
Class Eta (R : Type) := eta : R -> R.
Class Setter {R A : Type} (p : R -> A) := upd_field : A -> R -> R.
Arguments upd_field {R A} p {_} v r /.

Ltac build_setter :=
  match goal with
  | |- @Setter ?R ?A ?p =>
    let e := constr:(_ : Eta R) in
    exact (fun (v : A) (r : R) =>
      ltac:(let t := eval hnf in (e r) in
            lazymatch eval pattern (p r) in t with
            | ?f _ => let t' := eval cbv beta in (f v) in exact t'
            end))
  end.
#[export] Hint Extern 0 (Setter _) => build_setter : typeclass_instances.

Notation "r <| f := v |>" := (upd_field f v r)
  (at level 1, left associativity, f at level 99, v at level 200, format "r  <| f  :=  v |>") : host_scope.

(** * Inversion of successful runs *)

Section inversion.
Context {W E : Type}.
Implicit Types w : W.

Lemma bind_Ok {A B} (m : M W E A) (k : A -> M W E B) w b w2 :
  bind m k w = Ok b w2 <-> exists a w1, m w = Ok a w1 /\ k a w1 = Ok b w2.
Proof.
  unfold bind. split.
  - destruct (m w) as [a w1| |]; naive_solver.
  - by intros (a & w1 & -> & ?).
Qed.

Lemma ret_Ok {A} (a b : A) w w' : @ret W E A a w = Ok b w' <-> b = a /\ w' = w.
Proof. unfold ret. naive_solver. Qed.

Lemma fail_Ok {A} (e : E) (b : A) w w' : fail e w = Ok b w' <-> False.
Proof. unfold fail. naive_solver. Qed.

Lemma trap_Ok {A} (b : A) w w' : @trap W E A w = Ok b w' <-> False.
Proof. unfold trap. naive_solver. Qed.

Lemma gets_Ok {A} (f : W -> A) b w w' :
  @gets W E A f w = Ok b w' <-> b = f w /\ w' = w.
Proof. unfold gets. naive_solver. Qed.

Lemma modify_Ok (f : W -> W) b w w' :
  @modify W E f w = Ok b w' <-> b = tt /\ w' = f w.
Proof. unfold modify. naive_solver. Qed.

Lemma reject_if_Ok b (e : E) u w w' :
  reject_if b e w = Ok u w' <-> b = false /\ w' = w.
Proof. destruct b, u; unfold reject_if, fail, ret; naive_solver. Qed.

Lemma panic_if_Ok b u w w' :
  @panic_if W E b w = Ok u w' <-> b = false /\ w' = w.
Proof. destruct b, u; unfold panic_if, trap, ret; naive_solver. Qed.

Lemma ok_or_Ok {A} (o : option A) (e : E) a w w' :
  ok_or o e w = Ok a w' <-> o = Some a /\ w' = w.
Proof. destruct o; unfold ok_or, fail, ret; naive_solver. Qed.

Lemma unwrap_Ok {A} (o : option A) a w w' :
  @unwrap W E A o w = Ok a w' <-> o = Some a /\ w' = w.
Proof. destruct o; unfold unwrap, trap, ret; naive_solver. Qed.

Lemma of_result_Ok {A} (r : result E A) a w w' :
  of_result r w = Ok a w' <-> r = ROk a /\ w' = w.
Proof. destruct r; unfold of_result, fail, ret; naive_solver. Qed.

Lemma when_Ok b (m : M W E unit) u w w' :
  when b m w = Ok u w' <-> if b then m w = Ok u w' else w' = w.
Proof. destruct b, u; unfold when, ret; naive_solver. Qed.

Lemma finally_Ok {A} (m : M W E A) fin a w w' :
  finally m fin w = Ok a w' <->
  exists w1 u, m w = Ok a w1 /\ fin w1 = Ok u w'.
Proof.
  unfold finally, attempt, bind, of_result, ret, fail. split.
  - destruct (m w) as [a1 w1|e w1|]; [| |done];
      destruct (fin w1) eqn:?; naive_solver.
  - by intros (w1 & u & -> & ->).
Qed.

Lemma attempt_Ok {A} (m : M W E A) r w w' :
  attempt m w = Ok r w' <->
  match r with ROk a => m w = Ok a w' | RErr e => m w = Fail e w' end.
Proof. unfold attempt. destruct (m w), r; naive_solver. Qed.

Lemma add64_Ok a b r w w' :
  @add64 W E a b w = Ok r w' <-> r = a + b /\ u64 (a + b) /\ w' = w.
Proof. unfold add64. rewrite unwrap_Ok. unfold checked_add64. rewrite checked_Some. unfold u64. naive_solver. Qed.

Lemma sub64_Ok a b r w w' :
  @sub64 W E a b w = Ok r w' <-> r = a - b /\ u64 (a - b) /\ w' = w.
Proof. unfold sub64. rewrite unwrap_Ok. unfold checked_sub64. rewrite checked_Some. unfold u64. naive_solver. Qed.

Lemma mul64_Ok a b r w w' :
  @mul64 W E a b w = Ok r w' <-> r = a * b /\ u64 (a * b) /\ w' = w.
Proof. unfold mul64. rewrite unwrap_Ok. unfold checked_mul64. rewrite checked_Some. unfold u64. naive_solver. Qed.

Lemma wrap_i128_Ok z r w w' :
  @wrap_i128 W E z w = Ok r w' <-> r = z /\ i128 z /\ w' = w.
Proof. unfold wrap_i128. rewrite unwrap_Ok, checked_i128_Some. naive_solver. Qed.

Lemma require_auth_Ok env a u w w' :
  @require_auth W E env a w = Ok u w' <-> a ∈ auths env /\ w' = w.
Proof.
  unfold require_auth. rewrite panic_if_Ok.
  case_bool_decide; naive_solver.
Qed.

Lemma zoom_Ok {S A} `{Sub W S} (m : M S E A) a w w' :
  zoom m w = Ok a w' <-> exists s, m (sget w) = Ok a s /\ w' = sput s w.
Proof. unfold zoom. destruct (m (sget w)); naive_solver. Qed.
End inversion.

Lemma invoke_Returned {W E A} (m : M W E A) w a w' :
  invoke m w = (Returned a, w') <-> m w = Ok a w'.
Proof. unfold invoke. destruct (m w); naive_solver. Qed.

(** Hypotheses [m w = Ok a w'] are inverted with the database [run], to which
    every component adds the inversion lemmas of its own operations. *)
Create Rewrite HintDb run.
#[export] Hint Rewrite @ret_Ok @fail_Ok @trap_Ok @gets_Ok @modify_Ok
  @reject_if_Ok @panic_if_Ok @ok_or_Ok @unwrap_Ok @of_result_Ok
  @add64_Ok @sub64_Ok @mul64_Ok @wrap_i128_Ok @require_auth_Ok : run.

Ltac split_ands :=
  repeat match goal with
  | H : _ /\ _ |- _ => destruct H
  | H : exists _, _ |- _ => destruct H
  | H : False |- _ => destruct H
  | H : ?x = ?x |- _ => clear H
  | u : unit |- _ => destruct u
  end.

(** Invert a successful pure [Result]. *)
Ltac res_inv :=
  repeat match goal with
  | H : rbind _ _ = ROk _ |- _ => apply rbind_ROk in H; destruct H as (? & ? & H)
  | H : rok_or _ _ = ROk _ |- _ => apply rok_or_ROk in H
  | H : rreject_if _ _ = ROk _ |- _ => apply rreject_if_ROk in H
  | H : ROk _ = ROk _ |- _ => injection H as <-
  | H : RErr _ = ROk _ |- _ => discriminate H
  end.

(** Read the boolean conditions of a run as propositions. *)
Ltac bool_hyps :=
  repeat match goal with
  | H : negb _ = false |- _ => apply negb_false_iff in H
  | H : negb _ = true |- _ => apply negb_true_iff in H
  | H : _ || _ = false |- _ => apply orb_false_iff in H; destruct H
  | H : _ && _ = true |- _ => apply andb_true_iff in H; destruct H
  | H : bool_decide _ = true |- _ => apply bool_decide_eq_true in H
  | H : bool_decide _ = false |- _ => apply bool_decide_eq_false in H
  | H : (_ =? _) = false |- _ => apply Z.eqb_neq in H
  | H : (_ =? _) = true |- _ => apply Z.eqb_eq in H
  | H : (_ <? _) = false |- _ => apply Z.ltb_ge in H
  | H : (_ <? _) = true |- _ => apply Z.ltb_lt in H
  | H : (_ <=? _) = false |- _ => apply Z.leb_gt in H
  | H : (_ <=? _) = true |- _ => apply Z.leb_le in H
  | H : default false ?o = true |- _ =>
    let Ho := fresh in destruct o as [[]|] eqn:Ho; [clear H|discriminate H..]
  end.

(** One bind of a successful run. *)
Ltac run_bind H :=
  apply bind_Ok in H; destruct H as (? & ? & ? & H).

(** One-directional inversion steps a component adds ([run_extra ::= ...]). *)
Ltac run_extra := fail.

(** Invert a primitive, found by its head. *)
Ltac run_prim_inv H :=
  lazymatch type of H with
  | bind _ _ _ = _ => run_bind H
  | ret _ _ = _ => apply ret_Ok in H
  | fail _ _ = _ => apply fail_Ok in H
  | trap _ = _ => apply trap_Ok in H
  | gets _ _ = _ => apply gets_Ok in H
  | modify _ _ = _ => apply modify_Ok in H
  | reject_if _ _ _ = _ => apply reject_if_Ok in H
  | panic_if _ _ = _ => apply panic_if_Ok in H
  | ok_or _ _ _ = _ => apply ok_or_Ok in H
  | unwrap _ _ = _ => apply unwrap_Ok in H
  | of_result _ _ = _ => apply of_result_Ok in H
  | add64 _ _ _ = _ => apply add64_Ok in H
  | sub64 _ _ _ = _ => apply sub64_Ok in H
  | mul64 _ _ _ = _ => apply mul64_Ok in H
  | wrap_i128 _ _ = _ => apply wrap_i128_Ok in H
  | require_auth _ _ _ = _ => apply require_auth_Ok in H
  end.

(** Elimination of the intermediate states once every step is inverted. *)
Ltac run_final := subst.

(** The last resort, on the operations the database [run] knows. *)
Ltac run_fallback :=
  match goal with
  | H : _ = Ok _ _ |- _ => progress (autorewrite with run in H)
  end.

(** Invert every successful run in the context down to the primitives. *)
Ltac run_inv1 :=
  first
  [ match goal with H : _ = Ok _ _ |- _ => run_prim_inv H end
  | run_extra
  | run_fallback ];
  split_ands.
Ltac run_inv := repeat run_inv1; split_ands; run_final.

(** * Running forward *)

Lemma bind_step {W E A B} (m : M W E A) (k : A -> M W E B) w a w1 :
  m w = Ok a w1 -> bind m k w = k a w1.
Proof. unfold bind. by intros ->. Qed.

(** Establish [m w = Ok a w'] for a primitive [m]: conditions are left to
    [side], equations between states are solved by unification. *)
Ltac run_prim side :=
  autorewrite with run; split_and?;
  lazymatch goal with
  | |- ?x = ?y => first [reflexivity | solve [side]]
  | |- _ => solve [side]
  end.
Ltac run_fwd_step side :=
  lazymatch goal with
  | |- @bind ?W ?E unit ?B ?m ?k ?w = _ =>
    erewrite (bind_step m k w tt) by (run_prim side)
  | |- bind ?m ?k ?w = _ =>
    erewrite (bind_step m k w) by (run_prim side)
  end; cbv beta.
Ltac run_fwd side := repeat run_fwd_step side; try (run_prim side).

(** * Framing *)

(** [keeps f m]: whatever [m] returns, the component [f] of the state is left
    as it was. *)
Definition keeps {W E A B} (f : W -> B) (m : M W E A) : Prop :=
  forall w, match m w with Ok _ w' | Fail _ w' => f w' = f w | Trap => True end.

Section keeps.
Context {W E B : Type} (f : W -> B).

Lemma keeps_Ok {A} (m : M W E A) w a w' : keeps f m -> m w = Ok a w' -> f w' = f w.
Proof. intros Hk Hm. specialize (Hk w). by rewrite Hm in Hk. Qed.

Lemma keeps_ret {A} (a : A) : keeps f (@ret W E A a).
Proof. by intros w. Qed.
Lemma keeps_fail {A} (e : E) : keeps f (@fail W E A e).
Proof. by intros w. Qed.
Lemma keeps_trap {A} : keeps f (@trap W E A).
Proof. by intros w. Qed.
Lemma keeps_gets {A} (g : W -> A) : keeps f (@gets W E A g).
Proof. by intros w. Qed.
Lemma keeps_modify (g : W -> W) : (forall w, f (g w) = f w) -> keeps f (@modify W E g).
Proof. intros Hg w. apply Hg. Qed.
Lemma keeps_bind {A C} (m : M W E A) (k : A -> M W E C) :
  keeps f m -> (forall a, keeps f (k a)) -> keeps f (bind m k).
Proof.
  intros Hm Hk w. unfold bind. specialize (Hm w).
  destruct (m w) as [a w'|e w'|]; [|done|done].
  specialize (Hk a w'). destruct (k a w'); congruence || done.
Qed.
Lemma keeps_reject_if b (e : E) : keeps f (@reject_if W E b e).
Proof. by destruct b; intros w. Qed.
Lemma keeps_panic_if b : keeps f (@panic_if W E b).
Proof. by destruct b; intros w. Qed.
Lemma keeps_ok_or {A} (o : option A) (e : E) : keeps f (@ok_or W E A o e).
Proof. by destruct o; intros w. Qed.
Lemma keeps_unwrap {A} (o : option A) : keeps f (@unwrap W E A o).
Proof. by destruct o; intros w. Qed.
Lemma keeps_of_result {A} (r : result E A) : keeps f (@of_result W E A r).
Proof. by destruct r; intros w. Qed.
Lemma keeps_when b (m : M W E unit) : keeps f m -> keeps f (when b m).
Proof. by destruct b; [|intros ? w]. Qed.
Lemma keeps_attempt {A} (m : M W E A) : keeps f m -> keeps f (attempt m).
Proof. intros Hm w. specialize (Hm w). unfold attempt. by destruct (m w). Qed.
Lemma keeps_finally {A} (m : M W E A) fin :
  keeps f m -> keeps f fin -> keeps f (finally m fin).
Proof.
  intros. apply keeps_bind; [by apply keeps_attempt|]. intros r.
  apply keeps_bind; [done|]. intros _. apply keeps_of_result.
Qed.
Lemma keeps_require_auth env a : keeps f (@require_auth W E env a).
Proof. apply keeps_panic_if. Qed.
Lemma keeps_zoom {S A} `{Sub W S} (m : M S E A) :
  (forall s w, f (sput s w) = f w) -> keeps f (zoom m).
Proof. intros Hf w. unfold zoom. by destruct (m (sget w)). Qed.
Lemma keeps_foldM {A C} (g : C -> A -> M W E C) xs acc :
  (forall acc x, keeps f (g acc x)) -> keeps f (foldM g xs acc).
Proof.
  intros Hg. revert acc. induction xs as [|x xs IH]; intros acc; simpl.
  - apply keeps_ret.
  - by apply keeps_bind.
Qed.
End keeps.

Create HintDb keeps discriminated.
#[export] Hint Resolve keeps_ret keeps_fail keeps_trap keeps_gets keeps_reject_if
  keeps_panic_if keeps_ok_or keeps_unwrap keeps_of_result keeps_require_auth : keeps.

(** Decompose [keeps f m] along the structure of [m]. *)
Ltac keeps_step :=
  first
  [ done
  | solve [eauto with keeps nocore]
  | apply keeps_bind; [|intros ?]
  | apply keeps_when
  | apply keeps_attempt
  | apply keeps_finally
  | apply keeps_foldM; intros ? ?
  | apply keeps_modify; by intros []
  | progress unfold add64, sub64, mul64, wrap_i128
  | match goal with
    | |- keeps _ (match ?x with _ => _ end) => destruct x
    | |- keeps _ (let '_ := ?x in _) => destruct x
    end ].
Ltac keeps_tac := intros; repeat keeps_step.

(** * Errors that leave no trace *)

(** [clean m]: an [Err] of [m] comes before [m] has changed anything, so a
    caller may catch it. *)
Definition clean {W E A} (m : M W E A) : Prop := forall w e w', m w = Fail e w' -> w' = w.
(** [no_err m]: [m] returns or panics. *)
Definition no_err {W E A} (m : M W E A) : Prop := forall w e w', m w <> Fail e w'.

Section clean.
Context {W E : Type}.

Lemma clean_bind {A B} (m : M W E A) (k : A -> M W E B) :
  keeps (fun w => w) m -> (forall a, clean (k a)) -> clean (bind m k).
Proof.
  intros Hm Hk w e w'. unfold bind. specialize (Hm w). destruct (m w) as [a w1|e1 w1|]; [|congruence|done].
  intros Hf. rewrite <-Hm. by eapply Hk.
Qed.
Lemma keeps_zoom_all {S A} `{SubLaws W S} (m : M S E A) :
  keeps (fun s => s) m -> keeps (fun w => w) (zoom m).
Proof.
  intros Hm w. unfold zoom. specialize (Hm (sget w)).
  destruct (m (sget w)); [rewrite Hm; apply sput_sget..|done].
Qed.
Lemma clean_no_err {A} (m : M W E A) : no_err m -> clean m.
Proof. intros Hn w e w' Hf. by destruct (Hn w e w'). Qed.
Lemma no_err_bind {A B} (m : M W E A) (k : A -> M W E B) :
  no_err m -> (forall a, no_err (k a)) -> no_err (bind m k).
Proof.
  intros Hm Hk w e w'. unfold bind. destruct (m w) as [a w1|e1 w1|] eqn:Hw; [by apply Hk| |done].
  by destruct (Hm w e1 w1).
Qed.
Lemma no_err_ret {A} (a : A) : no_err (@ret W E A a).
Proof. by intros w e w'. Qed.
Lemma no_err_modify (f : W -> W) : no_err (@modify W E f).
Proof. by intros w e w'. Qed.
End clean.

(** * Moving along a preorder *)

(** [moves R m]: whatever [m] returns, the state has moved along [R].  With
    [R w w'] read as [I w -> I w'] this is the preservation of [I]; with an
    equality of projections it is framing. *)
Definition moves {W E A} (R : W -> W -> Prop) (m : M W E A) : Prop :=
  forall w, match m w with Ok _ w' | Fail _ w' => R w w' | Trap => True end.

Section moves.
Context {W E : Type} (R : W -> W -> Prop) `{!PreOrder R}.

Lemma moves_Ok {A} (m : M W E A) w a w' : moves R m -> m w = Ok a w' -> R w w'.
Proof. intros Hm Hr. specialize (Hm w). by rewrite Hr in Hm. Qed.
Lemma moves_ret {A} (a : A) : moves R (@ret W E A a).
Proof. intros w. by cbn. Qed.
Lemma moves_fail {A} (e : E) : moves R (@fail W E A e).
Proof. intros w. by cbn. Qed.
Lemma moves_trap {A} : moves R (@trap W E A).
Proof. by intros w. Qed.
Lemma moves_gets {A} (g : W -> A) : moves R (@gets W E A g).
Proof. intros w. by cbn. Qed.
Lemma moves_modify (g : W -> W) : (forall w, R w (g w)) -> moves R (@modify W E g).
Proof. intros Hg w. apply Hg. Qed.
Lemma moves_bind {A C} (m : M W E A) (k : A -> M W E C) :
  moves R m -> (forall a, moves R (k a)) -> moves R (bind m k).
Proof.
  intros Hm Hk w. unfold bind. specialize (Hm w).
  destruct (m w) as [a w'|e w'|]; [|done|done].
  specialize (Hk a w'). destruct (k a w'); [by etrans..|done].
Qed.
Lemma moves_reject_if b (e : E) : moves R (@reject_if W E b e).
Proof. destruct b; intros w; by cbn. Qed.
Lemma moves_panic_if b : moves R (@panic_if W E b).
Proof. destruct b; intros w; by cbn. Qed.
Lemma moves_ok_or {A} (o : option A) (e : E) : moves R (@ok_or W E A o e).
Proof. destruct o; intros w; by cbn. Qed.
Lemma moves_unwrap {A} (o : option A) : moves R (@unwrap W E A o).
Proof. destruct o; intros w; by cbn. Qed.
Lemma moves_of_result {A} (r : result E A) : moves R (@of_result W E A r).
Proof. destruct r; intros w; by cbn. Qed.
Lemma moves_when b (m : M W E unit) : moves R m -> moves R (when b m).
Proof. destruct b; [done|]. intros _. apply moves_ret. Qed.
Lemma moves_attempt {A} (m : M W E A) : moves R m -> moves R (attempt m).
Proof. intros Hm w. specialize (Hm w). unfold attempt. by destruct (m w). Qed.
Lemma moves_finally {A} (m : M W E A) fin : moves R m -> moves R fin -> moves R (finally m fin).
Proof.
  intros. apply moves_bind; [by apply moves_attempt|]. intros r.
  apply moves_bind; [done|]. intros _. apply moves_of_result.
Qed.
Lemma moves_require_auth env a : moves R (@require_auth W E env a).
Proof. apply moves_panic_if. Qed.
Lemma moves_zoom {S A} `{Sub W S} (m : M S E A) :
  (forall w s, R w (sput s w)) -> moves R (zoom m).
Proof. intros Hf w. unfold zoom. by destruct (m (sget w)). Qed.
Lemma moves_foldM {A C} (g : C -> A -> M W E C) xs acc :
  (forall acc x, moves R (g acc x)) -> moves R (foldM g xs acc).
Proof.
  intros Hg. revert acc. induction xs as [|x xs IH]; intros acc; simpl; [apply moves_ret|].
  by apply moves_bind.
Qed.
Lemma keeps_moves {A B} (f : W -> B) (m : M W E A) :
  keeps f m -> (forall w w', f w' = f w -> R w w') -> moves R m.
Proof. intros Hk HR w. specialize (Hk w). destruct (m w); auto. Qed.
Lemma moves_weaken {A} (R1 : W -> W -> Prop) (m : M W E A) :
  (forall w w', R1 w w' -> R w w') -> moves R1 m -> moves R m.
Proof. intros HR Hm w. specialize (Hm w). destruct (m w); auto. Qed.
Lemma moves_no_state {A} (m : M W E A) : keeps (fun w => w) m -> moves R m.
Proof. intros Hk. eapply keeps_moves; [exact Hk|]. by intros w w' ->. Qed.
End moves.

(** The same for one run, so that a step may use what the earlier ones returned. *)
Definition lands {W E A} (R : W -> W -> Prop) (w : W) (o : outcome W E A) : Prop :=
  match o with Ok _ w' | Fail _ w' => R w w' | Trap => True end.
Section lands.
Context {W E : Type} (R : W -> W -> Prop) `{!PreOrder R}.

Lemma lands_moves {A} (m : M W E A) w : moves R m -> lands R w (m w).
Proof. intros Hm. apply Hm. Qed.
Lemma lands_bind {A C} (m : M W E A) (k : A -> M W E C) w :
  lands R w (m w) -> (forall a w1, m w = Ok a w1 -> lands R w1 (k a w1)) -> lands R w (bind m k w).
Proof.
  unfold lands, bind. intros Hm Hk. destruct (m w) as [a w1|e w1|]; [|done|done].
  specialize (Hk a w1 eq_refl). destruct (k a w1); [by etrans..|done].
Qed.
Lemma lands_then {A C} (m : M W E A) (k : A -> M W E C) w :
  moves R m -> (forall a w1, m w = Ok a w1 -> lands R w1 (k a w1)) -> lands R w (bind m k w).
Proof. intros Hm. apply lands_bind. by apply lands_moves. Qed.
Lemma lands_Ok {A} (m : M W E A) w a w' : lands R w (m w) -> m w = Ok a w' -> R w w'.
Proof. by intros Hl Hr; rewrite Hr in Hl. Qed.
End lands.

(** Decompose [moves R m] along the structure of [m]; the updates are left. *)
Ltac moves_step :=
  first
  [ done
  | apply moves_ret; exact _ | apply moves_fail; exact _ | apply moves_trap
  | apply moves_gets; exact _ | apply moves_reject_if; exact _ | apply moves_panic_if; exact _
  | apply moves_ok_or; exact _ | apply moves_unwrap; exact _ | apply moves_of_result; exact _
  | apply moves_require_auth; exact _
  | apply moves_bind; [exact _| |intros ?]
  | apply moves_when; [exact _|]
  | apply moves_attempt
  | apply moves_finally; [exact _| |]
  | apply moves_foldM; [exact _|intros ? ?]
  | progress unfold add64, sub64, mul64, wrap_i128
  | match goal with
    | |- moves _ (match ?x with _ => _ end) => destruct x
    | |- moves _ (let '_ := ?x in _) => destruct x
    end ].
