(* ===== verification/Text.v ===== *)
(** Rust strings as lists of Unicode scalar values, with the string functions
    of the standard library the backend uses. *)
From S2P Require Import Prelude.
From Stdlib Require Import Ascii.

Module Text.

Abbreviation text := (list Z).

(** A literal of the source; every literal used is ASCII. *)
Fixpoint lit (s : string) : text :=
  match s with
  | EmptyString => []
  | String c s => Z.of_nat (nat_of_ascii c) :: lit s
  end.

(** [char::is_whitespace]: the Unicode [White_Space] property. *)
Definition is_whitespace (c : Z) : bool :=
  ((9 <=? c) && (c <=? 13)) || (c =? 32) || (c =? 133) || (c =? 160) || (c =? 5760) ||
  ((8192 <=? c) && (c <=? 8202)) || (c =? 8232) || (c =? 8233) || (c =? 8239) ||
  (c =? 8287) || (c =? 12288).

Definition is_digit (c : Z) : bool := (48 <=? c) && (c <=? 57).
Definition is_upper (c : Z) : bool := (65 <=? c) && (c <=? 90).
Definition is_lower (c : Z) : bool := (97 <=? c) && (c <=? 122).
(** [char::is_ascii_alphanumeric]. *)
Definition is_ascii_alphanumeric (c : Z) : bool := is_digit c || is_upper c || is_lower c.

Definition lower (c : Z) : Z := if is_upper c then c + 32 else c.
Definition upper (c : Z) : Z := if is_lower c then c - 32 else c.
Definition to_ascii_lowercase (s : text) : text := map lower s.
Definition to_ascii_uppercase (s : text) : text := map upper s.
(** [str::eq_ignore_ascii_case]. *)
Definition eq_ignore_ascii_case (s t : text) : bool :=
  bool_decide (to_ascii_lowercase s = to_ascii_lowercase t).

Fixpoint trim_start (s : text) : text :=
  match s with
  | [] => []
  | c :: s' => if is_whitespace c then trim_start s' else s
  end.
Definition trim_end (s : text) : text := rev (trim_start (rev s)).
Definition trim (s : text) : text := trim_end (trim_start s).
Definition is_empty {A} (s : list A) : bool := match s with [] => true | _ => false end.
(** [s.trim().is_empty()]. *)
Definition blank (s : text) : bool := is_empty (trim s).

(** [str::starts_with], [str::strip_prefix]. *)
Fixpoint strip_prefix (p s : text) : option text :=
  match p, s with
  | [], _ => Some s
  | c :: p, d :: s => if c =? d then strip_prefix p s else None
  | _ :: _, [] => None
  end.
Definition starts_with (p s : text) : bool :=
  match strip_prefix p s with Some _ => true | None => false end.

(** [str::split] on one character: one more piece than separators. *)
Fixpoint split (sep : Z) (s : text) : list text :=
  match s with
  | [] => [[]]
  | c :: s =>
    if c =? sep then [] :: split sep s
    else match split sep s with
         | [] => [[c]]
         | p :: ps => (c :: p) :: ps
         end
  end.

(** [str::contains] of a string. *)
Fixpoint contains (p s : text) : bool :=
  starts_with p s || match s with [] => false | _ :: s => contains p s end.

(** The bytes of a character, [str::len] and [&s[..n]]: slicing panics between
    the bytes of a character. *)
Definition utf8_len (c : Z) : Z :=
  if c <? 128 then 1 else if c <? 2048 then 2 else if c <? 65536 then 3 else 4.
Definition byte_len (s : text) : Z := foldr (fun c n => utf8_len c + n) 0 s.
Fixpoint slice_to (n : Z) (s : text) : option text :=
  match s with
  | [] => Some []
  | c :: s =>
    if n <=? 0 then Some []
    else if utf8_len c <=? n then cons c <$> slice_to (n - utf8_len c) s
    else None
  end.
Definition utf8_bytes (c : Z) : list Z :=
  if c <? 128 then [c]
  else if c <? 2048 then [192 + c / 64; 128 + c mod 64]
  else if c <? 65536 then [224 + c / 4096; 128 + c / 64 mod 64; 128 + c mod 64]
  else [240 + c / 262144; 128 + c / 4096 mod 64; 128 + c / 64 mod 64; 128 + c mod 64].
Definition as_bytes (s : text) : list Z := flat_map utf8_bytes s.

(** [String::from_utf8] accepts: the well-formed sequences of one to four
    bytes, without overlong forms, surrogates or values past U+10FFFF. *)
Definition between (lo hi c : Z) : bool := (lo <=? c) && (c <=? hi).
Definition continues (b : Z) : bool := between 128 191 b.
Definition second_of_three (b0 b1 : Z) : bool :=
  (b0 =? 224) && between 160 191 b1 || between 225 236 b0 && continues b1 ||
  (b0 =? 237) && between 128 159 b1 || between 238 239 b0 && continues b1.
Definition second_of_four (b0 b1 : Z) : bool :=
  (b0 =? 240) && between 144 191 b1 || between 241 243 b0 && continues b1 || (b0 =? 244) && between 128 143 b1.
Fixpoint valid_utf8 (bs : list Z) : bool :=
  match bs with
  | [] => true
  | b0 :: r0 =>
    if between 0 127 b0 then valid_utf8 r0
    else match r0 with
         | [] => false
         | b1 :: r1 =>
           if between 194 223 b0 then continues b1 && valid_utf8 r1
           else match r1 with
                | [] => false
                | b2 :: r2 =>
                  if second_of_three b0 b1 then continues b2 && valid_utf8 r2
                  else match r2 with
                       | [] => false
                       | b3 :: r3 => second_of_four b0 b1 && continues b2 && continues b3 && valid_utf8 r3
                       end
                end
         end
  end.

Lemma utf8_bytes_length c : Z.of_nat (length (utf8_bytes c)) = utf8_len c.
Proof. unfold utf8_bytes, utf8_len. by repeat case_match. Qed.
Lemma as_bytes_length s : Z.of_nat (length (as_bytes s)) = byte_len s.
Proof.
  unfold as_bytes, byte_len. induction s as [|c s IH]; [done|]. cbn [flat_map foldr].
  rewrite length_app, Nat2Z.inj_add, utf8_bytes_length, IH. done.
Qed.

Lemma is_empty_true {A} (s : list A) : is_empty s = true <-> s = [].
Proof. by destruct s. Qed.
Lemma is_empty_false {A} (s : list A) : is_empty s = false <-> s <> [].
Proof. by destruct s. Qed.

Lemma lower_cases c : lower c = c \/ 97 <= lower c <= 122.
Proof. unfold lower, is_upper. destruct (65 <=? c) eqn:?, (c <=? 90) eqn:?; cbn; lia. Qed.
Lemma upper_cases c : lower c <> c -> 65 <= c <= 90.
Proof. unfold lower, is_upper. destruct (65 <=? c) eqn:?, (c <=? 90) eqn:?; cbn; lia. Qed.
Lemma lower_lower c : lower (lower c) = lower c.
Proof.
  destruct (Z.eq_dec (lower (lower c)) (lower c)) as [|Hn]; [done|].
  pose proof (upper_cases _ Hn). destruct (lower_cases c); [congruence|lia].
Qed.
(** No white space is a letter, so changing case does not change it. *)
Lemma letters_not_space c : 65 <= c <= 122 -> is_whitespace c = false.
Proof. unfold is_whitespace. intros. repeat (rewrite orb_false_iff || rewrite andb_false_iff); repeat split; lia. Qed.
Lemma is_whitespace_lower c : is_whitespace (lower c) = is_whitespace c.
Proof.
  destruct (Z.eq_dec (lower c) c) as [->|Hn]; [done|].
  pose proof (upper_cases _ Hn). destruct (lower_cases c); [done|].
  rewrite !letters_not_space by lia. done.
Qed.

Lemma to_ascii_lowercase_idem s : to_ascii_lowercase (to_ascii_lowercase s) = to_ascii_lowercase s.
Proof. unfold to_ascii_lowercase. rewrite map_map. apply map_ext, lower_lower. Qed.
Lemma trim_start_lower s : trim_start (to_ascii_lowercase s) = to_ascii_lowercase (trim_start s).
Proof. induction s as [|c s IH]; [done|]. cbn. rewrite is_whitespace_lower. by destruct (is_whitespace c). Qed.
Lemma trim_end_lower s : trim_end (to_ascii_lowercase s) = to_ascii_lowercase (trim_end s).
Proof.
  unfold trim_end, to_ascii_lowercase. rewrite <-map_rev. fold (to_ascii_lowercase (rev s)).
  rewrite trim_start_lower. unfold to_ascii_lowercase. by rewrite map_rev.
Qed.
Lemma trim_lower s : trim (to_ascii_lowercase s) = to_ascii_lowercase (trim s).
Proof. unfold trim. by rewrite trim_start_lower, trim_end_lower. Qed.

Definition no_space_head (s : text) : Prop := match s with [] => True | c :: _ => is_whitespace c = false end.
Lemma trim_start_head s : no_space_head (trim_start s).
Proof. induction s as [|c s IH]; cbn; [done|]. destruct (is_whitespace c) eqn:?; done. Qed.
Lemma trim_start_id s : no_space_head s -> trim_start s = s.
Proof. destruct s as [|c s]; [done|]. cbn. by intros ->. Qed.
Lemma trim_start_suffix s : exists p, s = p ++ trim_start s.
Proof.
  induction s as [|c s [p IH]]; cbn; [by exists []|]. destruct (is_whitespace c); [|by exists []].
  exists (c :: p). cbn. by f_equal.
Qed.
Lemma trim_end_head s : no_space_head s -> no_space_head (trim_end s).
Proof.
  intros Hs. unfold trim_end. destruct (trim_start_suffix (rev s)) as [p Hp].
  apply (f_equal (@rev Z)) in Hp. rewrite rev_involutive, rev_app_distr in Hp.
  destruct (rev (trim_start (rev s))) as [|c t]; [done|]. by rewrite Hp in Hs.
Qed.
Lemma trim_idem s : trim (trim s) = trim s.
Proof.
  unfold trim at 1. rewrite (trim_start_id (trim s)) by apply trim_end_head, trim_start_head.
  unfold trim, trim_end. rewrite rev_involutive. rewrite (trim_start_id (trim_start _)); [done|].
  apply trim_start_head.
Qed.
Lemma trim_nonblank s : blank s = false -> trim s <> [].
Proof. by intros H%is_empty_false. Qed.

Lemma strip_prefix_app p s t : strip_prefix p s = Some t <-> s = p ++ t.
Proof.
  revert s. induction p as [|c p IH]; intros s; cbn; [naive_solver|].
  destruct s as [|d s]; [naive_solver|]. destruct (Z.eqb_spec c d) as [->|]; [rewrite IH|]; naive_solver.
Qed.
Lemma trim_start_black s : Forall (fun c => is_whitespace c = false) s -> trim_start s = s.
Proof. intros Hs. apply trim_start_id. by destruct Hs. Qed.
Lemma trim_black s : Forall (fun c => is_whitespace c = false) s -> trim s = s.
Proof.
  intros Hs. unfold trim, trim_end. rewrite (trim_start_black s) by done.
  rewrite trim_start_black by by apply Forall_rev. apply rev_involutive.
Qed.
End Text.
