(* ===== verification/PlanCache.v ===== *)
(** The backend's cache of plan lists and statistics
    (src/backend/src/cache.rs): keys, index sets and invalidation, over Redis,
    whose commands may fail, or in memory. *)
From S2P Require Import Prelude Host Text.
Import Text.

(** What the cache uses of [serde_json]: a value as text and back. *)
Class Json (A : Type) := { to_string : A -> option text; from_str : text -> option A }.
Class JsonLaws (A : Type) `{Json A} : Prop := {
  json_roundtrip : forall (a : A) s, to_string a = Some s -> from_str s = Some a;
}.

(** ** The Redis server

    The keyspace, and what the documentation says of the commands the cache
    sends.  Times are in nanoseconds, as on the backend's clock. *)
Module RedisServer.

Definition SECOND : Z := 1000000000.
Definition I64_MAX : Z := 9223372036854775807.

Inductive redis_value := RString (value : text) | RSet (members : gset text).
(** A key's value, and when it expires. *)
Record entry := mkEntry { held : redis_value; deadline : option Z }.
Abbreviation keyspace := (gmap text entry).

Definition live (now : Z) (e : entry) : bool := match deadline e with Some d => now <? d | None => true end.
(** What a command sees under a key. *)
Definition read (now : Z) (ks : keyspace) (key : text) : option entry :=
  e ← ks !! key; if live now e then Some e else None.
(** An expiry in seconds is a 64-bit integer, and so is the deadline in the
    server's milliseconds. *)
Definition expiry_fits (now seconds : Z) : bool :=
  (seconds <=? I64_MAX) && (now / 1000000 + seconds * 1000 <=? I64_MAX).

(** A command on a key of the wrong type is an error, [None]. *)
Definition documented_GET (now : Z) (key : text) (ks : keyspace) : option (option text * keyspace) :=
  match held <$> read now ks key with
  | Some (RString v) => Some (Some v, ks)
  | Some (RSet _) => None
  | None => Some (None, ks)
  end.
Definition documented_SETEX (now : Z) (key value : text) (seconds : Z) (ks : keyspace) : option (unit * keyspace) :=
  if (0 <? seconds) && expiry_fits now seconds
  then Some (tt, <[key := mkEntry (RString value) (Some (now + seconds * SECOND))]> ks)
  else None.
Definition documented_SADD (now : Z) (key member : text) (ks : keyspace) : option (unit * keyspace) :=
  match read now ks key with
  | Some (mkEntry (RSet s) d) => Some (tt, <[key := mkEntry (RSet ({[ member ]} ∪ s)) d]> ks)
  | Some (mkEntry (RString _) _) => None
  | None => Some (tt, <[key := mkEntry (RSet {[ member ]}) None]> ks)
  end.
Definition documented_EXPIRE (now : Z) (key : text) (seconds : Z) (ks : keyspace) : option (bool * keyspace) :=
  match read now ks key with
  | Some e =>
    if seconds <=? 0 then Some (true, delete key ks)
    else if expiry_fits now seconds
    then Some (true, <[key := mkEntry (held e) (Some (now + seconds * SECOND))]> ks)
    else None
  | None => Some (false, ks)
  end.
Definition documented_SMEMBERS (now : Z) (key : text) (ks : keyspace) : option (gset text * keyspace) :=
  match held <$> read now ks key with
  | Some (RSet s) => Some (s, ks)
  | Some (RString _) => None
  | None => Some (∅, ks)
  end.
Definition documented_DEL (key : text) (ks : keyspace) : option (unit * keyspace) := Some (tt, delete key ks).
End RedisServer.
Import RedisServer.

(** What the cache uses of libraries and services: the order in which a [HashSet]
    gives its elements, and the commands of the Redis server. *)
Class CacheLibs := {
  iteration_order : gset text -> list text;
  GET : Z -> text -> keyspace -> option (option text * keyspace);
  SETEX : Z -> text -> text -> Z -> keyspace -> option (unit * keyspace);
  SADD : Z -> text -> text -> keyspace -> option (unit * keyspace);
  EXPIRE : Z -> text -> Z -> keyspace -> option (bool * keyspace);
  SMEMBERS : Z -> text -> keyspace -> option (gset text * keyspace);
  DEL : text -> keyspace -> option (unit * keyspace)
}.
Class CacheLibsLaws `{CacheLibs} : Prop := {
  iterates_all : forall s : gset text, iteration_order s ≡ₚ elements s;
  GET_spec : forall now key ks, GET now key ks = documented_GET now key ks;
  SETEX_spec : forall now key v n ks, SETEX now key v n ks = documented_SETEX now key v n ks;
  SADD_spec : forall now key x ks, SADD now key x ks = documented_SADD now key x ks;
  EXPIRE_spec : forall now key n ks, EXPIRE now key n ks = documented_EXPIRE now key n ks;
  SMEMBERS_spec : forall now key ks, SMEMBERS now key ks = documented_SMEMBERS now key ks;
  DEL_spec : forall key ks, DEL key ks = documented_DEL key ks
}.
(** A server that does what is documented, with some order of sets. *)
Definition documented_libs (order : gset text -> list text) : CacheLibs := {|
  iteration_order := order; GET := documented_GET; SETEX := documented_SETEX; SADD := documented_SADD;
  EXPIRE := documented_EXPIRE; SMEMBERS := documented_SMEMBERS; DEL := documented_DEL |}.

Module PlanCache.

Definition CACHE_NAMESPACE : text := lit "plans:v1".
Definition STATS_CACHE_NAMESPACE : text := lit "plan-statistics:v1".

Inductive CacheError := RedisError | Serialization.

Record PlanQuery := mkQuery { owner : option text; beneficiary : option text }.
(** Dates as the text [to_rfc3339] gives. *)
Record PlanStatisticsQuery := mkStatsQuery {
  start_date : option text; end_date : option text; asset_type : option text
}.

Record MemoryPlanCache := mkStore { values : gmap text text; sets : gmap text (gset text) }.
#[global] Instance eta_store : Eta MemoryPlanCache := fun s => mkStore (values s) (sets s).
Definition empty_store : MemoryPlanCache := mkStore ∅ ∅.

(** A connection: what the server holds, and of each coming exchange whether it
    fails and, if so, whether the server has carried it out all the same. *)
Record connection := mkConnection { keys : keyspace; exchanges : list bool }.

Definition next_exchange {E} : M connection E bool := fun c =>
  match exchanges c with
  | [] => Ok false c
  | b :: bs => Ok b (mkConnection (keys c) bs)
  end.
Definition carry_out {A} (f : keyspace -> option (A * keyspace)) : M connection CacheError A :=
  let! ks := gets keys in
  let! r := ok_or (f ks) RedisError in
  do! modify (fun c => mkConnection r.2 (exchanges c));
  ret r.1.
Definition command {A} (f : keyspace -> option (A * keyspace)) : M connection CacheError A :=
  let! failed := next_exchange in
  if failed then
    let! carried_out := next_exchange in
    do! when carried_out (let! _r := attempt (carry_out f) in ret tt);
    fail RedisError
  else carry_out f.
(** [client.get_multiplexed_async_connection()]. *)
Definition get_connection : M connection CacheError unit :=
  let! failed := next_exchange in
  reject_if failed RedisError.

(** ** The cache *)

(** The client with the keyspace of its server, which no one else writes. *)
Record RedisPlanCache := mkRedis { client : keyspace; ttl_secs : Z }.
Inductive PlanCache := Disabled | Redis (redis_cache : RedisPlanCache) | Memory (store : MemoryPlanCache).

Definition disabled : PlanCache := Disabled.
Definition memory : PlanCache := Memory empty_store.
Definition is_enabled (c : PlanCache) : bool :=
  match c with Disabled => false | _ => true end.

(** [redis::Client::open] parses the URL of a server that holds [ks]. *)
Definition from_redis_url (open : text -> bool) (ks : keyspace) (redis_url : option text) (ttl_secs : Z)
  : result CacheError PlanCache :=
  match redis_url with
  | Some url =>
    if blank url then ROk Disabled
    else if open url then ROk (Redis (mkRedis ks ttl_secs)) else RErr RedisError
  | None => ROk Disabled
  end.

(** The cache with the coming exchanges. *)
Record service := mkService { store : PlanCache; coming : list bool }.

(** A branch that talks to Redis. *)
Definition on_redis {A} (r : RedisPlanCache) (m : M connection CacheError A) : M service CacheError A := fun s =>
  match m (mkConnection (client r) (coming s)) with
  | Ok a c => Ok a (mkService (Redis (mkRedis (keys c) (ttl_secs r))) (exchanges c))
  | Fail e c => Fail e (mkService (Redis (mkRedis (keys c) (ttl_secs r))) (exchanges c))
  | Trap => Trap
  end.
(** A branch on the memory store. *)
Definition put_memory {E} (s : MemoryPlanCache) : M service E unit :=
  modify (fun sv => mkService (Memory s) (coming sv)).

(** * Keys *)

Definition normalize_filter_value (value : text) : text := to_ascii_lowercase (trim value).
Definition normalize_optional_filter (value : option text) : text :=
  default (lit "all") (normalize_filter_value <$> value).

Definition cache_key (query : PlanQuery) : text :=
  CACHE_NAMESPACE ++ lit ":query:owner=" ++ normalize_optional_filter (owner query) ++
  lit ":beneficiary=" ++ normalize_optional_filter (beneficiary query).
Definition plan_statistics_cache_key (query : PlanStatisticsQuery) : text :=
  STATS_CACHE_NAMESPACE ++ lit ":query:start=" ++ default (lit "all") (start_date query) ++
  lit ":end=" ++ default (lit "all") (end_date query) ++
  lit ":asset=" ++ normalize_optional_filter (asset_type query).

Arguments cache_key : simpl never.
Arguments plan_statistics_cache_key : simpl never.

Definition all_queries_index_key : text := CACHE_NAMESPACE ++ lit ":index:all".
Definition owner_index_key (owner : text) : text := CACHE_NAMESPACE ++ lit ":index:owner:" ++ owner.
Definition beneficiary_index_key (beneficiary : text) : text :=
  CACHE_NAMESPACE ++ lit ":index:beneficiary:" ++ beneficiary.
Definition owner_beneficiary_index_key (owner beneficiary : text) : text :=
  CACHE_NAMESPACE ++ lit ":index:pair:" ++ owner ++ lit ":" ++ beneficiary.

Arguments all_queries_index_key : simpl never.
(** The index sets a query is filed under; a [HashSet], whose order the
    callers do not depend on. *)
Definition query_index_keys (query : PlanQuery) : gset text :=
  let owner := normalize_filter_value <$> owner query in
  let beneficiary := normalize_filter_value <$> beneficiary query in
  {[ all_queries_index_key ]} ∪
  match owner with Some o => {[ owner_index_key o ]} | None => ∅ end ∪
  match beneficiary with Some b => {[ beneficiary_index_key b ]} | None => ∅ end ∪
  match owner, beneficiary with
  | Some o, Some b => {[ owner_beneficiary_index_key o b ]}
  | _, _ => ∅
  end.

(** The index sets a change to a plan touches. *)
Definition invalidated_index_keys (owner_address : text) (beneficiary_addresses : list text) : gset text :=
  let owner := normalize_filter_value owner_address in
  {[ all_queries_index_key; owner_index_key owner ]} ∪
  list_to_set (flat_map (fun b => let b := normalize_filter_value b in
    [beneficiary_index_key b; owner_beneficiary_index_key owner b]) beneficiary_addresses).

(** * Operations *)

(** File a cache key under an index key: [entry(..).or_default().insert(..)]. *)
Definition file_under (key index : text) (sets : gmap text (gset text)) : gmap text (gset text) :=
  <[index := {[ key ]} ∪ default ∅ (sets !! index)]> sets.

(** The members of the index sets [keys]. *)
Definition members (sets : gmap text (gset text)) (keys : gset text) : gset text :=
  set_fold (fun i acc => default ∅ (sets !! i) ∪ acc) ∅ keys.
(** Remove the entries with the keys [ks]. *)
Definition drop_keys {V : Type} (ks : gset text) (m : gmap text V) : gmap text V := filter (fun kv => kv.1 ∉ ks) m.

(** [n as i64] of a [u64]. *)
Definition u64_as_i64 (n : Z) : Z := if n <=? I64_MAX then n else n - 18446744073709551616.

Section operations.
Context `{CacheLibs}.

(** The keys that index sets hold. *)
Definition index_members (now : Z) (index_keys : list text) : M connection CacheError (gset text) :=
  foldM (fun keys_to_delete index_key =>
    let! members := command (SMEMBERS now index_key) in ret (members ∪ keys_to_delete)) index_keys ∅.
Definition delete_keys (ks : list text) : M connection CacheError unit :=
  foldM (fun _ key => command (DEL key)) ks tt.

Definition invalidate_queries (now : Z) (owner_address : text) (beneficiary_addresses : list text)
  : M service CacheError unit :=
  let index_keys := invalidated_index_keys owner_address beneficiary_addresses in
  let! c := gets store in
  match c with
  | Disabled => ret tt
  | Redis r => on_redis r
    (do! get_connection;
     let! keys_to_delete := index_members now (iteration_order index_keys) in
     delete_keys (iteration_order (keys_to_delete ∪ index_keys)))
  | Memory s =>
    let keys_to_delete := members (sets s) index_keys in
    put_memory (mkStore (drop_keys keys_to_delete (values s)) (drop_keys index_keys (sets s)))
  end.

Definition get_raw (now : Z) (key : text) : M service CacheError (option text) :=
  let! c := gets store in
  match c with
  | Disabled => ret None
  | Redis r => on_redis r (do! get_connection; command (GET now key))
  | Memory s => ret (values s !! key)
  end.
Definition set_raw (now : Z) (key payload : text) (ttl : Z) : M service CacheError unit :=
  let! c := gets store in
  match c with
  | Disabled => ret tt
  | Redis r => on_redis r (do! get_connection; command (SETEX now key payload (Z.max ttl 1)))
  | Memory s => put_memory (s <| values := <[key := payload]> (values s) |>)
  end.

(** File a list of plans under its index sets, each kept as long as the list. *)
Definition file_in_redis (now : Z) (key : text) (ttl : Z) (index_keys : list text) : M connection CacheError unit :=
  foldM (fun _ index_key =>
    do! command (SADD now index_key key);
    do! command (EXPIRE now index_key (u64_as_i64 ttl));
    ret tt) index_keys tt.

Section typed.
Context {A : Type} `{Json A}.

(** A cached text as a value. *)
Definition parse_cached (cached : option text) : M service CacheError (option A) :=
  match cached with
  | Some payload => let! a := ok_or (from_str payload) Serialization in ret (Some a)
  | None => ret None
  end.

Definition get_plans (now : Z) (query : PlanQuery) : M service CacheError (option A) :=
  let! cached := get_raw now (cache_key query) in
  parse_cached cached.

Definition set_plans (now : Z) (query : PlanQuery) (plans : A) : M service CacheError unit :=
  let key := cache_key query in
  let! serialized := ok_or (to_string plans) Serialization in
  let index_keys := query_index_keys query in
  let! c := gets store in
  match c with
  | Disabled => ret tt
  | Redis r => on_redis r
    (do! get_connection;
     do! command (SETEX now key serialized (ttl_secs r));
     file_in_redis now key (ttl_secs r) (iteration_order index_keys))
  | Memory s =>
    put_memory (mkStore (<[key := serialized]> (values s)) (set_fold (file_under key) (sets s) index_keys))
  end.

Definition get_stats (now : Z) (key : text) : M service CacheError (option A) :=
  let! cached := get_raw now key in
  parse_cached cached.
Definition set_stats (now : Z) (key : text) (value : A) (ttl : Z) : M service CacheError unit :=
  let! serialized := ok_or (to_string value) Serialization in
  set_raw now key serialized ttl.
End typed.
End operations.

(** * The cache's history *)

(** The text a key would be answered with. *)
Definition stored (now : Z) (c : PlanCache) (key : text) : option text :=
  match c with
  | Disabled => None
  | Redis r => match held <$> read now (client r) key with Some (RString v) => Some v | _ => None end
  | Memory s => values s !! key
  end.
Definition stored_keys (c : PlanCache) : gset text :=
  match c with Redis r => dom (client r) | _ => ∅ end.

(** The lists left [exposed]: those a store of which was interrupted by an
    error of Redis, and those in the cache when an invalidation was. *)
Record history := mkHistory { cached : PlanCache; at_ : Z; exposed : gset text }.
Definition expose (e : CacheError) (ks X : gset text) : gset text :=
  match e with RedisError => ks ∪ X | Serialization => X end.

(** What the handlers do to a cache while time passes, whatever fails. *)
Inductive step `{CacheLibs} : history -> history -> Prop :=
  | SetPlans {A} `{Json A} q (a : A) c now X fs s :
      set_plans now q a (mkService c fs) = Ok tt s ->
      step (mkHistory c now X) (mkHistory (store s) now (X ∖ {[ cache_key q ]}))
  | SetPlansFails {A} `{Json A} q (a : A) c now X fs e s :
      set_plans now q a (mkService c fs) = Fail e s ->
      step (mkHistory c now X) (mkHistory (store s) now (expose e {[ cache_key q ]} X))
  | SetStats {A} `{Json A} q (a : A) ttl c now X fs :
      step (mkHistory c now X)
        (mkHistory (store (after (set_stats now (plan_statistics_cache_key q) a ttl) (mkService c fs))) now X)
  | Invalidate o bs c now X fs s :
      invalidate_queries now o bs (mkService c fs) = Ok tt s ->
      step (mkHistory c now X) (mkHistory (store s) now X)
  | InvalidateFails o bs c now X fs e s :
      invalidate_queries now o bs (mkService c fs) = Fail e s ->
      step (mkHistory c now X) (mkHistory (store s) now (expose e (stored_keys (store s)) X))
  | Wait c now now' X : now <= now' -> step (mkHistory c now X) (mkHistory c now' X).

(** A cache as [main] makes it, on a server that holds nothing of it. *)
Definition fresh (c : PlanCache) : Prop :=
  match c with Disabled => True | Redis r => client r = ∅ | Memory s => s = empty_store end.
Definition reachable `{CacheLibs} (h : history) : Prop :=
  exists c now, fresh c /\ rtc step (mkHistory c now ∅) h.

(** * Lemmas *)

Implicit Types (q : PlanQuery) (key k i : text) (P : keyspace -> Prop).

Lemma elem_of_members (ss : gmap text (gset text)) (keys : gset text) (k : text) :
  k ∈ members ss keys <-> exists i s, i ∈ keys /\ ss !! i = Some s /\ k ∈ s.
Proof.
  unfold members. apply (set_fold_ind_L (fun acc (X : gset text) =>
    k ∈ acc <-> exists i s, i ∈ X /\ ss !! i = Some s /\ k ∈ s)); [set_solver|].
  intros i X acc Hi IH. rewrite elem_of_union, IH. clear IH. split.
  - intros [Hd|(j & s & ? & ? & ?)]; [|exists j, s; set_solver].
    destruct (ss !! i) as [s|] eqn:Hs; cbn in Hd; [|set_solver]. exists i, s. set_solver.
  - intros (j & s & [->%elem_of_singleton|Hj]%elem_of_union & Hs & Hk); [left; by rewrite Hs|].
    right. eauto.
Qed.

Lemma filed_all (key : text) (ss : gmap text (gset text)) (keys : gset text) :
  forall i, i ∈ keys -> exists s, set_fold (file_under key) ss keys !! i = Some s /\ key ∈ s.
Proof.
  apply (set_fold_ind_L (fun acc (X : gset text) => forall i, i ∈ X -> exists s, acc !! i = Some s /\ key ∈ s));
    [set_solver|].
  intros j X acc Hj IH i [->%elem_of_singleton|Hi]%elem_of_union; unfold file_under.
  - rewrite lookup_insert_eq. eexists. split; [done|]. apply elem_of_union_l, elem_of_singleton. done.
  - destruct (decide (i = j)) as [->|Hn]; [done|]. rewrite lookup_insert_ne by done. by apply IH.
Qed.

(** Filing never takes a key out of a set. *)
Lemma filed_mono (key : text) (ss : gmap text (gset text)) (keys : gset text) (i : text) (s : gset text) (k : text) :
  ss !! i = Some s -> k ∈ s -> exists s', set_fold (file_under key) ss keys !! i = Some s' /\ k ∈ s'.
Proof.
  intros Hs Hk. apply (set_fold_ind_L (fun acc (X : gset text) => exists s', acc !! i = Some s' /\ k ∈ s'));
    [eauto|].
  intros j X acc Hj (s' & Hs' & Hk'). unfold file_under. destruct (decide (i = j)) as [->|Hn].
  - rewrite lookup_insert_eq, Hs'. eexists. split; [done|]. cbn. apply elem_of_union_r, Hk'.
  - rewrite lookup_insert_ne by done. eauto.
Qed.

Lemma drop_keys_Some {V : Type} (ks : gset text) (m : gmap text V) (k : text) (v : V) : drop_keys ks m !! k = Some v <-> m !! k = Some v /\ k ∉ ks.
Proof. unfold drop_keys. by rewrite map_lookup_filter_Some. Qed.

Lemma stats_key_differs sq q : plan_statistics_cache_key sq <> cache_key q.
Proof. destruct sq, q. by vm_compute. Qed.

Implicit Types (ttl now : Z) (ks : keyspace) (X : gset text).

(** ** Kinds of keys *)

Definition is_index_key (k : text) : bool := starts_with (CACHE_NAMESPACE ++ lit ":index:") k.

Lemma cache_key_no_index q : is_index_key (cache_key q) = false.
Proof. by vm_compute. Qed.
Lemma stats_key_no_index sq : is_index_key (plan_statistics_cache_key sq) = false.
Proof. by vm_compute. Qed.
Lemma query_keys_index q i : i ∈ query_index_keys q -> is_index_key i = true.
Proof.
  unfold query_index_keys. rewrite !elem_of_union. intros [[[->%elem_of_singleton|Hi]|Hi]|Hi]; [done|..].
  all: destruct (owner q), (beneficiary q); cbn in Hi; set_unfold; subst; done.
Qed.
Lemma invalidated_keys_index o bs i : i ∈ invalidated_index_keys o bs -> is_index_key i = true.
Proof.
  unfold invalidated_index_keys. rewrite !elem_of_union, !elem_of_singleton, elem_of_list_to_set.
  intros [[->| ->]|Hi]; [done..|]. induction bs as [|b bs IH]; cbn in Hi; [by apply elem_of_nil in Hi|].
  rewrite !elem_of_cons in Hi. destruct Hi as [->|[->|Hi]]; [done..|by apply IH].
Qed.
Lemma all_in_query_keys q : all_queries_index_key ∈ query_index_keys q.
Proof. unfold query_index_keys. set_solver. Qed.
Lemma all_in_invalidated_keys o bs : all_queries_index_key ∈ invalidated_index_keys o bs.
Proof. unfold invalidated_index_keys. set_solver. Qed.

(** ** Exchanges with Redis *)

Definition preserves (P : keyspace -> Prop) (c c' : connection) : Prop := P (keys c) -> P (keys c').
#[local] Instance preserves_preorder P : PreOrder (preserves P).
Proof. split; unfold preserves; [by intros c|eauto]. Qed.

Lemma next_exchange_keys {E} : keeps keys (@next_exchange E).
Proof. intros c. unfold next_exchange. by destruct (exchanges c). Qed.
Lemma get_connection_keys : keeps keys get_connection.
Proof. apply keeps_bind; [apply next_exchange_keys|]. intros b. apply keeps_reject_if. Qed.
Lemma carry_out_Ok {A} (f : keyspace -> option (A * keyspace)) a c c' :
  carry_out f c = Ok a c' <-> f (keys c) = Some (a, keys c') /\ exchanges c' = exchanges c.
Proof.
  unfold carry_out, bind, gets, ok_or, modify, ret, fail. destruct (f (keys c)) as [[b ks]|]; cbn.
  - destruct c'; cbn. naive_solver.
  - naive_solver.
Qed.
Lemma carry_out_moves {A} P (f : keyspace -> option (A * keyspace)) :
  (forall ks a ks', f ks = Some (a, ks') -> P ks -> P ks') -> moves (preserves P) (carry_out f).
Proof.
  intros Hf c. unfold carry_out, bind, gets, ok_or, modify, ret, fail.
  destruct (f (keys c)) as [[b ks]|] eqn:Hr; cbn; [exact (Hf _ _ _ Hr)|done].
Qed.
Lemma command_moves {A} P (f : keyspace -> option (A * keyspace)) :
  (forall ks a ks', f ks = Some (a, ks') -> P ks -> P ks') -> moves (preserves P) (command f).
Proof.
  intros Hf%carry_out_moves. unfold command. apply moves_bind; [exact _| |intros []].
  - eapply keeps_moves; [apply next_exchange_keys|]. unfold preserves. by intros c c' ->.
  - apply moves_bind; [exact _| |intros b].
    + eapply keeps_moves; [apply next_exchange_keys|]. unfold preserves. by intros c c' ->.
    + repeat first [exact Hf|moves_step].
  - exact Hf.
Qed.
Lemma command_Ok {A} (f : keyspace -> option (A * keyspace)) a c c' :
  command f c = Ok a c' -> f (keys c) = Some (a, keys c').
Proof.
  unfold command. intros (b & c1 & Hn & Hr)%bind_Ok.
  pose proof (keeps_Ok _ _ _ _ _ next_exchange_keys Hn) as Hk. destruct b.
  - apply bind_Ok in Hr as (? & ? & _ & Hr). by apply bind_Ok in Hr as (? & ? & _ & []%fail_Ok).
  - apply carry_out_Ok in Hr as [Hr _]. by rewrite <-Hk.
Qed.
Lemma command_run {A} (f : keyspace -> option (A * keyspace)) a ks ks' bs :
  f ks = Some (a, ks') -> command f (mkConnection ks (false :: bs)) = Ok a (mkConnection ks' bs).
Proof. intros Hf. unfold command, carry_out, next_exchange, bind, gets, ok_or. cbn. by rewrite Hf. Qed.
Lemma moves_Fail_keys {A} P (m : M connection CacheError A) c e c' :
  moves (preserves P) m -> m c = Fail e c' -> P (keys c) -> P (keys c').
Proof. intros Hm Hr. specialize (Hm c). rewrite Hr in Hm. apply Hm. Qed.
(** Redis branches fail only as Redis does. *)
Definition redis_errors {A} (m : M connection CacheError A) : Prop := forall c e c', m c = Fail e c' -> e = RedisError.
Lemma redis_errors_bind {A B} (m : M connection CacheError A) (k : A -> M connection CacheError B) :
  redis_errors m -> (forall a, redis_errors (k a)) -> redis_errors (bind m k).
Proof.
  intros Hm Hk c e c'. unfold bind. destruct (m c) as [a c1|e1 c1|] eqn:Hc; [by apply Hk| |done].
  intros [= <- <-]. by eapply Hm.
Qed.
Lemma redis_errors_command {A} (f : keyspace -> option (A * keyspace)) : redis_errors (command f).
Proof.
  intros c e c'. unfold command, next_exchange, bind.
  assert (forall c, carry_out f c = Fail e c' -> e = RedisError) as Hc.
  { intros c1. unfold carry_out, bind, gets, ok_or, modify, ret, fail. by destruct (f (keys c1)) as [[? ?]|]; intros [=]. }
  destruct (exchanges c) as [|[] bs]; [apply Hc| |apply Hc]. cbn.
  destruct bs as [|[] bs]; unfold when, bind, attempt, ret, fail; cbn; [by intros [= <- _]| |by intros [= <- _]].
  unfold ok_or, modify, ret, fail. destruct (f (keys c)) as [[? ?]|]; cbn; by intros [= <- _].
Qed.

(** ** What the keyspace looks like *)

(** Lists expire within the time to live, sets are index sets and hold the keys
    of lists. *)
Record well_kept (ttl now : Z) (ks : keyspace) : Prop := {
  wk_expiry : forall q e, ks !! cache_key q = Some e -> exists d, deadline e = Some d /\ d <= now + ttl * SECOND;
  wk_sets : forall i m d, ks !! i = Some (mkEntry (RSet m) d) ->
    is_index_key i = true /\ forall k, k ∈ m -> exists q, k = cache_key q;
  wk_strings : forall i v d, ks !! i = Some (mkEntry (RString v) d) -> is_index_key i = false
}.
(** An index set lives as long as a list. *)
Definition outlives (index list : option Z) : Prop :=
  match index, list with None, _ => True | Some d, Some d' => d' <= d | Some _, None => False end.
Definition covered (ks : keyspace) (key : text) (d : option Z) : Prop :=
  exists m d', ks !! all_queries_index_key = Some (mkEntry (RSet m) d') /\ key ∈ m /\ outlives d' d.
(** A list that can be served is exposed or in the index of all queries. *)
Definition indexed_or (X : gset text) (now : Z) (ks : keyspace) : Prop :=
  forall q e, ks !! cache_key q = Some e -> live now e = true -> cache_key q ∈ X \/ covered ks (cache_key q) (deadline e).
Definition kept (ttl now : Z) (X : gset text) (ks : keyspace) : Prop := well_kept ttl now ks /\ indexed_or X now ks.

Lemma read_Some now ks k e : read now ks k = Some e <-> ks !! k = Some e /\ live now e = true.
Proof.
  unfold read. destruct (ks !! k) as [e1|]; cbn; [|by split; [|intros []]]. destruct (live now e1) eqn:Hl; split.
  - intros [= <-]. done.
  - by intros [[= <-] _].
  - done.
  - intros [[= <-] ?]. congruence.
Qed.
Lemma outlives_live now d d' v v' : outlives d d' -> live now (mkEntry v' d') = true -> live now (mkEntry v d) = true.
Proof. unfold outlives, live. destruct d, d'; cbn; try done. intros ? ?%Z.ltb_lt. apply Z.ltb_lt. lia. Qed.
Lemma covered_read now ks k e : covered ks k (deadline e) -> live now e = true ->
  exists m d, read now ks all_queries_index_key = Some (mkEntry (RSet m) d) /\ k ∈ m.
Proof.
  intros (m & d & Hi & Hk & Ho) Hl. exists m, d. split; [|done]. apply read_Some. split; [done|].
  destruct e as [v d']. by eapply outlives_live.
Qed.

(** ** Commands keep it *)

Section kept.
Context `{CacheLibs} `{!CacheLibsLaws}.

Lemma setex_list ttl now X ks q v u ks' :
  SETEX now (cache_key q) v ttl ks = Some (u, ks') -> cache_key q ∈ X -> kept ttl now X ks ->
  0 < ttl <= I64_MAX /\ ks' !! cache_key q = Some (mkEntry (RString v) (Some (now + ttl * SECOND))) /\ kept ttl now X ks'.
Proof.
  rewrite SETEX_spec. unfold documented_SETEX. destruct (0 <? ttl) eqn:Ht; [|done]. destruct (expiry_fits now ttl) eqn:Hf; [|done].
  intros [= _ <-] HX [[He Hs Hv] Hx]. apply Z.ltb_lt in Ht. apply andb_true_iff in Hf as [Hf _]. apply Z.leb_le in Hf.
  split; [done|]. split; [by rewrite lookup_insert_eq|].
  assert (forall i, is_index_key i = true -> cache_key q <> i) as Hni by (intros i Hi Heq; subst; by rewrite cache_key_no_index in Hi).
  split; [split|].
  - intros q' e. destruct (decide (cache_key q' = cache_key q)) as [->|Hn].
    + rewrite lookup_insert_eq. intros [= <-]. eauto with lia.
    + rewrite lookup_insert_ne by done. apply He.
  - intros i m d. destruct (decide (i = cache_key q)) as [->|Hn]; [by rewrite lookup_insert_eq|].
    rewrite lookup_insert_ne by done. apply Hs.
  - intros i v' d. destruct (decide (i = cache_key q)) as [->|Hn]; [by rewrite cache_key_no_index|].
    rewrite lookup_insert_ne by done. apply Hv.
  - intros q' e. destruct (decide (cache_key q' = cache_key q)) as [->|Hn]; [by left|].
    rewrite lookup_insert_ne by done. intros Hl He'. destruct (Hx q' e Hl He') as [|(m & d & Hm & ?)]; [by left|right].
    exists m, d. by rewrite lookup_insert_ne by by apply Hni.
Qed.
Lemma setex_stats ttl now X ks sq v n u ks' :
  SETEX now (plan_statistics_cache_key sq) v n ks = Some (u, ks') -> kept ttl now X ks -> kept ttl now X ks'.
Proof.
  rewrite SETEX_spec. unfold documented_SETEX. destruct (_ && _); [|done]. intros [= _ <-] [[He Hs Hv] Hx].
  pose proof (stats_key_no_index sq) as Hni. split; [split|].
  - intros q e. rewrite lookup_insert_ne by apply stats_key_differs. apply He.
  - intros i m d. destruct (decide (i = plan_statistics_cache_key sq)) as [->|Hn]; [by rewrite lookup_insert_eq|].
    rewrite lookup_insert_ne by done. apply Hs.
  - intros i v' d. destruct (decide (i = plan_statistics_cache_key sq)) as [->|Hn]; [done|].
    rewrite lookup_insert_ne by done. apply Hv.
  - intros q e. rewrite lookup_insert_ne by apply stats_key_differs. intros Hl He'.
    destruct (Hx q e Hl He') as [|(m & d & Hm & ?)]; [by left|right].
    exists m, d. rewrite lookup_insert_ne; [done|]. intros Heq. by rewrite Heq in Hni.
Qed.
(** Replacing an index set by a larger one that lives as long. *)
Lemma index_grows ttl now X ks i m d :
  is_index_key i = true -> (forall k, k ∈ m -> exists q, k = cache_key q) ->
  (forall q e, ks !! cache_key q = Some e -> live now e = true -> forall m' d', ks !! i = Some (mkEntry (RSet m') d') ->
    cache_key q ∈ m' -> outlives d' (deadline e) -> cache_key q ∈ m /\ outlives d (deadline e)) ->
  kept ttl now X ks -> kept ttl now X (<[i := mkEntry (RSet m) d]> ks).
Proof.
  intros Hi Hm Hg [[He Hs Hv] Hx].
  assert (forall q, i <> cache_key q) as Hn by (intros q ->; by rewrite cache_key_no_index in Hi).
  split; [split|].
  - intros q e. rewrite lookup_insert_ne by done. apply He.
  - intros j m' d'. destruct (decide (j = i)) as [->|Hj].
    + rewrite lookup_insert_eq. by intros [= <- <-].
    + rewrite lookup_insert_ne by done. apply Hs.
  - intros j v d'. destruct (decide (j = i)) as [->|Hj]; [by rewrite lookup_insert_eq|].
    rewrite lookup_insert_ne by done. apply Hv.
  - intros q e. rewrite lookup_insert_ne by done. intros Hl Hle. destruct (Hx q e Hl Hle) as [|(m' & d' & Hm' & Hk & Ho)]; [by left|right].
    destruct (decide (i = all_queries_index_key)) as [->|Hj].
    + destruct (Hg q e Hl Hle m' d') as [? ?]; [done..|]. exists m, d. by rewrite lookup_insert_eq.
    + exists m', d'. by rewrite lookup_insert_ne.
Qed.
Lemma sadd_kept ttl now X ks i q u ks' :
  is_index_key i = true -> SADD now i (cache_key q) ks = Some (u, ks') -> kept ttl now X ks -> kept ttl now X ks'.
Proof.
  rewrite SADD_spec. unfold documented_SADD. intros Hi Hr Hk. destruct (read now ks i) as [[[v|m] d]|] eqn:Hread; [done|..]; injection Hr as _ <-.
  - apply read_Some in Hread as [Hm _]. apply index_grows; [done| | |done].
    + intros k [->%elem_of_singleton|Hin]%elem_of_union; [by exists q|]. destruct Hk as [[_ Hs _] _]. by eapply Hs.
    + intros q' e _ _ m' d'. rewrite Hm. intros [= <- <-] ? ?. split; [set_solver|done].
  - apply index_grows; [done| | |done]; [intros k ->%elem_of_singleton; by exists q|].
    intros q' e Hl Hle m' d' Hm' _ Ho. exfalso. assert (read now ks i = Some (mkEntry (RSet m') d')); [|congruence].
    apply read_Some. split; [done|]. destruct e. by eapply outlives_live.
Qed.
Lemma expire_kept ttl now X ks i b ks' :
  is_index_key i = true -> 0 < ttl -> EXPIRE now i ttl ks = Some (b, ks') -> kept ttl now X ks -> kept ttl now X ks'.
Proof.
  rewrite EXPIRE_spec. unfold documented_EXPIRE. intros Hi Ht Hr Hk. destruct (read now ks i) as [[v d]|] eqn:Hread; [|by injection Hr as _ <-].
  rewrite (proj2 (Z.leb_gt _ _) Ht) in Hr. destruct (expiry_fits now ttl); [|done]. injection Hr as _ <-.
  apply read_Some in Hread as [Hm _]. pose proof Hk as [[He Hs Hv] _]. destruct v as [v|m].
  - by rewrite (Hv _ _ _ Hm) in Hi.
  - apply index_grows; [done|by eapply Hs| |done]. intros q e Hl _ m' d'. rewrite Hm. intros [= <- <-] ? _. split; [done|].
    destruct (He q e Hl) as (d' & -> & ?). cbn. lia.
Qed.
Lemma del_well_kept ttl now ks k u ks' : DEL k ks = Some (u, ks') -> well_kept ttl now ks -> well_kept ttl now ks'.
Proof.
  rewrite DEL_spec. intros [= _ <-] [He Hs Hv]. split.
  - intros q e [_ Hl]%lookup_delete_Some. by eapply He.
  - intros i m d [_ Hl]%lookup_delete_Some. by eapply Hs.
  - intros i v d [_ Hl]%lookup_delete_Some. by eapply Hv.
Qed.

(** ** Operations keep it *)

Lemma on_redis_out {A} r (m : M connection CacheError A) s :
  match on_redis r m s with
  | Ok a s' => exists c', m (mkConnection (client r) (coming s)) = Ok a c' /\
      s' = mkService (Redis (mkRedis (keys c') (ttl_secs r))) (exchanges c')
  | Fail e s' => exists c', m (mkConnection (client r) (coming s)) = Fail e c' /\
      s' = mkService (Redis (mkRedis (keys c') (ttl_secs r))) (exchanges c')
  | Trap => True
  end.
Proof. unfold on_redis. destruct (m _); eauto. Qed.

Lemma kept_expose ttl now (X Y : gset text) ks : X ⊆ Y -> kept ttl now X ks -> kept ttl now Y ks.
Proof. intros HXY [Hw Hx]. split; [done|]. intros q e Hl Hle. destruct (Hx q e Hl Hle); [left; set_solver|by right]. Qed.
Lemma kept_later ttl now now' X ks : 0 <= now' - now -> kept ttl now X ks -> kept ttl now' X ks.
Proof.
  intros Hn [[He Hs Hv] Hx]. split; [split; [|done..]|].
  - intros q e Hl. destruct (He q e Hl) as (d & ? & ?). exists d. split; [done|lia].
  - intros q e Hl Hle. apply (Hx q e Hl). unfold live in *. destruct (deadline e) as [d|]; [|done].
    apply Z.ltb_lt in Hle. apply Z.ltb_lt. lia.
Qed.

Lemma u64_as_i64_small n : n <= I64_MAX -> u64_as_i64 n = n.
Proof. intros Hn. unfold u64_as_i64. by rewrite (proj2 (Z.leb_le _ _) Hn). Qed.

(** One index set of a store. *)
Lemma filed_one ttl now ks i q u b ks1 ks2 :
  0 < ttl -> SADD now i (cache_key q) ks = Some (u, ks1) -> EXPIRE now i ttl ks1 = Some (b, ks2) ->
  (exists m, ks2 !! i = Some (mkEntry (RSet m) (Some (now + ttl * SECOND))) /\ cache_key q ∈ m) /\
  forall j, j <> i -> ks2 !! j = ks !! j.
Proof.
  intros Ht Hs He. assert (exists m d, ks1 = <[i := mkEntry (RSet m) d]> ks /\ cache_key q ∈ m /\ live now (mkEntry (RSet m) d) = true)
    as (m & d & -> & Hm & Hl).
  { rewrite SADD_spec in Hs. unfold documented_SADD in Hs. destruct (read now ks i) as [[[v|m] d]|] eqn:Hr; [done|..]; injection Hs as _ <-.
    - apply read_Some in Hr as [_ Hr]. exists ({[cache_key q]} ∪ m), d. split_and!; [done|set_solver|done].
    - exists {[cache_key q]}, None. split_and!; [done|set_solver|done]. }
  rewrite EXPIRE_spec in He. unfold documented_EXPIRE in He. rewrite (proj2 (read_Some now _ i (mkEntry (RSet m) d))) in He by (by rewrite lookup_insert_eq).
  rewrite (proj2 (Z.leb_gt _ _) Ht) in He. destruct (expiry_fits now ttl); [|done]. injection He as _ <-. cbn. split.
  - exists m. by rewrite lookup_insert_eq.
  - intros j Hj. by rewrite !lookup_insert_ne.
Qed.
Lemma file_moves ttl now X q l :
  0 < ttl <= I64_MAX -> Forall (fun i => is_index_key i = true) l ->
  moves (preserves (kept ttl now X)) (file_in_redis now (cache_key q) ttl l).
Proof.
  intros Ht. unfold file_in_redis. induction 1 as [|i l Hi _ IH]; cbn; [apply moves_ret; exact _|].
  apply moves_bind; [exact _| |intros []; exact IH]. apply moves_bind; [exact _| |intros u].
  - apply command_moves. intros ks u ks'. by apply sadd_kept.
  - apply moves_bind; [exact _| |intros b; apply moves_ret; exact _]. apply command_moves. intros ks b ks'.
    rewrite u64_as_i64_small by lia. apply expire_kept; [done|lia].
Qed.
Lemma file_Ok ttl now q l u c c' i :
  0 < ttl <= I64_MAX -> file_in_redis now (cache_key q) ttl l c = Ok u c' ->
  (i ∈ l \/ exists m, keys c !! i = Some (mkEntry (RSet m) (Some (now + ttl * SECOND))) /\ cache_key q ∈ m) ->
  exists m, keys c' !! i = Some (mkEntry (RSet m) (Some (now + ttl * SECOND))) /\ cache_key q ∈ m.
Proof.
  intros Ht. unfold file_in_redis. revert u c. induction l as [|j l IH]; intros u c Hr Hi; cbn in Hr.
  - apply ret_Ok in Hr as [_ ->]. destruct Hi as [Hi|Hi]; [by apply elem_of_nil in Hi|done].
  - apply bind_Ok in Hr as ([] & c1 & Hj & Hr). apply bind_Ok in Hj as ([] & c2 & Hs%command_Ok & Hj).
    apply bind_Ok in Hj as (b & c3 & He%command_Ok & [_ ->]%ret_Ok). rewrite u64_as_i64_small in He by lia.
    destruct (filed_one _ _ _ _ _ _ _ _ _ (proj1 Ht) Hs He) as [Hj Ho]. apply (IH _ _ Hr).
    destruct (decide (i = j)) as [->|Hn]; [by right|]. destruct Hi as [[->|Hi]%elem_of_cons|Hi]; [done|by left|right].
    by rewrite Ho.
Qed.

Definition store_list now q serialized ttl : M connection CacheError unit :=
  do! get_connection;
  do! command (SETEX now (cache_key q) serialized ttl);
  file_in_redis now (cache_key q) ttl (iteration_order (query_index_keys q)).

Lemma query_order_index q : Forall (fun i => is_index_key i = true) (iteration_order (query_index_keys q)).
Proof. apply Forall_forall. intros i. rewrite iterates_all, elem_of_elements. apply query_keys_index. Qed.

Lemma redis_errors_file now key ttl l : redis_errors (file_in_redis now key ttl l).
Proof.
  unfold file_in_redis. induction l as [|i l IH]; cbn; [by intros c e c'|].
  apply redis_errors_bind; [|intros u; destruct u; exact IH].
  apply redis_errors_bind; [|intros _; apply redis_errors_bind; [|by intros _ c e c']].
  - apply redis_errors_command.
  - apply redis_errors_command.
Qed.
Lemma redis_errors_connection : redis_errors get_connection.
Proof.
  intros c e c'. unfold get_connection, next_exchange, bind, reject_if, fail, ret. destruct (exchanges c) as [|[] ?]; cbn; congruence.
Qed.
Lemma redis_errors_store now q v ttl : redis_errors (store_list now q v ttl).
Proof.
  unfold store_list. apply redis_errors_bind; [apply redis_errors_connection|]. intros _.
  apply redis_errors_bind; [|intros _; apply redis_errors_file].
  apply redis_errors_command.
Qed.

(** Whatever happens to a store, the list is at worst exposed; done, it is
    in the index of all queries. *)
Lemma store_list_lands now q v ttl X c :
  cache_key q ∈ X -> lands (preserves (kept ttl now X)) c (store_list now q v ttl c).
Proof.
  intros HX. unfold store_list. apply lands_then; [exact _| |intros [] c1 _].
  - eapply keeps_moves; [apply get_connection_keys|]. unfold preserves. by intros c1 c2 ->.
  - apply lands_then; [exact _| |intros [] c2 Hs%command_Ok].
    + apply command_moves. intros ks u ks' Hs Hk. by destruct (setex_list _ _ _ _ _ _ _ _ Hs HX Hk) as (_ & _ & ?).
    + apply lands_moves. rewrite SETEX_spec in Hs. unfold documented_SETEX in Hs. destruct (0 <? ttl) eqn:Ht; [|done].
      destruct (expiry_fits now ttl) eqn:Hf; [|done]. apply andb_true_iff in Hf as [Hf _].
      apply file_moves; [|apply query_order_index]. apply Z.ltb_lt in Ht. by apply Z.leb_le in Hf.
Qed.
Lemma store_list_covers now q v ttl u c c' :
  store_list now q v ttl c = Ok u c' ->
  exists m, keys c' !! all_queries_index_key = Some (mkEntry (RSet m) (Some (now + ttl * SECOND))) /\ cache_key q ∈ m.
Proof.
  unfold store_list. intros ([] & c1 & _ & Hr)%bind_Ok. apply bind_Ok in Hr as ([] & c2 & Hs%command_Ok & Hr).
  rewrite SETEX_spec in Hs. unfold documented_SETEX in Hs. destruct (0 <? ttl) eqn:Ht; [|done].
  destruct (expiry_fits now ttl) eqn:Hf; [|done]. apply andb_true_iff in Hf as [Hf _].
  apply Z.ltb_lt in Ht. apply Z.leb_le in Hf. eapply file_Ok; [split; eassumption|exact Hr|left].
  rewrite iterates_all, elem_of_elements. apply all_in_query_keys.
Qed.
Lemma kept_covered ttl now X ks q m :
  ks !! all_queries_index_key = Some (mkEntry (RSet m) (Some (now + ttl * SECOND))) -> cache_key q ∈ m ->
  kept ttl now ({[ cache_key q ]} ∪ X) ks -> kept ttl now (X ∖ {[ cache_key q ]}) ks.
Proof.
  intros Hm Hq [Hw Hx]. split; [done|]. intros q' e Hl Hle.
  destruct (decide (cache_key q' = cache_key q)) as [->|Hn].
  - right. destruct (wk_expiry _ _ _ Hw _ _ Hl) as (d & -> & ?). exists m, (Some (now + ttl * SECOND)). by split_and!.
  - destruct (Hx q' e Hl Hle) as [Hin|?]; [left; set_solver|by right].
Qed.
Lemma redis_set_plans {A} `{Json A} now q (a : A) r fs :
  match set_plans now q a (mkService (Redis r) fs) with
  | Ok _ s => exists ks, store s = Redis (mkRedis ks (ttl_secs r)) /\
      forall X, kept (ttl_secs r) now X (client r) -> kept (ttl_secs r) now (X ∖ {[ cache_key q ]}) ks
  | Fail e s => exists ks, store s = Redis (mkRedis ks (ttl_secs r)) /\
      forall X, kept (ttl_secs r) now X (client r) -> kept (ttl_secs r) now (expose e {[ cache_key q ]} X) ks
  | Trap => True
  end.
Proof.
  unfold set_plans. destruct (to_string a) as [v|]; [|exists (client r); by destruct r].
  cbn [ok_or]. rewrite (bind_step _ _ _ v (mkService (Redis r) fs)) by done.
  rewrite (bind_step _ _ _ (Redis r) (mkService (Redis r) fs)) by done. fold (store_list now q v (ttl_secs r)).
  pose proof (on_redis_out r (store_list now q v (ttl_secs r)) (mkService (Redis r) fs)) as Ho.
  assert (forall X, kept (ttl_secs r) now X (client r) -> kept (ttl_secs r) now ({[ cache_key q ]} ∪ X) (client r)) as Hup
    by (intros X; apply kept_expose; set_solver).
  destruct (on_redis _ _ _) as [u s|e s|]; [| |done]; destruct Ho as (c' & Hr & ->); exists (keys c'); split; [done| |done|].
  - intros X Hk%Hup. destruct (store_list_covers _ _ _ _ _ _ _ Hr) as (m & Hm & Hin). eapply kept_covered; [done..|].
    pose proof (store_list_lands now q v (ttl_secs r) ({[ cache_key q ]} ∪ X) _ ltac:(set_solver)
      : lands _ (mkConnection (client r) fs) _) as Hl. cbn in Hr. rewrite Hr in Hl. by apply Hl.
  - intros X Hk%Hup. rewrite (redis_errors_store _ _ _ _ _ _ _ Hr). cbn.
    pose proof (store_list_lands now q v (ttl_secs r) ({[ cache_key q ]} ∪ X) _ ltac:(set_solver)
      : lands _ (mkConnection (client r) fs) _) as Hl. cbn in Hr. rewrite Hr in Hl. by apply Hl.
Qed.

(** *** Invalidation *)

Lemma index_members_moves P now l : moves (preserves P) (index_members now l).
Proof.
  unfold index_members. apply moves_foldM; [exact _|]. intros acc i. apply moves_bind; [exact _| |intros m; apply moves_ret; exact _].
  apply command_moves. intros ks m ks'. rewrite SMEMBERS_spec. unfold documented_SMEMBERS. repeat case_match; by intros [= <- <-].
Qed.
Lemma index_members_Ok now l ms c c' :
  index_members now l c = Ok ms c' ->
  keys c' = keys c /\
  (forall i m d, i ∈ l -> read now (keys c) i = Some (mkEntry (RSet m) d) -> m ⊆ ms) /\
  (forall k, k ∈ ms -> exists i m d, keys c !! i = Some (mkEntry (RSet m) d) /\ k ∈ m).
Proof.
  unfold index_members. assert (forall acc c, foldM (fun keys_to_delete index_key =>
    let! members := command (SMEMBERS now index_key) in ret (members ∪ keys_to_delete)) l acc c = Ok ms c' ->
    keys c' = keys c /\ acc ⊆ ms /\
    (forall i m d, i ∈ l -> read now (keys c) i = Some (mkEntry (RSet m) d) -> m ⊆ ms) /\
    (forall k, k ∈ ms -> k ∈ acc \/ exists i m d, keys c !! i = Some (mkEntry (RSet m) d) /\ k ∈ m)) as Hg.
  { clear c. induction l as [|j l IH]; intros acc c Hr; cbn in Hr.
    - apply ret_Ok in Hr as [-> ->]. split_and!; [done..| |by left]. intros i m d Hi. by apply elem_of_nil in Hi.
    - apply bind_Ok in Hr as (acc' & c1 & Hj & Hr). apply bind_Ok in Hj as (m & c2 & Hs%command_Ok & [-> ->]%ret_Ok).
      apply IH in Hr as (Hk & Hsub & Hall & Honly). rewrite SMEMBERS_spec in Hs. unfold documented_SMEMBERS in Hs.
      destruct (read now (keys c) j) as [[[v|mj] dj]|] eqn:Hj; cbn in Hs; [done|..]; injection Hs as <- Hks; rewrite Hk, <-Hks in *.
      + split_and!; [done|set_solver| |].
        * intros i m d [->|Hi]%elem_of_cons; [rewrite Hj; intros [= <- <-]; set_solver|by apply Hall].
        * intros k [[Hin|Hin]%elem_of_union|Hin]%Honly; [right|by left|by right]. apply read_Some in Hj as [Hj _]. eauto.
      + split_and!; [done|set_solver| |].
        * intros i m d [->|Hi]%elem_of_cons; [by rewrite Hj|by apply Hall].
        * intros k [Hin|Hin]%Honly; [left; set_solver|by right]. }
  intros (? & _ & ? & Ho)%Hg. split_and!; [done..|]. intros k [Hk|Hk]%Ho; [by apply elem_of_empty in Hk|done].
Qed.
Lemma delete_keys_moves ttl now l : moves (preserves (well_kept ttl now)) (delete_keys l).
Proof.
  unfold delete_keys. apply moves_foldM; [exact _|]. intros _ k. apply command_moves. intros ks u ks'. apply del_well_kept.
Qed.
Lemma delete_keys_Ok l u c c' k :
  delete_keys l c = Ok u c' -> keys c' !! k = if bool_decide (k ∈ l) then None else keys c !! k.
Proof.
  unfold delete_keys. revert u c. induction l as [|j l IH]; intros u c Hr; cbn in Hr.
  - by apply ret_Ok in Hr as [_ ->].
  - apply bind_Ok in Hr as ([] & c1 & Hj%command_Ok & Hr). rewrite DEL_spec in Hj. injection Hj as Hj. rewrite (IH _ _ Hr), <-Hj.
    destruct (decide (k = j)) as [->|Hn].
    + rewrite lookup_delete_eq, (bool_decide_eq_true_2 (j ∈ j :: l)) by by left. by case_bool_decide.
    + rewrite lookup_delete_ne by done. repeat case_bool_decide; set_solver.
Qed.

Definition drop_lists now (index_keys : gset text) : M connection CacheError unit :=
  do! get_connection;
  let! keys_to_delete := index_members now (iteration_order index_keys) in
  delete_keys (iteration_order (keys_to_delete ∪ index_keys)).

Lemma redis_errors_drop now index_keys : redis_errors (drop_lists now index_keys).
Proof.
  unfold drop_lists. apply redis_errors_bind; [apply redis_errors_connection|]. intros _. apply redis_errors_bind.
  - unfold index_members. generalize (∅ : gset text). induction (iteration_order index_keys) as [|i l IH]; intros acc; cbn; [by intros c e c'|].
    apply redis_errors_bind; [|done]. apply redis_errors_bind; [|by intros m c e c'].
    apply redis_errors_command.
  - intros ms. unfold delete_keys. induction (iteration_order _) as [|i l IH]; cbn; [by intros c e c'|].
    apply redis_errors_bind; [apply redis_errors_command|by intros []].
Qed.
Lemma drop_lists_well_kept ttl now index_keys : moves (preserves (well_kept ttl now)) (drop_lists now index_keys).
Proof.
  unfold drop_lists. apply moves_bind; [exact _| |intros _].
  - eapply keeps_moves; [apply get_connection_keys|]. unfold preserves. by intros c1 c2 ->.
  - apply moves_bind; [exact _|apply index_members_moves|intros ms; apply delete_keys_moves].
Qed.
Lemma drop_lists_Ok ttl now o bs u c c' X :
  drop_lists now (invalidated_index_keys o bs) c = Ok u c' -> kept ttl now X (keys c) ->
  kept ttl now X (keys c') /\
  (forall q, cache_key q ∉ X -> read now (keys c') (cache_key q) = None) /\
  (forall sq, keys c' !! plan_statistics_cache_key sq = keys c !! plan_statistics_cache_key sq).
Proof.
  intros Hr Hk. pose proof (moves_Ok _ _ _ _ _ (drop_lists_well_kept ttl now _) Hr (proj1 Hk)) as Hw.
  unfold drop_lists in Hr. apply bind_Ok in Hr as ([] & c1 & Hc & Hr).
  pose proof (keeps_Ok _ _ _ _ _ get_connection_keys Hc) as Hkc. apply bind_Ok in Hr as (ms & c2 & Hm & Hr).
  apply index_members_Ok in Hm as (Hk2 & Hall & Honly). rewrite Hkc in *.
  assert (forall k, k ∈ iteration_order (ms ∪ invalidated_index_keys o bs) <-> k ∈ ms \/ k ∈ invalidated_index_keys o bs) as Hin
    by (intros k; rewrite iterates_all, elem_of_elements; set_solver).
  assert (forall q e, keys c' !! cache_key q = Some e -> live now e = true -> cache_key q ∈ X) as Hgone.
  { intros q e Hl Hle. rewrite (delete_keys_Ok _ _ _ _ (cache_key q) Hr), Hk2 in Hl. case_bool_decide as Hd; [done|].
    destruct (proj2 Hk q e Hl Hle) as [|Hcov]; [done|]. destruct (covered_read _ _ _ _ Hcov Hle) as (m & d & Hread & Hq).
    destruct Hd. apply Hin. left. eapply Hall; [|exact Hread|exact Hq].
    rewrite iterates_all, elem_of_elements. apply all_in_invalidated_keys. }
  split_and!.
  - split; [done|]. intros q e Hl Hle. left. by eapply Hgone.
  - intros q Hq. destruct (read now (keys c') (cache_key q)) as [e|] eqn:Hread; [|done].
    apply read_Some in Hread as [Hl Hle]. by destruct Hq; eapply Hgone.
  - intros sq. rewrite (delete_keys_Ok _ _ _ _ _ Hr), Hk2. case_bool_decide as Hd; [|done]. exfalso.
    apply Hin in Hd as [(i & m & d & Hi & Hs)%Honly|Hd%invalidated_keys_index]; [|by rewrite stats_key_no_index in Hd].
    destruct (wk_sets _ _ _ (proj1 Hk) _ _ _ Hi) as [_ Hq]. destruct (Hq _ Hs) as [q Heq]. by apply stats_key_differs in Heq.
Qed.

Lemma invalidate_redis now o bs r fs :
  invalidate_queries now o bs (mkService (Redis r) fs) =
  on_redis r (drop_lists now (invalidated_index_keys o bs)) (mkService (Redis r) fs).
Proof. done. Qed.
Lemma set_raw_redis now key v ttl r fs :
  set_raw now key v ttl (mkService (Redis r) fs) =
  on_redis r (do! get_connection; command (SETEX now key v (Z.max ttl 1))) (mkService (Redis r) fs).
Proof. done. Qed.

(** *** Without errors of Redis *)

Definition calm (bs : list bool) : Prop := Forall (fun b => b = false) bs.

Lemma command_calm {A} (f : keyspace -> option (A * keyspace)) a ks c :
  calm (exchanges c) -> f (keys c) = Some (a, ks) -> exists bs, calm bs /\ command f c = Ok a (mkConnection ks bs).
Proof.
  intros Hc Hf. destruct c as [ks0 [|b bs]]; cbn in *.
  - exists []. split; [done|]. unfold command, carry_out, next_exchange, bind, gets, ok_or. cbn. by rewrite Hf.
  - inversion Hc; subst. exists bs. split; [done|]. by apply command_run.
Qed.
Lemma index_members_calm ttl now l acc ks bs :
  calm bs -> well_kept ttl now ks -> Forall (fun i => is_index_key i = true) l ->
  exists ms bs', calm bs' /\ foldM (fun keys_to_delete index_key =>
    let! members := command (SMEMBERS now index_key) in ret (members ∪ keys_to_delete)) l acc (mkConnection ks bs) =
  Ok ms (mkConnection ks bs').
Proof.
  intros Hc Hw Hl. revert acc bs Hc. induction Hl as [|i l Hi _ IH]; intros acc bs Hc; [by exists acc, bs|]. cbn.
  assert (exists m, SMEMBERS now i ks = Some (m, ks)) as [m Hm].
  { rewrite SMEMBERS_spec. unfold documented_SMEMBERS. destruct (read now ks i) as [[[v|m] d]|] eqn:Hr; cbn; [|by eexists..].
    apply read_Some in Hr as [Hr _]. by rewrite (wk_strings _ _ _ Hw _ _ _ Hr) in Hi. }
  destruct (command_calm (SMEMBERS now i) m ks (mkConnection ks bs) Hc Hm) as (bs1 & Hc1 & Hcmd).
  destruct (IH (m ∪ acc) bs1 Hc1) as (ms & bs2 & Hc2 & Hrun). exists ms, bs2. split; [done|].
  unfold bind at 1 2. by rewrite Hcmd.
Qed.
Lemma delete_keys_calm l c : calm (exchanges c) -> exists c', delete_keys l c = Ok tt c'.
Proof.
  unfold delete_keys. revert c. induction l as [|k l IH]; intros c Hc; [by eexists|]. cbn.
  destruct (command_calm (DEL k) tt (delete k (keys c)) c Hc (DEL_spec _ _)) as (bs & Hc1 & Hcmd).
  unfold bind. rewrite Hcmd. by apply IH.
Qed.
Lemma drop_lists_calm ttl now o bs ks fs :
  calm fs -> well_kept ttl now ks -> exists c', drop_lists now (invalidated_index_keys o bs) (mkConnection ks fs) = Ok tt c'.
Proof.
  intros Hc Hw. assert (exists fs', calm fs' /\ get_connection (mkConnection ks fs) = Ok tt (mkConnection ks fs')) as (fs' & Hc' & Hg).
  { destruct fs as [|b fs]; [by exists []|]. inversion Hc; subst. by exists fs. }
  destruct (index_members_calm ttl now (iteration_order (invalidated_index_keys o bs)) ∅ ks fs') as (ms & fs2 & Hc2 & Hm); [done..| |].
  { apply Forall_forall. intros i. rewrite iterates_all, elem_of_elements. apply invalidated_keys_index. }
  unfold drop_lists. rewrite (bind_step _ _ _ _ _ Hg). fold (index_members now (iteration_order (invalidated_index_keys o bs))) in Hm.
  rewrite (bind_step _ _ _ _ _ Hm). by apply delete_keys_calm.
Qed.

(** ** The store in memory *)

(** Every cached plan list is filed under the index of all queries, and only
    plan lists are filed. *)
Definition indexed (s : MemoryPlanCache) : Prop :=
  (forall q, is_Some (values s !! cache_key q) ->
    exists ks : gset text, sets s !! all_queries_index_key = Some ks /\ cache_key q ∈ ks) /\
  (forall i (ks : gset text) k, sets s !! i = Some ks -> k ∈ ks -> exists q, k = cache_key q).

Lemma filed_only q (ss : gmap text (gset text)) (keys : gset text) :
  (forall i (ks : gset text) k, ss !! i = Some ks -> k ∈ ks -> exists q, k = cache_key q) ->
  forall i (ks : gset text) k, set_fold (file_under (cache_key q)) ss keys !! i = Some ks -> k ∈ ks -> exists q, k = cache_key q.
Proof.
  intros Hss. apply (set_fold_ind_L (fun acc (X : gset text) =>
    forall i (ks : gset text) k, acc !! i = Some ks -> k ∈ ks -> exists q, k = cache_key q)); [done|].
  intros j X acc Hj IH i ks k. unfold file_under. destruct (decide (i = j)) as [->|Hn].
  - rewrite lookup_insert_eq. intros [= <-] [->%elem_of_singleton|Hk]%elem_of_union; [by exists q|].
    destruct (acc !! j) as [ks|] eqn:Hks; cbn in Hk; [by eapply IH|]. by apply elem_of_empty in Hk.
  - rewrite lookup_insert_ne by done. apply IH.
Qed.
Lemma indexed_store q v (s : MemoryPlanCache) :
  indexed s -> indexed (mkStore (<[cache_key q := v]> (values s))
    (set_fold (file_under (cache_key q)) (sets s) (query_index_keys q))).
Proof.
  intros [Hi Ho]. split; [|by apply filed_only]. intros q'. cbn. destruct (decide (cache_key q' = cache_key q)) as [->|Hn].
  - intros _. apply filed_all, all_in_query_keys.
  - rewrite lookup_insert_ne by done. intros (ks & Hks & Hin)%Hi. by eapply filed_mono.
Qed.
Lemma indexed_stats sq v (s : MemoryPlanCache) :
  indexed s -> indexed (s <| values := <[plan_statistics_cache_key sq := v]> (values s) |>).
Proof.
  intros [Hi Ho]. split; [|done]. intros q'. cbn. rewrite lookup_insert_ne by apply stats_key_differs. apply Hi.
Qed.
(** Invalidation names the index of all queries, hence drops every plan list,
    and no statistics. *)
Definition dropped o bs (s : MemoryPlanCache) : MemoryPlanCache :=
  mkStore (drop_keys (members (sets s) (invalidated_index_keys o bs)) (values s))
    (drop_keys (invalidated_index_keys o bs) (sets s)).
Lemma invalidate_memory now o bs m fs :
  invalidate_queries now o bs (mkService (Memory m) fs) = Ok tt (mkService (Memory (dropped o bs m)) fs).
Proof. reflexivity. Qed.
Lemma dropped_no_list o bs s q : indexed s -> values (dropped o bs s) !! cache_key q = None.
Proof.
  intros [Hi _]. cbn. destruct (drop_keys _ (values s) !! cache_key q) as [v|] eqn:Hd; [|done].
  apply drop_keys_Some in Hd as [Hv Hn]. destruct (Hi q ltac:(by rewrite Hv)) as (ks & Hks & Hin).
  destruct Hn. apply elem_of_members. exists all_queries_index_key, ks. split; [apply all_in_invalidated_keys|done].
Qed.
Lemma dropped_indexed o bs s : indexed s -> indexed (dropped o bs s).
Proof.
  intros Hi. split.
  - intros q [v Hv]. by rewrite dropped_no_list in Hv.
  - cbn. intros i ks k [Hs _]%drop_keys_Some. by eapply (proj2 Hi).
Qed.
Lemma dropped_stats o bs s sq : indexed s ->
  values (dropped o bs s) !! plan_statistics_cache_key sq = values s !! plan_statistics_cache_key sq.
Proof.
  intros [_ Ho]. cbn. destruct (values s !! plan_statistics_cache_key sq) as [v|] eqn:Hv.
  - apply drop_keys_Some. split; [done|]. intros (i & ks & _ & Hs & Hk)%elem_of_members.
    destruct (Ho _ _ _ Hs Hk) as [q' Hq]. by apply stats_key_differs in Hq.
  - destruct (drop_keys _ (values s) !! _) as [v|] eqn:Hd; [|done]. apply drop_keys_Some in Hd as [? _]. congruence.
Qed.

(** ** The invariant *)

Definition consistent (h : history) : Prop :=
  match cached h with
  | Disabled => exposed h = ∅
  | Redis r => kept (ttl_secs r) (at_ h) (exposed h) (client r)
  | Memory s => exposed h = ∅ /\ indexed s
  end.

Lemma fresh_consistent c now : fresh c -> consistent (mkHistory c now ∅).
Proof.
  destruct c as [|[ks ttl]|s]; cbn; [done| |].
  - intros ->. split; [split|]; intros; by simplify_map_eq.
  - intros ->. split; [done|]. split; [intros q [v Hv]|intros i ks k Hk]; cbn in *; by simplify_map_eq.
Qed.
Lemma expose_all ttl now ks : well_kept ttl now ks -> forall X, kept ttl now (dom ks ∪ X) ks.
Proof.
  intros Hw X. split; [done|]. intros q e Hl _. left. apply elem_of_union_l, elem_of_dom. by rewrite Hl.
Qed.

Lemma set_plans_consistent {A} `{Json A} now q (a : A) c fs X :
  consistent (mkHistory c now X) ->
  match set_plans now q a (mkService c fs) with
  | Ok _ s => consistent (mkHistory (store s) now (X ∖ {[ cache_key q ]}))
  | Fail e s => consistent (mkHistory (store s) now (expose e {[ cache_key q ]} X))
  | Trap => True
  end.
Proof.
  intros Hc. destruct c as [|r|m].
  - unfold set_plans. destruct (to_string a); cbn in *; subst; [set_solver|done].
  - pose proof (redis_set_plans now q a r fs) as Hr.
    destruct (set_plans _ _ _ _) as [u s|e s|]; [| |done]; destruct Hr as (ks & -> & Hr); by apply Hr.
  - unfold set_plans. destruct Hc as [HX Hi]. cbn in HX. subst X. destruct (to_string a) as [v|]; cbn; [|done].
    split; [set_solver|]. by apply indexed_store.
Qed.
Lemma set_stats_consistent {A} `{Json A} now sq (a : A) ttl c fs X :
  consistent (mkHistory c now X) ->
  consistent (mkHistory (store (after (set_stats now (plan_statistics_cache_key sq) a ttl) (mkService c fs))) now X).
Proof.
  intros Hc. unfold after, set_stats. destruct (to_string a) as [v|]; [|done]. cbn [ok_or].
  rewrite (bind_step _ _ _ v (mkService c fs)) by done. destruct c as [|r|m]; [done| |].
  - rewrite set_raw_redis. pose proof (on_redis_out r (do! get_connection; command (SETEX now (plan_statistics_cache_key sq) v (Z.max ttl 1))) (mkService (Redis r) fs)) as Ho.
    assert (moves (preserves (kept (ttl_secs r) now X)) (do! get_connection; command (SETEX now (plan_statistics_cache_key sq) v (Z.max ttl 1)))) as Hm.
    { apply moves_bind; [exact _| |intros []; apply command_moves; intros ks u ks'; by apply setex_stats].
      eapply keeps_moves; [apply get_connection_keys|]. unfold preserves. by intros c1 c2 ->. }
    specialize (Hm (mkConnection (client r) fs)).
    destruct (on_redis _ _ _) as [u s|e s|]; [| |done]; destruct Ho as (c' & Hr & ->); cbn in Hr; rewrite Hr in Hm; by apply Hm.
  - destruct Hc as [HX Hi]. split; [done|]. by apply indexed_stats.
Qed.
(** After an invalidation that is done only exposed lists are left, and the
    statistics are as before. *)
Lemma invalidate_consistent now o bs c fs X :
  consistent (mkHistory c now X) ->
  match invalidate_queries now o bs (mkService c fs) with
  | Ok _ s => consistent (mkHistory (store s) now X) /\
      (forall q now', now <= now' -> cache_key q ∉ X -> stored now' (store s) (cache_key q) = None) /\
      (forall sq now', stored now' (store s) (plan_statistics_cache_key sq) = stored now' c (plan_statistics_cache_key sq))
  | Fail e s => consistent (mkHistory (store s) now (expose e (stored_keys (store s)) X)) /\ exists r, c = Redis r
  | Trap => True
  end.
Proof.
  intros Hc. destruct c as [|r|m]; [done| |].
  - rewrite invalidate_redis. pose proof (on_redis_out r (drop_lists now (invalidated_index_keys o bs)) (mkService (Redis r) fs)) as Ho.
    destruct (on_redis _ _ _) as [u s|e s|]; [| |done]; destruct Ho as (c' & Hr & ->).
    + destruct (drop_lists_Ok _ _ _ _ _ _ _ _ Hr Hc) as (Hk & Hno & Hst). split_and!; [done| |].
      * intros q now' Hn Hq. specialize (Hno q Hq). cbn. unfold read in *.
        destruct (keys c' !! cache_key q) as [e|]; [|done]. cbn in *. destruct (live now e) eqn:Hl; [done|].
        replace (live now' e) with false; [done|]. symmetry. unfold live in *. destruct (deadline e) as [d|]; [|done]. lia.
      * intros sq now'. cbn. unfold read. by rewrite Hst.
    + rewrite (redis_errors_drop _ _ _ _ _ Hr). split; [|by exists r]. apply expose_all.
      apply (moves_Fail_keys _ _ _ _ _ (drop_lists_well_kept _ _ _) Hr), Hc.
  - destruct Hc as [HX Hi]. rewrite invalidate_memory.
    split_and!; [split; [done|by apply dropped_indexed]|intros; by apply dropped_no_list|intros; by apply dropped_stats].
Qed.
Lemma step_consistent h h' : step h h' -> consistent h -> consistent h'.
Proof.
  intros [A J q a c now X fs s Hr|A J q a c now X fs e s Hr|A J q a ttl c now X fs|o bs c now X fs s Hr
         |o bs c now X fs e s Hr|c now now' X Hn] Hc.
  - pose proof (set_plans_consistent now q a c fs X Hc) as Hs. by rewrite Hr in Hs.
  - pose proof (set_plans_consistent now q a c fs X Hc) as Hs. by rewrite Hr in Hs.
  - by apply set_stats_consistent.
  - pose proof (invalidate_consistent now o bs c fs X Hc) as Hi. rewrite Hr in Hi. by destruct Hi.
  - pose proof (invalidate_consistent now o bs c fs X Hc) as Hi. rewrite Hr in Hi. by destruct Hi.
  - destruct c; [done| |done]. eapply kept_later; [|exact Hc]. cbn. lia.
Qed.
Lemma reachable_consistent h : reachable h -> consistent h.
Proof.
  intros (c & now & Hf%(fresh_consistent c now) & Hr). revert Hf. generalize (mkHistory c now ∅) Hr.
  intros h0 Hr0. induction Hr0 as [|h1 h2 h3 Hs _ IH]; [done|]. intros Hc. by apply IH, (step_consistent _ _ Hs).
Qed.

(** ** What is served *)

Lemma get_raw_stored now key c fs v s : get_raw now key (mkService c fs) = Ok (Some v) s -> stored now c key = Some v.
Proof.
  unfold get_raw. rewrite (bind_step _ _ _ c (mkService c fs)) by done. destruct c as [|r|m].
  - by intros [[=] _]%ret_Ok.
  - intros Hr. pose proof (on_redis_out r (do! get_connection; command (GET now key)) (mkService (Redis r) fs)) as Ho. rewrite Hr in Ho.
    destruct Ho as (c' & Hg & _). apply bind_Ok in Hg as ([] & c1 & Hk%(keeps_Ok _ _ _ _ _ get_connection_keys) & Hg%command_Ok).
    rewrite Hk in Hg. cbn in Hg |- *. rewrite GET_spec in Hg. unfold documented_GET in Hg. destruct (held <$> read now (client r) key) as [[w|w]|]; congruence.
  - by intros [[= ->] _]%ret_Ok.
Qed.
Lemma get_plans_stored {A} `{Json A} now q c fs (a : A) s :
  get_plans now q (mkService c fs) = Ok (Some a) s -> is_Some (stored now c (cache_key q)).
Proof.
  unfold get_plans. intros ([v|] & s1 & Hg & Hp)%bind_Ok; [apply get_raw_stored in Hg; by eexists|].
  by apply ret_Ok in Hp as [[=] _].
Qed.
Lemma file_keeps_list now q ttl l o : Forall (fun i => is_index_key i = true) l ->
  moves (preserves (fun ks => ks !! cache_key q = o)) (file_in_redis now (cache_key q) ttl l).
Proof.
  unfold file_in_redis. induction 1 as [|i l Hi _ IH]; cbn; [apply moves_ret; exact _|].
  assert (i <> cache_key q) as Hn by (intros ->; by rewrite cache_key_no_index in Hi).
  apply moves_bind; [exact _| |intros []; exact IH].
  apply moves_bind; [exact _| |intros _; apply moves_bind; [exact _| |intros b; apply moves_ret; exact _]].
  - apply command_moves. intros ks [] ks'. rewrite SADD_spec. unfold documented_SADD. repeat case_match; try done; intros [= <-]; by rewrite lookup_insert_ne.
  - apply command_moves. intros ks b ks'. rewrite EXPIRE_spec. unfold documented_EXPIRE. repeat case_match; try done; intros [= _ <-]; try done;
      by first [rewrite lookup_insert_ne by done|rewrite lookup_delete_ne by done].
Qed.
(** A list that is stored is the one its key is answered with. *)
Lemma set_plans_stored {A} `{Json A} now q (a : A) c fs u s :
  is_enabled c = true -> set_plans now q a (mkService c fs) = Ok u s -> stored now (store s) (cache_key q) = to_string a.
Proof.
  intros He. unfold set_plans. intros (v & s1 & [Hv ->]%ok_or_Ok & Hr)%bind_Ok. rewrite Hv.
  rewrite (bind_step _ _ _ c (mkService c fs)) in Hr by done. destruct c as [|r|m]; [done| |].
  - pose proof (on_redis_out r (store_list now q v (ttl_secs r)) (mkService (Redis r) fs)) as Ho.
    fold (store_list now q v (ttl_secs r)) in Hr. rewrite Hr in Ho. destruct Ho as (c' & Hs & ->).
    unfold store_list in Hs. apply bind_Ok in Hs as ([] & c1 & _ & Hs). apply bind_Ok in Hs as ([] & c2 & Hset%command_Ok & Hf).
    set (e := mkEntry (RString v) (Some (now + ttl_secs r * SECOND))).
    pose proof (file_keeps_list now q (ttl_secs r) _ (Some e) (query_order_index q)) as Hm.
    rewrite SETEX_spec in Hset. unfold documented_SETEX in Hset. destruct (0 <? ttl_secs r) eqn:Ht; [|done]. cbn in Hset.
    destruct (expiry_fits now (ttl_secs r)); [|done]. injection Hset as Hset.
    pose proof (moves_Ok _ _ _ _ _ Hm Hf) as Hl. unfold preserves in Hl. rewrite <-Hset, lookup_insert_eq in Hl. specialize (Hl eq_refl).
    cbn. unfold read. rewrite Hl. cbn. unfold live. cbn. replace (now <? _) with true; [done|]. unfold SECOND in *. lia.
  - injection Hr as _ <-. cbn. by rewrite lookup_insert_eq.
Qed.

(** Without errors of Redis an invalidation is done. *)
Lemma invalidate_calm now o bs c fs X :
  consistent (mkHistory c now X) -> (forall r, c = Redis r -> calm fs) ->
  exists s, invalidate_queries now o bs (mkService c fs) = Ok tt s.
Proof.
  intros Hc Hf. destruct c as [|r|m]; [by exists (mkService Disabled fs)| |eexists; apply invalidate_memory].
  destruct (drop_lists_calm (ttl_secs r) now o bs (client r) fs (Hf r eq_refl) (proj1 Hc)) as [c' Hd].
  rewrite invalidate_redis. unfold on_redis. cbn. rewrite Hd. by eexists.
Qed.
Lemma invalidate_still_kept now o bs r fs X :
  consistent (mkHistory (Redis r) now X) -> exists ks X',
  store (after (invalidate_queries now o bs) (mkService (Redis r) fs)) = Redis (mkRedis ks (ttl_secs r)) /\
  kept (ttl_secs r) now X' ks.
Proof.
  intros Hc. pose proof (invalidate_consistent now o bs (Redis r) fs X Hc) as Hi. unfold after.
  rewrite invalidate_redis in *. pose proof (on_redis_out r (drop_lists now (invalidated_index_keys o bs)) (mkService (Redis r) fs)) as Ho.
  destruct (on_redis _ _ _) as [u s|e s|].
  - destruct Ho as (c' & _ & ->). eexists _, _. split; [done|]. exact (proj1 Hi).
  - destruct Ho as (c' & _ & ->). eexists _, _. split; [done|]. exact (proj1 Hi).
  - exists (client r), X. split; [by destruct r|exact Hc].
Qed.

(** * Properties *)

(** C21: Along every history of stores, invalidations and passing time, over Redis also
    with exchanges that fail halfway, and in every state it reaches: an invalidation that
    succeeds leaves, now and later, no cached list of plans of any owner or beneficiary to
    be served, except those an earlier failure of Redis exposed, and leaves cached
    statistics as they were; without Redis it always succeeds and nothing is ever exposed;
    and with Redis, even when it fails, no list is served once the cache's time to live
    has passed. *)
Theorem invalidation_complete c now X o bs fs :
  reachable (mkHistory c now X) ->
  ((forall r, c <> Redis r) -> X = ∅ /\ exists s, invalidate_queries now o bs (mkService c fs) = Ok tt s) /\
  (forall s, invalidate_queries now o bs (mkService c fs) = Ok tt s ->
    (forall A (J : Json A) q now' fs' (a : A) s', now <= now' -> cache_key q ∉ X ->
       get_plans now' q (mkService (store s) fs') <> Ok (Some a) s') /\
    (forall sq now', stored now' (store s) (plan_statistics_cache_key sq) = stored now' c (plan_statistics_cache_key sq))) /\
  (forall r A (J : Json A) q now' fs' (a : A) s', c = Redis r -> now + ttl_secs r * SECOND <= now' ->
     get_plans now' q (mkService (store (after (invalidate_queries now o bs) (mkService c fs))) fs') <> Ok (Some a) s').
Proof.
  intros Hc%reachable_consistent. pose proof (invalidate_consistent now o bs c fs X Hc) as Hi. split; [|split].
  - intros Hn. split; [destruct c as [|r|m]; [done|by destruct (Hn r)|by destruct Hc]|].
    destruct c as [|r|m]; [by exists (mkService Disabled fs)|by destruct (Hn r)|eexists; apply invalidate_memory].
  - intros s Hr. rewrite Hr in Hi. destruct Hi as (_ & Hno & Hst). split; [|done].
    intros A J q now' fs' a s' Hle Hq [v Hg]%get_plans_stored. by rewrite Hno in Hg.
  - intros r A J q now' fs' a s' -> Hle [v Hg]%get_plans_stored. unfold after in Hg.
    destruct (invalidate_still_kept now o bs r fs X Hc) as (ks & X' & Hs & Hk). unfold after in Hs.
    rewrite Hs in Hg. cbn in Hg. destruct (read now' ks (cache_key q)) as [e|] eqn:Hread; [|done].
    apply read_Some in Hread as [Hl Hle']. destruct (wk_expiry _ _ _ (proj1 Hk) _ _ Hl) as (d & Hd & ?).
    unfold live in Hle'. rewrite Hd in Hle'. lia.
Qed.
End kept.

(** Case is folded, so a filter that PostgreSQL compares exactly is answered
    from the entry of another spelling. *)
Lemma keys_fold_case q o :
  owner q = Some o -> cache_key (mkQuery (Some (to_ascii_lowercase o)) (beneficiary q)) = cache_key q.
Proof.
  intros Ho. unfold cache_key, normalize_optional_filter, normalize_filter_value. cbn. rewrite Ho. cbn.
  by rewrite trim_lower, to_ascii_lowercase_idem.
Qed.
(** A filter on the owner "all" is answered from the unfiltered list. *)
Lemma keys_confuse_all : cache_key (mkQuery (Some (lit "all")) None) = cache_key (mkQuery None None).
Proof. reflexivity. Qed.

(** * A run *)

Section example.
(** Texts stand for themselves. *)
#[local] Instance text_json : Json text := { to_string := fun a => Some a; from_str := fun s => Some s }.
#[local] Instance example_libs : CacheLibs := documented_libs elements.
#[local] Instance example_libs_laws : CacheLibsLaws.
Proof. by constructor. Qed.

Definition by_owner : PlanQuery := mkQuery (Some (lit "GA")) None.
Definition unfiltered : PlanQuery := mkQuery None None.
(** A store on Redis that is done, and one that [SADD] interrupts. *)
Definition empty_redis : PlanCache := Redis (mkRedis ∅ 300).
Definition filled : PlanCache := store (after (set_plans 0 by_owner (lit "[]")) (mkService empty_redis [])).
Definition interrupted : PlanCache :=
  store (after (set_plans 0 unfiltered (lit "[]")) (mkService filled [false; false; true; false])).
Definition invalidated : PlanCache := store (after (invalidate_queries 0 (lit "GB") []) (mkService interrupted [])).

Lemma interrupted_reachable : reachable (mkHistory interrupted 0 {[ cache_key unfiltered ]}).
Proof.
  exists empty_redis, 0. split; [done|]. eapply rtc_l.
  - eapply (SetPlans by_owner (lit "[]") empty_redis 0 ∅ []). vm_compute. reflexivity.
  - eapply rtc_once. refine (eq_rect _ (fun X => step _ (mkHistory _ _ X)) (SetPlansFails unfiltered (lit "[]") filled 0 _ [false; false; true; false] RedisError _ eq_refl) _ _).
    unfold expose. generalize (cache_key unfiltered) (cache_key by_owner). set_solver.
Qed.

Lemma invalidation_complete_witness :
  fst (invoke (get_plans 0 by_owner) (mkService interrupted [])) = Returned (Some (lit "[]")) /\
  (forall fs' s', get_plans (A := text) 0 by_owner (mkService invalidated fs') <> Ok (Some (lit "[]")) s').
Proof.
  split; [vm_compute; reflexivity|]. intros fs' s'.
  refine (proj1 (proj1 (proj2 (invalidation_complete interrupted 0 {[ cache_key unfiltered ]} (lit "GB") [] [] interrupted_reachable))
    (mkService invalidated []) _) text _ by_owner 0 fs' (lit "[]") s' _ _).
  - vm_compute. reflexivity.
  - lia.
  - apply not_elem_of_singleton. by vm_compute.
Defined.

(** The list whose store was interrupted outlives the invalidation. *)
Example interrupted_store_survives :
  fst (invoke (get_plans 0 unfiltered) (mkService invalidated [])) = Returned (Some (lit "[]")).
Proof. vm_compute. reflexivity. Qed.
End example.
End PlanCache.
