(* ===== verification/YieldCalculator.v ===== *)
(** The backend's yield projection (src/backend/src/yield_calculator.rs) on
    IEEE binary64 numbers. *)
From S2P Require Import Prelude.
From Stdlib Require Export SpecFloat.

Module YieldCalculator.

(** * [f64] *)

Abbreviation f64 := spec_float.
Definition prec : Z := 53.
Definition emax : Z := 1024.
Definition fadd : f64 -> f64 -> f64 := SFadd prec emax.
Definition fmul : f64 -> f64 -> f64 := SFmul prec emax.
Definition fdiv : f64 -> f64 -> f64 := SFdiv prec emax.
Definition fltb : f64 -> f64 -> bool := SFltb.
(** [n as f64] for an integer. *)
Definition of_Z (n : Z) : f64 := binary_normalize prec emax n 0 false.
Definition zero : f64 := S754_zero false.

(** * The projection *)

Definition seconds_per_year : f64 := fmul (fmul (fdiv (of_Z 36525) (of_Z 100)) (of_Z 24)) (of_Z 3600).

Definition calculate_yield (amount : f64) (yield_rate_bps elapsed_secs : Z) : f64 :=
  if (yield_rate_bps =? 0) || (elapsed_secs =? 0) then zero
  else
    let rate := fdiv (of_Z yield_rate_bps) (of_Z 10000) in
    let time_years := fdiv (of_Z elapsed_secs) seconds_per_year in
    fmul (fmul amount rate) time_years.

(** The literal [365.25] is exact, and so is the product. *)
Lemma seconds_per_year_exact : seconds_per_year = of_Z 31557600.
Proof. reflexivity. Qed.

(** The tests of the source. *)
Lemma one_year_at_5_percent : calculate_yield (of_Z 1000) 500 31557600 = of_Z 50.
Proof. vm_compute. reflexivity. Qed.
Lemma half_year_at_10_percent : calculate_yield (of_Z 1000) 1000 15778800 = of_Z 50.
Proof. vm_compute. reflexivity. Qed.

(** * Sign *)

(** Not below zero; [NaN] is not below zero either. *)
Definition not_negative (x : f64) : Prop :=
  match x with S754_zero s | S754_infinity s => s = false | S754_nan => True | S754_finite s _ _ => s = false end.

Lemma not_negative_ltb x : not_negative x -> fltb x zero = false.
Proof. by destruct x as [[]|[]| |[] m e]. Qed.
Lemma round_aux_not_negative m e l : not_negative (binary_round_aux prec emax false m e l).
Proof.
  unfold binary_round_aux. destruct (shr_fexp _ _ _ _ _) as [mrs e1].
  destruct (shr_fexp _ _ _ _ _) as [mrs2 e2]. destruct (shr_m mrs2); [done| |done].
  by destruct (Z.leb _ _).
Qed.
Lemma fmul_not_negative x y : not_negative x -> not_negative y -> not_negative (fmul x y).
Proof.
  destruct x as [sx|sx| |sx mx ex], y as [sy|sy| |sy my ey]; cbn; try done; intros -> ->; try done.
  apply round_aux_not_negative.
Qed.
Lemma fdiv_not_negative x y : not_negative x -> not_negative y -> not_negative (fdiv x y).
Proof.
  destruct x as [sx|sx| |sx mx ex], y as [sy|sy| |sy my ey]; cbn; try done; intros -> ->; try done.
  destruct (SFdiv_core_binary _ _ _ _ _ _) as [[m e] l]. apply round_aux_not_negative.
Qed.
Lemma of_Z_not_negative n : 0 <= n -> not_negative (of_Z n).
Proof.
  intros Hn. unfold of_Z, binary_normalize. destruct n; [done| |lia].
  unfold binary_round. destruct (shl_align _ _ _). apply round_aux_not_negative.
Qed.

Lemma yield_not_negative amount bps secs :
  not_negative amount -> 0 <= bps -> 0 <= secs -> not_negative (calculate_yield amount bps secs).
Proof.
  intros Ha Hb Hs. unfold calculate_yield. destruct (_ || _); [done|].
  apply fmul_not_negative; [apply fmul_not_negative; [done|]|];
    apply fdiv_not_negative; try rewrite seconds_per_year_exact; apply of_Z_not_negative; lia.
Qed.
End YieldCalculator.
