(* ===== verification/StellarXdr.v ===== *)
(** The parts of Stellar's XDR the backend looks into, and what it reads out
    of them (src/backend/src/stellar_submit.rs, src/backend/src/xdr.rs). *)
From S2P Require Import Prelude Host Text.
Import Text.

Module StellarXdr.

(** A contract's 32-byte identifier. *)
Abbreviation ContractId := (list Z).

(** The values of contract calls and events: the variants the code matches on;
    every other variant is [Other]. *)
Inductive ScVal :=
  | Void
  | Bool (b : bool)
  | U32 (n : Z)
  | U64 (n : Z)
  | Symbol (s : text)
  | Vec (items : option (list ScVal))
  | Map (entries : option (list (ScVal * ScVal)))
  | Account (public_key : list Z)
  | Other.

Record ContractEvent := mkEvent {
  contract_id : option ContractId;
  topics : list ScVal;
  data : ScVal
}.

Inductive TransactionMeta :=
  | V3 (soroban_meta : option (list ContractEvent * ScVal))
  | V4 (operations : list (list ContractEvent)) (events : list ContractEvent)
       (soroban_meta : option (option ScVal))
  | OtherMeta.

Record InvocationOutcome := mkOutcome {
  tx_hash : text;
  outcome_events : list ContractEvent;
  outcome_value : option ScVal
}.

(** * Events *)

Definition contract_events (meta : TransactionMeta) : list ContractEvent :=
  match meta with
  | V3 soroban => default [] (fst <$> soroban)
  | V4 operations events _ => concat operations ++ events
  | OtherMeta => []
  end.

Definition return_value (meta : TransactionMeta) : option ScVal :=
  match meta with
  | V3 soroban => snd <$> soroban
  | V4 _ _ soroban => mjoin soroban
  | OtherMeta => None
  end.

Definition matches_symbol (value : ScVal) (expected : text) : bool :=
  match value with Symbol s => bool_decide (s = expected) | _ => false end.

(** Is the event one of [contract] whose leading topics are [topics]? *)
Definition event_matches (contract : ContractId) (expected : list text) (event : ContractEvent) : bool :=
  bool_decide (contract_id event = Some contract) &&
  negb (bool_decide (length (topics event) < length expected)%nat) &&
  forallb (fun te => matches_symbol te.1 te.2) (combine (topics event) expected).

Definition find_event (events : list ContractEvent) (contract : ContractId) (expected : list text)
  : option ContractEvent := find (event_matches contract expected) events.

(** [find_map] over the entries of a map with the key [field]. *)
Fixpoint find_field {A} (read : ScVal -> option A) (field : text) (entries : list (ScVal * ScVal))
  : option A :=
  match entries with
  | [] => None
  | (key, val) :: entries =>
    match (if matches_symbol key field then read val else None) with
    | Some a => Some a
    | None => find_field read field entries
    end
  end.
Definition read_u64 (val : ScVal) : option Z :=
  match val with U64 v => Some v | U32 v => Some v | _ => None end.
Definition read_bool (val : ScVal) : option bool :=
  match val with Bool v => Some v | _ => None end.

Definition event_u64_field (event : ContractEvent) (field : text) : option Z :=
  match data event with
  | Map (Some entries) => find_field read_u64 field entries
  | _ => None
  end.

(** * The trigger record *)

Definition scval_map (value : ScVal) : option (list (ScVal * ScVal)) :=
  match value with Map (Some entries) => Some entries | _ => None end.
Definition scval_u64_field (value : ScVal) (field : text) : option Z :=
  entries ← scval_map value; find_field read_u64 field entries.
Definition scval_bool_field (value : ScVal) (field : text) : option bool :=
  entries ← scval_map value; find_field read_bool field entries.

Definition unwrap_option_scval (value : ScVal) : option ScVal :=
  match value with
  | Void => None
  | Vec (Some items) =>
    match items with
    | [] => None
    | first :: _ =>
      if matches_symbol first (lit "None") then None
      else if matches_symbol first (lit "Some") then items !! 1%nat
      else Some value
    end
  | _ => Some value
  end.

Definition parse_outstanding_loaned (value : ScVal) : option Z :=
  inner ← unwrap_option_scval value;
  original ← scval_u64_field inner (lit "original_loaned");
  let recalled := default 0 (scval_u64_field inner (lit "recalled_amount")) in
  let settled := default 0 (scval_u64_field inner (lit "settled_amount")) in
  let liquidation := default false (scval_bool_field inner (lit "liquidation_triggered")) in
  if liquidation then Some 0
  else Some (saturating_sub (saturating_sub original recalled) settled).

(** * Transaction envelopes *)

(** What validation looks at in a decoded envelope. *)
Inductive TransactionEnvelope :=
  | TxV0 (fee : Z) (operations signatures : nat)
  | Tx (fee : Z) (operations signatures : nat)
  | TxFeeBump (fee inner_fee : Z) (inner_operations signatures : nat).

Inductive XdrValidationError :=
  Empty | TooLarge | Malformed | NoOperations | Unsigned | InvalidFee.

Definition MAX_XDR_BASE64_LEN : Z := 100 * 1024.

(** [TransactionEnvelope::from_xdr_base64] under the code's limits. *)
Class XdrCodec := { from_xdr_base64 : text -> option TransactionEnvelope }.

Section validation.
Context `{XdrCodec}.

Definition envelope_shape (e : TransactionEnvelope) : bool * nat * nat :=
  match e with
  | TxV0 fee ops sigs => (0 <? fee, ops, sigs)
  | Tx fee ops sigs => (0 <? fee, ops, sigs)
  | TxFeeBump fee inner_fee ops sigs => ((0 <? fee) && (0 <? inner_fee), ops, sigs)
  end.

Definition validate_transaction_xdr (xdr : text) : result XdrValidationError TransactionEnvelope :=
  let trimmed := trim xdr in
  do? rreject_if (is_empty trimmed) Empty;
  do? rreject_if (MAX_XDR_BASE64_LEN <? byte_len trimmed) TooLarge;
  let? envelope := rok_or (from_xdr_base64 trimmed) Malformed in
  let '(fee_is_positive, op_count, sig_count) := envelope_shape envelope in
  do? rreject_if (negb fee_is_positive) InvalidFee;
  do? rreject_if (bool_decide (op_count = 0%nat)) NoOperations;
  do? rreject_if (bool_decide (sig_count = 0%nat)) Unsigned;
  ROk envelope.

Definition well_formed (e : TransactionEnvelope) : Prop :=
  match e with
  | TxV0 fee ops sigs | Tx fee ops sigs => 0 < fee /\ ops <> 0%nat /\ sigs <> 0%nat
  | TxFeeBump fee inner_fee ops sigs => 0 < fee /\ 0 < inner_fee /\ ops <> 0%nat /\ sigs <> 0%nat
  end.

Lemma well_formed_shape e b ops sigs :
  envelope_shape e = (b, ops, sigs) -> well_formed e <-> b = true /\ ops <> 0%nat /\ sigs <> 0%nat.
Proof. destruct e; cbn; intros [= <- <- <-]; rewrite ?andb_true_iff, ?Z.ltb_lt; tauto. Qed.

Lemma validate_xdr_ROk xdr e :
  validate_transaction_xdr xdr = ROk e <->
  blank xdr = false /\ byte_len (trim xdr) <= MAX_XDR_BASE64_LEN /\
  from_xdr_base64 (trim xdr) = Some e /\ well_formed e.
Proof.
  unfold validate_transaction_xdr, blank. cbv zeta. destruct (is_empty (trim xdr)); cbn; [by split; [|intros []]|].
  destruct (Z.ltb_spec MAX_XDR_BASE64_LEN (byte_len (trim xdr))) as [Hl|Hl]; cbn; [split; [done|lia]|].
  destruct (from_xdr_base64 (trim xdr)) as [e1|]; cbn; [|split; [done|naive_solver]].
  destruct (envelope_shape e1) as [[b ops] sigs] eqn:Hs. pose proof (well_formed_shape e1 b ops sigs Hs) as Hw.
  destruct b; cbn; [|naive_solver]. do 2 (case_bool_decide; cbn; [naive_solver|]). naive_solver.
Qed.
End validation.

(** * Lemmas *)

Lemma find_event_Some events contract expected e :
  find_event events contract expected = Some e ->
  e ∈ events /\ contract_id e = Some contract /\
  Forall2 (fun topic t => topic = Symbol t) (take (length expected) (topics e)) expected.
Proof.
  intros [He Hm]%find_some. split; [by apply list_elem_of_In|].
  unfold event_matches in Hm. rewrite !andb_true_iff, negb_true_iff in Hm. destruct Hm as [[Hc Hl] Ht].
  bool_hyps. split; [done|]. clear Hc He. revert Hl Ht. generalize (topics e) as ts.
  induction expected as [|t expected IH]; intros [|s ts] Hl Ht; cbn in *; try constructor; try lia.
  - apply andb_true_iff in Ht as [Hs _]. unfold matches_symbol in Hs. cbn in Hs. destruct s; try done.
    bool_hyps. by subst.
  - apply andb_true_iff in Ht as [_ Ht]. apply IH; [lia|done].
Qed.
End StellarXdr.
