(* ===== verification/BackendTypes.v ===== *)
(** The backend's world: the tables of its database (src/backend/migrations),
    the replies of the services it calls, and the monad its handlers run in. *)
From S2P Require Import Prelude Host Text PlanCache YieldCalculator StellarXdr.
Import Text PlanCache StellarXdr.

Module BackendTypes.

(** * What the backend takes from its libraries and services *)

Abbreviation uuid := positive.
Abbreviation f64 := spec_float.

(** [rust_decimal::Decimal], whose operators panic on overflow, and
    PostgreSQL's [NUMERIC]: its sum and its rounding into two column types. *)
Class DecimalOps (D : Type) := {
  dzero : D;
  dec_of_Z : Z -> D;
  dadd : D -> D -> option D;
  dsub : D -> D -> option D;
  dmul : D -> D -> option D;
  ddiv : D -> D -> option D;
  dfloor : D -> D;
  dnormalize : D -> D;
  dle : D -> D -> bool;
  from_f64_retain : f64 -> option D;
  (** [d.to_string().parse::<f64>().unwrap_or(0.0)]. *)
  to_f64 : D -> f64;
  numeric_add : D -> D -> D;
  (** [NUMERIC(78, 0)] and [NUMERIC(78, 4)] columns. *)
  numeric0 : D -> D;
  numeric4 : D -> D
}.
Definition dlt {D} `{DecimalOps D} (a b : D) : bool := negb (dle b a).

(** What the theorems about shares need of it: values are counted in units of
    10^-28, the finest a [Decimal] has.  An operation is exact when its result
    is representable: a difference that a whole number leaves nonnegative is,
    and so is a number of basis points of a [payable] amount, one with a few
    digits to spare.  Otherwise it is rounded at the 96th bit, which for a number
    of basis points is within two ten-thousandths, and the sign is kept. *)
Definition DECIMAL_ONE : Z := 10 ^ 28.
Class DecimalLaws (D : Type) `{DecimalOps D} := {
  val : D -> Z;
  payable : D -> Prop;
  val_le : forall a b, dle a b = true <-> val a <= val b;
  val_zero : val dzero = 0;
  val_floor : forall a, val (dfloor a) = val a / DECIMAL_ONE * DECIMAL_ONE;
  val_sub : forall a b, (DECIMAL_ONE | val b) -> 0 <= val b <= val a ->
    exists c, dsub a b = Some c /\ val c = val a - val b;
  val_share : forall a n, payable a -> 0 <= n <= 10000 ->
    exists m q, dmul a (dec_of_Z n) = Some m /\ ddiv m (dec_of_Z 10000) = Some q /\ 10000 * val q = val a * n;
  val_share_near : forall a n m q, 0 <= val a -> 0 <= n <= 10000 ->
    dmul a (dec_of_Z n) = Some m -> ddiv m (dec_of_Z 10000) = Some q ->
    0 <= val q /\ Z.abs (10000 * val q - val a * n) <= 2 * DECIMAL_ONE;
  val_sub_over : forall a b c, (DECIMAL_ONE | val b) -> 0 <= val b -> val a <= val b -> dsub a b = Some c -> val c <= 0;
  val_numeric0 : forall a, (DECIMAL_ONE | val (numeric0 a)) /\ 2 * Z.abs (val (numeric0 a) - val a) <= DECIMAL_ONE
}.

(** Keyed hashing of the [hmac] crate, which takes a key of any length, so
    that [None] is not expected, and the notation of the [hex] crate. *)
Class Hmac := { hmac_sha256 : list Z -> list Z -> option (list Z) }.
Class Hex := { hex_encode : list Z -> text; hex_decode : text -> option (list Z) }.

(** The database: generated identifiers, and the order of rows a query without
    [ORDER BY] returns. *)
Class Postgres := {
  gen_random_uuid : nat -> uuid;
  row_order : forall {A : Type}, list A -> list A
}.
Class PostgresLaws `{Postgres} : Prop := {
  uuids_differ : forall m n, gen_random_uuid m = gen_random_uuid n -> m = n;
  rows_all : forall A (l : list A), row_order l ≡ₚ l
}.

(** * Errors *)

(** [sqlx::Error]: the statement failed, or a constraint refused it. *)
Inductive sqlx_error := SqlFault | ConstraintViolation | RowNotFound.

(** [StellarSubmitError]; the texts only reach messages, save the detail of a
    failed simulation, which is inspected. *)
Inductive StellarSubmitError :=
  | Network | Rejected | NotConfigured | Config | Xdr | Rpc
  | Simulation (detail : text) | TransactionFailed | Timeout.

(** The responses other than success, by their status code; the message is the
    fixed part of the text. *)
Inductive http_error :=
  | BAD_REQUEST (message : string) | UNAUTHORIZED (message : string)
  | FORBIDDEN (message : string) | NOT_FOUND (message : string) | METHOD_NOT_ALLOWED
  | CONFLICT (message : string) | UNPROCESSABLE_ENTITY (message : string)
  | TOO_MANY_REQUESTS (message : string)
  | INTERNAL_SERVER_ERROR (message : string) | BAD_GATEWAY (message : string)
  | SERVICE_UNAVAILABLE (message : string).

(** * Tables *)

(** Table [plans]; [PlanRow] is the part the handlers select.  Money is of
    type [D], times are Unix seconds except the timestamps [created_at] and
    [trigger_started_at], which are in nanoseconds. *)
Record PlanRow {D : Type} := mkPlan {
  owner_address : text; token_address : text; amount : D;
  grace_period : Z; grace_period_seconds : Z; earn_yield : bool; last_ping : Z;
  is_active : bool; status : string; yield_rate_bps : Z; accrued_yield : D;
  created_at : Z; onchain_plan_id : option Z;
  trigger_tx_hash : option text; trigger_attempts : Z;
  trigger_started_at : option Z; last_trigger_error : option string
}.
Arguments PlanRow : clear implicits.
Arguments mkPlan {D}.
#[global] Instance eta_plan {D} : Eta (PlanRow D) := fun p =>
  mkPlan (owner_address p) (token_address p) (amount p) (grace_period p) (grace_period_seconds p)
    (earn_yield p) (last_ping p) (is_active p) (status p) (yield_rate_bps p) (accrued_yield p)
    (created_at p) (onchain_plan_id p) (trigger_tx_hash p) (trigger_attempts p)
    (trigger_started_at p) (last_trigger_error p).

(** The generated column [inactivity_deadline_at]. *)
Definition inactivity_deadline_at {D} (p : PlanRow D) : Z := last_ping p + grace_period_seconds p.

Record BeneficiaryRow {D : Type} := mkBeneficiary {
  b_id : uuid; b_plan_id : uuid; wallet_address : text; allocation_bps : Z;
  fiat_anchor_info : text; fiat_daily_limit : D
}.
Arguments BeneficiaryRow : clear implicits.
Arguments mkBeneficiary {D}.

Record PayoutRow {D : Type} := mkPayout {
  p_id : uuid; p_plan_id : uuid; beneficiary_address : text; p_amount : D;
  payout_type : string; p_status : string; p_created_at : Z
}.
Arguments PayoutRow : clear implicits.
Arguments mkPayout {D}.

(** Table [plan_loan_lifecycle]. *)
Record LoanLifecycleRow := mkLifecycle {
  freeze_status : string; recall_progress : Z; settlement_status : string;
  outstanding_loaned : Z; last_tx_hash : option text; updated_at : Z
}.

(** What a webhook tells its endpoint. *)
Inductive payload (D : Type) :=
  | PlanCreated (plan_id : uuid) (plan : PlanRow D) (beneficiaries : list (BeneficiaryRow D))
  | PlanTriggered (plan_id : uuid) (owner : text) (deadline : Z) (onchain : option Z) (tx : option text)
  | TriggerFailed (plan_id : uuid) (owner : text) (deadline : Z) (onchain : option Z) (attempts : Z) (error : string)
  | LoanStatus (plan_id : uuid) (owner : text) (onchain : option Z) (status : string) (tx : option text)
      (remaining : option Z)
  | PlanSettled (plan_id : uuid) (owner : text) (total : D) (payout_count : Z).
Arguments PlanCreated {D}. Arguments PlanTriggered {D}. Arguments TriggerFailed {D}.
Arguments LoanStatus {D}. Arguments PlanSettled {D}.

(** Tables [webhook_endpoints] and [webhook_dispatches]. *)
Record Endpoint := mkEndpoint { url : text; secret : option text; endpoint_active : bool }.
Record Dispatch {D : Type} := mkDispatch {
  endpoint_id : uuid; event_type : string; d_payload : payload D; attempts : Z;
  max_attempts : option Z; d_status : string; last_error : option string;
  next_attempt_at : option Z; d_created_at : Z
}.
Arguments Dispatch : clear implicits.
Arguments mkDispatch {D}.
#[global] Instance eta_dispatch {D} : Eta (Dispatch D) := fun d =>
  mkDispatch (endpoint_id d) (event_type d) (d_payload d) (attempts d) (max_attempts d)
    (d_status d) (last_error d) (next_attempt_at d) (d_created_at d).

Record KycRecord := mkKycRecord {
  full_name : text; date_of_birth : text; street_address : text; city : text;
  country : text; postal_code : text; document_id : option text; k_created_at : Z
}.
Record KycLog := mkKycLog {
  kl_wallet : text; kl_reference : option text; kl_event_type : text; kl_status : string; kl_success : bool
}.

Record database {D : Type} := mkDb {
  plans : gmap uuid (PlanRow D);
  beneficiaries : list (BeneficiaryRow D);
  payouts : list (PayoutRow D);
  plan_loan_lifecycle : gmap uuid LoanLifecycleRow;
  fiat_daily_usage : gmap (uuid * Z) D;
  users : gmap text string;
  kyc_records : gmap text KycRecord;
  kyc_webhook_logs : list KycLog;
  ping_logs : list (uuid * Z * D);
  apy_configurations : gmap text Z;
  webhook_endpoints : gmap uuid Endpoint;
  webhook_dispatches : gmap uuid (Dispatch D);
  (** By e-mail: the identifier and the password's hash. *)
  admins : gmap text (uuid * text)
}.
Arguments database : clear implicits.
Arguments mkDb {D}.
#[global] Instance eta_db {D} : Eta (database D) := fun d =>
  mkDb (plans d) (beneficiaries d) (payouts d) (plan_loan_lifecycle d) (fiat_daily_usage d)
    (users d) (kyc_records d) (kyc_webhook_logs d) (ping_logs d) (apy_configurations d)
    (webhook_endpoints d) (webhook_dispatches d) (admins d).

(** * Replies from the network *)

(** An XDR field of a JSON reply. *)
Inductive field (A : Type) := Missing | Undecodable | Decoded (a : A).
Arguments Missing {A}. Arguments Undecodable {A}. Arguments Decoded {A}.

Record SimulateResponse := mkSimulate {
  sim_error : option text;
  transaction_data : field unit;
  min_resource_fee : field Z;
  sim_value : field ScVal;
  sim_auth : field unit
}.
Record SendResponse := mkSend { send_status : string }.
Record GetTransactionResponse := mkGet { get_status : string; result_meta : field TransactionMeta }.

(** A fiat payout asked of the anchor, and what it answers
    (src/backend/src/stellar_anchor.rs). *)
Record AnchorPayoutRequest := mkAnchorRequest {
  a_beneficiary_address : text; a_beneficiary_name : text; a_token : text; a_token_amount : f64;
  a_fiat_currency : text; a_bank_name : text; a_account_number : text
}.
Record AnchorApiResponse := mkAnchorResponse {
  ar_id : option text; ar_transaction_id : option text; ar_status : option text;
  ar_exchange_rate : option f64; ar_fiat_amount : option f64; ar_fee : option f64
}.

Inductive answer :=
  | Unreachable
  | HttpStatus
  | RpcFault
  | EmptyResult
  | AccountSequence (sequence : option Z)
  | SimulateReply (r : SimulateResponse)
  | SendReply (r : SendResponse)
  | GetReply (r : GetTransactionResponse)
  | HorizonReply (accepted : bool)
  | AnchorReply (body : option AnchorApiResponse)
  | WebhookReply (success : bool).
(** A reply and the nanoseconds it took. *)
Record net_reply := mkReply { took : Z; reply : answer }.

(** The requests the backend has sent. *)
Inductive request :=
  | GetAccount
  | Simulate (function : text) (args : list ScVal)
  | Send (hash : text) (function : text) (args : list ScVal)
  | GetTransaction (hash : text)
  | PostHorizon (xdr : text)
  | GetHorizon
  | AnchorSend (r : AnchorPayoutRequest)
  | PostWebhook (url : text) (event_type : string) (signature : text) (body : list Z).

(** The events of the WebSocket channels; [KycUpdate] is [KycUpdateEvent]. *)
Record PlanStatusEvent := mkStatusEvent {
  se_event_type : string; se_plan_id : uuid; se_status : string; se_message : string;
  se_tx_hash : option text; se_freeze_status : option string; se_recall_progress : option Z;
  se_settlement_status : option string; se_remaining_loaned : option Z
}.
Inductive broadcast :=
  | PlanStatus (event : PlanStatusEvent)
  | KycUpdate (wallet : text) (kyc_status : string) (event_type : text).

(** * The world *)

(** [faults] says of each coming statement and exchange with Redis whether it
    fails and of each coming advisory lock whether another worker holds it,
    [network] gives the coming replies: both are the environment's choice, and
    past their ends statements and exchanges succeed, locks are free and the
    network is down. *)
Record backend {D : Type} := mkBackend {
  db : database D;
  faults : list bool;
  network : list net_reply;
  clock : Z;
  drawn : nat;
  cache : PlanCache;
  requests : list request;
  broadcasts : list broadcast
}.
Arguments backend : clear implicits.
Arguments mkBackend {D}.
#[global] Instance eta_backend {D} : Eta (backend D) := fun w =>
  mkBackend (db w) (faults w) (network w) (clock w) (drawn w) (cache w) (requests w) (broadcasts w).

Definition NANOS : Z := 1000000000.

(** The seconds a [TIMESTAMPTZ] column can hold. *)
Definition timestamp_range (t : Z) : bool := (-210866803200 <=? t) && (t <? 9224318016000).

(** [n as i64], [n as i32]; the release build's arithmetic wraps the same way. *)
Definition as_i64 (n : Z) : Z := (n + 9223372036854775808) mod 18446744073709551616 - 9223372036854775808.
Definition as_i32 (n : Z) : Z := (n + 2147483648) mod 4294967296 - 2147483648.

Section world.
Context {D : Type}.
Abbreviation W := (backend D).
Implicit Types w : W.

(** [Utc::now().timestamp()], PostgreSQL's [NOW()] in seconds. *)
Definition now_secs w : Z := clock w / NANOS.

Definition next_fault {E} : M W E bool := fun w =>
  match faults w with
  | [] => Ok false w
  | b :: bs => Ok b (w <| faults := bs |>)
  end.

Definition set_db {E} (d : database D) : M W E unit := modify (fun w => w <| db := d |>).

(** A statement: it fails as the environment says, or its constraints refuse
    it, or it takes effect. *)
Definition statement {A} (f : W -> result sqlx_error (A * database D)) : M W sqlx_error A :=
  let! failed := next_fault in
  do! reject_if failed SqlFault;
  let! w := gets (fun w => w) in
  let! ad := of_result (f w) in
  do! set_db ad.2;
  ret ad.1.
Definition select {A} (f : database D -> A) : M W sqlx_error A :=
  statement (fun w => ROk (f (db w), db w)).
Definition execute (f : database D -> database D) : M W sqlx_error unit :=
  statement (fun w => ROk (tt, f (db w))).
(** A statement whose new table contents must satisfy a [CHECK]. *)
Definition checked_execute (f : database D -> option (database D)) : M W sqlx_error unit :=
  statement (fun w => match f (db w) with Some d => ROk (tt, d) | None => RErr ConstraintViolation end).

(** [match stmt.await { Ok(a) => a, Err(e) => return error }]. *)
Definition or_return {E1 E2 A} (m : M W E1 A) (k : E1 -> E2) : M W E2 A := fun w =>
  match m w with
  | Ok a w' => Ok a w'
  | Fail e w' => Fail (k e) w'
  | Trap => Trap
  end.
Definition or_500 {A} (m : M W sqlx_error A) (message : string) : M W http_error A :=
  or_return m (fun _ => INTERNAL_SERVER_ERROR message).
(** [stmt.await.unwrap_or(a)]: the error is dropped. *)
Definition or_else {E1 E2 A} (m : M W E1 A) (a : A) : M W E2 A := fun w =>
  match m w with
  | Ok a w' => Ok a w'
  | Fail _ w' => Ok a w'
  | Trap => Trap
  end.
(** The [Result] of a call, for a [match]. *)
Definition outcome_of {E1 E2 A} (m : M W E1 A) : M W E2 (result E1 A) := fun w =>
  match m w with
  | Ok a w' => Ok (ROk a) w'
  | Fail e w' => Ok (RErr e) w'
  | Trap => Trap
  end.

(** [begin] ... [commit]: an early return drops the transaction and rolls the
    tables back, as does a failing commit. *)
Definition transaction {E A} (begin_error commit_error : E) (body : M W E A) : M W E A :=
  let! failed := next_fault in
  do! reject_if failed begin_error;
  let! before := gets db in
  let! r := attempt body in
  match r with
  | RErr e => do! set_db before; fail e
  | ROk a =>
    let! failed := next_fault in
    if failed then do! set_db before; fail commit_error
    else ret a
  end.

Definition fresh_uuid `{Postgres} {E} : M W E uuid :=
  let! n := gets drawn in
  do! modify (fun w => w <| drawn := S n |>);
  ret (gen_random_uuid n).

(** An HTTP exchange. *)
Definition http {E} (r : request) : M W E answer := fun w =>
  let w := w <| requests := requests w ++ [r] |> in
  match network w with
  | [] => Ok Unreachable w
  | a :: rest => Ok (reply a) (w <| network := rest |> <| clock := clock w + took a |>)
  end.
(** [tokio::time::sleep]. *)
Definition sleep {E} (nanos : Z) : M W E unit := modify (fun w => w <| clock := clock w + nanos |>).

Definition publish {E} (b : broadcast) : M W E unit :=
  modify (fun w => w <| broadcasts := broadcasts w ++ [b] |>).

(** * The tables' common queries *)

Definition get_plan (id : uuid) : M W sqlx_error (option (PlanRow D)) := select (fun d => plans d !! id).
(** [UPDATE plans SET .. WHERE id = $]: no row, no effect. *)
Definition update_plan_row (id : uuid) (f : PlanRow D -> PlanRow D) (d : database D) : database D :=
  d <| plans := alter f id (plans d) |>.

(** The cache and the environment's choices about its coming exchanges. *)
#[export] Instance sub_cache : Sub W service := {
  sget w := mkService (cache w) (faults w);
  sput s w := w <| cache := store s |> <| faults := coming s |>
}.
Definition on_cache {A} (m : Z -> M service CacheError A) : M W CacheError A :=
  let! now := gets clock in
  zoom (m now).

Section queries.
Context `{Postgres} `{CacheLibs}.

Definition beneficiaries_of (id : uuid) (d : database D) : list (BeneficiaryRow D) :=
  row_order (filter (fun b => b_plan_id b = id) (beneficiaries d)).
Definition load_beneficiaries (id : uuid) : M W sqlx_error (list (BeneficiaryRow D)) :=
  select (beneficiaries_of id).
Definition load_beneficiary_addresses (id : uuid) : M W sqlx_error (list text) :=
  select (fun d => map wallet_address (beneficiaries_of id d)).

(** An error is logged, and the cache left as it is. *)
Definition invalidate_plan_cache {E} (owner_address : text) (addresses : list text) : M W E unit :=
  or_else (on_cache (fun now => invalidate_queries now owner_address addresses)) tt.

(** * Outgoing webhooks: enqueueing *)

Definition active_endpoints (d : database D) : list uuid :=
  row_order (map fst (filter (fun e => endpoint_active e.2 = true) (map_to_list (webhook_endpoints d)))).

Definition enqueue_one (type : string) (p : payload D) (endpoint : uuid) : M W sqlx_error unit :=
  let! id := fresh_uuid in
  statement (fun w => ROk (tt, (db w) <| webhook_dispatches :=
    <[id := mkDispatch endpoint type p 0 (Some 5) "pending"%string None None (clock w)]> (webhook_dispatches (db w)) |>)).

Definition enqueue_event (type : string) (p : payload D) : M W sqlx_error unit :=
  let! endpoints := select active_endpoints in
  foldM (fun _ ep => enqueue_one type p ep) endpoints tt.
End queries.
End world.

(** * Inversion *)

(** A world past its next environment choice. *)
Definition pop {D} (w : backend D) : backend D := w <| faults := tail (faults w) |>.
Definition fails_next {D} (w : backend D) : bool := hd false (faults w).

Section inversion.
Context {D : Type}.
Abbreviation W := (backend D).
Implicit Types w : W.

Lemma pop_nil w : faults w = [] -> pop w = w.
Proof. destruct w; cbn. intros ->. reflexivity. Qed.
Lemma next_fault_run {E} w : @next_fault D E w = Ok (fails_next w) (pop w).
Proof.
  unfold next_fault, fails_next. destruct (faults w) eqn:Hf; cbn.
  - by rewrite pop_nil.
  - destruct w; cbn in *. by subst.
Qed.

Lemma statement_run {A} (f : W -> result sqlx_error (A * database D)) w :
  statement f w =
  if fails_next w then Fail SqlFault (pop w)
  else match f (pop w) with ROk (a, d) => Ok a ((pop w) <| db := d |>) | RErr e => Fail e (pop w) end.
Proof.
  unfold statement. rewrite (bind_step _ _ _ _ _ (next_fault_run w)). destruct (fails_next w); cbn; [done|].
  unfold bind, gets, of_result, set_db, modify, ret, fail. by destruct (f (pop w)) as [[a d]|e].
Qed.
Lemma statement_Ok {A} (f : W -> result sqlx_error (A * database D)) a w w' :
  statement f w = Ok a w' <->
  fails_next w = false /\ exists d, f (pop w) = ROk (a, d) /\ w' = (pop w) <| db := d |>.
Proof.
  unfold statement. rewrite (bind_step _ _ _ _ _ (next_fault_run w)).
  destruct (fails_next w); cbn; [by split; [|intros []]|].
  unfold bind, gets, of_result, set_db, modify, ret. destruct (f (pop w)) as [[b d]|e]; cbn; naive_solver.
Qed.
Lemma select_Ok {A} (f : database D -> A) a w w' :
  select f w = Ok a w' <-> fails_next w = false /\ a = f (db w) /\ w' = pop w.
Proof.
  unfold select. rewrite statement_Ok. split.
  - intros (? & d & [= <- <-] & ->). split_and!; [done..|by destruct w].
  - intros (? & -> & ->). split; [done|]. eexists. split; [done|]. by destruct w.
Qed.
Lemma execute_Ok (f : database D -> database D) u w w' :
  execute f w = Ok u w' <-> fails_next w = false /\ w' = (pop w) <| db := f (db w) |>.
Proof.
  unfold execute. rewrite statement_Ok. destruct u. split.
  - by intros (? & d & [= <-] & ->).
  - intros (? & ->). eauto.
Qed.
Lemma checked_execute_Ok (f : database D -> option (database D)) u w w' :
  checked_execute f w = Ok u w' <->
  fails_next w = false /\ exists d, f (db w) = Some d /\ w' = (pop w) <| db := d |>.
Proof.
  unfold checked_execute. rewrite statement_Ok. cbn. destruct u, (f (db w)); naive_solver.
Qed.
Lemma or_return_Ok {E1 E2 A} (m : M W E1 A) (k : E1 -> E2) a w w' :
  or_return m k w = Ok a w' <-> m w = Ok a w'.
Proof. unfold or_return. destruct (m w); naive_solver. Qed.
Lemma or_500_Ok {A} (m : M W sqlx_error A) msg a w w' : or_500 m msg w = Ok a w' <-> m w = Ok a w'.
Proof. apply or_return_Ok. Qed.
Lemma outcome_of_Ok {E1 E2 A} (m : M W E1 A) r w w' :
  @outcome_of D E1 E2 A m w = Ok r w' <->
  match r with ROk a => m w = Ok a w' | RErr e => m w = Fail e w' end.
Proof. unfold outcome_of. destruct (m w), r; naive_solver. Qed.

Lemma transaction_Ok {E A} (be ce : E) (body : M W E A) a w w' :
  transaction be ce body w = Ok a w' <->
  fails_next w = false /\ exists w1, body (pop w) = Ok a w1 /\ fails_next w1 = false /\ w' = pop w1.
Proof.
  unfold transaction. rewrite (bind_step _ _ _ _ _ (next_fault_run w)).
  destruct (fails_next w); cbn; [by split; [|intros []]|].
  unfold bind at 1, reject_if, ret. unfold bind at 1, gets. unfold bind at 1, attempt.
  destruct (body (pop w)) as [b w1|e w1|]; [| |naive_solver].
  - unfold bind. rewrite next_fault_run. destruct (fails_next w1) eqn:Hf; cbn.
    + split; [done|]. intros (_ & w0 & [= <- <-] & ? & _). congruence.
    + split; [intros [= <- <-]; eauto|by intros (_ & w0 & [= <- <-] & _ & ->)].
  - unfold bind, set_db, modify, fail. naive_solver.
Qed.
(** A transaction that fails leaves the tables as they were. *)
Lemma transaction_Fail {E A} (be ce : E) (body : M W E A) e w w' :
  transaction be ce body w = Fail e w' -> db w' = db w.
Proof.
  unfold transaction. rewrite (bind_step _ _ _ _ _ (next_fault_run w)).
  destruct (fails_next w); cbn; [by intros [= _ <-]|].
  unfold bind at 1, reject_if, ret. unfold bind at 1, gets. unfold bind at 1, attempt.
  destruct (body (pop w)) as [b w1|e1 w1|]; [| |done].
  - unfold bind. rewrite next_fault_run. destruct (fails_next w1) eqn:Hf; cbn; [|done].
    by intros [= _ <-].
  - unfold bind, set_db, modify, fail. by intros [= _ <-].
Qed.
End inversion.

(** * Framing *)

Section framing.
Context {D B : Type} (f : backend D -> B).
Abbreviation W := (backend D).

Lemma keeps_next_fault {E} : (forall w, f (pop w) = f w) -> keeps f (@next_fault D E).
Proof. intros Hf w. rewrite next_fault_run. apply Hf. Qed.
Lemma keeps_statement {A} (g : W -> result sqlx_error (A * database D)) :
  (forall w, f (pop w) = f w) ->
  (forall w a d, g w = ROk (a, d) -> f (w <| db := d |>) = f w) -> keeps f (statement g).
Proof.
  intros Hf Hg w. unfold statement. rewrite (bind_step _ _ _ _ _ (next_fault_run w)).
  destruct (fails_next w); cbn; [apply Hf|].
  unfold bind, gets, of_result, set_db, modify, ret. destruct (g (pop w)) as [[a d]|e] eqn:Hgw; cbn; [|apply Hf].
  rewrite <-(Hf w). exact (Hg _ a d Hgw).
Qed.
Lemma keeps_select {A} (g : database D -> A) : (forall w, f (pop w) = f w) -> keeps f (select g).
Proof. intros Hf. apply keeps_statement; [done|]. intros w a d [= _ <-]. by destruct w. Qed.
Lemma keeps_or_return {E1 E2 A} (m : M W E1 A) (k : E1 -> E2) : keeps f m -> keeps f (or_return m k).
Proof. intros Hm w. specialize (Hm w). unfold or_return. by destruct (m w). Qed.
Lemma keeps_or_500 {A} (m : M W sqlx_error A) msg : keeps f m -> keeps f (or_500 m msg).
Proof. apply keeps_or_return. Qed.
Lemma keeps_or_else {E1 E2 A} (m : M W E1 A) a : keeps f m -> keeps f (or_else m a : M W E2 A).
Proof. intros Hm w. specialize (Hm w). unfold or_else. by destruct (m w). Qed.
Lemma keeps_on_cache {A} (m : Z -> M service CacheError A) :
  (forall w c fs, f (w <| cache := c |> <| faults := fs |>) = f w) -> keeps f (on_cache m).
Proof. intros Hf. apply keeps_bind; [by apply keeps_gets|]. intros now. apply keeps_zoom. intros s w. apply Hf. Qed.
Lemma keeps_outcome_of {E1 E2 A} (m : M W E1 A) : keeps f m -> keeps f (outcome_of m : M W E2 _).
Proof. intros Hm w. specialize (Hm w). unfold outcome_of. by destruct (m w). Qed.
End framing.

Lemma moves_Fail {W E A} (R : W -> W -> Prop) (m : M W E A) w e w' : moves R m -> m w = Fail e w' -> R w w'.
Proof. intros Hm Hr. specialize (Hm w). by rewrite Hr in Hm. Qed.
Lemma moves_outcome_of {D E1 E2 A} (R : relation (backend D)) (m : M (backend D) E1 A) :
  moves R m -> moves R (outcome_of m : M _ E2 _).
Proof. intros Hm w. specialize (Hm w). unfold outcome_of. by destruct (m w). Qed.

(** * Errors that leave tables as they were *)

Definition fails_keeping {W E A B} (f : W -> B) (m : M W E A) : Prop :=
  forall w e w', m w = Fail e w' -> f w' = f w.

Section fails.
Context {W E B : Type} (f : W -> B).

Lemma fails_keeping_keeps {A} (m : M W E A) : keeps f m -> fails_keeping f m.
Proof. intros Hk w e w' Hf. specialize (Hk w). by rewrite Hf in Hk. Qed.
Lemma fails_keeping_bind {A C} (m : M W E A) (k : A -> M W E C) :
  keeps f m -> (forall a, fails_keeping f (k a)) -> fails_keeping f (bind m k).
Proof.
  intros Hm Hk w e w'. unfold bind. specialize (Hm w). destruct (m w) as [a w1|e1 w1|] eqn:Hw; [|congruence|done].
  intros Hf. rewrite <-Hm. by eapply Hk.
Qed.
(** What follows a change must not fail. *)
Lemma fails_keeping_last {A C} (m : M W E A) (k : A -> M W E C) :
  fails_keeping f m -> (forall a, no_err (k a)) -> fails_keeping f (bind m k).
Proof.
  intros Hm Hk w e w'. unfold bind. destruct (m w) as [a w1|e1 w1|] eqn:Hw; [|intros [= <- <-]; by eapply Hm|done].
  intros Hf. by destruct (Hk a w1 e w').
Qed.
End fails.
Lemma fails_keeping_or_500 {D B A} (f : backend D -> B) (m : M (backend D) sqlx_error A) msg :
  fails_keeping f m -> fails_keeping f (or_500 m msg).
Proof.
  intros Hm w e w'. unfold or_500, or_return. destruct (m w) as [a w1|e1 w1|] eqn:Hw; [done| |done].
  intros [= _ <-]. by eapply Hm.
Qed.
Lemma fails_keeping_statement {D B A} (f : backend D -> B) (g : backend D -> result sqlx_error (A * database D)) :
  (forall w, f (pop w) = f w) -> fails_keeping f (statement g).
Proof.
  intros Hf w e w'. unfold statement. rewrite (bind_step _ _ _ _ _ (next_fault_run w)).
  destruct (fails_next w); cbn; [intros [= _ <-]; apply Hf|].
  unfold bind, gets, of_result, set_db, modify, ret, fail. destruct (g (pop w)) as [[a d]|e1]; cbn; [done|].
  intros [= _ <-]. apply Hf.
Qed.
Lemma no_err_or_else {D E1 E2 A} (m : M (backend D) E1 A) a : no_err (or_else m a : M _ E2 A).
Proof. intros w e w'. unfold or_else. by destruct (m w). Qed.

Section announcements.
Context {D : Type} `{Postgres}.
Abbreviation W := (backend D).

Lemma keeps_enqueue_event {B} (f : W -> B) type (p : payload D) :
  (forall w, f (pop w) = f w) ->
  (forall w d, f (w <| db := (db w) <| webhook_dispatches := d |> |>) = f w) ->
  (forall w n, f (w <| drawn := n |>) = f w) ->
  keeps f (enqueue_event type p).
Proof.
  intros Hp Hd Hn. apply keeps_bind; [by apply keeps_select|]. intros eps. apply keeps_foldM. intros _ ep.
  apply keeps_bind.
  - repeat (apply keeps_bind; [|intros ?]); [by eauto with keeps|by apply keeps_modify|by eauto with keeps].
  - intros id. apply keeps_statement; [done|]. intros w a d [= _ <-]. apply Hd.
Qed.
End announcements.

(** * Tables that only move along a relation *)

Section tables.
Context {D : Type} (Q : relation (database D)) `{!PreOrder Q}.
Abbreviation W := (backend D).

Definition tables_move (w w' : W) : Prop := Q (db w) (db w').
#[export] Instance tables_move_preorder : PreOrder tables_move.
Proof. split; [intros w; unfold tables_move; reflexivity|intros w1 w2 w3; unfold tables_move; by etrans]. Qed.

Lemma tables_keeps {E A} (m : M W E A) : keeps db m -> moves tables_move m.
Proof. intros Hk. eapply keeps_moves; [exact Hk|]. unfold tables_move. by intros w w' ->. Qed.
Lemma tables_statement {A} (g : W -> result sqlx_error (A * database D)) :
  (forall w a d, g w = ROk (a, d) -> Q (db w) d) -> moves tables_move (statement g).
Proof.
  intros Hg w. unfold statement. rewrite (bind_step _ _ _ _ _ (next_fault_run w)).
  destruct (fails_next w); cbn; [unfold tables_move; reflexivity|].
  unfold bind, gets, of_result, set_db, modify, ret, fail.
  destruct (g (pop w)) as [[a d]|e] eqn:Hgw; cbn; [exact (Hg _ a d Hgw)|unfold tables_move; reflexivity].
Qed.
Lemma tables_execute f : (forall d, Q d (f d)) -> moves tables_move (execute f).
Proof. intros Hf. apply tables_statement. intros w a d [= _ <-]. apply Hf. Qed.
Lemma tables_checked_execute f :
  (forall d d', f d = Some d' -> Q d d') -> moves tables_move (checked_execute f).
Proof.
  intros Hf. apply tables_statement. intros w a d. destruct (f (db w)) eqn:Hd; [|done]. intros [= _ <-]. by apply Hf.
Qed.
Lemma tables_select {A} (f : database D -> A) : moves tables_move (select f).
Proof. apply tables_statement. intros w a d [= _ <-]. reflexivity. Qed.
Lemma tables_or_return {E1 E2 A} (m : M W E1 A) (k : E1 -> E2) : moves tables_move m -> moves tables_move (or_return m k).
Proof. intros Hm w. specialize (Hm w). unfold or_return. by destruct (m w). Qed.
Lemma tables_or_500 {A} (m : M W sqlx_error A) msg : moves tables_move m -> moves tables_move (or_500 m msg).
Proof. apply tables_or_return. Qed.
Lemma tables_or_else {E1 E2 A} (m : M W E1 A) a : moves tables_move m -> moves tables_move (or_else m a : M W E2 A).
Proof. intros Hm w. specialize (Hm w). unfold or_else. by destruct (m w). Qed.
Lemma tables_transaction {E A} (be ce : E) (body : M W E A) :
  moves tables_move body -> moves tables_move (transaction be ce body).
Proof.
  intros Hm w. destruct (transaction be ce body w) as [a w'|e w'|] eqn:Ht; [| |done].
  - apply transaction_Ok in Ht as (_ & w1 & Hb & _ & ->). exact (moves_Ok _ _ _ _ _ Hm Hb).
  - unfold tables_move. rewrite (transaction_Fail _ _ _ _ _ _ Ht). reflexivity.
Qed.
End tables.

(** Decompose [moves (tables_move Q) m]; the statements that write are left. *)
Ltac tables_step :=
  lazymatch goal with
  | |- moves _ (statement _) => fail
  | |- moves _ (execute _) => fail
  | |- moves _ (checked_execute _) => fail
  | _ => idtac
  end;
  first
  [ apply tables_select; exact _
  | apply tables_or_500 | apply tables_or_return | apply tables_or_else
  | apply tables_transaction; [exact _|]
  | moves_step
  | apply tables_keeps; [exact _|]; solve [apply keeps_modify; intros []; reflexivity]
  | apply tables_keeps; [exact _|]; apply keeps_on_cache; intros []; reflexivity ].
Ltac tables_tac := intros; repeat tables_step.

(** Decompose [keeps f m] for an [f] that no environment choice affects. *)
Ltac bkeeps_step :=
  first
  [ done
  | solve [eauto with keeps nocore]
  | apply keeps_select; intros []; reflexivity
  | apply keeps_next_fault; intros []; reflexivity
  | apply keeps_enqueue_event; intros []; reflexivity
  | apply keeps_on_cache; intros []; reflexivity
  | apply keeps_statement; [intros []; reflexivity|]
  | apply keeps_bind; [|intros ?]
  | apply keeps_when
  | apply keeps_or_500
  | apply keeps_or_return
  | apply keeps_or_else
  | apply keeps_outcome_of
  | apply keeps_foldM; intros ? ?
  | apply keeps_modify; intros []; reflexivity
  | match goal with
    | |- keeps _ (match ?x with _ => _ end) => destruct x
    | |- keeps _ (let '_ := ?x in _) => destruct x
    end ].
Ltac bkeeps_tac := intros; repeat bkeeps_step.

(** The inversion steps of the backend's primitives. *)
Ltac backend_inv1 :=
  match goal with
  | H : or_500 _ _ _ = Ok _ _ |- _ => apply or_500_Ok in H
  | H : or_return _ _ _ = Ok _ _ |- _ => apply or_return_Ok in H
  | H : select _ _ = Ok _ _ |- _ => apply select_Ok in H
  | H : execute _ _ = Ok _ _ |- _ => apply execute_Ok in H
  | H : checked_execute _ _ = Ok _ _ |- _ => apply checked_execute_Ok in H
  | H : statement _ _ = Ok _ _ |- _ => apply statement_Ok in H
  | H : transaction _ _ _ _ = Ok _ _ |- _ => apply transaction_Ok in H
  | H : outcome_of _ _ = Ok _ _ |- _ => apply outcome_of_Ok in H
  | H : get_plan _ _ = Ok _ _ |- _ => unfold get_plan in H
  end.

(** A transaction that fails changed no table. *)
Lemma fails_keeping_transaction {D E A} (be ce : E) (body : M (backend D) E A) :
  fails_keeping db (transaction be ce body).
Proof. intros w e w'. apply transaction_Fail. Qed.

Definition empty_db {D} : database D := mkDb ∅ [] [] ∅ ∅ ∅ ∅ [] [] ∅ ∅ ∅ ∅.
End BackendTypes.
