(* ===== verification/StellarSubmit.v ===== *)
(** The client that builds, simulates, submits and follows contract
    invocations (src/backend/src/stellar_submit.rs). *)
From S2P Require Import Prelude Host Text StellarXdr BackendTypes.
Import Text StellarXdr BackendTypes.

Module StellarSubmit.

Definition BASE_FEE_STROOPS : Z := 100.
Definition TX_VALID_FOR_SECS : Z := 300.
Definition i64_max : Z := 9223372036854775807.
Definition i64_min : Z := -9223372036854775808.
(** [i64::saturating_add]. *)
Definition saturating_add_i64 (a b : Z) : Z := Z.max i64_min (Z.min i64_max (a + b)).

(** [SorobanContext]: the parsed configuration; durations in nanoseconds. *)
Record SorobanContext := mkContext {
  contract : ContractId;
  public_key : list Z;
  poll_interval : Z;
  poll_timeout : Z
}.
(** [StellarSubmitClient], as far as its calls depend on it. *)
Abbreviation StellarSubmitClient := (option SorobanContext).

Definition soroban_enabled (c : StellarSubmitClient) : bool := bool_decide (is_Some c).
Definition client_contract (c : StellarSubmitClient) : option ContractId := contract <$> c.

(** What a transaction carries besides its invocation. *)
Record Transaction := mkTransaction {
  tx_fee : Z; seq_num : Z; max_time : Z; tx_function : text; tx_args : list ScVal
}.

(** Hashing and signing: the transaction's hash in hex. *)
Class Signer := { sign : SorobanContext -> Transaction -> text }.

Definition signer_account_scval (ctx : SorobanContext) : ScVal := Account (public_key ctx).

(** The number of polls the deadline allows; [poll_interval] is positive. *)
Definition poll_budget (ctx : SorobanContext) : nat :=
  Z.to_nat (poll_timeout ctx / poll_interval ctx) + 2.

Section client.
Context {D : Type} `{Signer}.
Abbreviation W := (backend D).
Abbreviation X A := (M W StellarSubmitError A).
Implicit Types (ctx : SorobanContext) (w : W).

Definition soroban (c : StellarSubmitClient) : X SorobanContext := ok_or c NotConfigured.

Definition next_sequence ctx : X Z :=
  let! a := http GetAccount in
  match a with
  | AccountSequence (Some current) => ret (saturating_add_i64 current 1)
  | _ => fail Network
  end.

(** The error of an RPC reply that carries no result of the expected shape. *)
Definition rpc_error (a : answer) : StellarSubmitError :=
  match a with
  | RpcFault | EmptyResult => Rpc
  | _ => Network
  end.

(** [build_transaction]: the fee must fit the wire's [u32]. *)
Definition build_transaction (sequence valid_until fee : Z) (function : text) (args : list ScVal) : X Transaction :=
  do! reject_if (negb ((0 <=? fee) && (fee <=? u32_max))) (Simulation (lit "resource fee exceeds u32"));
  ret (mkTransaction fee sequence valid_until function args).

Record SimulationResult := mkSimulation { sim_fee : Z; simulated_value : option ScVal }.

(** [.ok_or(..)?] and decoding of a reply's field. *)
Definition decoded {A} (f : field A) (missing undecodable : StellarSubmitError) : X A :=
  match f with Decoded a => ret a | Missing => fail missing | Undecodable => fail undecodable end.

Definition simulate ctx (tx : Transaction) : X SimulationResult :=
  let! a := http (Simulate (tx_function tx) (tx_args tx)) in
  match a with
  | SimulateReply r =>
    match sim_error r with
    | Some error => fail (Simulation error)
    | None =>
      do! decoded (transaction_data r) (Simulation (lit "no transactionData returned")) Xdr;
      let! fee := match min_resource_fee r with
                  | Missing => ret 0
                  | Decoded fee => ret fee
                  | Undecodable => fail (Simulation (lit "malformed minResourceFee"))
                  end in
      let! value := match sim_value r with
                    | Missing => ret None
                    | Decoded v => ret (Some v)
                    | Undecodable => fail Xdr
                    end in
      do! match sim_auth r with Undecodable => fail Xdr | _ => ret tt end;
      ret (mkSimulation fee value)
    end
  | a => fail (rpc_error a)
  end.

Definition send_transaction ctx (tx : Transaction) (hash : text) : X unit :=
  let! a := http (Send hash (tx_function tx) (tx_args tx)) in
  match a with
  | SendReply r =>
    if (bool_decide (send_status r = "PENDING") || bool_decide (send_status r = "DUPLICATE"))%string
    then ret tt
    else if bool_decide (send_status r = "TRY_AGAIN_LATER"%string) then fail Rpc
    else fail TransactionFailed
  | a => fail (rpc_error a)
  end.

(** One poll: the outcome once the transaction is in a ledger. *)
Definition poll ctx (hash : text) : X (option InvocationOutcome) :=
  let! a := http (GetTransaction hash) in
  match a with
  | GetReply r =>
    if bool_decide (get_status r = "SUCCESS"%string) then
      match result_meta r with
      | Decoded meta => ret (Some (mkOutcome hash (contract_events meta) (return_value meta)))
      | Missing => ret (Some (mkOutcome hash [] None))
      | Undecodable => fail Xdr
      end
    else if bool_decide (get_status r = "FAILED"%string) then fail TransactionFailed
    else ret None
  | a => fail (rpc_error a)
  end.

Fixpoint await_loop (fuel : nat) ctx (hash : text) (deadline : Z) : X InvocationOutcome :=
  match fuel with
  | O => trap
  | S fuel =>
    let! outcome := poll ctx hash in
    match outcome with
    | Some outcome => ret outcome
    | None =>
      let! now := gets clock in
      do! reject_if (deadline <=? now) Timeout;
      do! sleep (poll_interval ctx);
      await_loop fuel ctx hash deadline
    end
  end.

Definition await_transaction ctx (hash : text) : X InvocationOutcome :=
  let! now := gets clock in
  await_loop (poll_budget ctx) ctx hash (now + poll_timeout ctx).

Definition invoke_contract (c : StellarSubmitClient) (function : text) (args : list ScVal) : X InvocationOutcome :=
  let! ctx := soroban c in
  let! sequence := next_sequence ctx in
  let! now := gets now_secs in
  let valid_until := now + TX_VALID_FOR_SECS in
  let! unsigned := build_transaction sequence valid_until BASE_FEE_STROOPS function args in
  let! simulation := simulate ctx unsigned in
  let! assembled := build_transaction sequence valid_until
                      (saturating_add_i64 BASE_FEE_STROOPS (sim_fee simulation)) function args in
  let hash := sign ctx assembled in
  do! send_transaction ctx assembled hash;
  await_transaction ctx hash.

Definition simulate_contract (c : StellarSubmitClient) (function : text) (args : list ScVal) : X ScVal :=
  let! ctx := soroban c in
  let! sequence := next_sequence ctx in
  let! now := gets now_secs in
  let! unsigned := build_transaction sequence (now + TX_VALID_FOR_SECS) BASE_FEE_STROOPS function args in
  let! simulation := simulate ctx unsigned in
  ok_or (simulated_value simulation) (Simulation (lit "no return value")).

Definition invoke_admin (c : StellarSubmitClient) (function : text) (rest : list ScVal) : X InvocationOutcome :=
  let! ctx := soroban c in
  invoke_contract c function (signer_account_scval ctx :: rest).

Definition trigger_inheritance (c : StellarSubmitClient) (plan_id : Z) : X InvocationOutcome :=
  invoke_admin c (lit "trigger_inheritance") [U64 plan_id].
Definition freeze_loans (c : StellarSubmitClient) (plan_id : Z) : X InvocationOutcome :=
  invoke_admin c (lit "freeze_loans") [U64 plan_id].
Definition recall_loan (c : StellarSubmitClient) (plan_id recall_amount : Z) : X InvocationOutcome :=
  invoke_admin c (lit "recall_loan") [U64 plan_id; U64 recall_amount].
Definition liquidation_fallback (c : StellarSubmitClient) (plan_id : Z) : X InvocationOutcome :=
  invoke_admin c (lit "liquidation_fallback") [U64 plan_id].

Definition outstanding_loaned (c : StellarSubmitClient) (plan_id : Z) : X (option Z) :=
  let! value := simulate_contract c (lit "get_inheritance_trigger") [U64 plan_id] in
  ret (parse_outstanding_loaned value).

(** [submit]: relay a signed envelope to Horizon. *)
Definition submit (xdr : text) : X unit :=
  let! a := http (PostHorizon xdr) in
  match a with
  | HorizonReply true => ret tt
  | HorizonReply false => fail Rejected
  | _ => fail Network
  end.

(** [health_check]: the Horizon root answers. *)
Definition health_check {E} : M W E bool :=
  let! a := http GetHorizon in
  ret (match a with HorizonReply ok => ok | _ => false end).

(** * Lemmas *)

(** The environment's answers are used up from the front, and nothing but the
    network, the clock and the log of requests is touched. *)
Record exchanged (w w' : W) : Prop := {
  ex_network : exists used, network w = used ++ network w';
  ex_requests : exists sent, requests w' = requests w ++ sent;
  ex_rest : (db w', faults w', drawn w', cache w', broadcasts w') = (db w, faults w, drawn w, cache w, broadcasts w)
}.
#[export] Instance exchanged_preorder : PreOrder exchanged.
Proof.
  split.
  - intros w. split; [by exists []|exists []; by rewrite app_nil_r|done].
  - intros w1 w2 w3 [[u1 Hn1] [s1 Hr1] He1] [[u2 Hn2] [s2 Hr2] He2]. split.
    + exists (u1 ++ u2). by rewrite Hn1, Hn2, app_assoc.
    + exists (s1 ++ s2). by rewrite Hr2, Hr1, app_assoc.
    + congruence.
Qed.
Lemma exchanged_db w w' : exchanged w w' -> db w' = db w.
Proof. intros [_ _ Hr]. by injection Hr. Qed.
Lemma exchanged_moves_tables {E A} (Q : relation (database D)) `{!PreOrder Q} (m : M W E A) :
  moves exchanged m -> moves (tables_move Q) m.
Proof. apply moves_weaken. unfold tables_move. by intros w w' ->%exchanged_db. Qed.

Lemma http_exchanged {E} r : moves exchanged (http r : M W E answer).
Proof.
  intros w. unfold http. cbn. destruct w as [d fs [|a rest] t n c rq bs]; cbn.
  - split; cbn; [by exists []|by exists [r]|done].
  - split; cbn; [by exists [a]|by exists [r]|done].
Qed.
Lemma sleep_exchanged {E} n : moves exchanged (sleep n : M W E unit).
Proof. intros w. split; cbn; [by exists []|exists []; by rewrite app_nil_r|done]. Qed.

(** What an exchange answers is the next reply, or that the network is down. *)
Lemma http_Ok {E} r a w w' :
  (http r : M W E answer) w = Ok a w' -> a = Unreachable \/ exists x, x ∈ network w /\ reply x = a.
Proof.
  unfold http. cbn. destruct w as [d fs [|x rest] t n c rq bs]; cbn; [by intros [= <- _]; left|].
  intros [= <- _]. right. exists x. split; [by left|done].
Qed.

(** [o] is what one of the replies reports as included in a ledger. *)
Definition landed (replies : list net_reply) (o : InvocationOutcome) : Prop :=
  exists x r, x ∈ replies /\ reply x = GetReply r /\ get_status r = "SUCCESS"%string /\
    outcome_events o = match result_meta r with Decoded meta => contract_events meta | _ => [] end.

Lemma landed_mono rs used rest o : rs = used ++ rest -> landed rest o -> landed rs o.
Proof. intros -> (x & r & Hx & ?). exists x, r. split; [set_solver|done]. Qed.
End client.

Create HintDb exchanged.
#[export] Hint Resolve http_exchanged sleep_exchanged : exchanged.
Ltac exchanged_step :=
  first
  [ solve [auto with exchanged nocore]
  | apply moves_bind; [exact _| |intros ?]
  | progress unfold decoded
  | apply moves_no_state; solve [exact _ | keeps_tac]
  | match goal with
    | |- moves _ (match ?x with _ => _ end) => destruct x
    end ].
Ltac exchanged_tac := intros; repeat exchanged_step.

Section lemmas.
Context {D : Type} `{Signer}.
Abbreviation W := (backend D).
Implicit Types (ctx : SorobanContext) (c : StellarSubmitClient) (w : W).

Lemma poll_exchanged ctx h : moves exchanged (poll ctx h : M W _ _).
Proof. unfold poll. exchanged_tac. Qed.
Lemma await_loop_exchanged fuel ctx h dl : moves exchanged (await_loop fuel ctx h dl : M W _ _).
Proof.
  induction fuel as [|fuel IH]; cbn [await_loop]; [exchanged_tac|].
  apply moves_bind; [exact _|apply poll_exchanged|]. intros [o|]; [exchanged_tac|].
  apply moves_bind; [exact _|exchanged_tac|]. intros now. apply moves_bind; [exact _|exchanged_tac|]. intros _.
  apply moves_bind; [exact _|exchanged_tac|]. intros _. exact IH.
Qed.
Lemma await_transaction_exchanged ctx h : moves exchanged (await_transaction ctx h : M W _ _).
Proof. apply moves_bind; [exact _|exchanged_tac|]. intros now. apply await_loop_exchanged. Qed.
Lemma simulate_exchanged ctx tx : moves exchanged (simulate ctx tx : M W _ _).
Proof. unfold simulate. exchanged_tac. Qed.
Lemma invoke_contract_exchanged c f args : moves exchanged (invoke_contract c f args : M W _ _).
Proof.
  unfold invoke_contract, soroban, next_sequence, build_transaction, send_transaction.
  repeat first [apply simulate_exchanged|apply await_transaction_exchanged|exchanged_step].
Qed.
Lemma invoke_admin_exchanged c f args : moves exchanged (invoke_admin c f args : M W _ _).
Proof. unfold invoke_admin, soroban. repeat first [apply invoke_contract_exchanged|exchanged_step]. Qed.
Lemma trigger_inheritance_exchanged c id : moves exchanged (trigger_inheritance c id : M W _ _).
Proof. apply invoke_admin_exchanged. Qed.
Lemma outstanding_loaned_exchanged c id : moves exchanged (outstanding_loaned c id : M W _ _).
Proof.
  unfold outstanding_loaned, simulate_contract, soroban, next_sequence, build_transaction.
  repeat first [apply simulate_exchanged|exchanged_step].
Qed.
Lemma submit_exchanged xdr : moves exchanged (submit xdr : M W _ _).
Proof. unfold submit. exchanged_tac. Qed.

(** * Outcomes come from the ledger *)

Lemma poll_landed ctx h o w w' : poll ctx h w = Ok (Some o) w' -> landed (network w) o.
Proof.
  unfold poll. intros Hr. run_bind Hr. match goal with Hh : http _ _ = Ok _ _ |- _ => apply http_Ok in Hh end.
  destruct x as [| | | |sq|sr|sd|r|ac|an|wb]; try by apply fail_Ok in Hr.
  case_bool_decide as Hs; [|by case_bool_decide; [apply fail_Ok in Hr|apply ret_Ok in Hr as [? _]]].
  destruct H0 as [?|(x & Hx & Hrep)]; [done|]. exists x, r. split_and!; [done..|].
  destruct (result_meta r); [by apply ret_Ok in Hr as [[= ->] _]|by apply fail_Ok in Hr|by apply ret_Ok in Hr as [[= ->] _]].
Qed.
Lemma moves_network {A} (m : M W StellarSubmitError A) w a w' :
  moves exchanged m -> m w = Ok a w' -> exists used, network w = used ++ network w'.
Proof. intros Hm Hr. apply (moves_Ok exchanged m w a w' Hm) in Hr. apply Hr. Qed.
Lemma await_loop_landed fuel ctx h dl o w w' : await_loop fuel ctx h dl w = Ok o w' -> landed (network w) o.
Proof.
  revert w. induction fuel as [|fuel IH]; cbn [await_loop]; intros w Hr; [by apply trap_Ok in Hr|].
  run_bind Hr. destruct x as [o1|].
  - apply ret_Ok in Hr as [-> _]. by eapply poll_landed.
  - match goal with Hp : poll _ _ _ = Ok _ _ |- _ => apply moves_network in Hp as [u Hu]; [|apply poll_exchanged] end.
    run_bind Hr. match goal with Hg : gets _ _ = Ok _ _ |- _ => apply gets_Ok in Hg as [-> ->] end.
    run_bind Hr. match goal with Hg : reject_if _ _ _ = Ok _ _ |- _ => apply reject_if_Ok in Hg as [_ ->] end.
    run_bind Hr. match goal with Hg : sleep _ _ = Ok _ _ |- _ => apply modify_Ok in Hg as [_ ->] end.
    apply IH in Hr. by eapply landed_mono.
Qed.
Lemma landed_before {A} (m : M W StellarSubmitError A) w a w1 o :
  moves exchanged m -> m w = Ok a w1 -> landed (network w1) o -> landed (network w) o.
Proof. intros Hm Hr Hl. destruct (moves_network m w a w1 Hm Hr) as [u Hu]. by eapply landed_mono. Qed.
Lemma invoke_landed c f args o w w' : invoke_contract c f args w = Ok o w' -> landed (network w) o.
Proof.
  unfold invoke_contract. intros Hr. repeat run_bind Hr.
  apply await_loop_landed in Hr.
  repeat match goal with
  | Hs : ?m ?w1 = Ok _ ?w2, Hl : landed (network ?w2) o |- _ =>
    let Hm := fresh in
    assert (moves exchanged m) as Hm by
      (unfold soroban, next_sequence, build_transaction, send_transaction;
        repeat first [apply simulate_exchanged|exchanged_step]);
    apply (landed_before m w1 _ w2 o Hm Hs) in Hl; clear Hs Hm
  end.
  exact Hr.
Qed.
Lemma admin_landed c f args o w w' : invoke_admin c f args w = Ok o w' -> landed (network w) o.
Proof.
  unfold invoke_admin, soroban. intros Hr. run_bind Hr. apply invoke_landed in Hr.
  match goal with Ho : ok_or _ _ _ = Ok _ _ |- _ => by apply ok_or_Ok in Ho as [_ ->] end.
Qed.

(** * Polling ends *)

Definition replies_forward w : Prop := Forall (fun x => 0 <= took x) (network w).

Lemma poll_clock ctx h w :
  replies_forward w ->
  match poll ctx h w with
  | Ok _ w' | Fail _ w' =>
    clock w <= clock w' /\ replies_forward w' /\ requests w' = requests w ++ [GetTransaction h]
  | Trap => False
  end.
Proof.
  unfold replies_forward, poll, bind, http. destruct w as [d fs [|x rest] t n ca rq bs]; cbn; [done|].
  intros Hf. inversion Hf as [|? ? Hx Hrest]; subst. destruct x as [tk rp]; cbn in *.
  destruct rp as [| | | |sq|sr|sd|r|ac|an|wb]; cbn; try (split_and!; [lia|done..]).
  case_bool_decide; [|case_bool_decide]; try destruct (result_meta r); cbn; split_and!; (lia || done).
Qed.

(** With enough fuel for the time left the loop returns, after as many polls
    at most. *)
Lemma await_loop_returns fuel ctx h dl w :
  0 < poll_interval ctx -> replies_forward w -> (1 <= fuel)%nat ->
  dl - clock w <= (Z.of_nat fuel - 1) * poll_interval ctx ->
  match await_loop fuel ctx h dl w with
  | Ok _ w' | Fail _ w' =>
    exists polls, (polls <= fuel)%nat /\ requests w' = requests w ++ replicate polls (GetTransaction h)
  | Trap => False
  end.
Proof.
  intros Hi. revert w. induction fuel as [|fuel IH]; intros w Hf H1 Hdl; [lia|]. cbn [await_loop].
  pose proof (poll_clock ctx h w Hf) as Hp. unfold bind at 1.
  destruct (poll ctx h w) as [[o|] w1|e w1|]; [| | |done]; destruct Hp as (Hc & Hf1 & Hrq).
  - cbn. exists 1%nat. split; [lia|by rewrite Hrq].
  - unfold bind, gets, reject_if. destruct (Z.leb_spec dl (clock w1)) as [Hd|Hd]; cbn.
    + exists 1%nat. split; [lia|by rewrite Hrq].
    + rewrite Nat2Z.inj_succ in Hdl. assert (1 <= fuel)%nat as Hfu by (destruct fuel; cbn in Hdl; lia).
      assert (dl - (clock w1 + poll_interval ctx) <= (Z.of_nat fuel - 1) * poll_interval ctx) as Hleft by nia.
      pose (w2 := w1 <| clock := clock w1 + poll_interval ctx |>). specialize (IH w2 Hf1 Hfu Hleft).
      subst w2. cbn in IH |- *.
      destruct (await_loop _ _ _ _ _) as [o w2|e w2|]; [| |done];
        destruct IH as (n & Hn & Hrq2); exists (S n); (split; [lia|]); rewrite Hrq2; cbn;
        by rewrite Hrq, <-app_assoc.
  - exists 1%nat. split; [lia|by rewrite Hrq].
Qed.

(** * Properties *)

(** C31: Waiting for a transaction ends: when polls take some time, whatever the network
    answers, the loop returns a result or an error after at most a computed number of
    polls, all of them for this transaction. *)
Theorem polling_ends ctx h w :
  0 < poll_interval ctx -> replies_forward w ->
  match await_transaction ctx h w with
  | Ok _ w' | Fail _ w' =>
    exists polls, (polls <= poll_budget ctx)%nat /\
      requests w' = requests w ++ replicate polls (GetTransaction h)
  | Trap => False
  end.
Proof.
  intros Hi Hf. unfold await_transaction, bind at 1, gets. apply await_loop_returns; [done|done|unfold poll_budget; lia|].
  unfold poll_budget. destruct (Z_le_gt_dec 0 (poll_timeout ctx)) as [Ht|Ht].
  - rewrite Nat2Z.inj_add, Z2Nat.id by (apply Z.div_pos; lia).
    pose proof (div_floor (poll_timeout ctx) (poll_interval ctx) Hi). nia.
  - nia.
Qed.
End lemmas.

(** * A run *)

Section example.
#[local] Instance example_signer : Signer := { sign := fun _ tx => tx_function tx }.
Definition example_ctx : SorobanContext := mkContext [1] [2] NANOS (2 * NANOS).
(** Four polls that find nothing, a second each. *)
Definition waiting : backend unit :=
  mkBackend empty_db [] (replicate 4 (mkReply NANOS (GetReply (mkGet "NOT_FOUND"%string Missing)))) 0 0 PlanCache.PlanCache.Disabled [] [].

Lemma polling_ends_witness :
  exists w' polls, await_transaction example_ctx (lit "h") waiting = Fail Timeout w' /\ (polls <= 4)%nat /\
    requests w' = replicate polls (GetTransaction (lit "h")).
Proof.
  pose proof (polling_ends example_ctx (lit "h") waiting eq_refl ltac:(repeat constructor; vm_compute; discriminate)) as Hp.
  destruct (await_transaction example_ctx (lit "h") waiting) as [o w'|e w'|] eqn:Hr; [exfalso; by vm_compute in Hr| |done].
  destruct Hp as (polls & Hn & Hrq). exists w', polls. split; [|by split].
  assert (e = Timeout) as -> by (vm_compute in Hr; congruence). reflexivity.
Defined.
End example.
End StellarSubmit.
