(* ===== verification/BackendExample.v ===== *)
(** Concrete services and a plan, on which the backend's theorems are tried. *)
From S2P Require Import Prelude Host Text PlanCache YieldCalculator StellarXdr BackendTypes StellarSubmit.
Import Text StellarXdr BackendTypes StellarSubmit.

Module BackendExample.

#[export] Instance example_cache_libs : CacheLibs := documented_libs elements.
#[export] Instance example_cache_libs_laws : CacheLibsLaws.
Proof. by constructor. Qed.
#[export] Instance example_postgres : Postgres :=
  { gen_random_uuid := Pos.of_succ_nat; row_order := fun _ l => l }.
#[export] Instance example_postgres_laws : PostgresLaws.
Proof. split; [intros m n; apply SuccNat2Pos.inj|done]. Qed.
#[export] Instance example_signer : Signer := { sign := fun _ tx => tx_function tx }.

(** A stand-in for the hash, good enough to run the code. *)
#[export] Instance example_hmac : Hmac :=
  { hmac_sha256 := fun key body => Some (take 32 (key ++ body ++ replicate 32 0)) }.
#[export] Instance example_hex : Hex := { hex_encode := fun bytes => bytes; hex_decode := Some }.

Definition demo_ctx : SorobanContext := mkContext [1] [2] NANOS (2 * NANOS).
(** A plan whose owner was last seen at second 100, with a minute of grace. *)
Definition silent_plan : PlanRow unit :=
  mkPlan (lit "GA") (lit "USDC") tt 60 60 false 100 true "ACTIVE" 0 tt 0 (Some 7) None 0 None None.
Definition database_of (p : PlanRow unit) : database unit := empty_db <| plans := {[ 1%positive := p ]} |>.
Definition world_of (p : PlanRow unit) (replies : list net_reply) (at_ : Z) : backend unit :=
  mkBackend (database_of p) [] replies (at_ * NANOS) 0 PlanCache.PlanCache.Disabled [] [].

Definition account : net_reply := mkReply 0 (AccountSequence (Some 5)).
Definition simulated : net_reply := mkReply 0 (SimulateReply (mkSimulate None (Decoded tt) (Decoded 10) (Decoded Void) Missing)).
Definition refused (error : text) : net_reply := mkReply 0 (SimulateReply (mkSimulate (Some error) Missing Missing Missing Missing)).
Definition pending : net_reply := mkReply 0 (SendReply (mkSend "PENDING")).
Definition triggered_event (id : Z) : ContractEvent :=
  mkEvent (Some [1]) [Symbol (lit "INHERIT"); Symbol (lit "TRIGGER")] (Map (Some [(Symbol (lit "plan_id"), U64 id)])).
Definition landed_with (es : list ContractEvent) : net_reply :=
  mkReply NANOS (GetReply (mkGet "SUCCESS" (Decoded (V3 (Some (es, Void)))))).
Definition not_found : net_reply := mkReply NANOS (GetReply (mkGet "NOT_FOUND" Missing)).

(** Decimals as multiples of 10^-28. *)
#[export] Instance fixed_decimal : DecimalOps Z := {
  dzero := 0;
  dec_of_Z n := n * DECIMAL_ONE;
  dadd a b := Some (a + b);
  dsub a b := Some (a - b);
  dmul a b := Some (a * b / DECIMAL_ONE);
  ddiv a b := if b =? 0 then None else Some (a * DECIMAL_ONE / b);
  dfloor a := a / DECIMAL_ONE * DECIMAL_ONE;
  dnormalize a := a;
  dle := Z.leb;
  from_f64_retain x :=
    match x with
    | S754_zero _ => Some 0
    | S754_finite s m e =>
      let n := Zpos m * DECIMAL_ONE in
      let v := if 0 <=? e then Z.shiftl n e else Z.shiftr n (- e) in
      Some (if s then - v else v)
    | _ => None
    end;
  to_f64 a := YieldCalculator.fdiv (YieldCalculator.of_Z a)
                (YieldCalculator.of_Z DECIMAL_ONE);
  numeric_add := Z.add;
  numeric0 a := (2 * a + DECIMAL_ONE) / (2 * DECIMAL_ONE) * DECIMAL_ONE;
  numeric4 a := (2 * a + 10 ^ 24) / (2 * 10 ^ 24) * 10 ^ 24
}.
#[export] Instance fixed_decimal_laws : DecimalLaws Z.
Proof.
  refine {| val a := a; payable a := (10000 | a) |}.
  - intros a b. apply Z.leb_le.
  - done.
  - done.
  - intros a b _ _. by eexists.
  - intros a n [k ->] Hn. cbn. rewrite Z.mul_assoc, Z.div_mul by done. do 2 eexists. split_and!; [done|done|].
    rewrite Z.div_mul_cancel_r by done. replace (k * 10000 * n) with (k * n * 10000) by lia. rewrite Z.div_mul by done. lia.
  - intros a n m q Ha Hn [= <-] [= <-]. rewrite Z.mul_assoc, Z.div_mul, Z.div_mul_cancel_r by done. split; [apply Z.div_pos; lia|].
    pose proof (Z.div_mod (a * n) 10000 ltac:(done)). pose proof (Z.mod_pos_bound (a * n) 10000 ltac:(done)).
    unfold DECIMAL_ONE. lia.
  - intros a b c _ _ Hle [= <-]. lia.
  - intros a. cbn. split; [by eexists|]. pose proof (Z.div_mod (2 * a + DECIMAL_ONE) (2 * DECIMAL_ONE) ltac:(done)).
    pose proof (Z.mod_pos_bound (2 * a + DECIMAL_ONE) (2 * DECIMAL_ONE) ltac:(done)). unfold DECIMAL_ONE in *. lia.
Defined.

(** A world without plans, at second 1000, with a cache in memory. *)
Definition empty_world : backend Z :=
  mkBackend empty_db [] [] (1000 * NANOS) 0 (PlanCache.PlanCache.Memory PlanCache.PlanCache.empty_store) [] [].
End BackendExample.
