(* ===== verification/Watchdog.v ===== *)
(** The inactivity watchdog (src/backend/src/inactivity_watchdog.rs): it claims
    expired plans in the database, triggers them on chain with retries, and
    records what became of each. *)
From S2P Require Import Prelude Host Text PlanCache StellarXdr BackendTypes StellarSubmit.
From S2P Require Import BackendExample.
From stdpp Require Import sorting.
#[local] Open Scope Z_scope.
Import Text StellarXdr BackendTypes StellarSubmit.

Module Watchdog.

(** * Configuration *)

Definition DEFAULT_INTERVAL_SECS : Z := 60 * 60.
Definition DEFAULT_BATCH_SIZE : Z := 500.
Definition ACTIVE_STATUS : string := "ACTIVE".
Definition TRIGGERING_STATUS : string := "TRIGGERING".
Definition TRIGGERED_STATUS : string := "TRIGGERED".
Definition TRIGGER_FAILED_STATUS : string := "TRIGGER_FAILED".
Definition TRIGGER_EVENT_TOPICS : list text := [lit "INHERIT"; lit "TRIGGER"].
Definition DEFAULT_MAX_ATTEMPTS : Z := 3.
Definition DEFAULT_BACKOFF_MS : Z := 1000.
Definition DEFAULT_MAX_BACKOFF_MS : Z := 30000.
Definition DEFAULT_STALE_AFTER_SECS : Z := 900.

(** Durations are nanoseconds. *)
Definition DURATION_MAX : Z := u64_max * NANOS + 999999999.
Definition from_millis (n : Z) : Z := n * 1000000.
Definition from_secs (n : Z) : Z := n * NANOS.

Record OnChainTriggerConfig := mkOnChain {
  max_attempts : Z; initial_backoff : Z; max_backoff : Z; stale_after : Z
}.
Record InactivityWatchdogConfig := mkConfig {
  interval : Z; batch_size : Z; on_chain : OnChainTriggerConfig
}.

(** The environment's variables, as the numbers they parse to. *)
Abbreviation environment := (string -> option Z).
Definition parse_env_u64 (env : environment) (key : string) (def : Z) : Z := default def (env key).
Definition parse_env_i64 (env : environment) (key : string) (def : Z) : Z := default def (env key).

Definition on_chain_from_env (env : environment) : OnChainTriggerConfig :=
  mkOnChain
    (Z.min u32_max (Z.max 1 (parse_env_u64 env "INACTIVITY_WATCHDOG_ONCHAIN_MAX_ATTEMPTS" DEFAULT_MAX_ATTEMPTS)))
    (from_millis (Z.max 1 (parse_env_u64 env "INACTIVITY_WATCHDOG_ONCHAIN_BACKOFF_MS" DEFAULT_BACKOFF_MS)))
    (from_millis (Z.max 1 (parse_env_u64 env "INACTIVITY_WATCHDOG_ONCHAIN_MAX_BACKOFF_MS" DEFAULT_MAX_BACKOFF_MS)))
    (from_secs (Z.max 1 (parse_env_u64 env "INACTIVITY_WATCHDOG_TRIGGER_STALE_AFTER_SECS" DEFAULT_STALE_AFTER_SECS))).
Definition config_from_env (env : environment) : InactivityWatchdogConfig :=
  mkConfig
    (from_secs (Z.max 1 (parse_env_u64 env "INACTIVITY_WATCHDOG_INTERVAL_SECS" DEFAULT_INTERVAL_SECS)))
    (Z.max 1 (parse_env_i64 env "INACTIVITY_WATCHDOG_BATCH_SIZE" DEFAULT_BATCH_SIZE))
    (on_chain_from_env env).

(** [1u32.checked_shl(n).unwrap_or(u32::MAX)]. *)
Definition shl_or_max (n : Z) : Z := if n <? 32 then Z.shiftl 1 n else u32_max.
(** [Duration::saturating_mul]. *)
Definition duration_saturating_mul (d k : Z) : Z := Z.min DURATION_MAX (d * k).

Definition backoff_for (c : OnChainTriggerConfig) (attempt : Z) : Z :=
  let factor := shl_or_max (saturating_sub attempt 1) in
  Z.min (duration_saturating_mul (initial_backoff c) factor) (max_backoff c).

(** * Data *)

Record ExpiredPlan := mkExpired {
  e_id : uuid; e_owner : text; e_deadline : Z; e_onchain_plan_id : option Z
}.
Record TriggerFailure := mkFailure { reason : string; f_attempts : Z }.

(** [error.to_string()], its fixed part. *)
Definition error_text (e : StellarSubmitError) : string :=
  match e with
  | Network => "failed to reach the Stellar network"
  | Rejected => "Stellar network rejected the transaction"
  | NotConfigured => "Soroban contract invocation is not configured"
  | Config => "invalid Soroban configuration"
  | Xdr => "failed to encode/decode XDR"
  | Rpc => "Soroban RPC returned an error"
  | Simulation _ => "transaction simulation failed"
  | TransactionFailed => "transaction failed on-chain"
  | Timeout => "timed out waiting for transaction"
  end%string.

Definition is_retryable (e : StellarSubmitError) : bool :=
  match e with Network | Rpc | Timeout => true | _ => false end.

Definition verify_trigger_event (c : StellarSubmitClient) (outcome : InvocationOutcome) (expected_plan_id : Z)
  : result string unit :=
  let? contract := rok_or (client_contract c) "Soroban contract is not configured"%string in
  let? event := rok_or (find_event (outcome_events outcome) contract TRIGGER_EVENT_TOPICS)
                  "transaction succeeded but emitted no INHERIT/TRIGGER event"%string in
  match event_u64_field event (lit "plan_id") with
  | Some plan_id =>
    if plan_id =? expected_plan_id then ROk tt
    else RErr "transaction triggered another plan"%string
  | None => RErr "transaction emitted an INHERIT/TRIGGER event without a plan_id"%string
  end.

(** PostgreSQL's [INTEGER]. *)
Definition i32_range (n : Z) : bool := (-2147483648 <=? n) && (n <=? 2147483647).

Section watchdog.
Context {D : Type} `{Postgres} `{cache_libs : CacheLibs} `{Signer}.
Abbreviation W := (backend D).
Implicit Types (w : W) (c : InactivityWatchdogConfig) (p : PlanRow D) (client : StellarSubmitClient).

(** * Claiming expired plans *)

(** The condition of the claiming query, at time [now]. *)
Definition claimable c (on_chain_ : bool) (now : Z) p : bool :=
  is_active p && (inactivity_deadline_at p * NANOS <=? now) &&
  (bool_decide (status p = ACTIVE_STATUS) ||
   (on_chain_ && bool_decide (status p = TRIGGERING_STATUS) &&
    match trigger_started_at p with
    | None => true
    | Some t => t <=? now - stale_after (on_chain c)
    end)).

(** [ORDER BY p.inactivity_deadline_at ASC]. *)
Definition deadline_le (x y : uuid * PlanRow D) : Prop :=
  inactivity_deadline_at x.2 <= inactivity_deadline_at y.2.
#[local] Instance deadline_le_dec x y : Decision (deadline_le x y) := ltac:(unfold deadline_le; apply _).

Definition candidates c (on_chain_ : bool) (now : Z) (ps : gmap uuid (PlanRow D)) : list (uuid * PlanRow D) :=
  take (Z.to_nat (batch_size c))
    (merge_sort deadline_le
      (row_order (filter (fun ip => claimable c on_chain_ now ip.2 = true) (map_to_list ps)))).

Definition claim_row (claim_status : string) (now : Z) p : PlanRow D :=
  p <| status := claim_status |> <| trigger_started_at := Some now |>.

Definition expired_plan (ip : uuid * PlanRow D) : ExpiredPlan :=
  mkExpired ip.1 (owner_address ip.2) (inactivity_deadline_at ip.2) (onchain_plan_id ip.2).

(** [UPDATE plans SET .. WHERE id IN (..) RETURNING ..]. *)
Definition claim_rows c (on_chain_ : bool) w : list ExpiredPlan * database D :=
  let claim_status := if on_chain_ then TRIGGERING_STATUS else TRIGGERED_STATUS in
  let chosen := candidates c on_chain_ (clock w) (plans (db w)) in
  (row_order (map expired_plan chosen),
   (db w) <| plans := foldr (fun ip m => alter (claim_row claim_status (clock w)) ip.1 m) (plans (db w)) chosen |>).

Definition claim_expired_plans c (on_chain_ : bool) : M W sqlx_error (list ExpiredPlan) :=
  transaction SqlFault SqlFault
    (do! select (fun _ => tt);
     let! held_elsewhere := next_fault in
     if held_elsewhere then ret []
     else statement (fun w => ROk (claim_rows c on_chain_ w))).

(** * Triggering on chain *)

Fixpoint trigger_loop (n : nat) (retry : OnChainTriggerConfig) client (onchain_plan_id attempt : Z)
    (last_error : string) : M W TriggerFailure (text * Z) :=
  match n with
  | O => fail (mkFailure last_error (max_attempts retry))
  | S n =>
    let! r := outcome_of (trigger_inheritance client onchain_plan_id) in
    match r with
    | ROk outcome =>
      match verify_trigger_event client outcome onchain_plan_id with
      | ROk _ => ret (tx_hash outcome, attempt)
      | RErr reason => fail (mkFailure reason attempt)
      end
    | RErr error =>
      if negb (is_retryable error) then fail (mkFailure (error_text error) attempt)
      else
        do! when (attempt <? max_attempts retry) (sleep (backoff_for retry attempt));
        trigger_loop n retry client onchain_plan_id (attempt + 1) (error_text error)
    end
  end.

Definition trigger_on_chain c client (plan : ExpiredPlan) : M W TriggerFailure (text * Z) :=
  match e_onchain_plan_id plan with
  | None => fail (mkFailure "plan has no onchain_plan_id; it cannot be triggered on-chain" 0)
  | Some id =>
    if id <? 0 then fail (mkFailure "onchain_plan_id is not a valid contract plan id" 0)
    else trigger_loop (Z.to_nat (max_attempts (on_chain c))) (on_chain c) client id 1 ""
  end.

(** * Recording the result *)

(** [UPDATE plans SET .., trigger_attempts = COALESCE(trigger_attempts, 0) + $ WHERE id = $]. *)
Definition record_attempts (id : uuid) (attempts : Z) (f : PlanRow D -> PlanRow D) : M W sqlx_error unit :=
  checked_execute (fun d =>
    match plans d !! id with
    | None => Some d
    | Some p =>
      let total := trigger_attempts p + as_i32 attempts in
      if i32_range total then Some (d <| plans := <[id := f (p <| trigger_attempts := total |>)]> (plans d) |>)
      else None
    end).

Definition mark_triggered (plan : ExpiredPlan) (tx_hash : text) (attempts : Z) : M W sqlx_error unit :=
  record_attempts (e_id plan) attempts (fun p =>
    p <| status := TRIGGERED_STATUS |> <| trigger_tx_hash := Some tx_hash |> <| last_trigger_error := None |>).
Definition mark_trigger_failed (plan : ExpiredPlan) (failure : TriggerFailure) : M W sqlx_error unit :=
  record_attempts (e_id plan) (f_attempts failure) (fun p =>
    p <| status := TRIGGER_FAILED_STATUS |> <| last_trigger_error := Some (reason failure) |>).

Definition announce_triggered (plan : ExpiredPlan) (tx_hash : option text) : M W sqlx_error unit :=
  let! addresses := or_else (load_beneficiary_addresses (e_id plan)) [] in
  do! invalidate_plan_cache (e_owner plan) addresses;
  or_else (enqueue_event "plan.triggered" (PlanTriggered (e_id plan) (e_owner plan) (e_deadline plan) (e_onchain_plan_id plan) tx_hash)) tt.
Definition announce_trigger_failure (plan : ExpiredPlan) (failure : TriggerFailure) : M W sqlx_error unit :=
  or_else (enqueue_event "plan.trigger_failed" (TriggerFailed (e_id plan) (e_owner plan) (e_deadline plan) (e_onchain_plan_id plan)
    (f_attempts failure) (reason failure))) tt.

(** * A sweep *)

(** One claimed plan; the count of plans triggered. *)
Definition sweep_one c client (triggered : Z) (plan : ExpiredPlan) : M W sqlx_error Z :=
  let! r := outcome_of (trigger_on_chain c client plan) in
  match r with
  | ROk (tx_hash, attempts) =>
    do! mark_triggered plan tx_hash attempts;
    do! announce_triggered plan (Some tx_hash);
    ret (triggered + 1)
  | RErr failure =>
    do! mark_trigger_failed plan failure;
    do! announce_trigger_failure plan failure;
    ret triggered
  end.

(** [run_once]; [stellar] is the attached client, which [with_stellar] keeps
    only when it can invoke contracts. *)
Definition with_stellar (client : StellarSubmitClient) : StellarSubmitClient :=
  if soroban_enabled client then client else None.

Definition run_once c (stellar : StellarSubmitClient) : M W sqlx_error Z :=
  let! claimed := claim_expired_plans c (soroban_enabled stellar) in
  if is_empty claimed then ret 0
  else
    match stellar with
    | None =>
      do! foldM (fun _ plan => announce_triggered plan None) claimed tt;
      ret (Z.of_nat (length claimed))
    | Some _ => foldM (sweep_one c stellar) claimed 0
    end.
(** * Lemmas *)

(** A reply shows that [client]'s contract triggered the plan [id]. *)
Definition verified client (replies : list net_reply) (id : Z) : Prop :=
  exists o, landed replies o /\ verify_trigger_event client o id = ROk tt.

Lemma verified_mono client rs used rest id : rs = used ++ rest -> verified client rest id -> verified client rs id.
Proof. intros Hrs (o & Hl & Hv). exists o. split; [by eapply landed_mono|done]. Qed.

Lemma trigger_loop_exchanged n retry client id k e : moves exchanged (trigger_loop n retry client id k e : M W _ _).
Proof.
  revert k e. induction n as [|n IH]; intros k e; cbn [trigger_loop]; [exchanged_tac|].
  apply moves_bind; [exact _|apply moves_outcome_of, invoke_admin_exchanged|].
  intros [o|err]; [exchanged_tac|]. destruct (negb _); [exchanged_tac|].
  apply moves_bind; [exact _| |intros _; apply IH].
  destruct (k <? _); cbn [when]; exchanged_tac.
Qed.
Lemma trigger_on_chain_exchanged c client plan : moves exchanged (trigger_on_chain c client plan : M W _ _).
Proof. unfold trigger_on_chain. repeat first [apply trigger_loop_exchanged|exchanged_step]. Qed.

Lemma trigger_loop_Ok n retry client id k e h a w w' :
  trigger_loop n retry client id k e w = Ok (h, a) w' ->
  verified client (network w) id /\ k <= a < k + Z.of_nat n.
Proof.
  revert k e w. induction n as [|n IH]; intros k e w Hr; cbn [trigger_loop] in Hr; [by apply fail_Ok in Hr|].
  run_bind Hr. match goal with Ho : outcome_of _ _ = Ok _ _ |- _ => apply outcome_of_Ok in Ho end.
  destruct x as [o|err].
  - destruct (verify_trigger_event client o id) as [[]|] eqn:Hv; [|by apply fail_Ok in Hr].
    apply ret_Ok in Hr as [[= -> ->] _]. split; [|lia]. exists o. split; [by eapply admin_landed|done].
  - destruct (negb (is_retryable err)); [by apply fail_Ok in Hr|]. run_bind Hr. apply IH in Hr as [Hv Hk].
    split; [|lia]. destruct (moves_Fail exchanged _ _ _ _ (trigger_inheritance_exchanged client id) H1) as [[u Hu] _ _].
    assert (network x1 = network x0) as Hn.
    { match goal with Hw : when _ _ _ = Ok _ _ |- _ => apply when_Ok in Hw; destruct (k <? _); [|by subst] end.
      by match goal with Hs : sleep _ _ = Ok _ _ |- _ => apply modify_Ok in Hs as [_ ->] end. }
    rewrite Hn in Hv. by eapply verified_mono.
Qed.
Lemma trigger_loop_Fail n retry client id k e f w w' :
  trigger_loop n retry client id k e w = Fail f w' -> 1 <= k ->
  1 <= f_attempts f <= Z.max (max_attempts retry) (k + Z.of_nat n - 1) \/ f_attempts f = max_attempts retry.
Proof.
  revert k e w. induction n as [|n IH]; intros k e w Hr Hk; cbn [trigger_loop] in Hr.
  - right. unfold fail in Hr. by injection Hr as <- _.
  - unfold bind at 1 in Hr. unfold outcome_of in Hr. destruct (trigger_inheritance client id w) as [o w1|err w1|]; [| |done].
    + destruct (verify_trigger_event client o id) as [[]|]; [done|]. unfold fail in Hr. injection Hr as <- _. left. cbn. lia.
    + destruct (negb (is_retryable err)); [unfold fail in Hr; injection Hr as <- _; left; cbn; lia|].
      unfold bind at 1 in Hr.
      assert (exists w2, when (k <? max_attempts retry) (sleep (backoff_for retry k) : M W TriggerFailure unit) w1 = Ok tt w2) as [w2 Hw2]
        by (destruct (k <? _); eexists; reflexivity).
      rewrite Hw2 in Hr. apply IH in Hr; [|lia]. lia.
Qed.
Context `{!PostgresLaws}.

(** ** The claiming query *)

Definition expired_rows c b now ps : list (uuid * PlanRow D) :=
  merge_sort deadline_le (row_order (filter (fun ip => claimable c b now ip.2 = true) (map_to_list ps))).
Lemma expired_rows_spec c b now ps ip :
  ip ∈ expired_rows c b now ps <-> ps !! ip.1 = Some ip.2 /\ claimable c b now ip.2 = true.
Proof.
  unfold expired_rows. rewrite merge_sort_Permutation, rows_all, list_elem_of_filter. destruct ip as [i p].
  rewrite elem_of_map_to_list. cbn. tauto.
Qed.
Lemma expired_rows_NoDup c b now ps : NoDup (expired_rows c b now ps).
Proof. unfold expired_rows. rewrite merge_sort_Permutation, rows_all. apply NoDup_filter, NoDup_map_to_list. Qed.

Lemma candidates_spec c b now ps ip :
  ip ∈ candidates c b now ps -> ps !! ip.1 = Some ip.2 /\ claimable c b now ip.2 = true.
Proof.
  intros Hin. apply expired_rows_spec. rewrite <-(take_drop (Z.to_nat (batch_size c))). by apply elem_of_app; left.
Qed.
Lemma candidates_length c b now ps : 1 <= batch_size c -> Z.of_nat (length (candidates c b now ps)) <= batch_size c.
Proof. intros Hb. unfold candidates. rewrite length_take. lia. Qed.
Lemma candidates_NoDup c b now ps : NoDup (candidates c b now ps).*1.
Proof.
  apply NoDup_fmap_fst.
  - intros i p1 p2 [Ha _]%candidates_spec [Hb _]%candidates_spec. cbn in *. congruence.
  - pose proof (expired_rows_NoDup c b now ps) as Hn.
    rewrite <-(take_drop (Z.to_nat (batch_size c)) (expired_rows c b now ps)) in Hn. by apply NoDup_app in Hn as [? _].
Qed.

Lemma claimed_rows st now (ps : gmap uuid (PlanRow D)) (chosen : list (uuid * PlanRow D)) id :
  NoDup chosen.*1 ->
  foldr (fun ip m => alter (claim_row st now) ip.1 m) ps chosen !! id =
  if bool_decide (id ∈ chosen.*1) then claim_row st now <$> ps !! id else ps !! id.
Proof.
  induction chosen as [|[i p] chosen IH]; cbn; intros Hnd; [by rewrite bool_decide_eq_false_2 by set_solver|].
  inversion Hnd as [|? ? Hi Hnd']; subst. destruct (decide (id = i)) as [->|Hn].
  - rewrite lookup_alter_eq, IH by done. rewrite (bool_decide_eq_false_2 (i ∈ chosen.*1)) by done.
    by rewrite bool_decide_eq_true_2 by set_solver.
  - rewrite lookup_alter_ne, IH by done. by rewrite (bool_decide_ext (id ∈ i :: chosen.*1) (id ∈ chosen.*1)) by set_solver.
Qed.
Record claims c (b : bool) (st : string) w w' (chosen : list (uuid * PlanRow D)) : Prop := {
  cl_ids : NoDup chosen.*1;
  cl_rows : forall ip, ip ∈ chosen -> plans (db w) !! ip.1 = Some ip.2 /\ claimable c b (clock w) ip.2 = true;
  cl_batch : 1 <= batch_size c -> Z.of_nat (length chosen) <= batch_size c;
  cl_plans : forall id, plans (db w') !! id =
    if bool_decide (id ∈ chosen.*1) then claim_row st (clock w) <$> plans (db w) !! id else plans (db w) !! id;
  cl_network : network w' = network w;
  cl_requests : requests w' = requests w
}.

Lemma claim_expired_plans_Ok c (b : bool) l w w' :
  claim_expired_plans c b w = Ok l w' ->
  exists chosen, l ≡ₚ map expired_plan chosen /\
    claims c b (if b then TRIGGERING_STATUS else TRIGGERED_STATUS) w w' chosen.
Proof.
  unfold claim_expired_plans. intros (_ & w1 & Hr & _ & ->)%transaction_Ok. run_bind Hr.
  match goal with Hs : select _ _ = _ |- _ => apply select_Ok in Hs as (_ & _ & ->) end.
  unfold bind at 1 in Hr. rewrite next_fault_run in Hr. destruct (fails_next _).
  - apply ret_Ok in Hr as [-> ->]. exists []. split; [done|]. split; cbn; [constructor|set_solver|lia| |done..].
    intros id. by rewrite bool_decide_eq_false_2 by set_solver.
  - apply statement_Ok in Hr as (_ & d & [= <- <-] & ->).
    exists (candidates c b (clock w) (plans (db w))). split; [apply rows_all|]. split; cbn.
    + apply candidates_NoDup.
    + apply candidates_spec.
    + apply candidates_length.
    + intros id. apply claimed_rows, candidates_NoDup.
    + done.
    + done.
Qed.

(** ** One plan *)

(** What the watchdog never changes in a plan. *)
Definition terms p :=
  (owner_address p, token_address p, amount p, grace_period p, grace_period_seconds p, earn_yield p,
   last_ping p, is_active p, yield_rate_bps p, accrued_yield p, created_at p, onchain_plan_id p).

(** A claimed plan after its turn: triggered, with a ledger's word for it, or
    failed with a reason. *)
Definition processed client (replies : list net_reply) p p' : Prop :=
  terms p' = terms p /\
  ((status p' = TRIGGERED_STATUS /\ is_Some (trigger_tx_hash p') /\
    exists id, onchain_plan_id p = Some id /\ verified client replies id) \/
   (status p' = TRIGGER_FAILED_STATUS /\ is_Some (last_trigger_error p'))).

Lemma record_attempts_Ok id a (f : PlanRow D -> PlanRow D) u w w' :
  record_attempts id a f w = Ok u w' ->
  network w' = network w /\
  (forall i, i <> id -> plans (db w') !! i = plans (db w) !! i) /\
  (forall p, plans (db w) !! id = Some p ->
     plans (db w') !! id = Some (f (p <| trigger_attempts := trigger_attempts p + as_i32 a |>))).
Proof.
  intros (_ & d & Hd & ->)%checked_execute_Ok. cbn. destruct (plans (db w) !! id) as [p|] eqn:Hp.
  - cbv zeta in Hd. destruct (i32_range (trigger_attempts p + as_i32 a)); [|done]. injection Hd as <-. cbn.
    split; [done|]. split.
    + intros i Hi. by rewrite lookup_insert_ne.
    + intros p1 [= <-]. by rewrite lookup_insert_eq.
  - injection Hd as <-. naive_solver.
Qed.

Lemma keeps_announce_plans plan h : keeps (fun w => (plans (db w), network w)) (announce_triggered plan h).
Proof. unfold announce_triggered, load_beneficiary_addresses, invalidate_plan_cache. bkeeps_tac. Qed.
Lemma keeps_failure_plans plan f : keeps (fun w => (plans (db w), network w)) (announce_trigger_failure plan f).
Proof. unfold announce_trigger_failure. bkeeps_tac. Qed.

Lemma sweep_one_Ok c client n e p m w w' :
  sweep_one c client n e w = Ok m w' ->
  plans (db w) !! e_id e = Some p -> onchain_plan_id p = e_onchain_plan_id e ->
  (exists u, network w = u ++ network w') /\
  (forall i, i <> e_id e -> plans (db w') !! i = plans (db w) !! i) /\
  exists p', plans (db w') !! e_id e = Some p' /\ processed client (network w) p p' /\
    m = n + (if bool_decide (status p' = TRIGGERED_STATUS) then 1 else 0).
Proof.
  unfold sweep_one. intros Hr Hp Ho. apply bind_Ok in Hr as (r & w1 & Hoc & Hr). apply outcome_of_Ok in Hoc.
  assert (exchanged w w1) as [[used Hnet] _ Hrest].
  { pose proof (trigger_on_chain_exchanged c client e w) as Hx. destruct r; by rewrite Hoc in Hx. }
  injection Hrest as Hdb _ _ _ _. destruct r as [[h a]|f].
  - apply bind_Ok in Hr as ([] & w2 & Hm & Hr). apply bind_Ok in Hr as ([] & w3 & Ha & [-> ->]%ret_Ok).
    apply record_attempts_Ok in Hm as (Hn & Hother & Hthis). rewrite Hdb in Hother, Hthis.
    apply (keeps_Ok _ _ _ _ _ (keeps_announce_plans e (Some h))) in Ha. injection Ha as Hps Hnw. rewrite Hps, Hnw.
    split; [exists used; by rewrite Hnet, Hn|]. split; [done|]. eexists. split; [by apply Hthis|].
    split; [|by rewrite bool_decide_eq_true_2]. split; [done|]. left. split_and!; [done|by eexists|].
    unfold trigger_on_chain in Hoc. rewrite Ho. destruct (e_onchain_plan_id e) as [id|]; [|done].
    destruct (id <? 0); [done|]. apply trigger_loop_Ok in Hoc as [Hv _]. eauto.
  - apply bind_Ok in Hr as ([] & w2 & Hm & Hr). apply bind_Ok in Hr as ([] & w3 & Ha & [-> ->]%ret_Ok).
    apply record_attempts_Ok in Hm as (Hn & Hother & Hthis). rewrite Hdb in Hother, Hthis.
    apply (keeps_Ok _ _ _ _ _ (keeps_failure_plans e f)) in Ha. injection Ha as Hps Hnw. rewrite Hps, Hnw.
    split; [exists used; by rewrite Hnet, Hn|]. split; [done|]. eexists. split; [by apply Hthis|].
    split; [|rewrite bool_decide_eq_false_2; [lia|done]]. split; [done|]. right. split; [done|by eexists].
Qed.

(** ** The whole sweep *)

Lemma processed_mono client rs used rest p p' : rs = used ++ rest -> processed client rest p p' -> processed client rs p p'.
Proof. intros Hrs [Ht [(? & ? & id & ? & Hv)|?]]; split; auto. left. split_and!; [done..|]. exists id. split; [done|by eapply verified_mono]. Qed.

Definition triggered_count w (l : list ExpiredPlan) : Z :=
  Z.of_nat (length (filter (fun e => (status <$> plans (db w) !! e_id e) = Some TRIGGERED_STATUS) l)).

Lemma sweep_fold c client l n m w w' :
  foldM (sweep_one c client) l n w = Ok m w' -> NoDup (map e_id l) ->
  (forall e, e ∈ l -> exists p, plans (db w) !! e_id e = Some p /\ onchain_plan_id p = e_onchain_plan_id e) ->
  (forall i, i ∉ map e_id l -> plans (db w') !! i = plans (db w) !! i) /\
  (forall e p, e ∈ l -> plans (db w) !! e_id e = Some p ->
     exists p', plans (db w') !! e_id e = Some p' /\ processed client (network w) p p') /\
  m = n + triggered_count w' l.
Proof.
  revert n w. induction l as [|e l IH]; intros n w Hr Hnd Hrows; cbn in Hr.
  - apply ret_Ok in Hr as [-> ->]. split_and!; [done|set_solver|]. unfold triggered_count. cbn. lia.
  - apply bind_Ok in Hr as (k & w1 & Hone & Hr). cbn in Hnd. inversion Hnd as [|? ? Hi Hnd']; subst.
    destruct (Hrows e ltac:(by left)) as (p & Hp & Ho).
    destruct (sweep_one_Ok c client n e p k w w1 Hone Hp Ho) as ([u Hu] & Hother & p' & Hp' & Hproc & Hk).
    assert (forall e', e' ∈ l -> plans (db w1) !! e_id e' = plans (db w) !! e_id e') as Hsame.
    { intros e' He'. apply Hother. intros Heq. apply Hi. rewrite <-Heq. apply list_elem_of_In, in_map, list_elem_of_In, He'. }
    destruct (IH k w1 Hr Hnd') as (Hout & Hin & Hm).
    { intros e' He'. rewrite Hsame by done. apply Hrows. by right. }
    assert (plans (db w') !! e_id e = Some p') as Hfin by (by rewrite Hout).
    split_and!.
    + intros i Hni. cbn in Hni. rewrite Hout, Hother by set_solver. done.
    + intros e' q He' Hq. apply elem_of_cons in He' as [->|He'].
      * exists p'. split; [done|]. by simplify_eq.
      * destruct (Hin e' q He') as (q' & Hq' & Hpr); [by rewrite Hsame|].
        exists q'. split; [done|by eapply processed_mono].
    + unfold triggered_count in *. rewrite filter_cons. rewrite Hfin. cbn.
      case_bool_decide as Hst; case_decide as Hd; [cbn [length]; lia|congruence|congruence|lia].
Qed.
Lemma filter_every {A} (P : A -> Prop) `{!forall x, Decision (P x)} (l : list A) : (forall x, x ∈ l -> P x) -> filter P l = l.
Proof.
  induction l as [|x l IH]; intros Hl; [done|]. rewrite filter_cons, decide_True by (apply Hl; by left).
  f_equal. apply IH. intros y Hy. apply Hl. by right.
Qed.
(** A sweep touches the plans it claimed, at most a batch of expired ones. *)
Record touches_only c (b : bool) w w' (chosen : list (uuid * PlanRow D)) : Prop := {
  to_rows : forall ip, ip ∈ chosen -> plans (db w) !! ip.1 = Some ip.2 /\ claimable c b (clock w) ip.2 = true;
  to_batch : Z.of_nat (length chosen) <= batch_size c;
  to_others : forall id, id ∉ chosen.*1 -> plans (db w') !! id = plans (db w) !! id
}.
(** What becomes of a claimed plan: without a signer it is TRIGGERED by decree. *)
Definition settled (stellar : StellarSubmitClient) w p p' : Prop :=
  match stellar with
  | Some ctx => processed (Some ctx) (network w) p p'
  | None => p' = claim_row TRIGGERED_STATUS (clock w) p
  end.

Lemma touches_same c b w w1 w2 chosen :
  plans (db w2) = plans (db w1) -> touches_only c b w w1 chosen -> touches_only c b w w2 chosen.
Proof. intros Hp [? ? ?]. split; [done..|by rewrite Hp]. Qed.
Lemma claims_touch c b st w w1 chosen : claims c b st w w1 chosen -> 1 <= batch_size c -> touches_only c b w w1 chosen.
Proof.
  intros Hc Hb. split; [apply Hc|by apply Hc|]. intros id Hid. rewrite (cl_plans _ _ _ _ _ _ Hc). by rewrite bool_decide_eq_false_2.
Qed.
Lemma claimed_row c b st w w1 chosen ip :
  claims c b st w w1 chosen -> ip ∈ chosen -> plans (db w1) !! ip.1 = Some (claim_row st (clock w) ip.2).
Proof.
  intros Hc Hip. rewrite (cl_plans _ _ _ _ _ _ Hc), bool_decide_eq_true_2 by by apply list_elem_of_fmap_2.
  by rewrite (proj1 (cl_rows _ _ _ _ _ _ Hc ip Hip)).
Qed.
Lemma claim_requests c b : keeps requests (claim_expired_plans c b).
Proof.
  unfold claim_expired_plans, transaction, set_db.
  repeat first [apply keeps_attempt|apply keeps_statement; [by intros []|by intros []]|bkeeps_step].
Qed.
Lemma keeps_Fail {E A B} (f : W -> B) (m : M W E A) w e w' : keeps f m -> m w = Fail e w' -> f w' = f w.
Proof. intros Hk Hm. specialize (Hk w). by rewrite Hm in Hk. Qed.
Lemma announce_all_run (l : list ExpiredPlan) w :
  match foldM (fun _ plan => announce_triggered plan None) l tt w with
  | Ok _ w' => plans (db w') = plans (db w) /\ requests w' = requests w
  | Fail _ _ => False
  | Trap => True
  end.
Proof.
  assert (no_err (foldM (fun (_ : unit) plan => announce_triggered plan None) l tt)) as Hn.
  { generalize tt. induction l as [|e l IH]; intros u; cbn; [apply no_err_ret|]. apply no_err_bind; [|done].
    unfold announce_triggered. repeat (apply no_err_bind; [apply no_err_or_else|intros ?]). apply no_err_or_else. }
  assert (keeps (fun w => (plans (db w), requests w)) (foldM (fun (_ : unit) plan => announce_triggered plan None) l tt)) as Hk.
  { apply keeps_foldM. intros _ e. unfold announce_triggered, load_beneficiary_addresses, invalidate_plan_cache. bkeeps_tac. }
  specialize (Hk w). destruct (foldM _ l tt w) as [u w'|e w'|] eqn:Hr; [by injection Hk|by eapply Hn|done].
Qed.

(** A plan whose outcome could not be recorded stays as it was claimed. *)
Lemma sweep_one_Fail c client n e err w w' :
  sweep_one c client n e w = Fail err w' -> plans (db w') = plans (db w).
Proof.
  intros Hr. enough (db w' = db w) as -> by done. revert Hr. unfold sweep_one. unfold bind at 1.
  destruct (outcome_of (trigger_on_chain c client e) w) as [r w1|e1 w1|] eqn:Hoc; [| |done].
  2: { unfold outcome_of in Hoc. by destruct (trigger_on_chain c client e w). }
  apply outcome_of_Ok in Hoc.
  assert (exchanged w w1) as [_ _ Hrest].
  { pose proof (trigger_on_chain_exchanged c client e w) as Hx. destruct r; by rewrite Hoc in Hx. }
  injection Hrest as Hdb _ _ _ _. rewrite <-Hdb.
  assert (forall id a f (k : M W sqlx_error Z), no_err k -> fails_keeping db (do! record_attempts id a f; k)) as Hm.
  { intros id a f k Hk. apply fails_keeping_last; [by apply fails_keeping_statement|by intros _]. }
  destruct r as [[h a]|f]; apply Hm.
  - apply no_err_bind; [|intros _; apply no_err_ret].
    unfold announce_triggered. repeat (apply no_err_bind; [apply no_err_or_else|intros ?]). apply no_err_or_else.
  - apply no_err_bind; [|intros _; apply no_err_ret]. apply no_err_or_else.
Qed.
Lemma sweep_fold_Fail c client l n err w w' :
  foldM (sweep_one c client) l n w = Fail err w' -> NoDup (map e_id l) ->
  (forall e, e ∈ l -> exists p, plans (db w) !! e_id e = Some p /\ onchain_plan_id p = e_onchain_plan_id e) ->
  (forall i, i ∉ map e_id l -> plans (db w') !! i = plans (db w) !! i) /\
  (forall e p, e ∈ l -> plans (db w) !! e_id e = Some p ->
     exists p', plans (db w') !! e_id e = Some p' /\ (processed client (network w) p p' \/ p' = p)).
Proof.
  revert n w. induction l as [|e l IH]; intros n w Hr Hnd Hrows; [done|]. cbn in Hr. unfold bind in Hr.
  destruct (sweep_one c client n e w) as [k w1|err1 w1|] eqn:Hone; [| |done].
  2: { injection Hr as -> ->. rewrite (sweep_one_Fail _ _ _ _ _ _ _ Hone). split; [done|]. intros e' p _ Hp. exists p. split; [done|by right]. }
  cbn in Hnd. inversion Hnd as [|? ? Hi Hnd']; subst. destruct (Hrows e ltac:(by left)) as (p & Hp & Ho).
  destruct (sweep_one_Ok c client n e p k w w1 Hone Hp Ho) as ([u Hu] & Hother & p' & Hp' & Hproc & Hk).
  assert (forall e', e' ∈ l -> plans (db w1) !! e_id e' = plans (db w) !! e_id e') as Hsame.
  { intros e' He'. apply Hother. intros Heq. apply Hi. rewrite <-Heq. apply list_elem_of_In, in_map, list_elem_of_In, He'. }
  destruct (IH k w1 Hr Hnd') as (Hout & Hin).
  { intros e' He'. rewrite Hsame by done. apply Hrows. by right. }
  split.
  - intros i Hni. cbn in Hni. rewrite Hout, Hother by set_solver. done.
  - intros e' q He' Hq. apply elem_of_cons in He' as [->|He'].
    + exists p'. split; [by rewrite Hout|]. left. by simplify_eq.
    + destruct (Hin e' q He') as (q' & Hq' & Hpr); [by rewrite Hsame|].
      exists q'. split; [done|]. destruct Hpr as [Hpr|]; [left; by eapply processed_mono|by right].
Qed.

(** A claimed plan's terms are those of the row it was claimed from. *)
Lemma processed_claimed client rs st now p p' : processed client rs (claim_row st now p) p' -> processed client rs p p'.
Proof. done. Qed.

(** The claimed plans' turns. *)
Lemma sweep_on_chain c ctx l chosen w w1 :
  l ≡ₚ map expired_plan chosen -> claims c true TRIGGERING_STATUS w w1 chosen -> 1 <= batch_size c ->
  match foldM (sweep_one c (Some ctx)) l 0 w1 with
  | Ok n w' => touches_only c true w w' chosen /\
      (forall ip, ip ∈ chosen -> exists p', plans (db w') !! ip.1 = Some p' /\ processed (Some ctx) (network w) ip.2 p') /\
      n = Z.of_nat (length (filter (fun ip => (status <$> plans (db w') !! ip.1) = Some TRIGGERED_STATUS) chosen))
  | Fail _ w' => touches_only c true w w' chosen /\
      (forall ip, ip ∈ chosen -> exists p', plans (db w') !! ip.1 = Some p' /\
         (processed (Some ctx) (network w) ip.2 p' \/ p' = claim_row TRIGGERING_STATUS (clock w) ip.2))
  | Trap => True
  end.
Proof.
  intros Hl Hc Hb.
  assert (map e_id l ≡ₚ chosen.*1) as Hids by (rewrite Hl, map_map; apply reflexivity).
  assert (NoDup (map e_id l)) as Hnd by (rewrite Hids; apply Hc).
  assert (forall e, e ∈ l <-> exists ip, ip ∈ chosen /\ e = expired_plan ip) as Hel.
  { intros e. rewrite Hl, list_elem_of_In, in_map_iff. setoid_rewrite <-list_elem_of_In. naive_solver. }
  assert (forall ip, ip ∈ chosen -> plans (db w1) !! ip.1 = Some (claim_row TRIGGERING_STATUS (clock w) ip.2)) as Hrow
    by (intros ip; apply (claimed_row _ _ _ _ _ _ _ Hc)).
  assert (forall e, e ∈ l -> exists p, plans (db w1) !! e_id e = Some p /\ onchain_plan_id p = e_onchain_plan_id e) as Hrows.
  { intros e (ip & Hip & ->)%Hel. eexists. split; [by apply Hrow|done]. }
  assert (forall w', (forall i, i ∉ map e_id l -> plans (db w') !! i = plans (db w1) !! i) -> touches_only c true w w' chosen) as Htouch.
  { intros w' Hout. pose proof (claims_touch _ _ _ _ _ _ Hc Hb) as [Hr Hlen Ho]. split; [done..|].
    intros id Hid. rewrite Hout by by rewrite Hids. by apply Ho. }
  destruct (foldM (sweep_one c (Some ctx)) l 0 w1) as [n w'|err w'|] eqn:Hr; [| |done].
  - destruct (sweep_fold c (Some ctx) l 0 n w1 w' Hr Hnd Hrows) as (Hout & Hin & Hn). split_and!; [by apply Htouch| |].
    + intros ip Hip. destruct (Hin (expired_plan ip) _ ltac:(apply Hel; eauto) (Hrow ip Hip)) as (p' & Hp' & Hpr).
      exists p'. split; [done|]. by rewrite (cl_network _ _ _ _ _ _ Hc) in Hpr.
    + rewrite Hn. unfold triggered_count. rewrite Hl, Z.add_0_l. f_equal. clear.
      induction chosen as [|ip chosen IH]; [done|]. cbn [map]. rewrite !filter_cons. cbn.
      case_decide; cbn; by rewrite IH.
  - destruct (sweep_fold_Fail c (Some ctx) l 0 err w1 w' Hr Hnd Hrows) as (Hout & Hin). split; [by apply Htouch|].
    intros ip Hip. destruct (Hin (expired_plan ip) _ ltac:(apply Hel; eauto) (Hrow ip Hip)) as (p' & Hp' & Hpr).
    exists p'. split; [done|]. by rewrite (cl_network _ _ _ _ _ _ Hc) in Hpr.
Qed.

(** * Properties *)

(** C15: A sweep of the watchdog that does not panic claims at most a batch of expired
    plans and touches no other. With a signer each claimed plan keeps its terms and ends
    TRIGGERED with a transaction hash, in which case the network reported an event of the
    contract for exactly this plan, or TRIGGER_FAILED with a reason; without one it ends
    TRIGGERED, without a hash, and no request is sent. The count returned is that of the
    plans left TRIGGERED. A sweep that a database error stops leaves each claimed plan
    either settled in that way or TRIGGERING as it was claimed, and without a signer it
    leaves all plans as they were. *)
Theorem sweep_outcome c stellar w :
  1 <= batch_size c ->
  match run_once c stellar w with
  | Ok n w' => exists chosen,
      touches_only c (soroban_enabled stellar) w w' chosen /\
      (forall ip, ip ∈ chosen -> exists p', plans (db w') !! ip.1 = Some p' /\ settled stellar w ip.2 p') /\
      n = Z.of_nat (length (filter (fun ip => (status <$> plans (db w') !! ip.1) = Some TRIGGERED_STATUS) chosen)) /\
      (stellar = None -> requests w' = requests w)
  | Fail _ w' => exists chosen,
      touches_only c (soroban_enabled stellar) w w' chosen /\
      (forall ip, ip ∈ chosen -> exists p', plans (db w') !! ip.1 = Some p' /\
         (settled stellar w ip.2 p' \/ p' = claim_row TRIGGERING_STATUS (clock w) ip.2)) /\
      (stellar = None -> chosen = [] /\ requests w' = requests w)
  | Trap => True
  end.
Proof.
  intros Hb. unfold run_once, bind.
  destruct (claim_expired_plans c (soroban_enabled stellar) w) as [l w1|e w1|] eqn:Hcl; [| |done].
  - apply claim_expired_plans_Ok in Hcl as (chosen & Hl & Hc).
    destruct (is_empty l) eqn:He.
    + apply is_empty_true in He as ->. assert (chosen = []) as -> by (destruct chosen; [done|by apply Permutation_length in Hl]).
      cbn. exists []. split_and!; [exact (claims_touch _ _ _ _ _ _ Hc Hb)|set_solver|done|intros _; apply Hc].
    + destruct stellar as [ctx|].
      * pose proof (sweep_on_chain c ctx l chosen w w1 Hl Hc Hb) as Hs.
        destruct (foldM _ l 0 w1) as [n w2|e w2|]; [|destruct Hs as [Ht Hs]; exists chosen; by split_and!|done].
        destruct Hs as (Ht & Hs & Hn). exists chosen. by split_and!.
      * pose proof (announce_all_run l w1) as Ha.
        destruct (foldM _ l tt w1) as [[] w2|e w2|]; [|done..]. destruct Ha as [Hps Hrq]. cbn. exists chosen.
        split_and!; [eapply touches_same; [exact Hps|exact (claims_touch _ _ _ _ _ _ Hc Hb)]| | |].
        -- intros ip Hip. rewrite Hps. eexists. split; [by apply (claimed_row _ _ _ _ _ _ _ Hc)|done].
        -- rewrite Hl, length_map, filter_every; [done|]. intros ip Hip. rewrite Hps. by rewrite (claimed_row _ _ _ _ _ _ _ Hc).
        -- intros _. rewrite Hrq. apply Hc.
  - exists []. assert (db w1 = db w) as Hd by (by eapply transaction_Fail). split_and!; [split; [set_solver|cbn; lia|by rewrite Hd]|set_solver|].
    intros ->. split; [done|]. apply (keeps_Fail requests _ _ _ _ (claim_requests c _) Hcl).
Qed.

(** C30: A plan one watchdog has claimed for an on-chain trigger is not claimed by another
    while its own row is unchanged, whatever became of the other plans, except by one that
    triggers on chain and only after the staleness period has passed. *)
Theorem claim_lease c c2 (b : bool) l l2 w w1 w2 w3 :
  claim_expired_plans c true w = Ok l w1 ->
  claim_expired_plans c2 b w2 = Ok l2 w3 ->
  forall e, e ∈ l -> plans (db w2) !! e_id e = plans (db w1) !! e_id e -> e_id e ∈ map e_id l2 ->
  b = true /\ clock w + stale_after (on_chain c2) <= clock w2.
Proof.
  intros (ch & Hl & Hc)%claim_expired_plans_Ok (ch2 & Hl2 & Hc2)%claim_expired_plans_Ok e He Hsame He2.
  rewrite Hl, list_elem_of_In, in_map_iff in He. destruct He as (ip & <- & Hip). rewrite <-list_elem_of_In in Hip.
  rewrite Hl2, map_map, list_elem_of_In, in_map_iff in He2. destruct He2 as (ip2 & Hid & Hip2).
  rewrite <-list_elem_of_In in Hip2. cbn in Hid.
  destruct (cl_rows _ _ _ _ _ _ Hc2 ip2 Hip2) as [Hp2 Hcl].
  destruct (cl_rows _ _ _ _ _ _ Hc ip Hip) as [Hp _]. cbn in Hsame. rewrite (cl_plans _ _ _ _ _ _ Hc) in Hsame.
  rewrite bool_decide_eq_true_2 in Hsame by by apply list_elem_of_fmap_2.
  rewrite Hp, <-Hid, Hp2 in Hsame. cbn in Hsame. injection Hsame as Hrow. rewrite Hrow in Hcl.
  unfold claimable in Hcl. cbn in Hcl. rewrite !andb_true_iff, orb_true_iff, !andb_true_iff in Hcl.
  destruct Hcl as [_ [Hs|[[-> _] Hle]]]; [by rewrite bool_decide_eq_false_2 in Hs|]. split; [done|]. lia.
Qed.
End watchdog.

Lemma shl_or_max_spec n : 0 <= n -> shl_or_max n = Z.min (2 ^ n) u32_max.
Proof.
  intros Hn. unfold shl_or_max. destruct (Z.ltb_spec n 32) as [Hlt|Hge].
  - rewrite Z.shiftl_1_l. assert (2 ^ n <= 2 ^ 31) by (apply Z.pow_le_mono_r; lia). unfold u32_max. lia.
  - assert (2 ^ 32 <= 2 ^ n) by (apply Z.pow_le_mono_r; lia). unfold u32_max. lia.
Qed.

(** The delay before a retry doubles up to its cap. *)
Theorem backoff_doubles_to_cap c k :
  0 <= initial_backoff c -> max_backoff c <= DURATION_MAX -> 1 <= k ->
  backoff_for c k = Z.min (initial_backoff c * Z.min (2 ^ (k - 1)) u32_max) (max_backoff c) /\
  backoff_for c k <= backoff_for c (k + 1) <= max_backoff c.
Proof.
  intros Hi Hm Hk.
  assert (forall j, 1 <= j -> backoff_for c j = Z.min (initial_backoff c * Z.min (2 ^ (j - 1)) u32_max) (max_backoff c)) as Hspec.
  { intros j Hj. unfold backoff_for, saturating_sub. rewrite Z.max_r by lia. rewrite shl_or_max_spec by lia.
    unfold duration_saturating_mul. lia. }
  split; [by apply Hspec|]. rewrite !Hspec by lia. split; [|lia].
  assert (2 ^ (k - 1) <= 2 ^ (k + 1 - 1)) by (apply Z.pow_le_mono_r; lia).
  apply Z.min_le_compat_r, Z.mul_le_mono_nonneg_l; lia.
Qed.

(** * A run *)

Section example.
Import BackendExample.
Definition demo_config : InactivityWatchdogConfig := config_from_env (fun _ => None).
Definition landing : backend unit := world_of silent_plan [account; simulated; pending; landed_with [triggered_event 7]] 200.
Definition status_after (w : backend unit) : option string :=
  status <$> plans (db (after (run_once demo_config (Some demo_ctx)) w)) !! 1%positive.

Lemma sweep_outcome_witness :
  exists w', run_once demo_config (Some demo_ctx) landing = Ok 1 w' /\
    exists p', plans (db w') !! 1%positive = Some p' /\ processed (Some demo_ctx) (network landing) silent_plan p'.
Proof.
  pose proof (sweep_outcome demo_config (Some demo_ctx) landing ltac:(vm_compute; discriminate)) as Hs.
  destruct (run_once demo_config (Some demo_ctx) landing) as [n w'|e w'|] eqn:Hr; [|exfalso; by vm_compute in Hr..].
  assert (n = 1) as -> by (vm_compute in Hr; congruence).
  exists w'. split; [reflexivity|]. destruct Hs as (ch & [Hch _ _] & Hp & Hn & _).
  destruct ch as [|[i p] ch]; [discriminate Hn|].
  destruct (Hch (i, p) ltac:(by left)) as [Hi _].
  change (({[ 1%positive := silent_plan ]} : gmap uuid (PlanRow unit)) !! i = Some p) in Hi.
  apply lookup_singleton_Some in Hi as [<- <-].
  exact (Hp _ ltac:(by left)).
Defined.

Lemma claim_lease_witness :
  exists l w1, claim_expired_plans demo_config true landing = Ok l w1 /\
    forall l2 w3, claim_expired_plans demo_config true w1 = Ok l2 w3 -> forall e, e ∈ l -> e_id e ∉ map e_id l2.
Proof.
  destruct (claim_expired_plans demo_config true landing) as [l w1|e w1|] eqn:Hr; [|exfalso; by vm_compute in Hr..].
  exists l, w1. split; [reflexivity|]. intros l2 w3 Hr2 e He He2.
  destruct (claim_lease demo_config demo_config true l l2 landing w1 w1 w3 Hr Hr2 e He eq_refl He2) as [_ Hle].
  assert (clock w1 = clock landing) as Hck by (vm_compute in Hr; by injection Hr as _ <-).
  rewrite Hck in Hle. by vm_compute in Hle.
Defined.

Lemma backoff_doubles_to_cap_witness : backoff_for (on_chain demo_config) 3 = 4 * NANOS.
Proof.
  exact (proj1 (backoff_doubles_to_cap (on_chain demo_config) 3 ltac:(vm_compute; discriminate)
    ltac:(vm_compute; discriminate) ltac:(vm_compute; discriminate))).
Defined.

(** A transaction that is not yet in a ledger when polling ends is sent anew;
    when the first one lands meanwhile, the second is refused as already
    triggered and the plan is recorded as failed. *)
Definition late_landing : backend unit :=
  world_of silent_plan
    [account; simulated; pending; not_found; not_found; not_found; account; refused (lit "AlreadyTriggered")] 200.
Lemma late_landing_recorded_as_failed : status_after late_landing = Some TRIGGER_FAILED_STATUS.
Proof. vm_compute. reflexivity. Qed.

(** Without a signer an expired plan is marked triggered with nothing done on chain. *)
Lemma no_signer_marks_triggered :
  let w' := after (run_once demo_config None) landing in
  status <$> plans (db w') !! 1%positive = Some TRIGGERED_STATUS /\ requests w' = [].
Proof. vm_compute. by split. Qed.
End example.
End Watchdog.
