(* ===== verification/LoanLifecycle.v ===== *)
(** The loan lifecycle endpoints (src/backend/src/loan_lifecycle.rs): freezing,
    recalling and liquidating a triggered plan's loans on chain, and recording
    the progress. *)
From S2P Require Import Prelude Host Text PlanCache StellarXdr.
From S2P Require Import BackendTypes StellarSubmit BackendExample.
Import Text PlanCache StellarSubmit StellarXdr BackendTypes.

Module LoanLifecycle.

Definition FREEZE_EVENT_TOPICS : list text := [lit "LOAN"; lit "FREEZE"].
Definition RECALL_EVENT_TOPICS : list text := [lit "LOAN"; lit "RECALL"].
Definition LIQUIDATE_EVENT_TOPICS : list text := [lit "LOAN"; lit "LIQUIDAT"].
Definition ALLOWED_STATUSES : list string := ["TRIGGERED"; "CLAIMABLE"]%string.

(** The table's [CHECK] constraints. *)
Definition lifecycle_checks (r : LoanLifecycleRow) : bool :=
  bool_decide (freeze_status r ∈ ["PENDING"; "PROCESSING"; "FROZEN"]%string) &&
  ((0 <=? recall_progress r) && (recall_progress r <=? 100)) &&
  bool_decide (settlement_status r ∈ ["PENDING"; "PROCESSING"; "LIQUIDATED"; "SETTLED"]%string) &&
  (0 <=? outstanding_loaned r).

Definition stellar_error_response (error : StellarSubmitError) : http_error :=
  match error with
  | NotConfigured => SERVICE_UNAVAILABLE "Soroban contract invocation is not configured"
  | Simulation detail =>
    (* No character outside ASCII lowercases into the words sought. *)
    let conflict := to_ascii_lowercase detail in
    if contains (lit "nottriggered") conflict || contains (lit "not triggered") conflict ||
       contains (lit "#43") conflict
    then CONFLICT "Inheritance has not been triggered"
    else BAD_REQUEST "On-chain simulation failed"
  | Network | Rpc | Timeout | TransactionFailed | Rejected => BAD_GATEWAY "On-chain action failed"
  | Config | Xdr => INTERNAL_SERVER_ERROR "On-chain action failed"
  end.

(** Does a transaction's outcome carry the event asked for? *)
Definition verify_loan_event (client : StellarSubmitClient) (outcome : InvocationOutcome)
    (expected_plan_id : Z) (topics : list text) : result http_error unit :=
  match client_contract client with
  | None => ROk tt
  | Some contract =>
    match find_event (outcome_events outcome) contract topics with
    | None => RErr (BAD_GATEWAY "transaction succeeded but emitted no loan event")
    | Some event =>
      match event_u64_field event (lit "plan_id") with
      | Some plan_id =>
        if plan_id =? expected_plan_id then ROk tt
        else RErr (BAD_GATEWAY "transaction targeted another plan")
      | None => ROk tt
      end
    end
  end.

(** A field of the event found, [dflt] when the event lacks it. *)
Definition event_field_or (client : StellarSubmitClient) (outcome : InvocationOutcome)
    (topics : list text) (name : text) (dflt absent : Z) : Z :=
  match contract ← client_contract client; find_event (outcome_events outcome) contract topics with
  | Some event => default dflt (event_u64_field event name)
  | None => absent
  end.

Section lifecycle.
Context {D : Type} `{Postgres} `{cache_libs : CacheLibs} `{Signer}.
Abbreviation W := (backend D).
Abbreviation X A := (M W http_error A).
Implicit Types (w : W) (p : PlanRow D) (client : StellarSubmitClient).

Definition load_plan (plan_id : uuid) : X (PlanRow D) :=
  let! r := or_500 (get_plan plan_id) "Database query failed" in
  ok_or r (NOT_FOUND "Plan not found").

Definition require_triggered p : X unit :=
  do! reject_if (negb (is_active p)) (CONFLICT "Plan is no longer active");
  reject_if (negb (bool_decide (status p ∈ ALLOWED_STATUSES))) (CONFLICT "Plan must be in the triggered state").

Definition require_onchain_id p : X Z :=
  match onchain_plan_id p with
  | Some id => if 0 <=? id then ret id else fail (CONFLICT "Plan has no on-chain identifier")
  | None => fail (CONFLICT "Plan has no on-chain identifier")
  end.

Definition outstanding_or_error client (onchain_id : Z) : X (option Z) :=
  or_return (StellarSubmit.outstanding_loaned client onchain_id) stellar_error_response.

Definition resolve_recall_amount client (onchain_id : Z) (requested : option Z) : X Z :=
  match requested with
  | Some amount =>
    do! reject_if (amount =? 0) (BAD_REQUEST "recall_amount must be greater than zero");
    ret amount
  | None =>
    let! r := outstanding_or_error client onchain_id in
    ok_or r (CONFLICT "Inheritance has not been triggered on-chain")
  end.

Definition outstanding_after client (onchain_id : Z) : X (option Z) :=
  or_else (StellarSubmit.outstanding_loaned client onchain_id) None.

(** The row after [INSERT .. ON CONFLICT (plan_id) DO UPDATE]. *)
Definition upserted (old : option LoanLifecycleRow) (freeze : option string) (progress : option Z)
    (settlement : option string) (outstanding : Z) (tx : option text) (now : Z) : LoanLifecycleRow :=
  mkLifecycle
    (default (from_option freeze_status "PENDING"%string old) freeze)
    (default (from_option recall_progress 0 old) progress)
    (default (from_option settlement_status "PENDING"%string old) settlement)
    (as_i64 outstanding)
    (match tx with Some h => Some h | None => r ← old; last_tx_hash r end)
    now.
Definition upsert_lifecycle (plan_id : uuid) (freeze : option string) (progress : option Z)
    (settlement : option string) (outstanding : Z) (tx : option text) : X unit :=
  or_500 (statement (fun w =>
    let row := upserted (plan_loan_lifecycle (db w) !! plan_id) freeze progress settlement outstanding tx (clock w) in
    if lifecycle_checks row
    then ROk (tt, (db w) <| plan_loan_lifecycle := <[plan_id := row]> (plan_loan_lifecycle (db w)) |>)
    else RErr ConstraintViolation))
    "Failed to persist loan status".

Definition invalidate_cache (plan_id : uuid) p : X unit :=
  let! addresses := or_else (load_beneficiary_addresses plan_id) [] in
  invalidate_plan_cache (owner_address p) addresses.

Definition emit_status (event : PlanStatusEvent) (webhook_type : string) p (tx : option text) : X unit :=
  do! publish (PlanStatus event);
  or_else (enqueue_event webhook_type (LoanStatus (se_plan_id event) (owner_address p) (onchain_plan_id p)
    (se_status event) tx (se_remaining_loaned event))) tt.

(** A chain call: its error as a response, its event verified. *)
Definition call_verified client (call : M W StellarSubmitError InvocationOutcome) (onchain_id : Z)
    (topics : list text) : X InvocationOutcome :=
  let! outcome := or_return call stellar_error_response in
  do! of_result (verify_loan_event client outcome onchain_id topics);
  ret outcome.

(** The transaction and what is left on loan. *)
Definition freeze_loans client (plan_id : uuid) : X (option text * Z) :=
  let! plan := load_plan plan_id in
  do! require_triggered plan;
  let! done_ :=
    if soroban_enabled client then
      let! onchain_id := require_onchain_id plan in
      let! outcome := call_verified client (StellarSubmit.freeze_loans client onchain_id) onchain_id FREEZE_EVENT_TOPICS in
      let! remaining := outstanding_after client onchain_id in
      ret (Some (tx_hash outcome), remaining)
    else ret (None, None) in
  let remaining_loaned := default 0 done_.2 in
  do! upsert_lifecycle plan_id (Some "FROZEN"%string) None None remaining_loaned done_.1;
  do! invalidate_cache plan_id plan;
  do! emit_status (mkStatusEvent "plan.loans_frozen" plan_id "FROZEN" "Loans frozen successfully" done_.1
        (Some "FROZEN"%string) None None (Some remaining_loaned)) "plan.loans_frozen" plan done_.1;
  ret (done_.1, remaining_loaned).

(** The response of a recall. *)
Record RecallResponse := mkRecall { rc_tx : option text; rc_recalled : Z; rc_progress : Z; rc_remaining : Z }.

Definition recall_loans client (plan_id : uuid) (recall_amount : option Z) : X RecallResponse :=
  let! plan := load_plan plan_id in
  do! require_triggered plan;
  let! done_ :=
    if soroban_enabled client then
      let! onchain_id := require_onchain_id plan in
      let! outstanding := resolve_recall_amount client onchain_id recall_amount in
      if outstanding =? 0 then ret (None, 0, 0)
      else
        let! outcome := call_verified client (StellarSubmit.recall_loan client onchain_id outstanding)
                          onchain_id RECALL_EVENT_TOPICS in
        ret (Some (tx_hash outcome),
             event_field_or client outcome RECALL_EVENT_TOPICS (lit "remaining_loaned") 0 0,
             event_field_or client outcome RECALL_EVENT_TOPICS (lit "recalled_amount") outstanding 0)
    else ret (None, 0, default 0 recall_amount) in
  let '(tx, remaining_loaned, recalled_amount) := done_ in
  let progress := if remaining_loaned =? 0 then 100 else 50 in
  do! upsert_lifecycle plan_id None (Some progress) None remaining_loaned tx;
  do! invalidate_cache plan_id plan;
  do! emit_status (mkStatusEvent "plan.loans_recalled" plan_id
        (if remaining_loaned =? 0 then "RECALLED" else "PARTIAL") "Loans recalled successfully" tx
        None (Some progress) None (Some remaining_loaned)) "plan.loans_recalled" plan tx;
  ret (mkRecall tx recalled_amount progress remaining_loaned).

(** [UPDATE plans SET status = 'CLAIMABLE' WHERE id = $1 AND status = 'TRIGGERED']. *)
Definition mark_claimable (plan_id : uuid) (d : database D) : database D :=
  update_plan_row plan_id
    (fun p => if bool_decide (status p = "TRIGGERED"%string) then p <| status := "CLAIMABLE"%string |> else p) d.

(** The on-chain half: the transaction, if anything was outstanding, and the
    amount it settled. *)
Definition liquidate_on_chain client (plan : PlanRow D) : X (option text * Z) :=
  if soroban_enabled client then
    let! onchain_id := require_onchain_id plan in
    let! value := outstanding_or_error client onchain_id in
    let outstanding := default 0 value in
    if 0 <? outstanding then
      let! outcome := call_verified client (StellarSubmit.liquidation_fallback client onchain_id)
                        onchain_id LIQUIDATE_EVENT_TOPICS in
      ret (Some (tx_hash outcome),
           event_field_or client outcome LIQUIDATE_EVENT_TOPICS (lit "settled_amount") outstanding 0)
    else ret (None, 0)
  else ret (None, 0).

Definition liquidate_and_settle client (plan_id : uuid) : X (option text * Z) :=
  let! plan := load_plan plan_id in
  do! require_triggered plan;
  let! done_ := liquidate_on_chain client plan in
  do! upsert_lifecycle plan_id None (Some 100) (Some "SETTLED"%string) 0 done_.1;
  do! or_500 (execute (mark_claimable plan_id)) "Failed to update plan status";
  do! invalidate_cache plan_id plan;
  do! emit_status (mkStatusEvent "plan.liquidated" plan_id "SETTLED" "Collateral liquidated and plan settled successfully"
        done_.1 None (Some 100) (Some "SETTLED"%string) (Some 0)) "plan.settled" plan done_.1;
  ret done_.

(** The dashboard's view: the row's time, freeze status, progress, settlement
    and the loan's status when something is outstanding. *)
Definition get_trigger_info (plan_id : uuid) : X (option Z * string * Z * string * option (Z * string)) :=
  do! load_plan plan_id;
  let! row := or_500 (select (fun d => plan_loan_lifecycle d !! plan_id)) "Database query failed" in
  let '(freeze, progress, settlement, outstanding, timestamp) :=
    match row with
    | Some r => (freeze_status r, recall_progress r, settlement_status r, outstanding_loaned r, Some (updated_at r))
    | None => ("PENDING"%string, 0, "PENDING"%string, 0, None)
    end in
  let loan_status :=
    if bool_decide (freeze = "FROZEN"%string)
    then (if (100 <=? progress)%Z then "Recalled" else "Frozen")%string
    else "Active"%string in
  ret (timestamp, freeze, progress, settlement, if 0 <? outstanding then Some (outstanding, loan_status) else None).

(** * Lemmas *)

Lemma call_verified_Ok client call id topics o w w' :
  (forall w o w', call w = Ok o w' -> landed (network w) o) -> moves exchanged call ->
  call_verified client call id topics w = Ok o w' ->
  exchanged w w' /\ landed (network w) o /\ verify_loan_event client o id topics = ROk tt.
Proof.
  intros Hland Hx Hr. unfold call_verified in Hr. apply bind_Ok in Hr as (o1 & w1 & Hc%or_return_Ok & Hr).
  apply bind_Ok in Hr as ([] & w2 & [Hv ->]%of_result_Ok & [-> ->]%ret_Ok).
  split_and!; [by eapply moves_Ok in Hc|by eapply Hland|done].
Qed.

(** The part of a request before anything is recorded. *)
Definition tables w := (plans (db w), plan_loan_lifecycle (db w)).

Lemma exchanged_tables {E A} (m : M W E A) : moves exchanged m -> keeps tables m.
Proof.
  intros Hm w. specialize (Hm w). unfold tables.
  destruct (m w) as [a w'|e w'|]; [destruct Hm as [_ _ Hr]; injection Hr as -> _ _ _ _; done..|done].
Qed.

Lemma keeps_load_plan id : keeps tables (load_plan id).
Proof. unfold load_plan, get_plan. bkeeps_tac. Qed.
Lemma keeps_require_triggered p : keeps tables (require_triggered p).
Proof. unfold require_triggered. bkeeps_tac. Qed.
Lemma keeps_require_onchain_id p : keeps tables (require_onchain_id p).
Proof. unfold require_onchain_id. bkeeps_tac. Qed.
Lemma keeps_invoke client f args : keeps tables (invoke_admin client f args : M W _ _).
Proof. apply exchanged_tables, invoke_admin_exchanged. Qed.
Lemma keeps_read client id : keeps tables (StellarSubmit.outstanding_loaned client id : M W _ _).
Proof. apply exchanged_tables, outstanding_loaned_exchanged. Qed.
#[local] Hint Resolve keeps_invoke keeps_read : keeps.
Lemma keeps_call_verified client f args id topics :
  keeps tables (call_verified client (invoke_admin client f args) id topics).
Proof. unfold call_verified. bkeeps_tac. Qed.
Lemma keeps_outstanding client id : keeps tables (outstanding_or_error client id).
Proof. unfold outstanding_or_error. bkeeps_tac. Qed.
Lemma keeps_outstanding_after client id : keeps tables (outstanding_after client id).
Proof. unfold outstanding_after. bkeeps_tac. Qed.
Lemma keeps_resolve client id req : keeps tables (resolve_recall_amount client id req).
Proof. unfold resolve_recall_amount, outstanding_or_error. bkeeps_tac. Qed.
Lemma keeps_invalidate id p : keeps tables (invalidate_cache id p).
Proof. unfold invalidate_cache, load_beneficiary_addresses, invalidate_plan_cache. bkeeps_tac. Qed.
Lemma keeps_emit e t p tx : keeps tables (emit_status e t p tx).
Proof. unfold emit_status, publish. bkeeps_tac. Qed.
End lifecycle.
#[export] Hint Resolve keeps_load_plan keeps_require_triggered keeps_require_onchain_id keeps_call_verified
  keeps_invoke keeps_read
  keeps_outstanding keeps_outstanding_after keeps_resolve keeps_invalidate keeps_emit : keeps.

Section properties.
Context {D : Type} `{Postgres} `{cache_libs : CacheLibs} `{Signer}.
Abbreviation W := (backend D).
Abbreviation X A := (M W http_error A).
Implicit Types (w : W) (p : PlanRow D) (client : StellarSubmitClient).

Lemma no_err_invalidate id p : no_err (invalidate_cache id p : X unit).
Proof. apply no_err_bind; [apply no_err_or_else|]. intros a. apply no_err_or_else. Qed.
Lemma no_err_emit e t p tx : no_err (emit_status e t p tx : X unit).
Proof. apply no_err_bind; [apply no_err_modify|]. intros _. apply no_err_or_else. Qed.

Lemma upsert_fails_keeping {B} (f : W -> B) id fr pr se out tx :
  (forall w, f (pop w) = f w) -> fails_keeping f (upsert_lifecycle id fr pr se out tx : X unit).
Proof. intros Hf. by apply fails_keeping_or_500, fails_keeping_statement. Qed.
Lemma keeps_upsert_plans id fr pr se out tx : keeps (fun w => plans (db w)) (upsert_lifecycle id fr pr se out tx : X unit).
Proof.
  unfold upsert_lifecycle. apply keeps_or_500, keeps_statement; [by intros []|]. intros w a d. cbn.
  destruct (lifecycle_checks _); [|done]. by intros [= _ <-].
Qed.

(** C32: A freeze or a recall that is answered with an error leaves the plans and the loan
    records as they were, whichever check, chain call or statement failed, and a
    settlement that fails leaves the plans. *)
Theorem loan_errors_record_nothing client id recall e w w' :
  (freeze_loans client id w = Fail e w' -> tables w' = tables w) /\
  (recall_loans client id recall w = Fail e w' -> tables w' = tables w) /\
  (liquidate_and_settle client id w = Fail e w' -> plans (db w') = plans (db w)).
Proof.
  split_and!.
  - intros Hf. revert Hf. apply (fails_keeping_bind tables); [apply keeps_load_plan|]. intros p.
    apply fails_keeping_bind; [apply keeps_require_triggered|]. intros _.
    apply fails_keeping_bind; [unfold StellarSubmit.freeze_loans; bkeeps_tac|]. intros d.
    apply fails_keeping_last; [by apply upsert_fails_keeping|]. intros _.
    apply no_err_bind; [apply no_err_invalidate|]. intros _.
    apply no_err_bind; [apply no_err_emit|]. intros _. apply no_err_ret.
  - intros Hf. revert Hf. apply (fails_keeping_bind tables); [apply keeps_load_plan|]. intros p.
    apply fails_keeping_bind; [apply keeps_require_triggered|]. intros _.
    apply fails_keeping_bind; [unfold StellarSubmit.recall_loan; bkeeps_tac|]. intros [[tx remaining] recalled].
    apply fails_keeping_last; [by apply upsert_fails_keeping|]. intros _.
    apply no_err_bind; [apply no_err_invalidate|]. intros _.
    apply no_err_bind; [apply no_err_emit|]. intros _. apply no_err_ret.
  - intros Hf. revert Hf. pose (f := fun w : W => plans (db w)).
    assert (forall A (m : X A), keeps tables m -> keeps f m) as Ht.
    { intros A m Hk w0. specialize (Hk w0). unfold tables in Hk. destruct (m w0); [by injection Hk as ? _..|done]. }
    apply (fails_keeping_bind f); [apply Ht, keeps_load_plan|]. intros p.
    apply fails_keeping_bind; [apply Ht, keeps_require_triggered|]. intros _.
    apply fails_keeping_bind; [apply Ht; unfold liquidate_on_chain, StellarSubmit.liquidation_fallback; bkeeps_tac|]. intros d.
    apply fails_keeping_bind; [apply keeps_upsert_plans|]. intros _.
    apply fails_keeping_last; [by apply fails_keeping_or_500, fails_keeping_statement|]. intros _.
    apply no_err_bind; [apply no_err_invalidate|]. intros _.
    apply no_err_bind; [apply no_err_emit|]. intros _. apply no_err_ret.
Qed.

(** What a recorded change leaves in the tables. *)
Lemma upsert_Ok id fr pr se out tx u w w' :
  upsert_lifecycle id fr pr se out tx w = Ok u w' ->
  let row := upserted (plan_loan_lifecycle (db w) !! id) fr pr se out tx (clock w) in
  lifecycle_checks row = true /\
  tables w' = (plans (db w), <[id := row]> (plan_loan_lifecycle (db w))).
Proof.
  intros (_ & d & Hd & ->)%or_500_Ok%statement_Ok. cbv zeta. cbn in Hd.
  destruct (lifecycle_checks _) eqn:Hc; [|done]. by injection Hd as _ <-.
Qed.

(** The conditions every lifecycle request checks first. *)
Lemma settleable_plan_Ok id p u w w1 w2 :
  load_plan id w = Ok p w1 -> require_triggered p w1 = Ok u w2 ->
  plans (db w) !! id = Some p /\ is_active p = true /\ status p ∈ ALLOWED_STATUSES /\ tables w2 = tables w.
Proof.
  intros Hl Hr. pose proof (keeps_Ok _ _ _ _ _ (keeps_load_plan id) Hl) as H1.
  pose proof (keeps_Ok _ _ _ _ _ (keeps_require_triggered p) Hr) as H2.
  unfold load_plan, get_plan in Hl. apply bind_Ok in Hl as (o & w0 & (_ & -> & ->)%or_500_Ok%select_Ok & [Ho _]%ok_or_Ok).
  unfold require_triggered in Hr. apply bind_Ok in Hr as ([] & w3 & [Ha _]%reject_if_Ok & [Hs _]%reject_if_Ok).
  bool_hyps. split_and!; [done..|congruence].
Qed.

(** What a settlement did on chain: nothing was outstanding, or a transaction
    that liquidated this plan landed. *)
Definition settled_on_chain client (replies : list net_reply) p (tx : option text) : Prop :=
  match client with
  | None => tx = None
  | Some _ => exists id, onchain_plan_id p = Some id /\
      (tx = None \/ exists o, landed replies o /\ tx = Some (tx_hash o) /\
         verify_loan_event client o id LIQUIDATE_EVENT_TOPICS = ROk tt)
  end.

Lemma liquidate_on_chain_Ok client p d w w' :
  liquidate_on_chain client p w = Ok d w' ->
  tables w' = tables w /\ settled_on_chain client (network w) p d.1.
Proof.
  intros Hr. split.
  { revert Hr. apply keeps_Ok. unfold liquidate_on_chain, StellarSubmit.liquidation_fallback. bkeeps_tac. }
  unfold liquidate_on_chain in Hr. destruct client as [ctx|]; cbn in Hr; [|by apply ret_Ok in Hr as [-> _]].
  apply bind_Ok in Hr as (id & w1 & Hid & Hr). unfold require_onchain_id in Hid.
  destruct (onchain_plan_id p) as [i|] eqn:Hi; [|by apply fail_Ok in Hid].
  destruct (0 <=? i); [|by apply fail_Ok in Hid]. apply ret_Ok in Hid as [-> ->].
  exists i. split; [done|]. apply bind_Ok in Hr as (v & w2 & Hv%or_return_Ok & Hr).
  destruct (0 <? _); [|apply ret_Ok in Hr as [-> _]; by left].
  apply bind_Ok in Hr as (o & w3 & Hc & [-> _]%ret_Ok). right. exists o.
  apply call_verified_Ok in Hc as (_ & Hl & Hvf); [|intros ? ? ?; apply admin_landed|apply invoke_admin_exchanged].
  apply (moves_network _ _ _ _ (outstanding_loaned_exchanged _ _)) in Hv as [u Hu].
  split_and!; [by eapply landed_mono|done..].
Qed.

(** A settlement that succeeds marks the plan claimable and its loans settled, after
    nothing was outstanding or a verified liquidation landed. *)
Theorem settlement_contract client id tx settled w w' :
  liquidate_and_settle client id w = Ok (tx, settled) w' ->
  exists p row, plans (db w) !! id = Some p /\ is_active p = true /\ status p ∈ ALLOWED_STATUSES /\
    settled_on_chain client (network w) p tx /\
    plans (db w') = <[id := p <| status := "CLAIMABLE"%string |>]> (plans (db w)) /\
    plan_loan_lifecycle (db w') = <[id := row]> (plan_loan_lifecycle (db w)) /\
    recall_progress row = 100 /\ settlement_status row = "SETTLED"%string /\ outstanding_loaned row = 0 /\
    freeze_status row = from_option freeze_status "PENDING"%string (plan_loan_lifecycle (db w) !! id).
Proof.
  intros Hr. unfold liquidate_and_settle in Hr. apply bind_Ok in Hr as (p & w1 & Hl & Hr).
  apply bind_Ok in Hr as ([] & w2 & Hreq & Hr). apply bind_Ok in Hr as (d & w3 & Hch & Hr).
  apply bind_Ok in Hr as ([] & w4 & Hup & Hr). apply bind_Ok in Hr as ([] & w5 & Hex & Hr).
  apply bind_Ok in Hr as ([] & w6 & Hinv & Hr). apply bind_Ok in Hr as ([] & w7 & Hem & [Hd ->]%ret_Ok). subst d.
  destruct (settleable_plan_Ok id p tt w w1 w2 Hl Hreq) as (Hp & Ha & Hs & Ht2).
  assert (network w2 = network w) as Hnet.
  { assert (keeps network (require_triggered p)) as Hk1 by (unfold require_triggered; bkeeps_tac).
    assert (keeps network (load_plan id : X _)) as Hk2 by (unfold load_plan, get_plan; bkeeps_tac).
    etrans; [exact (keeps_Ok _ _ _ _ _ Hk1 Hreq)|exact (keeps_Ok _ _ _ _ _ Hk2 Hl)]. }
  apply liquidate_on_chain_Ok in Hch as [Ht3 Hset]. rewrite Hnet in Hset.
  apply upsert_Ok in Hup as [_ Ht4].
  apply (keeps_Ok _ _ _ _ _ (keeps_invalidate id p)) in Hinv. apply (keeps_Ok _ _ _ _ _ (keeps_emit _ _ _ _)) in Hem.
  apply or_500_Ok, execute_Ok in Hex as [_ ->]. rewrite Hinv in Hem. unfold tables in *. cbn in Hem.
  injection Ht2 as Hp2 Hl2. injection Ht3 as Hp3 Hl3. injection Ht4 as Hp4 Hl4. injection Hem as Hp6 Hl6.
  exists p. eexists. rewrite Hp6, Hl6, Hp4, Hl4, Hp3, Hl3, Hp2, Hl2. split_and!; try done.
  apply map_eq. intros i. destruct (decide (i = id)) as [->|Hn].
  - rewrite lookup_alter_eq, lookup_insert_eq, Hp. cbn. f_equal. case_bool_decide; [done|].
    destruct p; cbn in *. f_equal. unfold ALLOWED_STATUSES in Hs. set_solver.
  - by rewrite lookup_alter_ne, lookup_insert_ne.
Qed.
End properties.

(** * A run *)

Section example.
Import BackendExample.

(** A triggered plan; nothing of it is on loan. *)
Definition triggered_plan : PlanRow unit := silent_plan <| status := "TRIGGERED"%string |>.
Definition info_reply (loaned : Z) : net_reply :=
  mkReply 0 (SimulateReply (mkSimulate None (Decoded tt) (Decoded 10)
    (Decoded (Map (Some [(Symbol (lit "original_loaned"), U64 loaned)]))) Missing)).
Definition liquidated_event (id : Z) : ContractEvent :=
  mkEvent (Some [1]) [Symbol (lit "LOAN"); Symbol (lit "LIQUIDAT")]
    (Map (Some [(Symbol (lit "plan_id"), U64 id); (Symbol (lit "settled_amount"), U64 30)])).
Definition settling : backend unit :=
  world_of triggered_plan
    [account; info_reply 30; account; simulated; pending; landed_with [liquidated_event 7]] 200.

Lemma settlement_contract_witness :
  exists w', liquidate_and_settle (Some demo_ctx) 1%positive settling = Ok (Some (lit "liquidation_fallback"), 30) w' /\
    exists row, plan_loan_lifecycle (db w') = <[1%positive := row]> (plan_loan_lifecycle (db settling)) /\
      settlement_status row = "SETTLED"%string.
Proof.
  destruct (liquidate_and_settle (Some demo_ctx) 1%positive settling) as [[tx n] w'|e w'|] eqn:Hr; [|exfalso; by vm_compute in Hr..].
  assert (tx = Some (lit "liquidation_fallback") /\ n = 30) as [-> ->] by (vm_compute in Hr; by injection Hr as <- <- _).
  exists w'. split; [reflexivity|].
  destruct (settlement_contract (Some demo_ctx) 1%positive _ _ settling w' Hr) as (p & row & _ & _ & _ & _ & _ & Hrow & _ & Hs & _).
  by exists row.
Defined.

(** The network is down: the recall fails and the tables stay. *)
Lemma loan_errors_record_nothing_witness :
  exists e w', recall_loans (Some demo_ctx) 1%positive (Some 5) (world_of triggered_plan [] 200) = Fail e w' /\
    tables w' = tables (world_of triggered_plan [] 200).
Proof.
  destruct (recall_loans (Some demo_ctx) 1%positive (Some 5) (world_of triggered_plan [] 200)) as [r w'|e w'|] eqn:Hr;
    [exfalso; by vm_compute in Hr| |exfalso; by vm_compute in Hr].
  exists e, w'. split; [reflexivity|].
  exact (proj1 (proj2 (loan_errors_record_nothing (Some demo_ctx) 1%positive (Some 5) e _ w')) Hr).
Defined.

(** When what is left cannot be read after a freeze, nothing is recorded as
    outstanding, and the dashboard shows no loan. *)
Definition freezing_blind : backend unit :=
  world_of triggered_plan
    [account; simulated; pending;
     landed_with [mkEvent (Some [1]) [Symbol (lit "LOAN"); Symbol (lit "FREEZE")] (Map (Some [(Symbol (lit "plan_id"), U64 7)]))]] 200.
Lemma blind_freeze_records_zero :
  let w' := after (freeze_loans (Some demo_ctx) 1%positive) freezing_blind in
  outstanding_loaned <$> plan_loan_lifecycle (db w') !! 1%positive = Some 0.
Proof. vm_compute. reflexivity. Qed.

(** Without a signer a recall records full progress although nothing was recalled. *)
Lemma offline_recall_reports_done :
  match recall_loans None 1%positive (Some 5) (world_of triggered_plan [] 200) with
  | Ok r _ => rc_progress r = 100 /\ rc_recalled r = 5
  | _ => False
  end.
Proof. vm_compute. by split. Qed.
End example.
End LoanLifecycle.
