(* ===== verification/StellarAnchor.v ===== *)
(** The anchor that pays out in fiat currency
    (src/backend/src/stellar_anchor.rs). *)
From S2P Require Import Prelude Host Text YieldCalculator BackendTypes StellarSubmit.
Import Text BackendTypes StellarSubmit.

Module StellarAnchor.

Inductive AnchorPayoutStatus := Pending | Processing | Completed | Failed.

(** Dates in nanoseconds. *)
Record AnchorPayout := mkAnchorPayout {
  id : text; request : AnchorPayoutRequest; exchange_rate : f64; fiat_amount : f64;
  anchor_fee_usd : f64; status : AnchorPayoutStatus; created_at : Z; updated_at : Z
}.

Definition payout_status (s : option text) : AnchorPayoutStatus :=
  match s with
  | Some s =>
    if bool_decide (s = lit "completed") then Completed
    else if bool_decide (s = lit "failed") then Failed
    else Processing
  | None => Processing
  end.

Definition failed_payout (req : AnchorPayoutRequest) (now : Z) : AnchorPayout :=
  mkAnchorPayout [] req (YieldCalculator.of_Z 1) YieldCalculator.zero YieldCalculator.zero Failed now now.

Definition create_payout {D E} (req : AnchorPayoutRequest) : M (backend D) E AnchorPayout :=
  let! a := http (AnchorSend req) in
  let! now := gets clock in
  ret match a with
      | AnchorReply (Some r) =>
        mkAnchorPayout (default [] (match ar_id r with Some i => Some i | None => ar_transaction_id r end)) req
          (default (YieldCalculator.of_Z 1) (ar_exchange_rate r))
          (default YieldCalculator.zero (ar_fiat_amount r)) (default YieldCalculator.zero (ar_fee r))
          (payout_status (ar_status r)) now now
      | _ => failed_payout req now
      end.

Lemma create_payout_exchanged {D E} req : moves exchanged (create_payout req : M (backend D) E AnchorPayout).
Proof. unfold create_payout. exchanged_tac. Qed.
Lemma create_payout_no_err {D E} req : no_err (create_payout req : M (backend D) E AnchorPayout).
Proof.
  apply no_err_bind; [intros [? ? [|] ? ? ? ? ?] e w'; by cbn|]. intros a. by intros w e w'.
Qed.
(** The request is sent once, whatever the anchor answers. *)
Lemma create_payout_run {D E} req (w : backend D) :
  exists p w', (create_payout req : M _ E AnchorPayout) w = Ok p w' /\
    request p = req /\ requests w' = requests w ++ [AnchorSend req] /\
    (db w', faults w', drawn w', cache w', broadcasts w') = (db w, faults w, drawn w, cache w, broadcasts w).
Proof.
  destruct w as [d fs [|a rest] t n c rq bs]; [by do 2 eexists|].
  destruct a as [k rp]. destruct rp as [| | | |sq|sr|sd|r|ac|[an|]|wb]; by do 2 eexists.
Qed.
End StellarAnchor.
