(* ===== verification/PlanApi.v ===== *)
(** Plans over HTTP (src/backend/src/api.rs): creating, updating and pinging a
    plan, listing plans, and the statistics. *)
From S2P Require Import Prelude Host Text PlanCache YieldCalculator StellarXdr.
From S2P Require Import BackendTypes StellarSubmit BackendExample.
From stdpp Require Import sorting.
#[local] Open Scope Z_scope.
Import Text PlanCache BackendTypes.

Module PlanApi.

(** * Requests and responses *)

Record PlanBeneficiary := mkPlanBeneficiary {
  address : text; name : text; pb_allocation_bps : Z; pb_fiat_anchor_info : text
}.
(** The source's [Plan]. *)
Record PlanRequest := mkPlanRequest {
  rq_owner : text; rq_token : text; rq_amount : f64; rq_beneficiaries : list PlanBeneficiary;
  rq_last_ping : Z; rq_grace_period : Z; rq_earn_yield : bool; rq_yield_rate_bps : Z;
  rq_is_active : bool; rq_onchain_plan_id : option Z
}.
Record UpdatePlanRequest := mkUpdate {
  up_beneficiaries : list PlanBeneficiary; up_grace_period : option Z;
  up_earn_yield : option bool; up_yield_rate_bps : option Z
}.
Record PingRequest := mkPing { pg_owner : text; signature : text; message : text }.

Record PlanResponse {D : Type} := mkResponse {
  rs_id : uuid; rs_owner_address : text; rs_token_address : text; rs_amount : D;
  rs_grace_period : Z; rs_grace_period_seconds : Z; rs_earn_yield : bool; rs_last_ping : Z;
  rs_is_active : bool; rs_status : string; rs_yield_rate_bps : Z; rs_accrued_yield : f64;
  rs_created_at : Z; rs_onchain_plan_id : option Z; rs_beneficiaries : list (BeneficiaryRow D)
}.
Arguments PlanResponse : clear implicits.
Arguments mkResponse {D}.

Definition response_of {D} (id : uuid) (p : PlanRow D) (accrued : f64) (bs : list (BeneficiaryRow D))
  : PlanResponse D :=
  mkResponse id (owner_address p) (token_address p) (amount p) (grace_period p) (grace_period_seconds p)
    (earn_yield p) (last_ping p) (is_active p) (status p) (yield_rate_bps p) accrued (created_at p)
    (onchain_plan_id p) bs.

Inductive PlanCacheStatus := Hit | Miss | Bypass | ErrorFallback.
Definition as_header_value (s : PlanCacheStatus) : string :=
  match s with Hit => "hit" | Miss => "miss" | Bypass => "bypass" | ErrorFallback => "error-fallback" end.

Record PlanStatisticsResponse {D : Type} := mkStatistics {
  total_plans : Z; active_plans : Z; expired_plans : Z; triggered_plans : Z; claimed_plans : Z;
  by_status : list (string * Z);
  locked_value_by_asset : list (text * D * Z)
}.
Arguments PlanStatisticsResponse : clear implicits.
Arguments mkStatistics {D}.

Definition len {A} (l : list A) : Z := Z.of_nat (length l).

Section api.
Context {D : Type} `{DecimalOps D} `{Postgres} `{cache_libs : CacheLibs}.
Abbreviation W := (backend D).
Abbreviation X A := (M W http_error A).
Implicit Types (w : W) (p : PlanRow D) (d : database D) (now : Z).

(** * Yield *)

(** [now] in nanoseconds. *)
Definition compute_accrued_yield (amount : D) (yield_rate_bps last_ping now : Z) : f64 :=
  if (yield_rate_bps =? 0) || (last_ping =? 0) then YieldCalculator.zero
  else
    let elapsed_secs := Z.max 0 (as_i64 (now / NANOS - last_ping)) in
    YieldCalculator.calculate_yield (to_f64 amount) (as_u32 yield_rate_bps) elapsed_secs.
Definition compute_projected_accrued_yield p now : f64 :=
  let persisted := to_f64 (accrued_yield p) in
  if negb (earn_yield p) then persisted
  else YieldCalculator.fadd persisted
         (compute_accrued_yield (amount p) (yield_rate_bps p) (last_ping p) now).

Definition plan_row_to_response (ip : uuid * PlanRow D) (bs : list (BeneficiaryRow D)) now : PlanResponse D :=
  response_of ip.1 ip.2 (compute_projected_accrued_yield ip.2 now) bs.

(** * The tables' constraints *)

Definition plan_checks p : bool :=
  dle dzero (amount p) && (0 <=? grace_period_seconds p) &&
  ((0 <=? yield_rate_bps p) && (yield_rate_bps p <=? 10000)) &&
  match onchain_plan_id p with Some i => 0 <=? i | None => true end &&
  timestamp_range (inactivity_deadline_at p).
(** The unique index on identifiers inside the contract. *)
Definition onchain_unique p d : bool :=
  match onchain_plan_id p with
  | None => true
  | Some i => forallb (fun ip => negb (bool_decide (onchain_plan_id ip.2 = Some i))) (map_to_list (plans d))
  end.
Definition insert_plan (id : uuid) p : M W sqlx_error unit :=
  checked_execute (fun d =>
    if plan_checks p && onchain_unique p d && bool_decide (plans d !! id = None)
    then Some (d <| plans := <[id := p]> (plans d) |>) else None).
(** [UPDATE plans SET .. WHERE id = $] of checked columns. *)
Definition update_checked (id : uuid) (f : PlanRow D -> PlanRow D) : M W sqlx_error unit :=
  checked_execute (fun d =>
    match plans d !! id with
    | None => Some d
    | Some p => if plan_checks (f p) then Some (d <| plans := <[id := f p]> (plans d) |>) else None
    end).

Definition rows_of (id : uuid) d : list (BeneficiaryRow D) := filter (fun b => b_plan_id b = id) (beneficiaries d).
Definition bps_of (bs : list (BeneficiaryRow D)) : Z := foldr (fun b acc => allocation_bps b + acc) 0 bs.
(** The column's range, the unique wallet of a plan, the trigger on the total. *)
Definition beneficiary_checks (b : BeneficiaryRow D) d : bool :=
  ((0 <=? allocation_bps b) && (allocation_bps b <=? 10000)) &&
  bool_decide (wallet_address b ∉ map wallet_address (rows_of (b_plan_id b) d)) &&
  (bps_of (rows_of (b_plan_id b) d) + allocation_bps b <=? 10000) &&
  bool_decide (is_Some (plans d !! b_plan_id b)).
Definition insert_beneficiary (plan_id : uuid) (b : PlanBeneficiary) : M W sqlx_error (BeneficiaryRow D) :=
  let! id := fresh_uuid in
  let row := mkBeneficiary id plan_id (address b) (as_i32 (pb_allocation_bps b)) (pb_fiat_anchor_info b) dzero in
  do! checked_execute (fun d =>
    if beneficiary_checks row d then Some (d <| beneficiaries := beneficiaries d ++ [row] |>) else None);
  ret row.

(** * Creating and updating *)

Definition add_allocation (total : Z) (b : PlanBeneficiary) : X Z :=
  do! reject_if (blank (address b)) (BAD_REQUEST "Beneficiary address cannot be empty");
  do! reject_if (10000 <? pb_allocation_bps b) (BAD_REQUEST "Beneficiary allocation_bps cannot exceed 10000");
  ret (as_u32 (total + pb_allocation_bps b)).
Definition validate_beneficiaries (bs : list PlanBeneficiary) : X unit :=
  do! reject_if (100 <? len bs) (BAD_REQUEST "Cannot exceed 100 beneficiaries");
  let! total_bps := foldM add_allocation bs 0 in
  reject_if (negb (total_bps =? 10000)) (BAD_REQUEST "Total allocation_bps must be exactly 10000 (100%)").

Definition validate_plan (payload : PlanRequest) : X unit :=
  do! reject_if (blank (rq_owner payload)) (BAD_REQUEST "Owner address cannot be empty");
  do! reject_if (blank (rq_token payload)) (BAD_REQUEST "Token address cannot be empty");
  do! reject_if (YieldCalculator.fltb (rq_amount payload) YieldCalculator.zero) (BAD_REQUEST "Amount must be non-negative");
  do! reject_if (rq_grace_period payload =? 0) (BAD_REQUEST "Grace period must be greater than zero");
  do! reject_if (is_empty (rq_beneficiaries payload)) (BAD_REQUEST "Plan must have at least one beneficiary");
  validate_beneficiaries (rq_beneficiaries payload).

(** The row as PostgreSQL stores it. *)
Definition new_plan (payload : PlanRequest) (amount_dec : D) now : PlanRow D :=
  mkPlan (rq_owner payload) (rq_token payload) (numeric0 amount_dec) (as_i64 (rq_grace_period payload))
    (as_i64 (rq_grace_period payload)) (rq_earn_yield payload) (rq_last_ping payload) (rq_is_active payload)
    "ACTIVE" (as_i32 (rq_yield_rate_bps payload)) (numeric4 dzero) now (as_i64 <$> rq_onchain_plan_id payload)
    None 0 None None.

Definition save_beneficiaries (plan_id : uuid) (bs : list PlanBeneficiary) (message : string)
  : X (list (BeneficiaryRow D)) :=
  foldM (fun saved b => let! row := or_500 (insert_beneficiary plan_id b) message in ret (saved ++ [row])) bs [].

Definition save_plan (payload : PlanRequest) (amount_dec : D) : X (uuid * PlanRow D * list (BeneficiaryRow D)) :=
  transaction (INTERNAL_SERVER_ERROR "Failed to begin database transaction")
    (INTERNAL_SERVER_ERROR "Failed to commit database transaction")
    (let! id := fresh_uuid in
     let! now := gets clock in
     let row := new_plan payload amount_dec now in
     do! or_500 (insert_plan id row) "Failed to save plan";
     let! saved := save_beneficiaries id (rq_beneficiaries payload) "Failed to save beneficiary" in
     ret (id, row, saved)).

Definition create_plan (payload : PlanRequest) : X (PlanResponse D) :=
  do! validate_plan payload;
  let! retained := ok_or (from_f64_retain (rq_amount payload)) (BAD_REQUEST "Invalid amount representation") in
  let! saved := save_plan payload (dnormalize retained) in
  let '(id, row, bs) := saved in
  do! invalidate_plan_cache (rq_owner payload) (map wallet_address bs);
  do! or_else (enqueue_event "plan.created" (PlanCreated id row bs)) tt;
  ret (response_of id row YieldCalculator.zero bs).

(** An update the request may ask for. *)
Definition update_if {A} (o : option A) (plan_id : uuid) (f : A -> PlanRow D -> PlanRow D) (message : string) : X unit :=
  match o with
  | Some a => or_500 (update_checked plan_id (f a)) message
  | None => ret tt
  end.
Definition write_update (plan_id : uuid) (payload : UpdatePlanRequest) : X unit :=
  let! found := or_500 (get_plan plan_id) "Failed to fetch plan" in
  let! _plan_row := ok_or found (NOT_FOUND "Plan not found") in
  do! update_if (up_grace_period payload) plan_id
        (fun gp p => p <| grace_period := as_i64 gp |> <| grace_period_seconds := as_i64 gp |>) "Failed to update grace_period";
  do! update_if (up_earn_yield payload) plan_id (fun ey p => p <| earn_yield := ey |>) "Failed to update earn_yield";
  do! update_if (up_yield_rate_bps payload) plan_id (fun yrb p => p <| yield_rate_bps := as_i32 yrb |>)
        "Failed to update yield_rate_bps";
  when (negb (is_empty (up_beneficiaries payload)))
    (do! or_500 (execute (fun d => d <| beneficiaries := filter (fun b => b_plan_id b <> plan_id) (beneficiaries d) |>))
           "Failed to delete existing beneficiaries";
     do! save_beneficiaries plan_id (up_beneficiaries payload) "Failed to insert beneficiary";
     ret tt).

(** [fetch_one]: no row is an error. *)
Definition fetch_plan (plan_id : uuid) : M W sqlx_error (PlanRow D) :=
  statement (fun w => match plans (db w) !! plan_id with Some p => ROk (p, db w) | None => RErr RowNotFound end).

Definition update_plan (plan_id : uuid) (payload : UpdatePlanRequest) : X (PlanResponse D) :=
  do! when (negb (is_empty (up_beneficiaries payload))) (validate_beneficiaries (up_beneficiaries payload));
  do! transaction (INTERNAL_SERVER_ERROR "Failed to begin database transaction")
        (INTERNAL_SERVER_ERROR "Failed to commit transaction") (write_update plan_id payload);
  let! updated := or_500 (fetch_plan plan_id) "Failed to fetch updated plan" in
  let! bs := or_500 (load_beneficiaries plan_id) "Failed to fetch beneficiaries" in
  ret (response_of plan_id updated YieldCalculator.zero bs).

(** * Pinging *)

(** Any signature that is not empty is accepted. *)
Definition verify_ping_signature (_owner signature _message : text) : bool := negb (is_empty signature).

(** [fetch_optional] of the owner's active plans: the first of them. *)
Definition active_plan_of (owner : text) : M W sqlx_error (option (uuid * PlanRow D)) :=
  select (fun d => head (row_order
    (filter (fun ip => owner_address ip.2 = owner /\ is_active ip.2 = true) (map_to_list (plans d))))).

(** The accrued yield after a ping; [+=] panics on overflow. *)
Definition pinged_yield p (elapsed : Z) : X D :=
  if earn_yield p && (0 <? elapsed) then
    match from_f64_retain (YieldCalculator.calculate_yield (to_f64 (amount p)) (as_u32 (yield_rate_bps p)) elapsed) with
    | Some yield_dec => unwrap (dadd (accrued_yield p) yield_dec)
    | None => ret (accrued_yield p)
    end
  else ret (accrued_yield p).

(** The owner, the status and the virtual balance. *)
Definition ping_plan (payload : PingRequest) : X (text * string * D) :=
  do! reject_if (negb (verify_ping_signature (pg_owner payload) (signature payload) (message payload)))
        (UNAUTHORIZED "Invalid signature");
  let! found := or_500 (active_plan_of (pg_owner payload)) "Database error" in
  let! ip := ok_or found (NOT_FOUND "Active plan not found") in
  let '(id, plan) := ip in
  let! current_time := gets now_secs in
  let elapsed := if last_ping plan <? current_time then current_time - last_ping plan else 0 in
  let! new_accrued_yield := pinged_yield plan elapsed in
  do! transaction (INTERNAL_SERVER_ERROR "Failed to begin transaction") (INTERNAL_SERVER_ERROR "Failed to commit transaction")
    (do! or_500 (update_checked id (fun p =>
           p <| last_ping := current_time |> <| accrued_yield := numeric4 new_accrued_yield |>)) "Failed to update plan";
     or_500 (statement (fun w => ROk (tt, (db w) <| ping_logs := ping_logs (db w) ++ [(id, clock w, numeric4 new_accrued_yield)] |>)))
       "Failed to record ping log");
  let! addresses := or_else (load_beneficiary_addresses id) [] in
  do! invalidate_plan_cache (owner_address plan) addresses;
  let! virtual_balance := unwrap (dadd (amount plan) new_accrued_yield) in
  ret (owner_address plan, status plan, virtual_balance).

(** * Listing *)

Definition newer (x y : uuid * PlanRow D) : Prop := created_at y.2 <= created_at x.2.
#[local] Instance newer_dec x y : Decision (newer x y) := ltac:(unfold newer; apply _).
(** [SELECT .. FROM plans WHERE keep ORDER BY created_at DESC]. *)
Definition plans_where (keep : uuid * PlanRow D -> bool) d : list (uuid * PlanRow D) :=
  merge_sort newer (row_order (filter (fun ip => keep ip = true) (map_to_list (plans d)))).

Definition listed (wallet : text) (id : uuid) d : bool :=
  existsb (fun b => bool_decide (b_plan_id b = id) && bool_decide (wallet_address b = wallet)) (beneficiaries d).
Definition matches_query (q : PlanQuery) d (ip : uuid * PlanRow D) : bool :=
  match owner q, beneficiary q with
  | Some o, None => bool_decide (owner_address ip.2 = o)
  | None, Some b => listed b ip.1 d
  | Some o, Some b => bool_decide (owner_address ip.2 = o) || listed b ip.1 d
  | None, None => true
  end.

(** Convert the rows, each with a query for its beneficiaries. *)
Definition respond (rows : list (uuid * PlanRow D)) : X (list (PlanResponse D)) :=
  foldM (fun responses ip =>
    let! bs := or_500 (load_beneficiaries ip.1) "Failed to load beneficiaries" in
    let! now := gets clock in
    ret (responses ++ [plan_row_to_response ip bs now])) rows [].

Section cached.
Context `{Json (list (PlanResponse D))}.

(** [get_plans] past the cache. *)
Definition query_plans (q : PlanQuery) (cache_status : PlanCacheStatus) : X (PlanCacheStatus * list (PlanResponse D)) :=
  let! rows := or_500 (select (fun d => plans_where (matches_query q d) d)) "Database query failed" in
  let! responses := respond rows in
  let! enabled := gets (fun w => is_enabled (cache w)) in
  do! when (enabled && existsb rs_is_active responses)
    (or_else (on_cache (fun now => set_plans now q responses)) tt);
  ret (cache_status, responses).

(** The response and its [x-plan-cache-status] header. *)
Definition get_plans (q : PlanQuery) : X (PlanCacheStatus * list (PlanResponse D)) :=
  let! enabled := gets (fun w => is_enabled (cache w)) in
  if enabled then
    let! cached := outcome_of (on_cache (fun now => PlanCache.get_plans now q)) in
    match cached with
    | ROk (Some responses) => ret (Hit, responses)
    | ROk None => query_plans q Miss
    | RErr _ => query_plans q ErrorFallback
    end
  else query_plans q Bypass.
End cached.

Definition get_plan_by_id (plan_id : uuid) : X (PlanResponse D) :=
  let! found := or_500 (get_plan plan_id) "Database query failed" in
  let! plan_row := ok_or found (NOT_FOUND "Plan not found") in
  let! bs := or_500 (load_beneficiaries plan_id) "Failed to load beneficiaries" in
  let! now := gets clock in
  ret (plan_row_to_response (plan_id, plan_row) bs now).

(** * Statistics *)

(** Dates in nanoseconds. *)
Record StatisticsQuery := mkStatisticsQuery { sq_start : option Z; sq_end : option Z; sq_asset : option text }.

Definition statistics_filter (q : StatisticsQuery) p : bool :=
  match sq_start q with Some start => start <=? created_at p | None => true end &&
  match sq_end q with Some end_ => created_at p <=? end_ | None => true end &&
  match sq_asset q with
  | Some asset => blank asset || bool_decide (token_address p = trim asset)
  | None => true
  end.
Definition filtered (q : StatisticsQuery) d : list (PlanRow D) :=
  filter (fun p => statistics_filter q p = true) (map snd (map_to_list (plans d))).
(** [COUNT] of the rows that satisfy a condition. *)
Definition count (keep : PlanRow D -> bool) (ps : list (PlanRow D)) : Z := len (filter (fun p => keep p = true) ps).
Definition status_in (ss : list string) p : bool := bool_decide (status p ∈ ss).

(** The counts by stage; [NOW()] is in nanoseconds. *)
Definition summary (q : StatisticsQuery) now d : Z * Z * Z * Z * Z :=
  let ps := filtered q d in
  let due p := inactivity_deadline_at p * NANOS <=? now in
  (len ps,
   count (fun p => status_in ["ACTIVE"%string] p && negb (due p)) ps,
   count (fun p => status_in ["ACTIVE"%string] p && due p) ps,
   count (status_in ["TRIGGERING"; "TRIGGERED"; "TRIGGER_FAILED"]%string) ps,
   count (status_in ["CLAIMABLE"; "PAID_OUT"]%string) ps).
(** [GROUP BY]; the order of the groups is that of the database's collation. *)
Definition status_breakdown (q : StatisticsQuery) d : list (string * Z) :=
  let ps := filtered q d in
  map (fun s => (s, count (status_in [s]) ps)) (row_order (remove_dups (map status ps))).
Definition locked_value (q : StatisticsQuery) d : list (text * D * Z) :=
  let ps := filter (fun p => is_active p = true) (filtered q d) in
  map (fun t =>
    let of_t := filter (fun p => token_address p = t) ps in
    (t, foldr (fun p acc => numeric_add (amount p) acc) dzero of_t, len of_t))
    (row_order (remove_dups (map token_address ps))).

Definition query_statistics (q : StatisticsQuery) : X (PlanStatisticsResponse D) :=
  let! s := or_500 (statement (fun w => ROk (summary q (clock w) (db w), db w))) "Database query failed" in
  let! by_status := or_500 (select (status_breakdown q)) "Database query failed" in
  let! locked := or_500 (select (locked_value q)) "Database query failed" in
  let '(total, active, expired, triggered, claimed) := s in
  ret (mkStatistics total active expired triggered claimed by_status locked).

(** Dates as the text [to_rfc3339] gives. *)
Definition statistics_key (to_rfc3339 : Z -> text) (q : StatisticsQuery) : text :=
  plan_statistics_cache_key (mkStatsQuery (to_rfc3339 <$> sq_start q) (to_rfc3339 <$> sq_end q) (sq_asset q)).

(** [plan_statistics_cache_ttl_secs] is the configured time to live. *)
Definition get_plan_statistics `{Json (PlanStatisticsResponse D)} (to_rfc3339 : Z -> text)
  (plan_statistics_cache_ttl_secs : Z) (q : StatisticsQuery) : X (PlanStatisticsResponse D) :=
  do! reject_if (match sq_start q, sq_end q with Some start, Some end_ => end_ <? start | _, _ => false end)
        (BAD_REQUEST "start_date must be before end_date");
  let key := statistics_key to_rfc3339 q in
  let! enabled := gets (fun w => is_enabled (cache w)) in
  let! hit := (if enabled then or_else (on_cache (fun now => get_stats now key)) None else ret None) in
  match hit with
  | Some stats => ret stats
  | None =>
    let! stats := query_statistics q in
    let! enabled := gets (fun w => is_enabled (cache w)) in
    do! when enabled (or_else (on_cache (fun now => set_stats now key stats plan_statistics_cache_ttl_secs)) tt);
    ret stats
  end.

(** * Lemmas *)

(** ** Validation *)

Definition bps_total (bs : list PlanBeneficiary) : Z := foldr (fun b acc => pb_allocation_bps b + acc) 0 bs.

Lemma add_allocations_Ok bs total n w w' :
  foldM add_allocation bs total w = Ok n w' ->
  0 <= total -> total + 10000 * len bs <= u32_max -> Forall (fun b => 0 <= pb_allocation_bps b) bs ->
  n = total + bps_total bs /\ w' = w /\
  Forall (fun b => blank (address b) = false /\ 0 <= pb_allocation_bps b <= 10000) bs.
Proof.
  revert total. induction bs as [|b bs IH]; intros total Hr Ht Hb Hpos; cbn in Hr.
  - apply ret_Ok in Hr as [-> ->]. cbn. split_and!; [lia|done|constructor].
  - inversion Hpos as [|? ? Hb0 Hpos']; subst. unfold len in *. cbn [length] in Hb.
    run_bind Hr. match goal with Ha : add_allocation _ _ _ = _ |- _ => unfold add_allocation in Ha; rename Ha into H2 end.
    run_bind H2. run_bind H2.
    repeat match goal with Hx : reject_if _ _ _ = Ok _ _ |- _ => apply reject_if_Ok in Hx as [? ->] end.
    apply ret_Ok in H2 as [-> ->]. bool_hyps.
    rewrite as_u32_small in Hr by (unfold u32; lia).
    apply IH in Hr as (-> & -> & Hf); [|lia..|done].
    change (bps_total (b :: bs)) with (pb_allocation_bps b + bps_total bs). split_and!; [lia|done|].
    constructor; [split; [done|lia]|done].
Qed.
Lemma validate_beneficiaries_Ok bs u w w' :
  validate_beneficiaries bs w = Ok u w' -> Forall (fun b => 0 <= pb_allocation_bps b) bs ->
  w' = w /\ len bs <= 100 /\ bps_total bs = 10000 /\
  Forall (fun b => blank (address b) = false /\ 0 <= pb_allocation_bps b <= 10000) bs.
Proof.
  unfold validate_beneficiaries. intros Hr Hpos. run_bind Hr. run_bind Hr.
  repeat match goal with Hx : reject_if _ _ _ = Ok _ _ |- _ => apply reject_if_Ok in Hx as [? ->] end. bool_hyps.
  match goal with Hf : foldM _ _ _ _ = _ |- _ => apply add_allocations_Ok in Hf as (-> & -> & Hf) end;
    [|lia|ulia|done]. split_and!; [done|lia|lia|done].
Qed.

(** ** Saving rows *)

Lemma insert_beneficiary_Ok id b row w w' :
  insert_beneficiary id b w = Ok row w' ->
  b_plan_id row = id /\ wallet_address row = address b /\ allocation_bps row = as_i32 (pb_allocation_bps b) /\
  fiat_anchor_info row = pb_fiat_anchor_info b /\ fiat_daily_limit row = dzero /\ beneficiary_checks row (db w) = true /\
  db w' = (db w) <| beneficiaries := beneficiaries (db w) ++ [row] |> /\ cache w' = cache w.
Proof.
  unfold insert_beneficiary, fresh_uuid. intros Hr. run_bind Hr. run_bind Hr.
  apply ret_Ok in Hr as [-> ->].
  match goal with Hc : checked_execute _ _ = _ |- _ => apply checked_execute_Ok in Hc as (_ & d & Hd & ->) end.
  run_inv. destruct (beneficiary_checks _ _) eqn:Hc; [|done]. injection Hd as <-. by split_and!.
Qed.
Lemma bps_of_cons b bs : bps_of (b :: bs) = allocation_bps b + bps_of bs.
Proof. done. Qed.
Lemma bps_of_nonneg bs : Forall (fun b => 0 <= allocation_bps b <= 10000) bs -> 0 <= bps_of bs.
Proof. induction 1 as [|b bs Hb _ IH]; [done|]. rewrite bps_of_cons. lia. Qed.
Lemma bps_of_app bs1 bs2 : bps_of (bs1 ++ bs2) = bps_of bs1 + bps_of bs2.
Proof. induction bs1 as [|b bs1 IH]; [done|]. unfold bps_of in *. cbn. rewrite IH. lia. Qed.

(** The rows saved for a plan: what the request says, in its order. *)
Definition saved_rows (id : uuid) (bs : list PlanBeneficiary) (rows : list (BeneficiaryRow D)) : Prop :=
  Forall2 (fun b row => b_plan_id row = id /\ wallet_address row = address b /\
    allocation_bps row = as_i32 (pb_allocation_bps b) /\ fiat_anchor_info row = pb_fiat_anchor_info b /\
    fiat_daily_limit row = dzero) bs rows.

Lemma save_beneficiaries_Ok id bs msg rows w w' :
  save_beneficiaries id bs msg w = Ok rows w' ->
  saved_rows id bs rows /\ db w' = (db w) <| beneficiaries := beneficiaries (db w) ++ rows |> /\ cache w' = cache w.
Proof.
  unfold save_beneficiaries.
  assert (forall acc w, foldM (fun saved b => let! row := or_500 (insert_beneficiary id b) msg in ret (saved ++ [row])) bs acc w = Ok rows w' ->
    exists new, rows = acc ++ new /\ saved_rows id bs new /\
      db w' = (db w) <| beneficiaries := beneficiaries (db w) ++ new |> /\ cache w' = cache w) as Hg.
  { clear w. induction bs as [|b bs IH]; intros acc w Hr; cbn in Hr.
    - apply ret_Ok in Hr as [-> ->]. exists []. rewrite app_nil_r. split_and!; [done|constructor| |done].
      rewrite app_nil_r. by destruct (db w).
    - run_bind Hr. run_bind H1. apply ret_Ok in H1 as [-> ->].
      match goal with Hi : or_500 _ _ _ = _ |- _ => apply or_500_Ok, insert_beneficiary_Ok in Hi as (? & ? & ? & ? & ? & _ & Hdb & Hc) end.
      apply IH in Hr as (new & -> & Hs & Hdb' & Hc'). eexists (_ :: new). split_and!.
      + by rewrite <-app_assoc.
      + constructor; [done|exact Hs].
      + rewrite Hdb', Hdb. cbn. by rewrite <-app_assoc.
      + congruence. }
  intros Hr. apply Hg in Hr as (new & -> & ? & ? & ?). done.
Qed.

Lemma saved_total id bs rows :
  saved_rows id bs rows -> Forall (fun b => blank (address b) = false /\ 0 <= pb_allocation_bps b <= 10000) bs ->
  bps_of rows = bps_total bs.
Proof.
  intros Hs Hb. induction Hs as [|b row bs rows (_ & _ & Ha & _) _ IH]; [done|]. inversion Hb as [|? ? [_ Hr] Hb']; subst.
  unfold bps_of, bps_total in *. cbn. rewrite (IH Hb'), Ha. f_equal.
  unfold as_i32. rewrite Z.mod_small by lia. lia.
Qed.

(** ** The constraints as an invariant *)

Record sound d : Prop := {
  so_plans : forall id p, plans d !! id = Some p -> plan_checks p = true;
  so_rows : forall b, b ∈ beneficiaries d -> is_Some (plans d !! b_plan_id b) /\ 0 <= allocation_bps b <= 10000;
  so_wallets : forall id, NoDup (map wallet_address (rows_of id d));
  so_total : forall id, bps_of (rows_of id d) <= 10000
}.
Definition keeps_sound (d d' : database D) : Prop := sound d -> sound d'.
#[export] Instance keeps_sound_preorder : PreOrder keeps_sound.
Proof. split; [intros d Hs; exact Hs|intros d1 d2 d3 H1 H2 Hs; by apply H2, H1]. Qed.

Lemma empty_sound : sound empty_db.
Proof.
  split.
  - intros id p Hp. cbn in Hp. by rewrite lookup_empty in Hp.
  - intros b Hb. by apply elem_of_nil in Hb.
  - intros id. constructor.
  - intros id. cbn. lia.
Qed.
Lemma sound_same d d' : plans d' = plans d -> beneficiaries d' = beneficiaries d -> keeps_sound d d'.
Proof.
  intros Hp Hb [H1 H2 H3 H4]. split; unfold rows_of in *; rewrite ?Hp, ?Hb; done.
Qed.
Lemma sound_plans d ps :
  (forall id p, ps !! id = Some p -> plan_checks p = true) -> (forall id, is_Some (plans d !! id) -> is_Some (ps !! id)) ->
  keeps_sound d (d <| plans := ps |>).
Proof.
  intros Hp Hk [H1 H2 H3 H4]. split; cbn; [done| |done..]. intros b [? ?]%H2. split; [by apply Hk|done].
Qed.
Lemma sound_insert_plan d id p :
  plan_checks p = true -> keeps_sound d (d <| plans := <[id := p]> (plans d) |>).
Proof.
  intros Hp Hs. apply sound_plans; [| |done].
  - intros i q [[-> <-]|[_ Hq]]%lookup_insert_Some; [done|by eapply (so_plans d)].
  - intros i Hi. destruct (decide (i = id)) as [->|Hn]; [by rewrite lookup_insert_eq|by rewrite lookup_insert_ne].
Qed.
Lemma rows_of_app id d bs : rows_of id (d <| beneficiaries := beneficiaries d ++ bs |>) = rows_of id d ++ filter (fun b => b_plan_id b = id) bs.
Proof. unfold rows_of. cbn. apply filter_app. Qed.
Lemma sound_insert_row d b : beneficiary_checks b d = true -> keeps_sound d (d <| beneficiaries := beneficiaries d ++ [b] |>).
Proof.
  unfold beneficiary_checks. intros Hc [H1 H2 H3 H4]. bool_hyps. split.
  - done.
  - cbn. intros b' [Hb|Hb]%elem_of_app; [by apply H2|]. apply list_elem_of_singleton in Hb as ->. split; [done|lia].
  - intros id. rewrite rows_of_app. destruct (decide (b_plan_id b = id)) as [<-|Hn].
    + rewrite filter_cons_True by done. rewrite map_app. apply NoDup_app. split_and!; [done|set_solver|apply NoDup_singleton].
    + rewrite filter_cons_False by done. by rewrite app_nil_r.
  - intros id. rewrite rows_of_app, bps_of_app. destruct (decide (b_plan_id b = id)) as [<-|Hn].
    + rewrite filter_cons_True by done. cbn. lia.
    + rewrite filter_cons_False by done. cbn. specialize (H4 id). lia.
Qed.
Lemma sound_delete_rows d id : keeps_sound d (d <| beneficiaries := filter (fun b => b_plan_id b <> id) (beneficiaries d) |>).
Proof.
  intros [H1 H2 H3 H4].
  assert (forall i, rows_of i (d <| beneficiaries := filter (fun b => b_plan_id b <> id) (beneficiaries d) |>) =
    if decide (i = id) then [] else rows_of i d) as Hrows.
  { intros i. unfold rows_of. cbn. rewrite list_filter_filter. destruct (decide (i = id)) as [->|Hn].
    - apply elem_of_nil_inv. by intros b [[? ?] _]%list_elem_of_filter.
    - apply list_filter_iff. intros b. split; [tauto|]. intros ->. done. }
  split.
  - done.
  - cbn. intros b [_ Hb]%list_elem_of_filter. by apply H2.
  - intros i. rewrite Hrows. case_decide; [constructor|done].
  - intros i. rewrite Hrows. case_decide; [cbn; lia|done].
Qed.

Abbreviation sound_moves m := (moves (tables_move keeps_sound) m).

Lemma insert_plan_sound id p : sound_moves (insert_plan id p).
Proof.
  apply tables_checked_execute; [exact _|]. intros d d' Hd. destruct (plan_checks p) eqn:Hp; [|done].
  destruct (true && onchain_unique p d && bool_decide (plans d !! id = None)); [|done]. injection Hd as <-. by apply sound_insert_plan.
Qed.
Lemma update_checked_sound id f : sound_moves (update_checked id f).
Proof.
  apply tables_checked_execute; [exact _|]. intros d d' Hd. destruct (plans d !! id) as [p|] eqn:Hp; [|by injection Hd as <-].
  destruct (plan_checks (f p)) eqn:Hc; [|done]. injection Hd as <-. by apply sound_insert_plan.
Qed.
Lemma insert_beneficiary_sound id b : sound_moves (insert_beneficiary id b).
Proof.
  unfold insert_beneficiary, fresh_uuid. repeat tables_step.
  apply tables_checked_execute; [exact _|]. intros d d' Hd. destruct (beneficiary_checks _ d) eqn:Hc; [|done].
  injection Hd as <-. by apply sound_insert_row.
Qed.
Lemma save_beneficiaries_sound id bs msg : sound_moves (save_beneficiaries id bs msg).
Proof. unfold save_beneficiaries. repeat first [apply insert_beneficiary_sound|tables_step]. Qed.
Lemma enqueue_sound type (p : payload D) : sound_moves (enqueue_event type p).
Proof.
  apply moves_bind; [exact _|tables_step|]. intros eps. apply moves_foldM; [exact _|]. intros _ ep.
  unfold enqueue_one, fresh_uuid. repeat tables_step. apply tables_statement; [exact _|]. intros ? ? ? [= _ <-]. by apply sound_same.
Qed.
Lemma invalidate_sound {E} o bs : sound_moves (invalidate_plan_cache o bs : M W E unit).
Proof. apply tables_keeps; [exact _|]. unfold invalidate_plan_cache. bkeeps_tac. Qed.

Lemma validate_beneficiaries_quiet bs : keeps (fun w => w) (validate_beneficiaries bs).
Proof. unfold validate_beneficiaries, add_allocation. keeps_tac. Qed.
Lemma validate_plan_quiet payload : keeps (fun w => w) (validate_plan payload).
Proof. unfold validate_plan. repeat first [apply validate_beneficiaries_quiet|keeps_step]. Qed.
Lemma quiet_tables {E A} (m : M W E A) : keeps (fun w => w) m -> keeps db m.
Proof. intros Hk w. specialize (Hk w). destruct (m w); congruence. Qed.
Lemma save_plan_sound payload a : sound_moves (save_plan payload a).
Proof.
  unfold save_plan, fresh_uuid.
  repeat first [apply insert_plan_sound|apply save_beneficiaries_sound|tables_step].
Qed.
Lemma create_plan_sound payload : sound_moves (create_plan payload).
Proof.
  unfold create_plan. repeat first
    [ apply save_plan_sound | apply enqueue_sound | apply invalidate_sound
    | apply tables_keeps; [exact _|]; apply quiet_tables, validate_plan_quiet | tables_step ].
Qed.

(** ** What a created plan leaves *)

(** The environment's choices are used up, the clock and the cache stay. *)
Definition offstage w w' : Prop := suffix (faults w') (faults w) /\ clock w' = clock w /\ cache w' = cache w.
#[local] Instance offstage_preorder : PreOrder offstage.
Proof.
  split; [by intros w|]. intros w1 w2 w3 (H1 & H2 & H3) (? & ? & ?). split_and!; [by etrans|congruence..].
Qed.
Lemma offstage_pop w : offstage w (pop w).
Proof. split; [|done]. cbn. destruct (faults w) as [|b bs]; [done|]. by exists [b]. Qed.
Lemma offstage_next_fault {E} : moves offstage (next_fault : M W E bool).
Proof. intros w. rewrite next_fault_run. apply offstage_pop. Qed.
Lemma offstage_statement {A} (g : W -> result sqlx_error (A * database D)) : moves offstage (statement g).
Proof.
  unfold statement. apply moves_bind; [exact _|apply offstage_next_fault|]. intros b. repeat moves_step.
Qed.
Lemma offstage_or_500 {A} (m : M W sqlx_error A) msg : moves offstage m -> moves offstage (or_500 m msg).
Proof. intros Hm w. specialize (Hm w). unfold or_500, or_return. by destruct (m w). Qed.
Lemma save_plan_offstage payload a : moves offstage (save_plan payload a).
Proof.
  unfold save_plan, transaction, save_beneficiaries, insert_plan, insert_beneficiary, fresh_uuid, set_db.
  repeat first [apply offstage_next_fault|apply offstage_or_500|apply offstage_statement|moves_step
               |apply moves_modify; by intros w].
Qed.

Lemma save_plan_Ok payload a id row rows w w' :
  save_plan payload a w = Ok (id, row, rows) w' ->
  plans (db w) !! id = None /\ row = new_plan payload a (clock w) /\ plan_checks row = true /\
  saved_rows id (rq_beneficiaries payload) rows /\ cache w' = cache w /\
  db w' = (db w) <| plans := <[id := row]> (plans (db w)) |> <| beneficiaries := beneficiaries (db w) ++ rows |>.
Proof.
  unfold save_plan, fresh_uuid. intros (_ & w1 & Hr & _ & ->)%transaction_Ok.
  run_bind Hr. run_bind Hr. run_bind Hr. run_bind Hr. apply ret_Ok in Hr as [[= -> -> ->] ->].
  match goal with Hsv : save_beneficiaries _ _ _ _ = _ |- _ => apply save_beneficiaries_Ok in Hsv as (Hs & Hdb & Hca) end.
  match goal with Hi : or_500 (insert_plan _ _) _ _ = _ |- _ => apply or_500_Ok, checked_execute_Ok in Hi as (_ & d & Hd & ->) end.
  run_inv. destruct (plan_checks _) eqn:Hc; [|done]. cbn in Hd.
  destruct (onchain_unique _ _); [|done]. cbn in Hd. case_bool_decide as Hn; [|done]. injection Hd as <-.
  cbn in Hdb, Hca, Hn. by split_and!.
Qed.

(** The tables of plans and beneficiaries. *)
Definition plan_view w := (plans (db w), beneficiaries (db w)).

Lemma enqueue_view type (p : payload D) : keeps plan_view (enqueue_event type p).
Proof. apply keeps_enqueue_event; by intros []. Qed.
Lemma enqueue_cache type (p : payload D) : keeps (fun w => (cache w, clock w)) (enqueue_event type p).
Proof. apply keeps_enqueue_event; by intros []. Qed.
Lemma invalidate_plan_cache_Ok o bs u w w' :
  (invalidate_plan_cache o bs : X unit) w = Ok u w' ->
  plan_view w' = plan_view w /\ clock w' = clock w /\
  cache w' = store (after (invalidate_queries (clock w) o bs) (mkService (cache w) (faults w))).
Proof.
  intros Hr. split; [|split].
  - refine (keeps_Ok plan_view _ _ _ _ _ Hr). unfold invalidate_plan_cache. bkeeps_tac.
  - refine (keeps_Ok clock _ _ _ _ _ Hr). unfold invalidate_plan_cache. bkeeps_tac.
  - unfold invalidate_plan_cache, or_else, on_cache in Hr. rewrite (bind_step (gets clock) _ w (clock w) w eq_refl) in Hr. unfold zoom in Hr.
    unfold after. change (sget w) with (mkService (cache w) (faults w)) in Hr.
    destruct (invalidate_queries (clock w) o bs (mkService (cache w) (faults w))); [by injection Hr as _ <-..|done].
Qed.

Record created (payload : PlanRequest) (r : PlanResponse D) w w' : Prop := {
  cr_beneficiaries : 1 <= len (rq_beneficiaries payload) <= 100 /\ bps_of (rs_beneficiaries r) = 10000;
  cr_rows : saved_rows (rs_id r) (rq_beneficiaries payload) (rs_beneficiaries r);
  cr_new : plans (db w) !! rs_id r = None;
  cr_plan : exists amount_dec row, from_f64_retain (rq_amount payload) = Some amount_dec /\
    row = new_plan payload (dnormalize amount_dec) (clock w) /\ plan_checks row = true /\
    r = response_of (rs_id r) row YieldCalculator.zero (rs_beneficiaries r) /\
    plan_view w' = (<[rs_id r := row]> (plans (db w)), beneficiaries (db w) ++ rs_beneficiaries r);
  cr_cache : exists fs, suffix fs (faults w) /\ clock w' = clock w /\
    cache w' = store (after (invalidate_queries (clock w) (rq_owner payload) (map wallet_address (rs_beneficiaries r)))
                            (mkService (cache w) fs))
}.

Lemma create_plan_Ok payload r w w' :
  create_plan payload w = Ok r w' -> Forall (fun b => 0 <= pb_allocation_bps b) (rq_beneficiaries payload) ->
  created payload r w w'.
Proof.
  intros Hr Hpos. unfold create_plan in Hr. run_bind Hr.
  match goal with Hv : validate_plan _ _ = _ |- _ => rename Hv into Hv0 end.
  pose proof (keeps_Ok _ _ _ _ _ (validate_plan_quiet payload) Hv0) as Hq. cbn in Hq. subst.
  unfold validate_plan in Hv0. do 5 run_bind Hv0.
  repeat match goal with Hx : reject_if _ _ _ = Ok _ _ |- _ => apply reject_if_Ok in Hx as [? ->] end.
  apply validate_beneficiaries_Ok in Hv0 as (_ & Hlen & Htot & Hall); [|done].
  run_bind Hr. match goal with Hok : ok_or _ _ _ = Ok _ _ |- _ => apply ok_or_Ok in Hok as [Ho ->] end.
  run_bind Hr. match goal with Hsv : save_plan _ _ _ = Ok ?x _ |- _ => destruct x as [[id row] rows] end.
  run_bind Hr. run_bind Hr. apply ret_Ok in Hr as [-> ->].
  match goal with Hsv : save_plan _ _ _ = Ok _ _ |- _ =>
    pose proof (moves_Ok _ _ _ _ _ (save_plan_offstage _ _) Hsv) as (Hfs & Hck & Hca);
    apply save_plan_Ok in Hsv as (Hn & -> & Hchk & Hs & _ & Hdb) end.
  match goal with Hm : invalidate_plan_cache _ _ _ = _ |- _ => apply invalidate_plan_cache_Ok in Hm as (Hv1 & Hck1 & Hca1) end.
  match goal with He : or_else _ _ _ = Ok _ _ |- _ =>
    pose proof (keeps_Ok _ _ _ _ _ (keeps_or_else plan_view _ tt (enqueue_view _ _)) He) as Hview;
    pose proof (keeps_Ok _ _ _ _ _ (keeps_or_else _ _ tt (enqueue_cache _ _)) He) as [= Hca2 Hck2] end.
  split; simpl rs_id; simpl rs_beneficiaries.
  - split; [|by rewrite (saved_total _ _ _ Hs)]. split; [|done].
    bool_hyps. destruct (rq_beneficiaries payload); [done|]. unfold len. cbn. lia.
  - done.
  - done.
  - eexists _, _. split_and!; [done|reflexivity|done|done|]. rewrite Hview, Hv1. unfold plan_view. by rewrite Hdb.
  - eexists. split_and!; [exact Hfs|congruence|]. rewrite Hca2, Hca1. by rewrite Hck, Hca.
Qed.
Lemma create_plan_Fail payload : fails_keeping db (create_plan payload).
Proof.
  unfold create_plan. apply fails_keeping_bind; [apply quiet_tables, validate_plan_quiet|]. intros _.
  apply fails_keeping_bind; [bkeeps_tac|]. intros a.
  apply fails_keeping_last; [apply fails_keeping_transaction|]. intros [[id row] rows].
  apply no_err_bind; [apply no_err_or_else|]. intros _. apply no_err_bind; [apply no_err_or_else|]. intros _. apply no_err_ret.
Qed.
Lemma ping_plan_Fail payload : fails_keeping db (ping_plan payload).
Proof.
  unfold ping_plan. apply fails_keeping_bind; [bkeeps_tac|]. intros _.
  apply fails_keeping_bind; [unfold active_plan_of; bkeeps_tac|]. intros f.
  apply fails_keeping_bind; [bkeeps_tac|]. intros [id p].
  apply fails_keeping_bind; [bkeeps_tac|]. intros now.
  apply fails_keeping_bind; [unfold pinged_yield; bkeeps_tac|]. intros y.
  apply fails_keeping_last; [apply fails_keeping_transaction|]. intros _.
  apply no_err_bind; [apply no_err_or_else|]. intros a. apply no_err_bind; [apply no_err_or_else|]. intros _.
  apply no_err_bind; [|intros b; apply no_err_ret]. unfold unwrap. intros w e w'. by destruct (dadd _ _).
Qed.

(** ** Lists *)

Context `{!PostgresLaws} `{!CacheLibsLaws}.

#[local] Instance newer_total : Total newer.
Proof. intros x y. unfold newer. lia. Qed.

Lemma plans_where_spec keep d ip : ip ∈ plans_where keep d <-> plans d !! ip.1 = Some ip.2 /\ keep ip = true.
Proof.
  unfold plans_where. rewrite merge_sort_Permutation, rows_all, list_elem_of_filter. destruct ip as [i p].
  rewrite elem_of_map_to_list. cbn. tauto.
Qed.
Lemma plans_where_NoDup keep d : NoDup (plans_where keep d).*1.
Proof.
  apply NoDup_fmap_fst.
  - intros i p1 p2 [Ha _]%plans_where_spec [Hb _]%plans_where_spec. cbn in *. congruence.
  - unfold plans_where. rewrite merge_sort_Permutation, rows_all. apply NoDup_filter, NoDup_map_to_list.
Qed.
Lemma plans_where_sorted keep d : Sorted newer (plans_where keep d).
Proof. apply Sorted_merge_sort, _. Qed.

(** One response per row, with the plan's beneficiaries. *)
Definition responds d (ip : uuid * PlanRow D) (r : PlanResponse D) : Prop :=
  exists accrued, r = response_of ip.1 ip.2 accrued (beneficiaries_of ip.1 d).
Lemma respond_Ok rows rs w w' :
  respond rows w = Ok rs w' -> Forall2 (responds (db w)) rows rs /\ plan_view w' = plan_view w.
Proof.
  unfold respond.
  assert (forall acc w, foldM (fun responses (ip : uuid * PlanRow D) =>
    let! bs := or_500 (load_beneficiaries ip.1) "Failed to load beneficiaries" in
    let! now := gets clock in ret (responses ++ [plan_row_to_response ip bs now])) rows acc w = Ok rs w' ->
    exists new, rs = acc ++ new /\ Forall2 (responds (db w)) rows new /\ plan_view w' = plan_view w) as Hg.
  { clear w. induction rows as [|ip rows IH]; intros acc w Hr; cbn in Hr.
    - apply ret_Ok in Hr as [-> ->]. exists []. by rewrite app_nil_r.
    - apply bind_Ok in Hr as (acc' & w1 & Hb & Hr).
      apply bind_Ok in Hb as (bs & w2 & (_ & -> & ->)%or_500_Ok%select_Ok & Hb).
      apply bind_Ok in Hb as (now & w3 & [-> ->]%gets_Ok & [-> ->]%ret_Ok).
      apply IH in Hr as (new & -> & Hf & Hv). eexists (_ :: new). rewrite <-app_assoc. split_and!; [done| |done].
      constructor; [by eexists|done]. }
  intros Hr. apply Hg in Hr as (new & -> & ? & ?). done.
Qed.

Section listing.
Context `{Json (list (PlanResponse D))}.

Lemma query_plans_Ok q st st' rs w w' :
  query_plans q st w = Ok (st', rs) w' ->
  st' = st /\ Forall2 (responds (db w)) (plans_where (matches_query q (db w)) (db w)) rs.
Proof.
  unfold query_plans. intros Hr. apply bind_Ok in Hr as (rows & w1 & (_ & -> & ->)%or_500_Ok%select_Ok & Hr).
  apply bind_Ok in Hr as (rs1 & w2 & Hre & Hr). apply bind_Ok in Hr as (en & w3 & [-> ->]%gets_Ok & Hr).
  apply bind_Ok in Hr as ([] & w4 & _ & [[= -> ->] _]%ret_Ok). by apply respond_Ok in Hre as [? _].
Qed.
Lemma responds_ids d ips rs : Forall2 (responds d) ips rs -> map rs_id rs = ips.*1.
Proof. induction 1 as [|ip r ips rs (a & ->) _ IH]; [done|]. cbn. by f_equal. Qed.
Lemma responds_sorted d ips rs :
  Forall2 (responds d) ips rs -> Sorted newer ips -> Sorted (fun x y => rs_created_at y <= rs_created_at x) rs.
Proof.
  induction 1 as [|ip r ips rs (a & ->) Hf IH]; intros Hs; constructor.
  - apply IH. by inversion Hs.
  - inversion Hs as [|? ? _ Hh]; subst. inversion Hf as [|ip' r' ips' rs' (a' & ->) _]; subst; constructor.
    inversion Hh; subst. done.
Qed.
Lemma responds_rows d ips rs :
  Forall2 (responds d) ips rs -> Forall (fun r => rs_beneficiaries r ≡ₚ rows_of (rs_id r) d) rs.
Proof. induction 1 as [|ip r ips rs (a & ->) _ IH]; constructor; [apply rows_all|done]. Qed.

(** A list is served from the cache or from the database. *)
Lemma get_plans_Ok q st rs w w' :
  get_plans q w = Ok (st, rs) w' ->
  (st = Hit /\ is_Some (stored (clock w) (cache w) (cache_key q))) \/
  exists st0 w1, st0 <> Hit /\ db w1 = db w /\ query_plans q st0 w1 = Ok (st, rs) w'.
Proof.
  unfold get_plans. intros (en & w1 & [-> ->]%gets_Ok & Hr)%bind_Ok. destruct (is_enabled (cache w)); [|right; by exists Bypass, w].
  apply bind_Ok in Hr as (r & w1 & Hc & Hr).
  assert (db w1 = db w) as Hdb by (refine (keeps_Ok db _ _ _ _ _ Hc); bkeeps_tac).
  apply outcome_of_Ok in Hc. destruct r as [[rs0|]|e]; [left|right; by exists Miss, w1|right; by exists ErrorFallback, w1].
  apply ret_Ok in Hr as [[= -> ->] ->]. split; [done|].
  apply bind_Ok in Hc as (now & w2 & [-> ->]%gets_Ok & (s & Hc & ->)%zoom_Ok). exact (get_plans_stored _ _ _ _ _ _ Hc).
Qed.

(** C34: A list of plans that does not come from the cache holds exactly the plans the
    query asks for, each once, the newest first, each with its beneficiaries. *)
Theorem get_plans_lists q st rs w w' :
  get_plans q w = Ok (st, rs) w' -> st <> Hit ->
  NoDup (map rs_id rs) /\
  (forall id, id ∈ map rs_id rs <-> exists p, plans (db w) !! id = Some p /\ matches_query q (db w) (id, p) = true) /\
  Sorted (fun x y => rs_created_at y <= rs_created_at x) rs /\
  Forall (fun r => rs_beneficiaries r ≡ₚ rows_of (rs_id r) (db w)) rs.
Proof.
  intros Hr Hst. apply get_plans_Ok in Hr as [[? _]|(st0 & w1 & _ & Hdb & Hq)]; [done|]. rewrite <-Hdb.
  apply query_plans_Ok in Hq as [_ Hf]. pose proof (responds_ids _ _ _ Hf) as Hids. rewrite Hids. split_and!.
  - apply plans_where_NoDup.
  - intros id. rewrite list_elem_of_fmap. split.
    + intros ([i p] & -> & [Hp Hm]%plans_where_spec). by exists p.
    + intros (p & Hp & Hm). exists (id, p). split; [done|]. by apply plans_where_spec.
  - by eapply responds_sorted, plans_where_sorted.
  - by eapply responds_rows.
Qed.

(** A creation that succeeds stores what the request says and keeps the constraints; one
    that fails changes no table. *)
Theorem create_plan_contract payload w :
  Forall (fun b => 0 <= pb_allocation_bps b) (rq_beneficiaries payload) ->
  match create_plan payload w with
  | Ok r w' => created payload r w w' /\ (sound (db w) -> sound (db w'))
  | Fail _ w' => db w' = db w
  | Trap => True
  end.
Proof.
  intros Hpos. destruct (create_plan payload w) as [r w'|e w'|] eqn:Hr; [|by eapply create_plan_Fail|done].
  split; [by apply create_plan_Ok|]. exact (moves_Ok _ _ _ _ _ (create_plan_sound payload) Hr).
Qed.

(** C20: A plan is visible to its owner at once: after a successful creation the next list
    of the plans of its owner that returns is not served from the cache and contains the
    new plan, whatever was cached before. This holds without a cache, with the cache in
    memory, and with Redis if from then on no statement and no exchange with Redis fails
    and no earlier failure left the owner's list exposed. *)
Theorem created_plan_is_listed payload r w w1 st rs w2 X :
  Forall (fun b => 0 <= pb_allocation_bps b) (rq_beneficiaries payload) -> reachable (mkHistory (cache w) (clock w) X) ->
  (forall c, cache w = Redis c -> calm (faults w) /\ cache_key (mkQuery (Some (rq_owner payload)) None) ∉ X) ->
  create_plan payload w = Ok r w1 -> get_plans (mkQuery (Some (rq_owner payload)) None) w1 = Ok (st, rs) w2 ->
  st <> Hit /\ rs_id r ∈ map rs_id rs.
Proof.
  intros Hpos Hre%reachable_consistent Hredis Hcr Hg.
  apply create_plan_Ok in Hcr as [_ _ _ (a & row & _ & Hrow & _ & _ & Hv) (fs & Hfs & Hck & Hca)]; [|done].
  assert (stored (clock w1) (cache w1) (cache_key (mkQuery (Some (rq_owner payload)) None)) = None) as Hno.
  { set (addrs := map wallet_address (rs_beneficiaries r)) in *.
    destruct (invalidate_calm (clock w) (rq_owner payload) addrs (cache w) fs X Hre) as [s Hs].
    { intros c [Hcalm _]%Hredis. destruct Hfs as [l Hl]. unfold calm in *. rewrite Hl in Hcalm. by apply Forall_app in Hcalm as [_ ?]. }
    pose proof (invalidate_consistent (clock w) (rq_owner payload) addrs (cache w) fs X Hre) as Hi.
    unfold after in Hca. rewrite Hs in Hi, Hca. destruct Hi as (_ & Hi & _). rewrite Hca, Hck. apply Hi; [lia|].
    destruct (cache w) as [|c|m] eqn:Hcw; [|by destruct (Hredis c)|]; cbn in Hre; [by rewrite Hre|by rewrite (proj1 Hre)]. }
  apply get_plans_Ok in Hg as [[_ [v Hst]]|(st0 & w' & Hn & Hdb & Hq)]; [by rewrite Hno in Hst|].
  apply query_plans_Ok in Hq as [-> Hf]. split; [done|]. rewrite (responds_ids _ _ _ Hf).
  apply list_elem_of_fmap. exists (rs_id r, row). split; [done|]. apply plans_where_spec.
  injection Hv as Hps _. rewrite Hdb, Hps, lookup_insert_eq. split; [done|]. cbn. apply bool_decide_eq_true. by rewrite Hrow.
Qed.
End listing.

(** ** Statistics *)

Definition total_of (ns : list Z) : Z := foldr Z.add 0 ns.

(** Groups with distinct keys that cover a list count each element once. *)
Lemma group_total {A K} `{EqDecision K} (f : A -> K) (ks : list K) (l : list A) :
  NoDup ks -> (forall a, a ∈ l -> f a ∈ ks) ->
  total_of (map (fun k => len (filter (fun a => f a = k) l)) ks) = len l.
Proof.
  revert l. induction ks as [|k ks IH]; intros l Hnd Hcov.
  - destruct l as [|a l]; [done|]. specialize (Hcov a (list_elem_of_here _ _)). by apply elem_of_nil in Hcov.
  - inversion Hnd as [|? ? Hk Hnd']; subst. cbn.
    assert (len l = len (filter (fun a => f a = k) l) + len (filter (fun a => f a <> k) l)) as ->.
    { clear. unfold len. induction l as [|a l IH]; [done|]. rewrite !filter_cons. repeat case_decide; cbn; try done; lia. }
    f_equal. rewrite <-(IH (filter (fun a => f a <> k) l)).
    + f_equal. apply map_ext_in. intros k' Hk'. apply list_elem_of_In in Hk'. unfold len. do 2 f_equal. rewrite list_filter_filter.
      apply list_filter_iff. intros a. split; [intros <-; split; [done|]|tauto]. by intros Heq; rewrite Heq in Hk'.
    + done.
    + intros a [Hn Ha]%list_elem_of_filter. specialize (Hcov a Ha). set_solver.
Qed.
Lemma group_rows {A K} `{EqDecision K} (f : A -> K) (l : list A) :
  total_of (map (fun k => len (filter (fun a => f a = k) l)) (row_order (remove_dups (map f l)))) = len l.
Proof.
  apply group_total; [rewrite rows_all; apply NoDup_remove_dups|]. intros a Ha.
  rewrite rows_all. apply elem_of_remove_dups, list_elem_of_fmap. by exists a.
Qed.
Lemma count_ext (f g : PlanRow D -> bool) ps : (forall p, f p = g p) -> count f ps = count g ps.
Proof. intros Hfg. unfold count. do 2 f_equal. apply list_filter_iff. intros p. by rewrite Hfg. Qed.
Lemma count_split (f g : PlanRow D -> bool) (ps : list (PlanRow D)) :
  count f ps = count (fun p => f p && g p) ps + count (fun p => f p && negb (g p)) ps.
Proof.
  unfold count, len. induction ps as [|p ps IH]; [done|]. rewrite !filter_cons.
  destruct (f p), (g p); cbn in *; repeat case_decide; cbn; try done; lia.
Qed.
(** Conditions no row satisfies together. *)
Lemma count_or (f g : PlanRow D -> bool) ps :
  (forall p, f p = true -> g p = false) -> count (fun p => f p || g p) ps = count f ps + count g ps.
Proof.
  intros Hd. unfold count, len. induction ps as [|p ps IH]; [done|]. rewrite !filter_cons. specialize (Hd p).
  destruct (f p), (g p); cbn in *; repeat case_decide; cbn; try done; try lia; by specialize (Hd eq_refl).
Qed.

Lemma status_in_app xs ys p : status_in (xs ++ ys) p = status_in xs p || status_in ys p.
Proof. unfold status_in. repeat case_bool_decide; set_solver. Qed.
Lemma status_in_disjoint xs ys p : xs ## ys -> status_in xs p = true -> status_in ys p = false.
Proof. unfold status_in. intros Hd Hx. bool_hyps. apply bool_decide_eq_false. set_solver. Qed.
Lemma count_true ps : count (fun _ => true) ps = len ps.
Proof. unfold count, len. induction ps as [|p ps IH]; [done|]. rewrite filter_cons_True by done. cbn. lia. Qed.

Definition PENDING_STATUSES : list string := ["TRIGGERING"; "TRIGGERED"; "TRIGGER_FAILED"]%string.
Definition CLAIMED_STATUSES : list string := ["CLAIMABLE"; "PAID_OUT"]%string.
Definition LIVE_STATUSES : list string := (["ACTIVE"%string] ++ PENDING_STATUSES) ++ CLAIMED_STATUSES.

(** The counts by stage add up to the total with the rows in none of the stages, as do the
    groups by status, and the locked value covers the active plans. *)
Theorem statistics_partition q now d :
  let '(total, active, expired, triggered, claimed) := summary q now d in
  total = active + expired + triggered + claimed + count (fun p => negb (status_in LIVE_STATUSES p)) (filtered q d) /\
  total = total_of (map snd (status_breakdown q d)) /\
  count is_active (filtered q d) = total_of (map snd (locked_value q d)).
Proof.
  unfold summary. set (ps := filtered q d). split_and!.
  - rewrite <-(count_true ps), (count_split _ (status_in LIVE_STATUSES)). cbn [andb]. f_equal.
    rewrite (count_ext (status_in LIVE_STATUSES) (fun p => (status_in ["ACTIVE"%string] p || status_in PENDING_STATUSES p) ||
      status_in CLAIMED_STATUSES p)) by (intros p; unfold LIVE_STATUSES; by rewrite !status_in_app).
    rewrite !count_or.
    + f_equal. f_equal. rewrite (count_split _ (fun p => inactivity_deadline_at p * NANOS <=? now)). lia.
    + intros p. apply status_in_disjoint. set_solver.
    + intros p. rewrite <-status_in_app. apply status_in_disjoint. set_solver.
  - unfold status_breakdown. rewrite map_map. cbn. rewrite <-(group_rows status ps). f_equal. apply map_ext. intros s.
    unfold count, len. do 2 f_equal. apply list_filter_iff. intros p. unfold status_in. rewrite bool_decide_eq_true. set_solver.
  - unfold locked_value. rewrite map_map. cbn. fold ps. by rewrite group_rows.
Qed.
End api.

(** * A run *)

Section example.
Import BackendExample.

(** Enough of a response to see whether it is fresh. *)
#[local] Instance response_json : Json (list (PlanResponse Z)) := {
  to_string rs := Some (flat_map (fun r => [Zpos (rs_id r); rs_grace_period_seconds r]) rs);
  from_str s :=
    match s with
    | [i; g] => Some [mkResponse (Z.to_pos i) [] [] 0 g g false 0 true "" 0 YieldCalculator.zero 0 None []]
    | _ => None
    end
}.

(** 100 tokens for two heirs. *)
Definition will : PlanRequest :=
  mkPlanRequest (lit "GA") (lit "USDC") (YieldCalculator.of_Z 100)
    [mkPlanBeneficiary (lit "GB") (lit "Bob") 6000 []; mkPlanBeneficiary (lit "GC") (lit "Carol") 4000 (lit "Bank;1;NGN")]
    900 60 true 500 true (Some 7).
Definition by_ga : PlanQuery := mkQuery (Some (lit "GA")) None.
Definition with_will : backend Z := after (create_plan will) empty_world.

Lemma not_elem_of_empty_diff (k : text) (X : gset text) : k ∉ (∅ : gset text) ∖ X.
Proof. set_solver. Qed.
Lemma will_typed : Forall (fun b => 0 <= pb_allocation_bps b) (rq_beneficiaries will).
Proof. repeat constructor; by vm_compute. Qed.

Definition returns {W E A} (m : M W E A) (w : W) : bool := match m w with Ok _ _ => true | _ => false end.
Lemma create_plan_contract_witness :
  exists r w', create_plan will empty_world = Ok r w' /\ sound (db w') /\ bps_of (rs_beneficiaries r) = 10000.
Proof.
  pose proof (create_plan_contract will empty_world will_typed) as Hc.
  destruct (create_plan will empty_world) as [r w'|e w'|] eqn:Hr; [|exfalso; by vm_compute in Hr..].
  exists r, w'. destruct Hc as [[[_ Ht] _ _ _] Hs]. split; [reflexivity|]. split; [|exact Ht]. apply Hs.
  exact empty_sound.
Defined.

(** Redis holds an older list of the owner's plans. *)
Definition stale_response : PlanResponse Z := mkResponse 9 [] [] 0 5 5 false 0 true "" 0 YieldCalculator.zero 0 None [].
Definition stale_world : backend Z :=
  empty_world <| cache := store (after (set_plans (clock empty_world) by_ga [stale_response]) (mkService (Redis (mkRedis ∅ 300)) [])) |>.
Lemma stale_list_served : exists rs, fst (invoke (get_plans by_ga) stale_world) = Returned (Hit, rs) /\ map rs_id rs = [9%positive].
Proof. eexists. split; vm_compute; reflexivity. Qed.
Lemma stale_reachable : reachable (mkHistory (cache stale_world) (clock stale_world) (∅ ∖ {[ cache_key by_ga ]})).
Proof.
  exists (Redis (mkRedis ∅ 300)), (clock empty_world). split; [done|]. apply rtc_once.
  eapply (SetPlans by_ga [stale_response] (Redis (mkRedis ∅ 300)) (clock empty_world) ∅ []). vm_compute. reflexivity.
Qed.

Lemma created_plan_is_listed_witness :
  exists r w1 st rs w2, create_plan will stale_world = Ok r w1 /\ get_plans by_ga w1 = Ok (st, rs) w2 /\
    st <> Hit /\ rs_id r ∈ map rs_id rs.
Proof.
  assert (returns (create_plan will) stale_world = true) as Hd by (vm_compute; reflexivity). unfold returns in Hd.
  destruct (create_plan will stale_world) as [r w1|e w1|] eqn:Hr; [|done..]. clear Hd.
  assert (w1 = after (create_plan will) stale_world) as -> by (unfold after; by rewrite Hr).
  assert (returns (get_plans by_ga) (after (create_plan will) stale_world) = true) as Hd by (vm_compute; reflexivity). unfold returns in Hd.
  destruct (get_plans by_ga (after (create_plan will) stale_world)) as [[st rs] w2|e w2|] eqn:Hg; [|done..]. clear Hd.
  exists r, (after (create_plan will) stale_world), st, rs, w2. split; [reflexivity|]. split; [exact Hg|].
  refine (created_plan_is_listed will r stale_world _ st rs w2 _ will_typed stale_reachable _ Hr Hg).
  intros c _. split; [constructor|]. apply not_elem_of_empty_diff.
Defined.

Lemma get_plans_lists_witness :
  exists rs w', get_plans (mkQuery None (Some (lit "GC"))) with_will = Ok (Miss, rs) w' /\ NoDup (map rs_id rs).
Proof.
  assert (match get_plans (mkQuery None (Some (lit "GC"))) with_will with Ok (Miss, _) _ => true | _ => false end = true)
    as Hd by (vm_compute; reflexivity).
  destruct (get_plans (mkQuery None (Some (lit "GC"))) with_will) as [[[] rs] w'|e w'|] eqn:Hg; try discriminate Hd. clear Hd.
  exists rs, w'. split; [reflexivity|].
  exact (proj1 (get_plans_lists (mkQuery None (Some (lit "GC"))) Miss rs with_will w' Hg ltac:(done))).
Defined.

Lemma statistics_partition_witness :
  total_of (map snd (status_breakdown (mkStatisticsQuery None None None) (db with_will))) = 1.
Proof.
  pose proof (statistics_partition (mkStatisticsQuery None None None) 0 (db with_will)) as Hs.
  destruct (summary _ _ _) as [[[[total a] e] t] c] eqn:Hsum.
  destruct Hs as (_ & Hb & _). rewrite <-Hb. vm_compute in Hsum. by injection Hsum as <- _ _ _ _.
Defined.

(** Updating a plan does not invalidate the cache, so a list read before the
    update is served after it. *)
Definition listed_will : backend Z := after (get_plans by_ga) with_will.
Definition updated_will : backend Z :=
  after (update_plan 1%positive (mkUpdate [] (Some 30) None None)) listed_will.
Lemma update_leaves_stale_list :
  (grace_period_seconds <$> plans (db updated_will) !! 1%positive) = Some 30 /\
  match get_plans by_ga updated_will with
  | Ok (st, rs) _ => st = Hit /\ map rs_grace_period_seconds rs = [60]
  | _ => False
  end.
Proof. vm_compute. by repeat split. Qed.

(** A grace period of zero, which creation refuses, is accepted by an update. *)
Lemma update_allows_no_grace :
  (grace_period_seconds <$> plans (db (after (update_plan 1%positive (mkUpdate [] (Some 0) None None)) with_will)) !! 1%positive) = Some 0.
Proof. vm_compute. reflexivity. Qed.

(** An owner of two plans who pings renews one of them. *)
Definition two_wills : backend Z :=
  after (create_plan (mkPlanRequest (lit "GA") (lit "EURC") (YieldCalculator.of_Z 5)
    [mkPlanBeneficiary (lit "GB") (lit "Bob") 10000 []] 900 60 false 0 true None)) with_will.
Lemma ping_renews_one_plan :
  map (fun ip => last_ping ip.2) (map_to_list (plans (db (after (ping_plan (mkPing (lit "GA") [1] [])) two_wills)))) = [1000; 900].
Proof. vm_compute. reflexivity. Qed.
End example.
End PlanApi.
