(* ===== verification/PlanPayouts.v ===== *)
(** Paying a plan out over HTTP (src/backend/src/api.rs): the split into
    shares, the payout and claim handlers, cancelling, and the paged lists. *)
From S2P Require Import Prelude Host Text PlanCache YieldCalculator StellarXdr.
From S2P Require Import BackendTypes StellarSubmit BackendExample StellarAnchor PlanApi.
From stdpp Require Import sorting.
#[local] Open Scope Z_scope.
Import Text StellarXdr BackendTypes PlanApi.

Module PlanPayouts.

(** * The bank details of a beneficiary *)

(** [serde_json] reading [LocalAnchorInfo]: name, currency, bank, account. *)
Class AnchorInfoFormat := {
  parse_local_anchor_info : text -> option (option text * option text * option text * option text)
}.

Record AnchorInfo := mkAnchorInfo { ai_name : text; ai_currency : text; ai_bank : text; ai_account : text }.

(** [str::to_uppercase], as far as finding a currency's code goes: of the
    characters outside ASCII these are the ones whose upper case has an [S] or
    an [N] in it; no other contributes a letter of a code in its place. *)
Definition uppercase_char (c : Z) : list Z :=
  if c =? 383 then [83]                       (* long s *)
  else if c =? 223 then [83; 83]              (* sharp s *)
  else if c =? 329 then [700; 78]             (* n preceded by apostrophe *)
  else if (c =? 64261) || (c =? 64262) then [83; 84]
  else [upper c].
Definition to_uppercase (s : text) : text := flat_map uppercase_char s.

Definition currency_of (info : text) : text :=
  let info_upper := to_uppercase info in
  if contains (lit "NGN") info_upper then lit "NGN"
  else if contains (lit "KES") info_upper then lit "KES"
  else if contains (lit "BRL") info_upper then lit "BRL"
  else if contains (lit "PHP") info_upper then lit "PHP"
  else if contains (lit "EUR") info_upper then lit "EUR"
  else lit "USD".

(** [format!("ACC-{}", &wallet[..8.min(wallet.len())])]: [None] is a panic. *)
Definition default_account (wallet : text) : option text := (fun s => lit "ACC-" ++ s) <$> slice_to 8 wallet.

Definition semicolon : Z := 59.
Definition comma : Z := 44.
Definition info_parts (info : text) : list text :=
  if contains [semicolon] info then map trim (split semicolon info)
  else if contains [comma] info then map trim (split comma info)
  else [info].

Definition parse_fiat_anchor_info `{AnchorInfoFormat} (info wallet_address : text) : option AnchorInfo :=
  match parse_local_anchor_info info with
  | Some (name, currency, bank, account) =>
    account ← match account with Some a => Some a | None => default_account wallet_address end;
    Some (mkAnchorInfo (default (lit "Beneficiary") name) (default (lit "USD") currency)
            (default (lit "Stellar Anchor Bank") bank) account)
  | None =>
    match info_parts info with
    | bank :: account :: currency :: _ => Some (mkAnchorInfo (lit "Beneficiary") currency bank account)
    | _ =>
      account ← default_account wallet_address;
      Some (mkAnchorInfo (lit "Beneficiary") (currency_of info)
              (if blank info then lit "Stellar Anchor Bank" else info) account)
    end
  end.

Section payouts.
Context {D : Type} `{DecimalOps D} `{Postgres} `{cache_libs : CacheLibs}.
Abbreviation W := (backend D).
Abbreviation X A := (M W http_error A).
Implicit Types (w : W) (p : PlanRow D) (d : database D) (b : BeneficiaryRow D) (bs : list (BeneficiaryRow D)).

(** * Shares *)

(** The share of [b], the last beneficiary taking what remains, and what
    remains for the ones after. *)
Definition share_of (total remaining : D) b (last : bool) : X (D * D) :=
  if last then ret (remaining, remaining)
  else
    let! scaled := unwrap (dmul total (dec_of_Z (allocation_bps b))) in
    let! exact := unwrap (ddiv scaled (dec_of_Z 10000)) in
    let amount := dfloor exact in
    let! remaining := unwrap (dsub remaining amount) in
    ret (amount, remaining).

(** The loop of both handlers: [pay] records a positive share. *)
Fixpoint distribute (pay : BeneficiaryRow D -> D -> X (PayoutRow D)) (total remaining : D) bs : X (list (PayoutRow D)) :=
  match bs with
  | [] => ret []
  | b :: bs =>
    let! sr := share_of total remaining b (is_empty bs) in
    let! row := if dle sr.1 dzero then ret None else (let! row := pay b sr.1 in ret (Some row)) in
    let! rows := distribute pay total sr.2 bs in
    ret (match row with Some row => row :: rows | None => rows end)
  end.

Definition is_fiat b : bool := negb (blank (fiat_anchor_info b)).
Definition payout_type_str b : string := if is_fiat b then "fiat" else "crypto".

(** [INSERT INTO payouts ..]: the amount is rounded and must be positive. *)
Definition insert_payout (plan_id : uuid) b (share : D) (status : string) : M W sqlx_error (PayoutRow D) :=
  let! id := fresh_uuid in
  let! now := gets clock in
  let row := mkPayout id plan_id (wallet_address b) (numeric0 share) (payout_type_str b) status now in
  do! checked_execute (fun d =>
    if dlt dzero (p_amount row) && bool_decide (is_Some (plans d !! plan_id))
    then Some (d <| payouts := payouts d ++ [row] |>) else None);
  ret row.

(** The projected yield as a float and as a decimal. *)
Definition projected_at (plan : PlanRow D) (now : Z) : f64 * D :=
  let accrued := compute_projected_accrued_yield plan now in
  (accrued, match from_f64_retain accrued with Some d => dnormalize d | None => dzero end).
Definition projected (plan : PlanRow D) : X (f64 * D) :=
  let! now := gets clock in
  ret (projected_at plan now).

(** * Triggering a payout *)

Definition today w : Z := clock w / (86400 * NANOS).

(** [unwrap_or(None)] of a query inside the transaction: when it fails the
    database aborts the transaction, and the next statement fails. *)
Definition check_daily_limit b (share : D) : X bool :=
  if is_fiat b && dlt dzero (fiat_daily_limit b) then
    let! day := gets today in
    let! used_today := outcome_of (select (fun d => fiat_daily_usage d !! (b_id b, day))) in
    let used := match used_today with ROk (Some used) => used | _ => dzero end in
    let! requested := unwrap (dadd used share) in
    do! reject_if (dlt (fiat_daily_limit b) requested) (BAD_REQUEST "Daily fiat payout limit exceeded");
    ret (match used_today with RErr _ => true | ROk _ => false end)
  else ret false.
(** [INSERT .. ON CONFLICT DO UPDATE SET total_amount = total_amount + $3]. *)
Definition record_usage b (share : D) : M W sqlx_error unit :=
  let! day := gets today in
  execute (fun d =>
    let key := (b_id b, day) in
    d <| fiat_daily_usage := <[key := match fiat_daily_usage d !! key with
                                      | Some used => numeric0 (numeric_add used share)
                                      | None => numeric0 share
                                      end]> (fiat_daily_usage d) |>).

(** One beneficiary of a payout; the anchor is asked before the commit, and
    its answer is not looked at. *)
Definition pay_out `{AnchorInfoFormat} (plan_id : uuid) (plan : PlanRow D) b (share : D) : X (PayoutRow D) :=
  let! aborted := check_daily_limit b share in
  do! reject_if aborted (INTERNAL_SERVER_ERROR "Failed to insert payout record");
  let! row := or_500 (insert_payout plan_id b share "processing") "Failed to insert payout record" in
  do! when (is_fiat b)
    (let! info := unwrap (parse_fiat_anchor_info (fiat_anchor_info b) (wallet_address b)) in
     do! StellarAnchor.create_payout (mkAnchorRequest (wallet_address b) (ai_name info) (token_address plan)
           (to_f64 share) (ai_currency info) (ai_bank info) (ai_account info));
     when (dlt dzero (fiat_daily_limit b)) (or_500 (record_usage b share) "Failed to update fiat daily usage"));
  ret row.

(** The transaction: the plan, its beneficiaries, the total and the rows. *)
Definition settle_plan `{AnchorInfoFormat} (owner : text)
  : X (uuid * PlanRow D * list (BeneficiaryRow D) * D * list (PayoutRow D)) :=
  let! found := or_500 (active_plan_of owner) "Database error" in
  let! ip := ok_or found (NOT_FOUND "No active plan found for this owner") in
  let '(id, plan) := ip in
  let! now := gets now_secs in
  let deadline := as_i64 (last_ping plan + grace_period_seconds plan) in
  do! reject_if (now <? deadline) (BAD_REQUEST "Grace period has not elapsed");
  let! accrued := projected plan in
  let! total := unwrap (dadd (amount plan) accrued.2) in
  let! bs := or_500 (load_beneficiaries id) "Failed to load beneficiaries" in
  do! reject_if (is_empty bs) (BAD_REQUEST "Plan has no beneficiaries");
  let! rows := distribute (pay_out id plan) total total bs in
  do! or_500 (update_checked id (fun p =>
        p <| is_active := false |> <| status := "PAID_OUT"%string |>
          <| accrued_yield := numeric4 accrued.2 |> <| last_ping := now |>)) "Failed to mark plan as inactive";
  ret (id, plan, bs, total, rows).

Definition trigger_payout `{AnchorInfoFormat} (owner : text) : X (list (PayoutRow D)) :=
  let! settled := transaction (INTERNAL_SERVER_ERROR "Failed to begin database transaction")
                    (INTERNAL_SERVER_ERROR "Failed to commit database transaction") (settle_plan owner) in
  let '(id, plan, bs, total, rows) := settled in
  do! invalidate_plan_cache (owner_address plan) (map wallet_address bs);
  do! or_else (enqueue_event "plan.settled" (PlanSettled id (owner_address plan) total (len rows))) tt;
  ret rows.

(** * Claiming *)

Record ClaimPlanRequest := mkClaim { beneficiary_email : text; two_fa_code : text }.

Definition valid_code (code : text) : bool :=
  negb (byte_len code <? 4) && forallb is_ascii_alphanumeric code.

Definition check_kyc b : X unit :=
  when (is_fiat b)
    (let! kyc_status := or_else (select (fun d => users d !! wallet_address b)) None in
     match kyc_status with
     | Some s =>
       reject_if (negb (bool_decide (s = "approved"%string))) (FORBIDDEN "Beneficiary has not completed KYC")
     | None => fail (FORBIDDEN "Beneficiary has not submitted KYC verification")
     end).

Definition record_claim (plan_id : uuid) (plan : PlanRow D) bs : X (list (PayoutRow D)) :=
  let! accrued := projected plan in
  let! total := unwrap (dadd (amount plan) accrued.2) in
  let! rows := distribute
    (fun b share => or_500 (insert_payout plan_id b share "pending") "Failed to create payout record") total total bs in
  do! or_500 (update_checked plan_id (fun p =>
        p <| status := "CLAIMABLE"%string |> <| accrued_yield := numeric4 accrued.2 |>)) "Failed to update plan status";
  ret rows.

(** The conditions of a claim. *)
Definition claimable_plan (plan_id : uuid) (payload : ClaimPlanRequest) : X (PlanRow D) :=
  do! reject_if (blank (beneficiary_email payload)) (BAD_REQUEST "beneficiary_email is required");
  do! reject_if (blank (two_fa_code payload)) (BAD_REQUEST "two_fa_code is required");
  let! found := or_500 (get_plan plan_id) "Database query failed" in
  let! plan := ok_or found (NOT_FOUND "Plan not found") in
  do! reject_if (negb (bool_decide (status plan = "TRIGGERED"%string)) && negb (bool_decide (status plan = "CLAIMABLE"%string)))
        (CONFLICT "Plan is not claimable");
  do! reject_if (negb (is_active plan)) (CONFLICT "Plan is no longer active");
  do! reject_if (negb (valid_code (trim (two_fa_code payload)))) (UNPROCESSABLE_ENTITY "Invalid claim verification code");
  ret plan.

Definition claim_plan (plan_id : uuid) (payload : ClaimPlanRequest) : X (list (PayoutRow D)) :=
  let! plan := claimable_plan plan_id payload in
  let! bs := or_500 (load_beneficiaries plan_id) "Failed to load beneficiaries" in
  do! reject_if (is_empty bs) (BAD_REQUEST "Plan has no registered beneficiaries");
  do! foldM (fun _ b => check_kyc b) bs tt;
  let! rows := transaction (INTERNAL_SERVER_ERROR "Failed to begin transaction")
                 (INTERNAL_SERVER_ERROR "Failed to commit transaction") (record_claim plan_id plan bs) in
  do! invalidate_plan_cache (owner_address plan) (map wallet_address bs);
  ret rows.

(** * Cancelling *)

(** Validate a signed envelope and relay it. *)
Definition relay `{XdrCodec} (xdr : text) : X unit :=
  do! reject_if (match validate_transaction_xdr xdr with ROk _ => false | RErr _ => true end) (BAD_REQUEST "Invalid signed_transaction XDR");
  or_return (StellarSubmit.submit xdr)
    (fun e => match e with
              | Rejected => BAD_REQUEST "Stellar network rejected the transaction"
              | _ => BAD_GATEWAY "On-chain deactivation failed"
              end).

Definition cancel_plan `{XdrCodec} (plan_id : uuid) (signed_transaction : option text) : X (PlanResponse D) :=
  let! found := or_500 (get_plan plan_id) "Database query failed" in
  let! plan := ok_or found (NOT_FOUND "Plan not found") in
  do! reject_if (negb (is_active plan)) (CONFLICT "Plan is already inactive");
  do! reject_if (bool_decide (status plan = "PAID_OUT"%string) || bool_decide (status plan = "DEACTIVATED"%string))
        (CONFLICT "Plan cannot be cancelled");
  do! match signed_transaction with Some xdr => relay xdr | None => ret tt end;
  let! now := gets now_secs in
  let! accrued := projected plan in
  do! or_500 (update_checked plan_id (fun p =>
        p <| is_active := false |> <| status := "DEACTIVATED"%string |>
          <| accrued_yield := numeric4 accrued.2 |> <| last_ping := now |>)) "Failed to cancel plan";
  let! addresses := or_else (load_beneficiary_addresses plan_id) [] in
  do! invalidate_plan_cache (owner_address plan) addresses;
  let! bs := or_else (load_beneficiaries plan_id) [] in
  ret (response_of plan_id (plan <| last_ping := now |> <| is_active := false |> <| status := "DEACTIVATED"%string |>)
         accrued.1 bs).

(** * Paged lists *)

Definition clamp (lo hi n : Z) : Z := Z.max lo (Z.min hi n).
(** [LIMIT $ OFFSET $]: PostgreSQL refuses a negative offset. *)
Definition select_page {A} (limit offset : Z) (f : database D -> list A) : M W sqlx_error (list A) :=
  statement (fun w =>
    if offset <? 0 then RErr SqlFault
    else ROk (take (Z.to_nat limit) (drop (Z.to_nat offset) (f (db w))), db w)).
(** [(total as f64 / size as f64).ceil() as i64], exact below 2^45 rows. *)
Definition page_count (total size : Z) : Z := (total + size - 1) / size.
Definition page_offset (page size : Z) : Z := as_i64 (as_i64 (page - 1) * size).

Record Page {A : Type} := mkPage { pg_data : list A; pg_page : Z; pg_size : Z; pg_total : Z; pg_total_pages : Z }.
Arguments Page : clear implicits.
Arguments mkPage {A}.

Definition due_for_claim (wallet : option text) d (ip : uuid * PlanRow D) : bool :=
  bool_decide (status ip.2 ∈ ["TRIGGERED"; "CLAIMABLE"]%string) &&
  match wallet with Some a => listed a ip.1 d | None => true end.

Definition get_plans_due_for_claim (wallet : option text) (page limit : option Z) : X (Page (PlanResponse D)) :=
  let page := Z.max 1 (default 1 page) in
  let limit := clamp 1 100 (default 20 limit) in
  let offset := page_offset page limit in
  let! total := or_else (select (fun d => len (plans_where (due_for_claim wallet d) d))) 0 in
  let! rows := or_else (select_page limit offset (fun d => plans_where (due_for_claim wallet d) d)) [] in
  let! responses := respond rows in
  ret (mkPage responses page limit total (page_count total limit)).

Definition get_plan_due_for_claim (plan_id : uuid) : X (PlanResponse D) :=
  let! found := or_500 (select (fun d =>
    p ← plans d !! plan_id; if due_for_claim None d (plan_id, p) then Some p else None)) "Database query failed" in
  let! plan_row := ok_or found (NOT_FOUND "Plan not found or not yet claimable") in
  let! bs := or_500 (load_beneficiaries plan_id) "Failed to load beneficiaries" in
  let! now := gets clock in
  ret (plan_row_to_response (plan_id, plan_row) bs now).

Definition paid_later (x y : PayoutRow D) : Prop := p_created_at y <= p_created_at x.
#[local] Instance paid_later_dec x y : Decision (paid_later x y) := ltac:(unfold paid_later; apply _).
Definition payouts_to (address : option text) d : list (PayoutRow D) :=
  merge_sort paid_later (row_order (filter (fun r =>
    match address with Some a => bool_decide (beneficiary_address r = a) | None => true end = true) (payouts d))).

Definition get_anchor_payouts (address : option text) (page page_size : option Z) : X (Page (PayoutRow D)) :=
  let page := Z.max 1 (default 1 page) in
  let page_size := clamp 1 100 (default 20 page_size) in
  let offset := page_offset page page_size in
  let! total := or_500 (select (fun d => len (payouts_to address d))) "Database query failed" in
  let! rows := or_500 (select_page page_size offset (payouts_to address)) "Database query failed" in
  ret (mkPage rows page page_size total (page_count total page_size)).

(** * Lemmas *)

(** ** Errors *)

Lemma trigger_payout_Fail `{AnchorInfoFormat} owner : fails_keeping db (trigger_payout owner).
Proof.
  unfold trigger_payout. apply fails_keeping_last; [apply fails_keeping_transaction|]. intros [[[[id plan] bs] total] rows].
  apply no_err_bind; [apply no_err_or_else|]. intros _. apply no_err_bind; [apply no_err_or_else|]. intros _. apply no_err_ret.
Qed.
Lemma claimable_plan_keeps {B} (f : W -> B) id payload : (forall w, f (pop w) = f w) -> keeps f (claimable_plan id payload).
Proof. intros Hf. unfold claimable_plan, get_plan. repeat first [apply keeps_or_500, keeps_select; done|bkeeps_step]. Qed.
Lemma check_kyc_keeps {B} (f : W -> B) b : (forall w, f (pop w) = f w) -> keeps f (check_kyc b).
Proof. intros Hf. unfold check_kyc. repeat first [apply keeps_or_else, keeps_select; done|bkeeps_step]. Qed.
Lemma claim_plan_Fail id payload : fails_keeping db (claim_plan id payload).
Proof.
  unfold claim_plan. apply fails_keeping_bind; [by apply claimable_plan_keeps|]. intros plan.
  apply fails_keeping_bind; [unfold load_beneficiaries; bkeeps_tac|]. intros bs.
  apply fails_keeping_bind; [bkeeps_tac|]. intros _.
  apply fails_keeping_bind; [apply keeps_foldM; intros; by apply check_kyc_keeps|]. intros _.
  apply fails_keeping_last; [apply fails_keeping_transaction|]. intros rows.
  apply no_err_bind; [apply no_err_or_else|]. intros _. apply no_err_ret.
Qed.
Lemma cancel_plan_Fail `{XdrCodec} id tx : fails_keeping db (cancel_plan id tx).
Proof.
  unfold cancel_plan. apply fails_keeping_bind; [unfold get_plan; bkeeps_tac|]. intros f.
  do 3 (apply fails_keeping_bind; [bkeeps_tac|]; intros ?).
  apply fails_keeping_bind.
  { destruct tx as [xdr|]; [|bkeeps_tac]. unfold relay. apply keeps_bind; [bkeeps_tac|]. intros _. apply keeps_or_return.
    intros w. pose proof (StellarSubmit.submit_exchanged (D := D) xdr w) as Hs. destruct (StellarSubmit.submit xdr w); [by apply StellarSubmit.exchanged_db..|done]. }
  intros _. apply fails_keeping_bind; [bkeeps_tac|]. intros now. apply fails_keeping_bind; [unfold projected; bkeeps_tac|]. intros acc.
  apply fails_keeping_last; [by apply fails_keeping_or_500, fails_keeping_statement|]. intros _.
  apply no_err_bind; [apply no_err_or_else|]. intros addrs. apply no_err_bind; [apply no_err_or_else|]. intros _.
  apply no_err_bind; [apply no_err_or_else|]. intros bs. apply no_err_ret.
Qed.

(** ** The split *)

Context `{!DecimalLaws D} `{!PostgresLaws}.

(** The shares in decimals: each beneficiary but the last gets the whole units
    of its basis points of [total], the last what remains of [remaining]. *)
Fixpoint shares_of (total remaining : D) bs : option (list D) :=
  match bs with
  | [] => Some []
  | b :: bs =>
    if is_empty bs then Some [remaining]
    else
      m ← dmul total (dec_of_Z (allocation_bps b));
      q ← ddiv m (dec_of_Z 10000);
      rest ← dsub remaining (dfloor q);
      shares ← shares_of total rest bs;
      Some (dfloor q :: shares)
  end.
(** The shares in exact arithmetic. *)
Fixpoint shares_spec (total remaining : Z) bs : list Z :=
  match bs with
  | [] => []
  | b :: bs =>
    if is_empty bs then [remaining]
    else
      let a := total * allocation_bps b / (10000 * DECIMAL_ONE) * DECIMAL_ONE in
      a :: shares_spec total (remaining - a) bs
  end.
Definition Zsum (ns : list Z) : Z := foldr Z.add 0 ns.

(** A share in whole units, less than a unit below the exact one but for the
    rounding of decimals. *)
Definition near_share (total : D) b (share : D) : Prop :=
  (DECIMAL_ONE | val share) /\ 0 <= val share /\
  val total * allocation_bps b - 10002 * DECIMAL_ONE < 10000 * val share <= val total * allocation_bps b + 2 * DECIMAL_ONE.

(** A row records a share: its amount is the share as the column rounds it. *)
Definition records (id : uuid) (st : string) (bs_share : BeneficiaryRow D * D) (row : PayoutRow D) : Prop :=
  p_plan_id row = id /\ p_status row = st /\
  beneficiary_address row = wallet_address bs_share.1 /\ payout_type row = payout_type_str bs_share.1 /\
  p_amount row = numeric0 bs_share.2.
Definition positive_shares bs (shares : list D) : list (BeneficiaryRow D * D) :=
  filter (fun bn => dle bn.2 dzero = false) (combine bs shares).

Lemma dle_zero (a : D) : dle a dzero = true <-> val a <= 0.
Proof. by rewrite val_le, val_zero. Qed.
Lemma dle_zero_false (a : D) : dle a dzero = false <-> 0 < val a.
Proof. rewrite <-not_true_iff_false, dle_zero. lia. Qed.

(** What recording a share may do: append its row, and leave the plans and the
    beneficiaries. *)
Definition pays (id : uuid) (st : string) (pay : BeneficiaryRow D -> D -> X (PayoutRow D)) : Prop :=
  forall b share row w w', pay b share w = Ok row w' ->
    records id st (b, share) row /\
    payouts (db w') = payouts (db w) ++ [row] /\ plans (db w') = plans (db w) /\ beneficiaries (db w') = beneficiaries (db w).

Lemma share_of_Ok total remaining b last share rest w w' :
  share_of total remaining b last w = Ok (share, rest) w' ->
  w' = w /\
  if last then share = remaining
  else exists m q, dmul total (dec_of_Z (allocation_bps b)) = Some m /\ ddiv m (dec_of_Z 10000) = Some q /\
       share = dfloor q /\ dsub remaining share = Some rest.
Proof.
  unfold share_of. intros Hr. destruct last; [by apply ret_Ok in Hr as [[= -> ->] ->]|].
  apply bind_Ok in Hr as (m & w1 & [Hm ->]%unwrap_Ok & Hr). apply bind_Ok in Hr as (q & w2 & [Hq ->]%unwrap_Ok & Hr).
  apply bind_Ok in Hr as (r & w3 & [Hsub ->]%unwrap_Ok & [[= -> ->] ->]%ret_Ok). eauto 10.
Qed.
Lemma distribute_Ok id st pay total remaining bs rows w w' :
  pays id st pay -> distribute pay total remaining bs w = Ok rows w' ->
  (payouts (db w') = payouts (db w) ++ rows /\ plans (db w') = plans (db w) /\ beneficiaries (db w') = beneficiaries (db w)) /\
  exists shares, shares_of total remaining bs = Some shares /\ Forall2 (records id st) (positive_shares bs shares) rows.
Proof.
  intros Hpay. revert remaining rows w. induction bs as [|b bs IH]; intros remaining rows w Hr; cbn in Hr.
  { apply ret_Ok in Hr as [-> ->]. rewrite app_nil_r. split; [done|]. exists []. split; [done|constructor]. }
  apply bind_Ok in Hr as ([share rest] & w1 & Hsh & Hr). apply bind_Ok in Hr as (row & w2 & Hrow & Hr).
  apply bind_Ok in Hr as (rows' & w3 & Hd & [-> ->]%ret_Ok). cbn in Hrow, Hd.
  apply share_of_Ok in Hsh as [-> Hsh].
  destruct (IH _ _ _ Hd) as [(Hp & Hpl & Hbe) (shares & Hshares & Hrows)].
  assert ((payouts (db w2) = payouts (db w) ++ option_list row /\ plans (db w2) = plans (db w) /\ beneficiaries (db w2) = beneficiaries (db w)) /\
    Forall2 (records id st) (positive_shares [b] [share]) (option_list row)) as [(Hp2 & Hpl2 & Hbe2) Hrec].
  { unfold positive_shares. cbn. destruct (dle share dzero) eqn:Hz.
    - apply ret_Ok in Hrow as [-> ->]. cbn. rewrite app_nil_r. split; [done|constructor].
    - apply bind_Ok in Hrow as (r & w4 & Hrow & [-> ->]%ret_Ok). apply Hpay in Hrow as (Hre & Hpo & Hpl' & Hbe').
      split; [done|]. repeat constructor; apply Hre. }
  split.
  { rewrite Hp, Hp2, Hpl, Hpl2, Hbe, Hbe2. split; [|done]. rewrite <-app_assoc. by destruct row. }
  replace (match row with Some row => row :: rows' | None => rows' end)
    with (option_list row ++ rows') by (by destruct row).
  exists (share :: shares). split.
  - cbn [shares_of]. destruct bs as [|b' bs]; cbn [is_empty] in *; [subst share; by injection Hshares as <-|].
    destruct Hsh as (m & q & Hm & Hq & -> & Hs). apply bind_Some. exists m. split; [done|]. apply bind_Some. exists q. split; [done|].
    apply bind_Some. exists rest. split; [done|]. apply bind_Some. by exists shares.
  - assert (positive_shares (b :: bs) (share :: shares) = positive_shares [b] [share] ++ positive_shares bs shares) as ->
      by (unfold positive_shares; by rewrite <-filter_app). by apply Forall2_app.
Qed.

(** ** What the shares add up to *)

(** An integral amount is stored as it is. *)
Lemma numeric0_integral (a : D) : (DECIMAL_ONE | val a) -> val (numeric0 a) = val a.
Proof.
  intros [k Hk]. destruct (val_numeric0 a) as [[j Hj] Hd]. rewrite Hk, Hj in *.
  rewrite <-Z.mul_sub_distr_r, Z.abs_mul in Hd. assert (j = k) as -> by (unfold DECIMAL_ONE in *; nia). done.
Qed.
Definition paid rows : Z := Zsum (map (fun row : PayoutRow D => val (p_amount row)) rows).
(** What a share puts into its row. *)
Definition spent (share : D) : Z := if dle share dzero then 0 else val (numeric0 share).
Lemma paid_spent id st bs shares rows :
  Forall2 (records id st) (positive_shares bs shares) rows -> length shares = length bs -> paid rows = Zsum (map spent shares).
Proof.
  unfold positive_shares, paid. revert shares rows. induction bs as [|b bs IH]; intros [|a shares] rows Hr Hl; try done.
  - by inversion Hr.
  - cbn [combine] in Hr. rewrite filter_cons in Hr. cbn. unfold spent at 1. injection Hl as Hl.
    case_decide as Hd; cbn in Hd.
    + rewrite Hd. inversion Hr as [|? row ? rows' (_ & _ & _ & _ & Ha) Hr']; subst. cbn. rewrite Ha. cbn. f_equal. by apply IH.
    + apply not_false_iff_true in Hd. rewrite Hd. by apply IH.
Qed.
Lemma shares_length total remaining bs shares : shares_of total remaining bs = Some shares -> length shares = length bs.
Proof.
  revert remaining shares. induction bs as [|b bs IH]; intros remaining shares Hs; cbn in Hs; [by injection Hs as <-|].
  destruct bs as [|b' bs]; [by injection Hs as <-|]. cbn [is_empty] in Hs.
  apply bind_Some in Hs as (m & _ & Hs). apply bind_Some in Hs as (q & _ & Hs). apply bind_Some in Hs as (r & _ & Hs).
  apply bind_Some in Hs as (ss & Hss & [= <-]). cbn. f_equal. by apply IH in Hss.
Qed.
Lemma floor_near total b m q :
  0 <= val total -> 0 <= allocation_bps b <= 10000 ->
  dmul total (dec_of_Z (allocation_bps b)) = Some m -> ddiv m (dec_of_Z 10000) = Some q -> near_share total b (dfloor q).
Proof.
  intros Ht Hb Hm Hq. destruct (val_share_near _ _ _ _ Ht Hb Hm Hq) as [Hq0 Hn]. unfold near_share. rewrite val_floor.
  split; [by eexists|]. pose proof (Z.div_mod (val q) DECIMAL_ONE ltac:(done)).
  pose proof (Z.mod_pos_bound (val q) DECIMAL_ONE ltac:(done)). pose proof (Z.div_pos (val q) DECIMAL_ONE ltac:(done) ltac:(done)).
  unfold DECIMAL_ONE in *. lia.
Qed.
(** Every share but the last is near its exact value. *)
Lemma shares_near total remaining bs shares :
  shares_of total remaining bs = Some shares -> 0 <= val total -> Forall (fun b => 0 <= allocation_bps b <= 10000) bs ->
  Forall2 (near_share total) (removelast bs) (removelast shares).
Proof.
  intros Hs Ht Hall. revert remaining shares Hs. induction Hall as [|b bs Hb Hall IH]; intros remaining shares Hs; cbn in Hs.
  { injection Hs as <-. constructor. }
  destruct bs as [|b' bs]; [injection Hs as <-; constructor|]. cbn [is_empty] in Hs.
  apply bind_Some in Hs as (m & Hm & Hs). apply bind_Some in Hs as (q & Hq & Hs). apply bind_Some in Hs as (r & _ & Hs).
  apply bind_Some in Hs as (ss & Hss & [= <-]). pose proof (shares_length _ _ _ _ Hss) as Hl.
  change (removelast (b :: b' :: bs)) with (b :: removelast (b' :: bs)).
  assert (removelast (dfloor q :: ss) = dfloor q :: removelast ss) as -> by (by destruct ss).
  constructor; [by eapply floor_near|by eapply IH].
Qed.

Lemma spent_near total b share : near_share total b share -> spent share = val share.
Proof.
  intros (Hd & Hq0 & _). unfold spent. destruct (dle share dzero) eqn:Hz; [apply dle_zero in Hz; lia|by apply numeric0_integral].
Qed.
(** With nothing left, the last beneficiary gets nothing. *)
Lemma spent_over total remaining bs shares :
  shares_of total remaining bs = Some shares -> 0 <= val total -> Forall (fun b => 0 <= allocation_bps b <= 10000) bs ->
  val remaining <= 0 ->
  0 <= Zsum (map spent shares) /\ 10000 * Zsum (map spent shares) <= val total * bps_of bs + 2 * len bs * DECIMAL_ONE.
Proof.
  intros Hs Ht Hall. revert remaining shares Hs. induction Hall as [|b bs Hb Hall IH]; intros remaining shares Hs Hr; cbn in Hs.
  { injection Hs as <-. unfold len, bps_of. cbn. lia. }
  pose proof (bps_of_nonneg bs Hall) as Hpos. rewrite bps_of_cons. unfold len in *. cbn [length].
  destruct bs as [|b' bs].
  { injection Hs as <-. cbn. unfold spent. rewrite (proj2 (dle_zero remaining)) by done. split; [done|]. unfold DECIMAL_ONE. nia. }
  cbn [is_empty] in Hs. apply bind_Some in Hs as (m & Hm & Hs). apply bind_Some in Hs as (q & Hq & Hs).
  apply bind_Some in Hs as (r & Hsub & Hs). apply bind_Some in Hs as (ss & Hss & [= <-]).
  pose proof (floor_near _ _ _ _ Ht Hb Hm Hq) as Hn. cbn [map Zsum foldr]. rewrite (spent_near _ _ _ Hn).
  destruct Hn as (Hd & Hq0 & Hlo & Hhi).
  destruct (IH _ _ Hss) as [Hs1 Hs2]; [eapply val_sub_over; [exact Hd|exact Hq0| |exact Hsub]; lia|]. unfold Zsum in *.
  split; [lia|]. unfold DECIMAL_ONE in *. lia.
Qed.
(** What is paid is what remains, up to the rounding of the last share and of
    the [k] shares before. *)
Lemma spent_total total remaining bs shares (k : Z) :
  shares_of total remaining bs = Some shares -> bs <> [] -> 0 <= val total -> 0 <= k ->
  Forall (fun b => 0 <= allocation_bps b <= 10000) bs -> 0 <= val remaining ->
  val total * bps_of bs <= 10000 * val remaining + 2 * k * DECIMAL_ONE ->
  - DECIMAL_ONE <= 2 * (Zsum (map spent shares) - val remaining) /\
  10000 * (Zsum (map spent shares) - val remaining) <= DECIMAL_ONE * Z.max 5000 (2 * (k + len bs)).
Proof.
  intros Hs Hne Ht Hk Hall. revert remaining shares k Hs Hne Hk.
  induction Hall as [|b bs Hb Hall IH]; intros remaining shares k Hs Hne Hk Hr Hle; [done|]. cbn in Hs.
  pose proof (bps_of_nonneg bs Hall) as Hpos. rewrite bps_of_cons in Hle. unfold len in *. cbn [length].
  destruct bs as [|b' bs].
  { injection Hs as <-. cbn. unfold spent. destruct (dle remaining dzero) eqn:Hz.
    - apply dle_zero in Hz. unfold DECIMAL_ONE. lia.
    - destruct (val_numeric0 remaining) as [_ Hn]. unfold DECIMAL_ONE in *. lia. }
  cbn [is_empty] in Hs. apply bind_Some in Hs as (m & Hm & Hs). apply bind_Some in Hs as (q & Hq & Hs).
  apply bind_Some in Hs as (r & Hsub & Hs). apply bind_Some in Hs as (ss & Hss & [= <-]).
  pose proof (floor_near _ _ _ _ Ht Hb Hm Hq) as Hn. cbn [map Zsum foldr]. rewrite (spent_near _ _ _ Hn).
  destruct Hn as (Hd & Hq0 & Hlo & Hhi). destruct (Z.le_gt_cases (val (dfloor q)) (val remaining)) as [Hc|Hc].
  - destruct (val_sub remaining (dfloor q) Hd ltac:(lia)) as (r' & Hr' & Hv). rewrite Hsub in Hr'. injection Hr' as <-.
    destruct (IH r ss (k + 1) Hss) as [Hs1 Hs2]; [done|lia|lia|unfold DECIMAL_ONE in *; lia|]. unfold Zsum in *.
    replace (2 * (k + 1 + Z.of_nat (length (b' :: bs)))) with (2 * (k + Z.of_nat (S (length (b' :: bs))))) in Hs2 by lia.
    unfold DECIMAL_ONE in *. lia.
  - destruct (spent_over total r (b' :: bs) ss Hss Ht Hall) as [Hs1 Hs2]; [eapply val_sub_over; [exact Hd|exact Hq0| |exact Hsub]; lia|].
    unfold Zsum, len, DECIMAL_ONE in *. cbn [length] in *. lia.
Qed.

(** A payable total is split exactly. *)
Lemma shares_exact total remaining bs shares :
  shares_of total remaining bs = Some shares -> payable total -> 0 <= val total ->
  Forall (fun b => 0 <= allocation_bps b <= 10000) bs -> val total * bps_of bs <= 10000 * val remaining ->
  map val shares = shares_spec (val total) (val remaining) bs.
Proof.
  intros Hs Hp Ht Hall. revert remaining shares Hs. induction Hall as [|b bs Hb Hall IH]; intros remaining shares Hs Hle; cbn in Hs.
  { by injection Hs as <-. }
  pose proof (bps_of_nonneg bs Hall) as Hpos. rewrite bps_of_cons in Hle.
  destruct bs as [|b' bs]; [by injection Hs as <-|].
  cbn [is_empty] in Hs. apply bind_Some in Hs as (m & Hm & Hs). apply bind_Some in Hs as (q & Hq & Hs).
  apply bind_Some in Hs as (r & Hsub & Hs). apply bind_Some in Hs as (ss & Hss & [= <-]).
  destruct (val_share total (allocation_bps b) Hp Hb) as (m' & q' & Hm' & Hq' & Hval). simplify_eq.
  pose proof (floor_near _ _ _ _ Ht Hb Hm Hq) as (Hd & Hq0 & _).
  assert (val (dfloor q) = val total * allocation_bps b / (10000 * DECIMAL_ONE) * DECIMAL_ONE) as Hfl
    by (rewrite val_floor, <-Hval, Z.div_mul_cancel_l; done).
  pose proof (Z.mul_div_le (val total * allocation_bps b) (10000 * DECIMAL_ONE) ltac:(done)) as Hdiv.
  destruct (val_sub remaining (dfloor q) Hd) as (r' & Hr' & Hv); [unfold DECIMAL_ONE in *; nia|].
  rewrite Hsub in Hr'. injection Hr' as <-.
  change (shares_spec (val total) (val remaining) (b :: b' :: bs)) with
    (val total * allocation_bps b / (10000 * DECIMAL_ONE) * DECIMAL_ONE ::
     shares_spec (val total) (val remaining - val total * allocation_bps b / (10000 * DECIMAL_ONE) * DECIMAL_ONE) (b' :: bs)).
  cbn [map]. rewrite Hfl. f_equal. rewrite <-Hfl, <-Hv. apply IH; [done|]. rewrite Hv, Hfl. unfold DECIMAL_ONE in *. lia.
Qed.

(** ** The handlers *)

Lemma insert_payout_Ok id b share st row w w' :
  insert_payout id b share st w = Ok row w' ->
  row = mkPayout (p_id row) id (wallet_address b) (numeric0 share) (payout_type_str b) st (clock w) /\
  db w' = (db w) <| payouts := payouts (db w) ++ [row] |>.
Proof.
  unfold insert_payout, fresh_uuid. intros Hr.
  apply bind_Ok in Hr as (u & w1 & Hu & Hr). apply bind_Ok in Hr as (now & w2 & [-> ->]%gets_Ok & Hr).
  apply bind_Ok in Hr as ([] & w3 & (_ & d & Hd & ->)%checked_execute_Ok & [-> ->]%ret_Ok).
  run_inv. destruct (dlt _ _ && _); [|done]. by injection Hd as <-.
Qed.
Lemma pending_pays id : pays id "pending" (fun b share => or_500 (insert_payout id b share "pending") "Failed to create payout record").
Proof. intros b share row w w' Hr. apply or_500_Ok, insert_payout_Ok in Hr as [-> ->]. done. Qed.

(** The tables a payout's bookkeeping leaves alone. *)
Definition ledger w := (payouts (db w), plans (db w), beneficiaries (db w)).
Lemma invalidate_ledger o addresses : keeps ledger (invalidate_plan_cache o addresses : X unit).
Proof. unfold invalidate_plan_cache. bkeeps_tac. Qed.
Lemma check_daily_limit_ledger b share : keeps ledger (check_daily_limit b share).
Proof. unfold check_daily_limit. bkeeps_tac. Qed.
Lemma create_payout_ledger {E} req : keeps ledger (StellarAnchor.create_payout req : M W E _).
Proof.
  intros w. pose proof (StellarAnchor.create_payout_exchanged (D := D) (E := E) req w) as Hx. unfold ledger.
  destruct (StellarAnchor.create_payout req w); [by rewrite (StellarSubmit.exchanged_db _ _ Hx)..|done].
Qed.
Lemma record_usage_ledger b share : keeps ledger (record_usage b share).
Proof.
  unfold record_usage, execute. apply keeps_bind; [bkeeps_tac|]. intros day. apply keeps_statement; [by intros []|].
  by intros w a d [= _ <-].
Qed.
Lemma pay_out_pays `{AnchorInfoFormat} id plan : pays id "processing" (pay_out id plan).
Proof.
  intros b share row w w' Hr. unfold pay_out in Hr.
  apply bind_Ok in Hr as (ab & w1 & Hl & Hr). apply (keeps_Ok _ _ _ _ _ (check_daily_limit_ledger b share)) in Hl.
  apply bind_Ok in Hr as ([] & w2 & [_ ->]%reject_if_Ok & Hr).
  apply bind_Ok in Hr as (row' & w3 & Hi%or_500_Ok%insert_payout_Ok & Hr). destruct Hi as [Hrow Hdb].
  apply bind_Ok in Hr as ([] & w4 & Hf & [-> ->]%ret_Ok).
  assert (ledger w4 = ledger w3) as Hw.
  { revert Hf. apply keeps_Ok. apply keeps_when. apply keeps_bind; [bkeeps_tac|]. intros info.
    apply keeps_bind; [apply create_payout_ledger|]. intros _. apply keeps_when, keeps_or_500, record_usage_ledger. }
  unfold ledger in *. rewrite Hdb in Hw. injection Hl as Hl1 Hl2 Hl3. injection Hw as Hw1 Hw2 Hw3.
  split; [by rewrite Hrow|]. by rewrite Hw1, Hw2, Hw3, Hl1, Hl2, Hl3.
Qed.

Lemma active_plan_of_Ok owner o w w' :
  active_plan_of owner w = Ok o w' ->
  w' = pop w /\ match o with
                | Some ip => plans (db w) !! ip.1 = Some ip.2 /\ owner_address ip.2 = owner /\ is_active ip.2 = true
                | None => True
                end.
Proof.
  unfold active_plan_of. intros (_ & -> & ->)%select_Ok. split; [done|].
  destruct (head _) as [ip|] eqn:Hh; [|done]. apply head_Some_elem_of in Hh.
  rewrite rows_all, list_elem_of_filter in Hh. destruct Hh as [[Ho Ha] Hin], ip as [i p].
  by apply elem_of_map_to_list in Hin.
Qed.

Lemma update_checked_Ok id f u w w' :
  update_checked id f w = Ok u w' -> exists d, w' = (pop w) <| db := d |> /\
    d = (db w) <| plans := alter f id (plans (db w)) |>.
Proof.
  intros (_ & d & Hd & ->)%checked_execute_Ok. exists d. split; [done|]. rewrite alter_present.
  destruct (plans (db w) !! id) as [p|] eqn:Hp.
  - destruct (plan_checks _); [|done]. by injection Hd as <-.
  - injection Hd as <-. by destruct (db w).
Qed.

(** The beneficiaries as a query returns them. *)
Lemma beneficiaries_of_sound d id :
  sound d -> Forall (fun b => 0 <= allocation_bps b <= 10000) (beneficiaries_of id d) /\ bps_of (beneficiaries_of id d) <= 10000.
Proof.
  intros Hs. assert (beneficiaries_of id d ≡ₚ rows_of id d) as Hp by apply rows_all. split.
  - apply Forall_forall. intros b Hb. rewrite Hp in Hb. apply list_elem_of_filter in Hb as [_ Hb]. by apply (so_rows d Hs).
  - assert (forall bs1 bs2 : list (BeneficiaryRow D), bs1 ≡ₚ bs2 -> bps_of bs1 = bps_of bs2) as Hperm
      by (induction 1; rewrite ?bps_of_cons in *; lia).
    rewrite (Hperm _ _ Hp). apply (so_total d Hs).
Qed.

(** A successful distribution over a plan's beneficiaries: the rows record the
    positive shares, with the status [st]. *)
Record distributed (d : database D) (id : uuid) (plan : PlanRow D) (now : Z) (st : string) (rows : list (PayoutRow D)) : Prop := {
  di_some : beneficiaries_of id d <> [];
  di_split : exists total shares, dadd (amount plan) (projected_at plan now).2 = Some total /\
    shares_of total total (beneficiaries_of id d) = Some shares /\
    Forall2 (records id st) (positive_shares (beneficiaries_of id d) shares) rows /\
    (0 <= val total ->
     Forall2 (near_share total) (removelast (beneficiaries_of id d)) (removelast shares) /\
     - DECIMAL_ONE <= 2 * (paid rows - val total) /\
     10000 * (paid rows - val total) <= DECIMAL_ONE * Z.max 5000 (2 * len (beneficiaries_of id d)) /\
     (payable total -> map val shares = shares_spec (val total) (val total) (beneficiaries_of id d)))
}.

Lemma distribute_distributed pay id plan now st total rows w0 w w' :
  sound (db w0) -> pays id st pay -> beneficiaries_of id (db w0) <> [] ->
  dadd (amount plan) (projected_at plan now).2 = Some total ->
  distribute pay total total (beneficiaries_of id (db w0)) w = Ok rows w' ->
  distributed (db w0) id plan now st rows /\
  payouts (db w') = payouts (db w) ++ rows /\ plans (db w') = plans (db w) /\ beneficiaries (db w') = beneficiaries (db w).
Proof.
  intros Hs Hpay Hn Ht Hd. destruct (distribute_Ok _ _ _ _ _ _ _ _ _ Hpay Hd) as [Hw (shares & Hsh & Hrows)]. split; [|done].
  destruct (beneficiaries_of_sound (db w0) id Hs) as [Hall Htot]. split; [done|]. exists total, shares. split_and!; [done..|].
  intros Hpos. assert (val total * bps_of (beneficiaries_of id (db w0)) <= 10000 * val total) as Hle by nia.
  rewrite (paid_spent _ _ _ _ _ Hrows (shares_length _ _ _ _ Hsh)).
  destruct (spent_total _ _ _ _ 0 Hsh Hn Hpos ltac:(done) Hall Hpos ltac:(lia)) as [Hlo Hhi].
  split_and!; [by eapply shares_near|done|done|]. intros Hpa. by apply shares_exact.
Qed.

Lemma settle_plan_Ok `{AnchorInfoFormat} owner id plan bs total rows w w' :
  sound (db w) -> settle_plan owner w = Ok (id, plan, bs, total, rows) w' ->
  plans (db w) !! id = Some plan /\ owner_address plan = owner /\ is_active plan = true /\
  inactivity_deadline_at plan <= now_secs w /\ bs = beneficiaries_of id (db w) /\
  distributed (db w) id plan (clock w) "processing" rows /\
  ledger w' = (payouts (db w) ++ rows,
    alter (fun p => p <| is_active := false |> <| status := "PAID_OUT"%string |>
      <| accrued_yield := numeric4 (projected_at plan (clock w)).2 |> <| last_ping := now_secs w |>) id (plans (db w)),
    beneficiaries (db w)).
Proof.
  intros Hs Hr. unfold settle_plan in Hr.
  apply bind_Ok in Hr as (o & w1 & [-> Ho]%or_500_Ok%active_plan_of_Ok & Hr).
  apply bind_Ok in Hr as ([i p] & w2 & [-> ->]%ok_or_Ok & Hr). destruct Ho as (Hp & Hown & Hact). cbn in Hp, Hown, Hact.
  apply bind_Ok in Hr as (now & w3 & [-> ->]%gets_Ok & Hr). apply bind_Ok in Hr as ([] & w4 & [Hdl ->]%reject_if_Ok & Hr).
  apply bind_Ok in Hr as (acc & w5 & Hacc & Hr). unfold projected in Hacc.
  apply bind_Ok in Hacc as (now & w6 & [-> ->]%gets_Ok & [-> ->]%ret_Ok).
  apply bind_Ok in Hr as (t & w7 & [Ht ->]%unwrap_Ok & Hr).
  apply bind_Ok in Hr as (bs' & w8 & (_ & -> & ->)%or_500_Ok%select_Ok & Hr).
  apply bind_Ok in Hr as ([] & w9 & [Hne ->]%reject_if_Ok & Hr).
  apply bind_Ok in Hr as (rows' & w10 & Hd & Hr).
  apply bind_Ok in Hr as ([] & w11 & (d & -> & ->)%or_500_Ok%update_checked_Ok & [[= -> -> -> -> ->] ->]%ret_Ok).
  apply is_empty_false in Hne. cbn in Hd, Hne, Ht.
  destruct (distribute_distributed _ i p (clock w) _ t rows' w _ _ Hs (pay_out_pays i p) Hne Ht Hd) as (Hdist & Hpo & Hpl & Hbe).
  split_and!; [done..| |done|done|].
  - bool_hyps. pose proof (so_plans _ Hs _ _ Hp) as Hc. unfold plan_checks, timestamp_range in Hc. bool_hyps.
    unfold as_i64 in Hdl. rewrite Z.mod_small in Hdl by (unfold inactivity_deadline_at in *; lia).
    unfold inactivity_deadline_at, now_secs in *. cbn in Hdl. lia.
  - unfold ledger. cbn in *. by rewrite Hpo, Hpl, Hbe.
Qed.

(** The claim's checks of its beneficiaries: fiat payouts need an approved user. *)
Definition kyc_cleared d b : Prop := is_fiat b = true -> users d !! wallet_address b = Some "approved"%string.
Lemma check_kycs_Ok bs w w' :
  foldM (fun (_ : unit) b => check_kyc b) bs tt w = Ok tt w' -> db w' = db w /\ clock w' = clock w /\ Forall (kyc_cleared (db w)) bs.
Proof.
  revert w. induction bs as [|b bs IH]; intros w Hr; cbn in Hr.
  - apply ret_Ok in Hr as [_ ->]. split_and!; [done..|constructor].
  - apply bind_Ok in Hr as ([] & w1 & Hb & Hr). apply IH in Hr as (Hd & Hc & Hf).
    pose proof (keeps_Ok _ _ _ _ _ (check_kyc_keeps db b ltac:(by intros [])) Hb) as Hd1.
    pose proof (keeps_Ok _ _ _ _ _ (check_kyc_keeps clock b ltac:(by intros [])) Hb) as Hc1.
    rewrite Hd1 in Hd, Hf. split_and!; [done|congruence|]. constructor; [|done]. intros Hfi.
    unfold check_kyc in Hb. rewrite Hfi in Hb. cbn in Hb. apply bind_Ok in Hb as (s & w2 & Hs & Hb). unfold or_else in Hs.
    destruct (select _ w) as [k w3|e w3|] eqn:Hsel; [|injection Hs as <- <-; by apply fail_Ok in Hb|done].
    injection Hs as -> ->. apply select_Ok in Hsel as (_ & -> & _).
    destruct (users (db w) !! wallet_address b); [|by apply fail_Ok in Hb]. apply reject_if_Ok in Hb as [Hb _]. bool_hyps. by subst.
Qed.
Lemma claimable_plan_Ok id payload plan w w' :
  claimable_plan id payload w = Ok plan w' ->
  plans (db w) !! id = Some plan /\ (status plan = "TRIGGERED" \/ status plan = "CLAIMABLE")%string /\ is_active plan = true /\
  blank (beneficiary_email payload) = false /\ valid_code (trim (two_fa_code payload)) = true /\
  db w' = db w /\ clock w' = clock w.
Proof.
  intros Hr. pose proof (keeps_Ok _ _ _ _ _ (claimable_plan_keeps db id payload ltac:(by intros [])) Hr) as Hd.
  pose proof (keeps_Ok _ _ _ _ _ (claimable_plan_keeps clock id payload ltac:(by intros [])) Hr) as Hc.
  unfold claimable_plan in Hr. apply bind_Ok in Hr as ([] & w1 & [Hem ->]%reject_if_Ok & Hr).
  apply bind_Ok in Hr as ([] & w2 & [_ ->]%reject_if_Ok & Hr).
  apply bind_Ok in Hr as (o & w3 & (_ & -> & ->)%or_500_Ok%select_Ok & Hr).
  apply bind_Ok in Hr as (p & w4 & [Hp ->]%ok_or_Ok & Hr). apply bind_Ok in Hr as ([] & w5 & [Hst ->]%reject_if_Ok & Hr).
  apply bind_Ok in Hr as ([] & w6 & [Ha ->]%reject_if_Ok & Hr). apply bind_Ok in Hr as ([] & w7 & [Hv ->]%reject_if_Ok & Hr).
  apply ret_Ok in Hr as [-> ->]. bool_hyps. split_and!; try done.
  apply andb_false_iff in Hst as [Hst|Hst]; bool_hyps; [by left|by right].
Qed.

(** C11: A payout request that succeeds found an active plan of this owner whose grace
    period had passed, and in one transaction appends payouts in status processing and
    leaves the plan inactive and PAID_OUT. The payouts record the positive shares of the
    amount plus the projected yield, computed in decimals: each beneficiary but the last
    gets the whole units of its basis points, the last what remains. For a nonnegative
    total, yield included, a share but the last is in whole units, at most 1.0002 units
    below and 0.0002 above the exact one, and the payouts add up to the total within half
    a unit below and the larger of half a unit and 0.0002 units per beneficiary above; if
    the total times any basis points is exact in decimals, the shares are exactly those of
    integer arithmetic. A request that fails changes no table. *)
Theorem payout_contract `{AnchorInfoFormat} owner w :
  sound (db w) ->
  match trigger_payout owner w with
  | Ok rows w' => exists id plan,
      plans (db w) !! id = Some plan /\ owner_address plan = owner /\ is_active plan = true /\
      inactivity_deadline_at plan <= now_secs w /\ distributed (db w) id plan (clock w) "processing" rows /\
      ledger w' = (payouts (db w) ++ rows,
        <[id := plan <| is_active := false |> <| status := "PAID_OUT"%string |>
          <| accrued_yield := numeric4 (projected_at plan (clock w)).2 |> <| last_ping := now_secs w |>]> (plans (db w)),
        beneficiaries (db w))
  | Fail _ w' => db w' = db w
  | Trap => True
  end.
Proof.
  intros Hs. destruct (trigger_payout owner w) as [rows w'|e w'|] eqn:Hr; [|by eapply trigger_payout_Fail|done].
  unfold trigger_payout in Hr. apply bind_Ok in Hr as ([[[[id plan] bs] total] rows'] & w1 & Ht & Hr).
  apply transaction_Ok in Ht as (_ & w2 & Hset & _ & ->).
  apply bind_Ok in Hr as ([] & w3 & Hi & Hr). apply (keeps_Ok _ _ _ _ _ (invalidate_ledger _ _)) in Hi.
  apply bind_Ok in Hr as ([] & w4 & He & [-> ->]%ret_Ok).
  pose proof (keeps_enqueue_event ledger "plan.settled" (PlanSettled id (owner_address plan) total (len rows'))
    ltac:(by intros []) ltac:(by intros []) ltac:(by intros [])) as Hk.
  apply (keeps_Ok _ _ _ _ _ (keeps_or_else ledger _ tt Hk)) in He.
  apply settle_plan_Ok in Hset as (Hp & Ho & Ha & Hdl & -> & Hd & Hl); [|done].
  exists id, plan. split_and!; [done..|]. rewrite He, Hi. transitivity (ledger w2); [done|]. rewrite Hl.
  rewrite alter_present, Hp. done.
Qed.

(** C16: A claim that succeeds found an active plan, TRIGGERED or CLAIMABLE, a code of the
    right shape and an approved identity of every beneficiary paid in fiat, and appends
    payouts in status pending with the plan left CLAIMABLE. The payouts record the same
    split as a payout of the plan: the decimal shares of amount plus projected yield, for
    a nonnegative total near the exact ones and adding up to the total within the rounding
    of half a unit below and the larger of half a unit and 0.0002 units per beneficiary
    above, and exactly those of integer arithmetic if the total times any basis points is
    exact in decimals. A claim that fails changes no table. *)
Theorem claim_plan_contract id payload w :
  sound (db w) ->
  match claim_plan id payload w with
  | Ok rows w' => exists plan,
      plans (db w) !! id = Some plan /\ (status plan = "TRIGGERED" \/ status plan = "CLAIMABLE")%string /\
      is_active plan = true /\ valid_code (trim (two_fa_code payload)) = true /\
      Forall (kyc_cleared (db w)) (beneficiaries_of id (db w)) /\ distributed (db w) id plan (clock w) "pending" rows /\
      ledger w' = (payouts (db w) ++ rows,
        <[id := plan <| status := "CLAIMABLE"%string |>
          <| accrued_yield := numeric4 (projected_at plan (clock w)).2 |>]> (plans (db w)),
        beneficiaries (db w))
  | Fail _ w' => db w' = db w
  | Trap => True
  end.
Proof.
  intros Hs. destruct (claim_plan id payload w) as [rows w'|e w'|] eqn:Hr; [|by eapply claim_plan_Fail|done].
  unfold claim_plan in Hr. apply bind_Ok in Hr as (plan & w1 & Hc & Hr).
  apply claimable_plan_Ok in Hc as (Hp & Hst & Ha & _ & Hv & Hd1 & Hc1).
  apply bind_Ok in Hr as (bs & w2 & (_ & -> & ->)%or_500_Ok%select_Ok & Hr).
  apply bind_Ok in Hr as ([] & w3 & [Hne ->]%reject_if_Ok & Hr). apply is_empty_false in Hne.
  apply bind_Ok in Hr as ([] & w4 & Hk & Hr). apply check_kycs_Ok in Hk as (Hd4 & Hc4 & Hky). cbn in Hd4, Hc4, Hky.
  apply bind_Ok in Hr as (rows' & w5 & Ht & Hr). apply bind_Ok in Hr as ([] & w6 & Hi & [-> ->]%ret_Ok).
  apply (keeps_Ok _ _ _ _ _ (invalidate_ledger _ _)) in Hi.
  apply transaction_Ok in Ht as (_ & w7 & Hrec & _ & ->). unfold record_claim in Hrec.
  apply bind_Ok in Hrec as (acc & w8 & Hacc & Hrec). unfold projected in Hacc.
  apply bind_Ok in Hacc as (now & w9 & [-> ->]%gets_Ok & [-> ->]%ret_Ok).
  apply bind_Ok in Hrec as (t & w10 & [Htot ->]%unwrap_Ok & Hrec). apply bind_Ok in Hrec as (rows2 & w11 & Hdis & Hrec).
  apply bind_Ok in Hrec as ([] & w12 & (d & -> & ->)%or_500_Ok%update_checked_Ok & [-> ->]%ret_Ok).
  rewrite Hd1 in *. change (clock (pop w4)) with (clock w4) in *. rewrite Hc4, Hc1 in *.
  destruct (distribute_distributed _ id plan (clock w) _ t rows2 w _ _ Hs (pending_pays id) Hne Htot Hdis) as (Hdist & Hpo & Hpl & Hbe).
  exists plan. split_and!; [done..|]. rewrite Hi. unfold ledger. cbn in *. rewrite Hpo, Hpl, Hbe, Hd4, alter_present, Hp. done.
Qed.

(** ** Pages *)

Definition slice {A} (size k : Z) (l : list A) : list A := take (Z.to_nat size) (drop (Z.to_nat ((k - 1) * size)) l).

Lemma slices_prefix {A} (size : Z) (n : nat) (l : list A) :
  0 <= size -> concat (map (fun k => slice size k l) (seqZ 1 (Z.of_nat n))) = take (n * Z.to_nat size) l.
Proof.
  intros Hs. induction n as [|n IH]; [done|].
  rewrite seqZ_S, map_app, concat_app, IH. cbn. rewrite app_nil_r. unfold slice.
  replace (Z.to_nat ((1 + Z.of_nat n - 1) * size)) with (n * Z.to_nat size)%nat by lia.
  rewrite take_take_drop. f_equal. lia.
Qed.
(** The pages of a list are the list. *)
Lemma slices_concat {A} (size : Z) (l : list A) :
  0 < size -> concat (map (fun k => slice size k l) (seqZ 1 (page_count (len l) size))) = l.
Proof.
  intros Hs. unfold page_count, len.
  assert (0 <= (Z.of_nat (length l) + size - 1) / size) as Hn by (apply Z.div_pos; lia).
  rewrite <-(Z2Nat.id _ Hn), slices_prefix by lia. apply take_ge.
  pose proof (Z.div_mod (Z.of_nat (length l) + size - 1) size ltac:(lia)).
  pose proof (Z.mod_pos_bound (Z.of_nat (length l) + size - 1) size Hs).
  rewrite <-(Z2Nat.id size) in * by lia. set (q := (Z.of_nat (length l) + Z.of_nat (Z.to_nat size) - 1) / Z.of_nat (Z.to_nat size)) in *.
  rewrite Nat2Z.id. nia.
Qed.

Lemma page_offset_small page size :
  1 <= page -> 1 <= size -> page * size <= 9223372036854775807 -> page_offset page size = (page - 1) * size.
Proof.
  intros. assert (as_i64 (page - 1) = page - 1) as Hp by (unfold as_i64; rewrite Z.mod_small; nia).
  unfold page_offset. rewrite Hp. unfold as_i64. rewrite Z.mod_small; nia.
Qed.
Lemma select_page_Ok {A} limit offset (f : database D -> list A) rows w w' :
  select_page limit offset f w = Ok rows w' -> rows = take (Z.to_nat limit) (drop (Z.to_nat offset) (f (db w))).
Proof. unfold select_page. intros (_ & d & Hd & _)%statement_Ok. cbn in Hd. destruct (offset <? 0); [done|]. by injection Hd as <-. Qed.

(** The pages of payouts, put together, are all payouts, and each page request returns its
    slice. *)
Theorem payout_pages address size w :
  1 <= size <= 100 ->
  let all := payouts_to address (db w) in
  concat (map (fun k => slice size k all) (seqZ 1 (page_count (len all) size))) = all /\
  (forall page pg w', 1 <= page -> page * size <= 9223372036854775807 ->
    get_anchor_payouts address (Some page) (Some size) w = Ok pg w' ->
    pg_data pg = slice size page all /\ pg_total pg = len all /\ pg_total_pages pg = page_count (len all) size).
Proof.
  intros Hs all. split; [apply slices_concat; lia|]. intros page pg w' Hp Hov Hr. unfold get_anchor_payouts in Hr.
  unfold clamp in Hr. simpl default in Hr. rewrite (Z.max_r 1 page), (Z.min_r 100 size), (Z.max_r 1 size) in Hr by lia.
  apply bind_Ok in Hr as (t & w1 & (_ & -> & ->)%or_500_Ok%select_Ok & Hr).
  apply bind_Ok in Hr as (rows & w2 & Hsel%or_500_Ok%select_page_Ok & [-> _]%ret_Ok).
  rewrite page_offset_small in Hsel by lia. cbn. split; [|done]. exact Hsel.
Qed.
End payouts.

(** * Runs *)

Section example.
Import BackendExample.
#[local] Instance plain_info : AnchorInfoFormat := { parse_local_anchor_info := fun _ => None }.

(** The plan of [PlanApi], whose grace period has passed. *)
Definition overdue : backend Z := with_will <| clock := 2000 * NANOS |>.
Definition triggered_db : database Z :=
  let d := db overdue in d <| plans := alter (fun p => p <| status := "TRIGGERED"%string |>) 1%positive (plans d) |>.
Definition claimable : backend Z :=
  overdue <| db := triggered_db <| users := {[ lit "GC" := "approved"%string ]} |> |>.
Definition claim_request : ClaimPlanRequest := mkClaim (lit "b@x.org") (lit "123456").

Lemma with_will_sound : sound (db with_will).
Proof.
  pose proof (create_plan_sound will empty_world) as Hc. unfold with_will, after.
  destruct (create_plan will empty_world) as [r w'|e w'|] eqn:Hr; [|exfalso; by vm_compute in Hr..].
  apply Hc. exact empty_sound.
Qed.

Lemma payout_contract_witness :
  exists rows w', trigger_payout (lit "GA") overdue = Ok rows w' /\ payouts (db w') = payouts (db overdue) ++ rows /\ len rows = 2.
Proof.
  destruct (trigger_payout (lit "GA") overdue) as [rows w'|e w'|] eqn:Hr; [|exfalso; vm_compute in Hr; discriminate Hr..].
  exists rows, w'. pose proof (payout_contract (lit "GA") overdue with_will_sound) as Hc. rewrite Hr in Hc.
  destruct Hc as (id & plan & _ & _ & _ & _ & _ & Hl). split; [reflexivity|]. split.
  - exact (f_equal (fun t => t.1.1) Hl).
  - vm_compute in Hr. injection Hr as <- _. reflexivity.
Defined.

Lemma claimable_sound : sound (db claimable).
Proof.
  apply (sound_same triggered_db); [reflexivity..|]. apply sound_plans; [| |exact with_will_sound].
  - intros id p Hp. apply lookup_alter_Some in Hp as [(_ & q & Hq & ->)|[_ Hp]].
    + exact (so_plans _ with_will_sound _ _ Hq).
    + exact (so_plans _ with_will_sound _ _ Hp).
  - intros id Hid. by apply lookup_alter_is_Some.
Qed.
Lemma claim_plan_contract_witness :
  exists rows w', claim_plan 1%positive claim_request claimable = Ok rows w' /\ distributed (db claimable) 1%positive
    (default (new_plan will 0 0) (plans (db claimable) !! 1%positive)) (clock claimable) "pending" rows.
Proof.
  destruct (claim_plan 1%positive claim_request claimable) as [rows w'|e w'|] eqn:Hr; [|exfalso; vm_compute in Hr; discriminate Hr..].
  exists rows, w'. pose proof (claim_plan_contract 1%positive claim_request claimable claimable_sound) as Hc. rewrite Hr in Hc.
  destruct Hc as (plan & Hp & _ & _ & _ & _ & Hd & _). split; [reflexivity|]. rewrite Hp. exact Hd.
Defined.

Lemma payout_pages_witness :
  let all := payouts_to None (db (after (trigger_payout (lit "GA")) overdue)) in
  concat (map (fun k => slice 1 k all) (seqZ 1 (page_count (len all) 1))) = all /\ len all = 2.
Proof.
  split; [|vm_compute; reflexivity].
  exact (proj1 (payout_pages None 1 (after (trigger_payout (lit "GA")) overdue) ltac:(done))).
Defined.

(** A claim leaves the plan claimable, so the same claim creates its payouts
    again: twice the plan's amount is owed. *)
Lemma claim_pays_twice :
  let w' := after (claim_plan 1%positive claim_request) (after (claim_plan 1%positive claim_request) claimable) in
  map p_amount (payouts (db w')) = map (fun n => n * DECIMAL_ONE) [60; 40; 60; 40].
Proof. vm_compute. reflexivity. Qed.

(** The anchor is asked to pay within the transaction: when a later
    beneficiary's daily limit refuses the payout, nothing is recorded of the
    fiat payment already sent, and the next attempt sends it again. *)
Definition limited : backend Z :=
  let d := db overdue in
  overdue <| db := d <| beneficiaries :=
    [ mkBeneficiary 5%positive 1%positive (lit "GC") 4000 (lit "Bank;1;NGN") 0;
      mkBeneficiary 6%positive 1%positive (lit "GB") 6000 (lit "Bank;2;NGN") DECIMAL_ONE ] |> |>.
Lemma refused_payout_was_sent :
  let w1 := after (trigger_payout (lit "GA")) limited in
  let w2 := after (trigger_payout (lit "GA")) w1 in
  payouts (db w2) = [] /\ map (fun r => match r with AnchorSend a => a_beneficiary_address a | _ => [] end) (requests w2)
    = [lit "GC"; lit "GC"].
Proof. vm_compute. by split. Qed.

(** A payment the anchor refuses is still recorded as processing, and the plan
    as paid out. *)
Lemma refused_payment_is_recorded :
  let w' := after (trigger_payout (lit "GA")) (overdue <| network := [mkReply 0 HttpStatus] |>) in
  map p_status (payouts (db w')) = ["processing"; "processing"]%string /\
  (status <$> plans (db w') !! 1%positive) = Some "PAID_OUT"%string.
Proof. vm_compute. by split. Qed.

(** A wallet whose eighth byte is inside a character makes the payout panic. *)
Lemma multibyte_wallet_panics :
  parse_fiat_anchor_info (lit "Bank") (lit "1234567" ++ [233]) = None.
Proof. vm_compute. reflexivity. Qed.
End example.
End PlanPayouts.
