(* ===== verification/KycWebhook.v ===== *)
(** Identity verification: the provider's webhook
    (src/backend/src/kyc_webhook.rs) and the users' endpoints
    (src/backend/src/api.rs). *)
From S2P Require Import Prelude Host Text StellarXdr BackendTypes StellarSubmit BackendExample.
Import Text BackendTypes.

Module KycWebhook.

(** * The signature *)

Definition SIGNATURE_LEN : Z := 32.

Inductive SignatureError := SecretNotConfigured | MissingSignature | MalformedSignature | Mismatch.

(** The response; its message does not tell a malformed signature from a wrong one. *)
Definition response (e : SignatureError) : http_error :=
  match e with
  | SecretNotConfigured => SERVICE_UNAVAILABLE "Webhook verification is not configured"
  | _ => UNAUTHORIZED "Invalid webhook signature"
  end.

(** [.map(str::trim).filter(|s| !s.is_empty())]. *)
Definition nonblank (s : option text) : option text :=
  s ← s; if blank s then None else Some (trim s).

(** The prefix is ASCII, so comparing characters is comparing bytes. *)
Definition strip_sha256_prefix (signature : text) : text :=
  let prefix := lit "sha256=" in
  if eq_ignore_ascii_case (take (length prefix) signature) prefix then drop (length prefix) signature else signature.

Definition verify_webhook_signature `{Hmac} `{Hex} (secret : option text) (body : list Z) (signature : option text)
  : result SignatureError unit :=
  let? secret := rok_or (nonblank secret) SecretNotConfigured in
  let? signature := rok_or (nonblank signature) MissingSignature in
  let? expected := rok_or (hex_decode (strip_sha256_prefix signature)) MalformedSignature in
  do? rreject_if (negb (Z.of_nat (length expected) =? SIGNATURE_LEN)) MalformedSignature;
  let? digest := rok_or (hmac_sha256 (as_bytes secret) body) Mismatch in
  rreject_if (negb (bool_decide (digest = expected))) Mismatch.

(** * Requests *)

Inductive KycStatusPayload := KPending | KSubmitted | KApproved | KRejected.
Definition as_db_str (s : KycStatusPayload) : string :=
  match s with KPending => "pending" | KSubmitted => "submitted" | KApproved => "approved" | KRejected => "rejected" end.

Record KycWebhookPayload := mkKycPayload {
  wallet_address : text; kyc_status : KycStatusPayload; provider_reference : option text; event_type : text
}.
(** [serde_json::from_slice]. *)
Class KycFormat := { parse_kyc_payload : list Z -> option KycWebhookPayload }.

Record KYCSubmitRequest := mkKycSubmit {
  ks_wallet_address : text; ks_full_name : text; ks_email : text; ks_date_of_birth : text; ks_nationality : text;
  ks_id_type : text; ks_id_number : text; ks_expiry_date : text; ks_street_address : text; ks_city : text;
  ks_country : text; ks_postal_code : text; ks_document_id : option text
}.
Record KYCStatusResponse := mkKycStatus {
  kr_wallet_address : text; kr_kyc_status : string; kr_submitted_at : option Z; kr_approved_at : option Z;
  kr_rejected_at : option Z; kr_rejection_reason : option string; kr_provider_reference : option text
}.

Section kyc.
Context {D : Type}.
Abbreviation W := (backend D).
Abbreviation X A := (M W http_error A).
Implicit Types (w : W) (d : database D).

(** * The webhook *)

(** [INSERT INTO users .. ON CONFLICT DO UPDATE SET kyc_status]. *)
Definition set_kyc_status (wallet : text) (status : string) : M W sqlx_error unit :=
  execute (fun d => d <| users := <[wallet := status]> (users d) |>).
Definition log_webhook (payload : KycWebhookPayload) (success : bool) : M W sqlx_error unit :=
  execute (fun d => d <| kyc_webhook_logs := kyc_webhook_logs d ++
    [mkKycLog (wallet_address payload) (provider_reference payload) (event_type payload)
       (as_db_str (kyc_status payload)) success] |>).

Definition kyc_webhook_handler `{Hmac} `{Hex} `{KycFormat} (secret signature : option text) (body : list Z) : X unit :=
  do! of_result (match verify_webhook_signature secret body signature with
                 | ROk u => ROk u
                 | RErr e => RErr (response e)
                 end);
  let! payload := ok_or (parse_kyc_payload body) (BAD_REQUEST "Invalid payload") in
  let status := as_db_str (kyc_status payload) in
  let! update_result := outcome_of (set_kyc_status (wallet_address payload) status) in
  let success := match update_result with ROk _ => true | RErr _ => false end in
  do! when success (publish (KycUpdate (wallet_address payload) status (event_type payload)));
  do! or_else (log_webhook payload success) tt;
  reject_if (negb success) (INTERNAL_SERVER_ERROR "Failed to update KYC status").

(** * The users' endpoints *)

Definition get_kyc_status (wallet : text) : X KYCStatusResponse :=
  let! user_row := or_500 (select (fun d => users d !! wallet)) "Database query failed" in
  let! submitted_at := or_else (select (fun d => k_created_at <$> kyc_records d !! wallet)) None in
  ret (mkKycStatus wallet (default "pending"%string user_row) submitted_at None None None None).

(** Keeps the first submission's date. *)
Definition kyc_record (payload : KYCSubmitRequest) (created : Z) : KycRecord :=
  mkKycRecord (ks_full_name payload) (ks_date_of_birth payload) (ks_street_address payload) (ks_city payload)
    (ks_country payload) (ks_postal_code payload) (ks_document_id payload) created.
Definition save_kyc_record (payload : KYCSubmitRequest) : M W sqlx_error unit :=
  statement (fun w =>
    let key := ks_wallet_address payload in
    let created := match kyc_records (db w) !! key with Some r => k_created_at r | None => clock w end in
    ROk (tt, (db w) <| kyc_records := <[key := kyc_record payload created]> (kyc_records (db w)) |>)).

Definition submit_kyc (payload : KYCSubmitRequest) : X KYCStatusResponse :=
  do! transaction (INTERNAL_SERVER_ERROR "Failed to begin transaction") (INTERNAL_SERVER_ERROR "Failed to commit transaction")
    (do! or_500 (save_kyc_record payload) "Failed to save KYC data";
     or_500 (set_kyc_status (ks_wallet_address payload) "submitted") "Failed to update KYC status");
  let! now := gets clock in
  ret (mkKycStatus (ks_wallet_address payload) "submitted" (Some now) None None None None).

(** * Properties *)

(** The signature is the digest of the body under the configured secret. *)
Definition authentic `{Hmac} `{Hex} (secret : option text) (body : list Z) (signature : option text) : Prop :=
  exists key sig digest, nonblank secret = Some key /\ nonblank signature = Some sig /\
    hex_decode (strip_sha256_prefix sig) = Some digest /\ hmac_sha256 (as_bytes key) body = Some digest /\
    Z.of_nat (length digest) = SIGNATURE_LEN.

Lemma verify_authentic `{Hmac} `{Hex} secret body signature :
  verify_webhook_signature secret body signature = ROk tt <-> authentic secret body signature.
Proof.
  unfold verify_webhook_signature, authentic, rok_or, rbind, rreject_if.
  destruct (nonblank secret) as [key|]; [|naive_solver]. destruct (nonblank signature) as [sig|]; [|naive_solver].
  destruct (hex_decode _) as [expected|] eqn:Hh; [|naive_solver].
  destruct (Z.eqb_spec (Z.of_nat (length expected)) SIGNATURE_LEN); cbn; [|naive_solver].
  destruct (hmac_sha256 _ body) as [digest|] eqn:Hm; [|naive_solver].
  case_bool_decide; cbn; naive_solver.
Qed.

Lemma set_kyc_status_run wallet st w :
  match set_kyc_status wallet st w with
  | Ok _ w' => users (db w') = <[wallet := st]> (users (db w)) /\ broadcasts w' = broadcasts w
  | Fail _ w' => users (db w') = users (db w) /\ broadcasts w' = broadcasts w
  | Trap => False
  end.
Proof.
  unfold set_kyc_status, execute. rewrite statement_run. by destruct (fails_next w).
Qed.
(** A lost log entry is ignored. *)
Lemma log_webhook_run payload success w :
  exists w', (or_else (log_webhook payload success) tt : X unit) w = Ok tt w' /\
    users (db w') = users (db w) /\ broadcasts w' = broadcasts w.
Proof.
  unfold log_webhook, execute, or_else. rewrite statement_run. destruct (fails_next w); eauto.
Qed.

(** C26: The identity provider's webhook changes a status only when the body carries the
    digest under the configured secret: a request accepted is authentic and sets and
    broadcasts exactly the status it names, and any other changes no status and broadcasts
    nothing, one that is not authentic having no effect at all. *)
Theorem kyc_webhook_contract `{Hmac} `{Hex} `{KycFormat} secret signature body w :
  match kyc_webhook_handler secret signature body w with
  | Ok _ w' => authentic secret body signature /\ exists payload, parse_kyc_payload body = Some payload /\
      users (db w') = <[wallet_address payload := as_db_str (kyc_status payload)]> (users (db w)) /\
      broadcasts w' = broadcasts w ++ [KycUpdate (wallet_address payload) (as_db_str (kyc_status payload)) (event_type payload)]
  | Fail _ w' => users (db w') = users (db w) /\ broadcasts w' = broadcasts w /\
      (~ authentic secret body signature -> w' = w)
  | Trap => False
  end.
Proof.
  unfold kyc_webhook_handler. destruct (verify_webhook_signature secret body signature) as [[]|e] eqn:Hv.
  - apply verify_authentic in Hv. rewrite (bind_step _ _ w tt w) by done. unfold bind at 1, ok_or.
    destruct (parse_kyc_payload body) as [payload|] eqn:Hp; [|done]. unfold ret.
    unfold bind at 1, outcome_of. pose proof (set_kyc_status_run (wallet_address payload) (as_db_str (kyc_status payload)) w) as Hs.
    destruct (set_kyc_status _ _ w) as [[] w1|e w1|]; [| |done]; destruct Hs as [Hu Hb]; cbn.
    + match goal with |- context [bind _ _ ?x] => set (w2 := x) end.
      destruct (log_webhook_run payload true w2) as (w3 & Hl & Hu3 & Hb3).
      rewrite (bind_step _ _ _ _ _ Hl). cbn. split; [done|]. exists payload. split; [done|].
      rewrite Hu3, Hb3. unfold w2. destruct w1; cbn in *. by rewrite Hu, Hb.
    + destruct (log_webhook_run payload false w1) as (w3 & Hl & Hu3 & Hb3).
      rewrite (bind_step _ _ _ _ _ Hl). cbn. rewrite Hu3, Hb3. split_and!; [done..|]. by intros [].
  - cbn. split_and!; [done..|]. done.
Qed.

(** Whoever submits a wallet's data puts its owner back to [submitted]. *)
Lemma submit_resets_approval payload r w w' :
  submit_kyc payload w = Ok r w' ->
  users (db w') = <[ks_wallet_address payload := "submitted"%string]> (users (db w)) /\
  kr_kyc_status r = "submitted"%string /\ plans (db w') = plans (db w).
Proof.
  unfold submit_kyc. intros Hr. apply bind_Ok in Hr as (u & w1 & Ht & Hr).
  apply transaction_Ok in Ht as (_ & w2 & Hb & _ & ->). apply bind_Ok in Hb as (u1 & w3 & Hs & Hu).
  apply or_500_Ok in Hs. apply or_500_Ok in Hu. apply statement_Ok in Hs as (_ & d & [= _ <-] & ->).
  unfold set_kyc_status in Hu. apply execute_Ok in Hu as (_ & ->).
  unfold bind, gets, ret in Hr. injection Hr as <- <-. done.
Qed.

Lemma get_kyc_status_Ok wallet r w w' :
  get_kyc_status wallet w = Ok r w' ->
  kr_kyc_status r = default "pending"%string (users (db w) !! wallet) /\ db w' = db w.
Proof.
  unfold get_kyc_status. intros Hr. apply bind_Ok in Hr as (st & w1 & Hs & Hr).
  apply or_500_Ok, select_Ok in Hs as (_ & -> & ->). apply bind_Ok in Hr as (at_ & w2 & Ha & Hr).
  apply ret_Ok in Hr as [-> ->]. split; [done|].
  unfold or_else, select in Ha. rewrite statement_run in Ha. destruct (fails_next (pop w)); by injection Ha as _ <-.
Qed.
End kyc.
End KycWebhook.
