(* ===== verification/Webhooks.v ===== *)
(** Delivery of the webhooks the other parts enqueue
    (src/backend/src/webhooks.rs). *)
From stdpp Require Import sorting.
From S2P Require Import Prelude Host Text StellarXdr BackendTypes StellarSubmit BackendExample.
Import Text BackendTypes.

(** HMAC accepts any key. *)
Class HmacLaws `{Hmac} : Prop := { hmac_total : forall key body, is_Some (hmac_sha256 key body) }.

(** [serde_json::to_vec] of an event's payload. *)
Class WebhookFormat (D : Type) := { to_vec : payload D -> list Z }.

Module Webhooks.

Definition BATCH : Z := 25.
Definition DEFAULT_MAX_ATTEMPTS : Z := 5.

(** [2u64.pow(n as u32)], wrapping. *)
Definition pow2_u64 (n : Z) : Z := let n := as_u32 n in if n <? 64 then 2 ^ n else 0.

Section webhooks.
Context {D : Type} `{Postgres} `{Hmac} `{Hex} `{WebhookFormat D}.
Abbreviation W := (backend D).
Implicit Types (w : W) (d : database D) (x : Dispatch D).

(** * The batch *)

(** The identifier, the dispatch and its endpoint. *)
Definition row : Type := uuid * Dispatch D * Endpoint.

Definition created_le (r1 r2 : row) : Prop := d_created_at r1.1.2 <= d_created_at r2.1.2.
#[local] Instance created_le_dec r1 r2 : Decision (created_le r1 r2) := ltac:(unfold created_le; apply _).

Definition due (now : Z) x : bool :=
  bool_decide (d_status x = "pending"%string) &&
  match next_attempt_at x with None => true | Some t => t <=? now end.

Definition joined (d : database D) (ix : uuid * Dispatch D) : option row :=
  (fun e => (ix, e)) <$> webhook_endpoints d !! endpoint_id ix.2.

Definition due_rows (now : Z) d : list row :=
  merge_sort created_le (row_order
    (omap (joined d) (filter (fun ix => due now ix.2 = true) (map_to_list (webhook_dispatches d))))).

Definition fetch_batch : M W sqlx_error (list row) :=
  statement (fun w => ROk (take (Z.to_nat BATCH) (due_rows (clock w) (db w)), db w)).

(** * One dispatch *)

Definition update_dispatch (id : uuid) (f : Dispatch D -> Dispatch D) (d : database D) : database D :=
  d <| webhook_dispatches := alter f id (webhook_dispatches d) |>.

Definition handle_failure (id : uuid) (attempts_ : Z) (error : option string) : M W sqlx_error unit :=
  let next_attempts := as_i32 (attempts_ + 1) in
  let! max_attempts_row := select (fun d => webhook_dispatches d !! id) in
  let max_attempts_ := match max_attempts_row with
                       | Some x => default DEFAULT_MAX_ATTEMPTS (max_attempts x)
                       | None => DEFAULT_MAX_ATTEMPTS
                       end in
  if max_attempts_ <=? next_attempts then
    execute (update_dispatch id (fun x => x <| attempts := next_attempts |> <| d_status := "failed"%string |>
                                            <| last_error := error |>))
  else
    let backoff_secs := as_i64 (pow2_u64 next_attempts) in
    statement (fun w =>
      if timestamp_range (now_secs w + backoff_secs) then
        ROk (tt, update_dispatch id (fun x => x <| attempts := next_attempts |> <| last_error := error |>
               <| next_attempt_at := Some (clock w + backoff_secs * NANOS) |>) (db w))
      else RErr SqlFault).

(** The request for a row: the payload, signed with the endpoint's secret. *)
Definition posting (r : row) : option request :=
  let body := to_vec (d_payload r.1.2) in
  let key := default [] (secret r.2) in
  digest ← hmac_sha256 (as_bytes key) body;
  Some (PostWebhook (url r.2) (event_type r.1.2) (lit "sha256=" ++ hex_encode digest) body).

(** The error's text is cut down to its kind. *)
Definition deliver (r : row) : M W sqlx_error unit :=
  let id := r.1.1 in
  let! post := unwrap (posting r) in
  let! res := http post in
  match res with
  | WebhookReply true => execute (update_dispatch id (fun x => x <| d_status := "success"%string |>))
  | WebhookReply false => handle_failure id (attempts r.1.2) (Some "status"%string)
  | _ => handle_failure id (attempts r.1.2) (Some "request error"%string)
  end.

Definition run_once : M W sqlx_error unit :=
  let! rows := fetch_batch in
  foldM (fun _ r => deliver r) rows tt.

(** * Properties *)

Context `{!PostgresLaws} `{!HmacLaws}.

Definition error_of (a : answer) : string :=
  match a with WebhookReply _ => "status" | _ => "request error" end.
(** What an attempt that was answered with [a], at a time between [t0] and [t1],
    leaves of a dispatch: only an endpoint's acceptance is a success. *)
Definition attempted (a : answer) (t0 t1 : Z) x x' : Prop :=
  match a with
  | WebhookReply true => x' = x <| d_status := "success"%string |>
  | _ =>
    let n := as_i32 (attempts x + 1) in
    let limit := default DEFAULT_MAX_ATTEMPTS (max_attempts x) in
    (limit <= n /\ x' = x <| attempts := n |> <| d_status := "failed"%string |> <| last_error := Some (error_of a) |>) \/
    (exists t, n < limit /\ t0 <= t <= t1 /\ x' = x <| attempts := n |> <| last_error := Some (error_of a) |>
       <| next_attempt_at := Some (t + as_i64 (pow2_u64 n) * NANOS) |>)
  end.
Lemma attempted_wider a t0 t1 t2 t3 x x' : t2 <= t0 -> t1 <= t3 -> attempted a t0 t1 x x' -> attempted a t2 t3 x x'.
Proof.
  unfold attempted. intros ? ?. repeat case_match; try done;
    (intros [?|(t & ? & ? & ?)]; [by left|right; exists t; split_and!; [done|lia..|done]]).
Qed.
(** How the coming posts are answered. *)
Definition nth_reply (i : nat) w : answer := match network w !! i with Some r => reply r | None => Unreachable end.
Lemma nth_reply_tail i w w' : network w' = tail (network w) -> nth_reply i w' = nth_reply (S i) w.
Proof. unfold nth_reply. intros ->. by destruct (network w). Qed.

Definition replies_forward w : Prop := Forall (fun r => 0 <= took r) (network w).

(** The other tables. *)
Definition other_tables w : database D := (db w) <| webhook_dispatches := ∅ |>.

Lemma http_run {E} (r : request) w : replies_forward w ->
  exists w', (http r : M W E answer) w = Ok (nth_reply 0 w) w' /\ db w' = db w /\ requests w' = requests w ++ [r] /\
    clock w <= clock w' /\ network w' = tail (network w) /\ replies_forward w'.
Proof.
  intros Hf. unfold http, nth_reply. destruct w as [? ? network ? ? ? ? ?]. unfold replies_forward in *. cbn in *.
  destruct network as [|a rest]; cbn; [eexists; split_and!; [done..|cbn; lia|done|done]|].
  inversion Hf; subst. eexists. split_and!; [done..|cbn; lia|done|done].
Qed.

(** A statement on a dispatch leaves everything else. *)
Definition recorded w w' id x x' : Prop :=
  webhook_dispatches (db w) !! id = Some x /\ webhook_dispatches (db w') = <[id := x']> (webhook_dispatches (db w)) /\
  other_tables w' = other_tables w /\ requests w' = requests w /\ clock w' = clock w /\ network w' = network w.
Definition untouched w w' : Prop :=
  db w' = db w /\ requests w' = requests w /\ clock w' = clock w /\ network w' = network w.

Lemma update_dispatch_recorded id f w w' x :
  webhook_dispatches (db w) !! id = Some x -> untouched w w' ->
  recorded w (w' <| db := update_dispatch id f (db w) |>) id x (f x).
Proof.
  intros Hx (Hd & Hr & Hc & Hn). split_and!; [done| |done..]. cbn. by rewrite alter_present, Hx.
Qed.

Lemma recorded_after w w1 w2 id x x' :
  untouched w w1 -> recorded w1 w2 id x x' -> recorded w w2 id x x'.
Proof.
  intros (Hd & Hr & Hc & Hn) (Hx & Hu & Ho & Hr2 & Hc2 & Hn2). unfold recorded, other_tables in *.
  rewrite Hd, Hr, Hc, Hn in *. done.
Qed.

Lemma select_run {A} (f : database D -> A) w :
  select f w = if fails_next w then Fail SqlFault (pop w) else Ok (f (db w)) (pop w).
Proof. unfold select. rewrite statement_run. by destruct w. Qed.

Lemma attempted_failed a t0 t1 x :
  a <> WebhookReply true -> default DEFAULT_MAX_ATTEMPTS (max_attempts x) <= as_i32 (attempts x + 1) ->
  attempted a t0 t1 x (x <| attempts := as_i32 (attempts x + 1) |> <| d_status := "failed"%string |>
    <| last_error := Some (error_of a) |>).
Proof. intros Ha Hn. destruct a as [| | | | | | | | | |[]]; try done; by left. Qed.
Lemma attempted_retry a t x :
  a <> WebhookReply true -> as_i32 (attempts x + 1) < default DEFAULT_MAX_ATTEMPTS (max_attempts x) ->
  attempted a t t x (x <| attempts := as_i32 (attempts x + 1) |> <| last_error := Some (error_of a) |>
    <| next_attempt_at := Some (t + as_i64 (pow2_u64 (as_i32 (attempts x + 1))) * NANOS) |>).
Proof.
  intros Ha Hn. destruct a as [| | | | | | | | | |[]]; try done; (right; exists t; split_and!; [done|lia..|done]).
Qed.
Lemma handle_failure_run a id x w :
  webhook_dispatches (db w) !! id = Some x -> a <> WebhookReply true ->
  match handle_failure id (attempts x) (Some (error_of a)) w with
  | Ok _ w' => exists x', attempted a (clock w) (clock w) x x' /\ recorded w w' id x x'
  | Fail _ w' => untouched w w'
  | Trap => False
  end.
Proof.
  intros Hx Ha. unfold handle_failure. destruct (fails_next w) eqn:Hn.
  { unfold bind. by rewrite select_run, Hn. }
  rewrite (bind_step _ _ w (Some x) (pop w)) by (by rewrite select_run, Hn, Hx).
  set (w1 := pop w). set (n := as_i32 (attempts x + 1)).
  assert (untouched w w1) as Hw by done.
  assert (webhook_dispatches (db w1) !! id = Some x) as Hx1 by done.
  destruct (Z.leb_spec (default DEFAULT_MAX_ATTEMPTS (max_attempts x)) n).
  - unfold execute. rewrite statement_run. destruct (fails_next w1); [done|]. eexists. split; [by apply attempted_failed|].
    apply (recorded_after _ (pop w1)); [done|]. exact (update_dispatch_recorded _ _ _ (pop w1) _ Hx1 ltac:(done)).
  - rewrite statement_run. destruct (fails_next w1); [done|]. destruct (timestamp_range _); [|done].
    eexists.
    split; [by apply attempted_retry|].
    apply (recorded_after _ (pop w1)); [done|]. exact (update_dispatch_recorded _ _ _ (pop w1) _ Hx1 ltac:(done)).
Qed.

(** One delivery: the request is sent, and its outcome recorded unless a
    statement fails. *)
Definition sent_one w w' (r : row) : Prop :=
  exists q, posting r = Some q /\ requests w' = requests w ++ [q] /\ clock w <= clock w' /\
    network w' = tail (network w) /\ replies_forward w'.

Lemma deliver_run r w :
  replies_forward w -> webhook_dispatches (db w) !! r.1.1 = Some r.1.2 ->
  match deliver r w with
  | Ok _ w' => sent_one w w' r /\ other_tables w' = other_tables w /\ exists x',
      attempted (nth_reply 0 w) (clock w) (clock w') r.1.2 x' /\ webhook_dispatches (db w') = <[r.1.1 := x']> (webhook_dispatches (db w))
  | Fail _ w' => sent_one w w' r /\ db w' = db w
  | Trap => False
  end.
Proof.
  intros Hf Hx. assert (exists q, posting r = Some q) as [q Hp].
  { unfold posting. destruct (hmac_total (as_bytes (default [] (secret r.2))) (to_vec (d_payload r.1.2))) as [digest ->]. by eexists. }
  unfold deliver. rewrite (bind_step _ _ w q w) by (by rewrite Hp).
  destruct (http_run (E := sqlx_error) q w Hf) as (w1 & Hh & Hd & Hq & Hc & Hnet & Hf1).
  rewrite (bind_step _ _ _ _ _ Hh). rewrite <-Hd in Hx.
  assert (nth_reply 0 w <> WebhookReply true -> match handle_failure r.1.1 (attempts r.1.2) (Some (error_of (nth_reply 0 w))) w1 with
    | Ok _ w' => sent_one w w' r /\ other_tables w' = other_tables w /\ exists x',
        attempted (nth_reply 0 w) (clock w) (clock w') r.1.2 x' /\ webhook_dispatches (db w') = <[r.1.1 := x']> (webhook_dispatches (db w))
    | Fail _ w' => sent_one w w' r /\ db w' = db w
    | Trap => False
    end) as Hfail.
  { intros Hn. pose proof (handle_failure_run (nth_reply 0 w) r.1.1 r.1.2 w1 Hx Hn) as Hr.
    destruct (handle_failure r.1.1 (attempts r.1.2) _ w1) as [[] w2|e2 w2|]; [| |done].
    - destruct Hr as (x' & Ha & _ & Hu & Ho & Hr2 & Hc2 & Hn2). unfold other_tables in *. rewrite Hd in Hu, Ho.
      split_and!; [|done|exists x'; split; [|done]].
      + exists q. unfold replies_forward. rewrite Hr2, Hq, Hc2, Hn2. by split_and!.
      + eapply attempted_wider; [| |exact Ha]; lia.
    - destruct Hr as (Hd2 & Hr2 & Hc2 & Hn2). split; [|congruence].
      exists q. unfold replies_forward. rewrite Hr2, Hq, Hc2, Hn2. by split_and!. }
  destruct (nth_reply 0 w) as [| | | | | | | | | |[]] eqn:Ha; try (by apply Hfail).
  unfold execute. rewrite statement_run. destruct (fails_next w1); [split; [|done]; by exists q|].
  assert (recorded w1 ((pop w1) <| db := update_dispatch r.1.1 (fun x => x <| d_status := "success"%string |>) (db w1) |>)
    r.1.1 r.1.2 (r.1.2 <| d_status := "success"%string |>)) as (_ & Hu & Ho & _)
    by exact (update_dispatch_recorded _ _ _ (pop w1) _ Hx ltac:(done)).
  split_and!; [by exists q|etrans; [exact Ho|unfold other_tables; by rewrite Hd]|].
  eexists. split; [reflexivity|]. etrans; [exact Hu|]. by rewrite Hd.
Qed.

Definition id_of (r : row) : uuid := r.1.1.

(** The rows [sent] have been posted, in order; of these [recorded_], from the
    first on, have the outcome of their reply recorded, and nothing else of the
    tables has changed. *)
Record delivered w w' (sent recorded_ : list row) : Prop := {
  de_posts : exists qs, Forall2 (fun r q => posting r = Some q) sent qs /\ requests w' = requests w ++ qs;
  de_done : forall i r, recorded_ !! i = Some r -> exists x',
    webhook_dispatches (db w') !! id_of r = Some x' /\ attempted (nth_reply i w) (clock w) (clock w') r.1.2 x';
  de_rest : forall id, id ∉ map id_of recorded_ -> webhook_dispatches (db w') !! id = webhook_dispatches (db w) !! id;
  de_others : other_tables w' = other_tables w;
  de_clock : clock w <= clock w'
}.

Lemma deliver_all l w :
  replies_forward w -> NoDup (map id_of l) ->
  (forall r, r ∈ l -> webhook_dispatches (db w) !! id_of r = Some r.1.2) ->
  match foldM (fun _ r => deliver r) l tt w with
  | Ok _ w' => delivered w w' l l
  | Fail _ w' => exists k r rest, l = k ++ r :: rest /\ delivered w w' (k ++ [r]) k
  | Trap => False
  end.
Proof.
  revert w. induction l as [|r l IH]; intros w Hf Hnd Hl.
  { cbn. split; [exists []; by rewrite app_nil_r|done|done|done|lia]. }
  cbn. inversion Hnd as [|? ? Hr Hnd']; subst.
  pose proof (deliver_run r w Hf (Hl r ltac:(set_solver))) as Hd. unfold bind at 1.
  destruct (deliver r w) as [[] w1|e w1|]; [| |done].
  - destruct Hd as ((q & Hp & Hq & Hc & Hnet & Hf1) & Ho & x' & Ha & Hu).
    assert (forall r', r' ∈ l -> id_of r' <> r.1.1) as Hne.
    { intros r' Hr' Hid. apply Hr. apply list_elem_of_fmap. by exists r'. }
    assert (webhook_dispatches (db w1) !! r.1.1 = Some x') as Hx' by (rewrite Hu; apply lookup_insert_eq).
    specialize (IH w1 Hf1 Hnd' ltac:(intros r' Hr'; rewrite Hu, lookup_insert_ne by (apply not_eq_sym; by apply Hne);
      apply Hl; set_solver)).
    assert (forall w2 sent k, k ⊆ l -> delivered w1 w2 sent k -> delivered w w2 (r :: sent) (r :: k)) as Hcons.
    { intros w2 sent k Hk [(qs & Hqs & Hrq) Hdone Hrest Hoth Hck]. split; [| | |congruence|lia].
      - exists (q :: qs). split; [by constructor|]. by rewrite Hrq, Hq, <-app_assoc.
      - intros [|i] r' Hr'; cbn in Hr'.
        + injection Hr' as <-. exists x'. unfold id_of at 1. rewrite Hrest; [split; [done|]; eapply attempted_wider; [| |exact Ha]; lia|].
          intros (r' & Hid & Hr')%list_elem_of_fmap. by apply (Hne r'); [apply Hk|].
        + destruct (Hdone i r' Hr') as (x2 & Hx2 & Ha2). exists x2. split; [done|]. rewrite <-(nth_reply_tail i w w1 Hnet).
          eapply attempted_wider; [| |exact Ha2]; lia.
      - intros id Hid. cbn in Hid. rewrite Hrest by set_solver. rewrite Hu, lookup_insert_ne; [done|].
        unfold id_of in Hid. set_solver. }
    destruct (foldM _ l tt w1) as [[] w2|e w2|]; [| |done].
    + by apply Hcons.
    + destruct IH as (k & r' & rest & -> & Hdel). exists (r :: k), r', rest. split; [done|].
      cbn. apply Hcons; [set_solver|done].
  - destruct Hd as ((q & Hp & Hq & Hc & Hnet & Hf1) & Hd). exists [], r, l. split; [done|].
    split; [exists [q]; by repeat constructor|done|by rewrite Hd|by unfold other_tables; rewrite Hd|done].
Qed.

(** ** The batch *)

Lemma due_rows_spec now d r :
  r ∈ due_rows now d <->
  webhook_dispatches d !! id_of r = Some r.1.2 /\ due now r.1.2 = true /\ webhook_endpoints d !! endpoint_id r.1.2 = Some r.2.
Proof.
  unfold due_rows. rewrite merge_sort_Permutation, rows_all, list_elem_of_omap. split.
  - intros ([id x] & [Hdue Hin]%list_elem_of_filter & Hj). apply elem_of_map_to_list in Hin.
    unfold joined in Hj. cbn in *. by apply fmap_Some in Hj as (e & He & ->).
  - destruct r as [[id x] e]. cbn. intros (Hx & Hdue & He). exists (id, x). split.
    + apply list_elem_of_filter. by rewrite elem_of_map_to_list.
    + unfold joined. cbn. by rewrite He.
Qed.
Lemma joined_ids d l : NoDup l.*1 -> NoDup (map id_of (omap (joined d) l)).
Proof.
  induction l as [|[id x] l IH]; cbn; [constructor|]. intros [Hid Hnd]%NoDup_cons. specialize (IH Hnd).
  unfold joined at 1. cbn. destruct (webhook_endpoints d !! _); cbn; [|done]. apply NoDup_cons. split; [|done].
  intros (r & -> & (ix & Hin & Hj)%list_elem_of_omap)%list_elem_of_fmap. apply Hid.
  unfold joined in Hj. apply fmap_Some in Hj as (e' & _ & ->). apply list_elem_of_fmap. by exists ix.
Qed.
Lemma due_rows_ids now d : NoDup (map id_of (due_rows now d)).
Proof.
  unfold due_rows. rewrite merge_sort_Permutation, rows_all. apply joined_ids.
  eapply sublist_NoDup; [apply (NoDup_fst_map_to_list (webhook_dispatches d))|].
  apply fmap_sublist, sublist_filter.
Qed.
#[local] Instance created_le_total : Total created_le := ltac:(intros ? ?; unfold created_le; lia).
#[local] Instance created_le_trans : Transitive created_le := ltac:(intros ? ? ?; unfold created_le; lia).
(** The oldest dispatches are taken first. *)
Lemma due_rows_oldest n now d r1 r2 :
  r1 ∈ take n (due_rows now d) -> r2 ∈ due_rows now d -> r2 ∈ take n (due_rows now d) \/ created_le r1 r2.
Proof.
  intros Hr1 Hr2. rewrite <-(take_drop n (due_rows now d)) in Hr2. apply elem_of_app in Hr2 as [?|Hr2]; [by left|right].
  pose proof (StronglySorted_merge_sort created_le (row_order
    (omap (joined d) (filter (fun ix => due now ix.2 = true) (map_to_list (webhook_dispatches d)))))) as Hs.
  fold (due_rows now d) in Hs. rewrite <-(take_drop n (due_rows now d)) in Hs.
  by eapply StronglySorted_app_1_elem_of.
Qed.

(** C25: A run of the webhook worker takes the oldest due dispatches, at most 25, posts
    each one signed to its endpoint exactly once, and records for each what the reply to
    its post says: an accepted one as a success, a refused or unanswered one as a retry
    after a delay that doubles, or as the final failure at the limit of attempts, with the
    error; nothing else in the tables changes, and a database error stops the run after
    the dispatch it struck. *)
Theorem webhook_delivery w :
  replies_forward w ->
  let rows := take (Z.to_nat BATCH) (due_rows (clock w) (db w)) in
  (forall r, r ∈ rows -> webhook_dispatches (db w) !! id_of r = Some r.1.2 /\ due (clock w) r.1.2 = true /\
     webhook_endpoints (db w) !! endpoint_id r.1.2 = Some r.2) /\
  (forall r r', r ∈ rows -> r' ∈ due_rows (clock w) (db w) -> r' ∈ rows \/ created_le r r') /\
  match run_once w with
  | Ok _ w' => delivered w w' rows rows
  | Fail _ w' => delivered w w' [] [] \/ exists k r rest, rows = k ++ r :: rest /\ delivered w w' (k ++ [r]) k
  | Trap => False
  end.
Proof.
  intros Hf rows.
  assert (forall r, r ∈ rows -> r ∈ due_rows (clock w) (db w)) as Hin.
  { intros r Hr. rewrite <-(take_drop (Z.to_nat BATCH) (due_rows _ _)). by apply elem_of_app; left. }
  split_and!; [intros r Hr; by apply due_rows_spec, Hin|intros r r'; apply due_rows_oldest|].
  unfold run_once, fetch_batch. unfold bind at 1. rewrite statement_run. destruct (fails_next w) eqn:Hn.
  { left. split; [exists []; by rewrite app_nil_r|done|done|done|cbn; lia]. }
  set (w1 := pop w <| db := db (pop w) |>).
  assert (NoDup (map id_of rows)) as Hnd.
  { eapply sublist_NoDup; [apply (due_rows_ids (clock w) (db w))|]. apply fmap_sublist, sublist_take. }
  pose proof (deliver_all rows w1 Hf Hnd ltac:(intros r Hr; by apply Hin, due_rows_spec in Hr as [? _])) as Hd.
  assert (forall w2 sent k, delivered w1 w2 sent k -> delivered w w2 sent k) as Hback by (intros w2 sent k []; by split).
  change (match foldM (fun _ r => deliver r) rows tt w1 with
    | Ok _ w' => delivered w w' rows rows
    | Fail _ w' => delivered w w' [] [] \/ exists k r rest, rows = k ++ r :: rest /\ delivered w w' (k ++ [r]) k
    | Trap => False
    end).
  destruct (foldM _ rows tt w1) as [[] w2|e w2|]; [by apply Hback| |done].
  right. destruct Hd as (k & r & rest & -> & Hd). exists k, r, rest. split; [done|by apply Hback].
Qed.

(** The rows' locks end with the query, outside a transaction: a second worker
    reads the same batch. *)
Lemma fetch_claims_nothing rows w w1 :
  fetch_batch w = Ok rows w1 -> fails_next w1 = false -> exists w2, fetch_batch w1 = Ok rows w2.
Proof.
  unfold fetch_batch. rewrite !statement_run. destruct (fails_next w); [done|]. intros [= <- <-] Hn.
  rewrite Hn. by eexists.
Qed.
End webhooks.

(** * At a concrete world *)

Import BackendExample.
#[local] Instance example_format : WebhookFormat unit := { to_vec := fun _ => [123; 125] }.
#[export] Instance example_hmac_laws : HmacLaws.
Proof. split. intros key body. by eexists. Qed.

(** Of two dispatches, one to an endpoint that refuses it, one to a gone endpoint. *)
Definition two_dispatches : backend unit :=
  let x e at_ := mkDispatch e "plan_created" (PlanCreated 9%positive BackendExample.silent_plan []) 4 (Some 5) "pending" None None at_ in
  (BackendExample.world_of BackendExample.silent_plan [mkReply NANOS (WebhookReply false)] 50)
    <| db := empty_db <| webhook_endpoints := {[ 1%positive := mkEndpoint (lit "https://x") None true ]} |>
                      <| webhook_dispatches := {[ 2%positive := x 1%positive 7; 3%positive := x 8%positive 6 ]} |> |>.

Lemma webhook_delivery_witness :
  exists w', run_once two_dispatches = Ok tt w' /\
    d_status <$> webhook_dispatches (db w') !! 2%positive = Some "failed"%string /\
    webhook_dispatches (db w') !! 3%positive = webhook_dispatches (db two_dispatches) !! 3%positive /\
    length (requests w') = 1%nat.
Proof.
  pose proof (webhook_delivery two_dispatches ltac:(repeat constructor; done)) as (_ & _ & Hc).
  destruct (run_once two_dispatches) as [[] w'|e w'|] eqn:Hr; [|exfalso; vm_compute in Hr; discriminate Hr|destruct Hc].
  exists w'. split; [reflexivity|]. destruct Hc as [_ _ Hrest _ _].
  split_and!.
  - vm_compute in Hr. injection Hr as <-. reflexivity.
  - apply Hrest. by vm_compute; set_solver.
  - vm_compute in Hr. injection Hr as <-. reflexivity.
Defined.
End Webhooks.
