(* ===== verification/Middleware.v ===== *)
(** What stands before the handlers: the rate limiter and the guard against
    sanctioned regions (src/backend/src/middleware.rs), and authentication
    (src/backend/src/auth.rs). *)
From S2P Require Import Prelude Host Text StellarXdr BackendTypes.
Import Text BackendTypes.

Module Middleware.

(** * Rate limiting *)

Abbreviation IpAddr := positive.

(** Durations and instants in nanoseconds. *)
Record RateLimitConfig := mkRateLimit { max_requests : Z; window : Z }.
Definition default_rate_limit : RateLimitConfig := mkRateLimit 100 (60 * NANOS).

Record RateLimitState := mkLimitState { count : Z; window_start : Z }.
Abbreviation RateLimitStore := (gmap IpAddr RateLimitState).

(** [duration_since] saturates at zero. *)
Definition duration_since (now start : Z) : Z := Z.max 0 (now - start).

(** An entry after one more request, and whether that one is allowed. *)
Definition hit (cfg : RateLimitConfig) (entry : option RateLimitState) (now : Z) : RateLimitState * bool :=
  let entry := default (mkLimitState 0 now) entry in
  let entry := if window cfg <=? duration_since now (window_start entry) then mkLimitState 0 now else entry in
  let n := as_u64 (count entry + 1) in
  (mkLimitState n (window_start entry), n <=? max_requests cfg).

Definition check_and_increment (store : RateLimitStore) (ip : IpAddr) (cfg : RateLimitConfig) (now : Z)
  : bool * RateLimitStore :=
  let '(entry, allowed) := hit cfg (store !! ip) now in
  (allowed, <[ip := entry]> store).

(** [rate_limit_middleware]; without connection information the address is
    the loopback's. *)
Definition rate_limit_middleware (store : RateLimitStore) (cfg : RateLimitConfig) (loopback : IpAddr)
    (ip : option IpAddr) (now : Z) : result http_error unit * RateLimitStore :=
  let '(allowed, store) := check_and_increment store (default loopback ip) cfg now in
  (if allowed then ROk tt else RErr (TOO_MANY_REQUESTS "Too Many Requests - rate limit exceeded. Please slow down."), store).

(** The answers to a sequence of requests. *)
Fixpoint answers (cfg : RateLimitConfig) (store : RateLimitStore) (reqs : list (IpAddr * Z)) : list (IpAddr * bool) :=
  match reqs with
  | [] => []
  | (ip, now) :: reqs =>
    let '(allowed, store) := check_and_increment store ip cfg now in
    (ip, allowed) :: answers cfg store reqs
  end.
Definition accepted (ip : IpAddr) (l : list (IpAddr * bool)) : Z :=
  Z.of_nat (length (filter (fun a => a = (ip, true)) l)).
Definition requests_of (ip : IpAddr) (reqs : list (IpAddr * Z)) : Z :=
  Z.of_nat (length (filter (fun r => r.1 = ip) reqs)).

(** ** What is let through *)

Section limit.
Context (cfg : RateLimitConfig) (ip : IpAddr).
Implicit Types (store : RateLimitStore) (reqs : list (IpAddr * Z)).

Definition counted store : Z := match store !! ip with Some e => count e | None => 0 end.
(** What the window an entry is in still allows at a time from [t] on. *)
Definition left_over (t : Z) store : Z :=
  match store !! ip with
  | None => max_requests cfg
  | Some e =>
    Z.max 0 (max_requests cfg - count e) + (if t <=? window_start e then 0 else max_requests cfg)
  end.

Lemma accepted_cons a l : accepted ip (a :: l) = (if bool_decide (a = (ip, true)) then 1 else 0) + accepted ip l.
Proof. unfold accepted. rewrite filter_cons. case_bool_decide; case_decide; try done; cbn; lia. Qed.

Lemma other_address store ip' now : ip' <> ip -> (check_and_increment store ip' cfg now).2 !! ip = store !! ip.
Proof. intros Hn. unfold check_and_increment. destruct (hit _ _ _). cbn. by rewrite lookup_insert_ne. Qed.

Lemma one_hit t store now :
  0 <= max_requests cfg -> t <= now < t + window cfg -> 0 <= counted store < u64_max ->
  let '(allowed, store') := check_and_increment store ip cfg now in
  0 <= counted store' <= counted store + 1 /\
  (if allowed then 1 else 0) + left_over t store' <= left_over t store.
Proof.
  intros Hm Ht Hc. unfold check_and_increment, counted, left_over in *. destruct (store !! ip) as [[n s]|]; cbn -[Z.leb Z.add] in *.
  - destruct (Z.leb_spec (window cfg) (duration_since now s)) as [Hw|Hw]; cbn -[Z.leb Z.add]; rewrite lookup_insert_eq; cbn -[Z.leb Z.add].
    + unfold duration_since in Hw. rewrite as_u64_small by ulia.
      destruct (Z.leb_spec (0 + 1) (max_requests cfg)), (Z.leb_spec t now), (Z.leb_spec t s); lia.
    + rewrite as_u64_small by ulia.
      destruct (Z.leb_spec (n + 1) (max_requests cfg)), (Z.leb_spec t s); lia.
  - destruct (_ <=? duration_since _ _); cbn -[Z.leb Z.add]; rewrite lookup_insert_eq; cbn -[Z.leb Z.add];
      rewrite as_u64_small by ulia; destruct (Z.leb_spec (0 + 1) (max_requests cfg)), (Z.leb_spec t now); lia.
Qed.

Lemma accepted_bound t reqs store :
  0 <= max_requests cfg -> 0 <= counted store -> counted store + Z.of_nat (length reqs) <= u64_max ->
  Forall (fun r => t <= r.2 < t + window cfg) reqs ->
  accepted ip (answers cfg store reqs) <= left_over t store.
Proof.
  intros Hm. revert store. induction reqs as [|[ip' now] reqs IH]; intros store Hc Hl Hall.
  { change (0 <= left_over t store). unfold left_over. destruct (store !! ip); [|lia]. destruct (_ <=? _); lia. }
  inversion Hall as [|? ? Ht Hall']; subst. cbn [answers length] in *.
  destruct (decide (ip' = ip)) as [->|Hn].
  - pose proof (one_hit t store now Hm Ht ltac:(lia)) as Hone.
    destruct (check_and_increment store ip cfg now) as [allowed store']. destruct Hone as [Hc' Hle].
    specialize (IH store' ltac:(lia) ltac:(lia) Hall'). rewrite accepted_cons.
    destruct allowed; [rewrite bool_decide_eq_true_2 by done|rewrite bool_decide_eq_false_2 by done]; lia.
  - pose proof (other_address store ip' now Hn) as Ho.
    destruct (check_and_increment store ip' cfg now) as [allowed store']. cbn in Ho.
    assert (counted store' = counted store) as Hcs by (unfold counted; by rewrite Ho).
    assert (left_over t store' = left_over t store) as Hls by (unfold left_over; by rewrite Ho).
    rewrite accepted_cons, bool_decide_eq_false_2 by congruence. rewrite <-Hls. apply IH; [lia..|done].
Qed.

Lemma requests_of_cons r reqs :
  requests_of ip (r :: reqs) = (if bool_decide (r.1 = ip) then 1 else 0) + requests_of ip reqs.
Proof. unfold requests_of. rewrite filter_cons. case_bool_decide; case_decide; try done; cbn; lia. Qed.

(** Inside one window the first requests are served, up to the limit. *)
Lemma accepted_exact t reqs store :
  0 <= max_requests cfg -> 0 <= counted store -> counted store + Z.of_nat (length reqs) <= u64_max ->
  Forall (fun r => t <= r.2 < t + window cfg) reqs ->
  match store !! ip with Some e => t <= window_start e | None => True end ->
  accepted ip (answers cfg store reqs) = Z.min (Z.max 0 (max_requests cfg - counted store)) (requests_of ip reqs).
Proof.
  intros Hm. revert store. induction reqs as [|[ip' now] reqs IH]; intros store Hc Hl Hall Hs.
  { change (0 = Z.min (Z.max 0 (max_requests cfg - counted store)) 0). lia. }
  inversion Hall as [|? ? Ht Hall']; subst. cbn [answers length snd] in *. rewrite requests_of_cons. cbn [fst].
  destruct (decide (ip' = ip)) as [->|Hn].
  - rewrite bool_decide_eq_true_2 by done.
    unfold check_and_increment, hit.
    set (e := default (mkLimitState 0 now) (store !! ip)).
    assert (count e = counted store /\ t <= window_start e) as [Hce Hse].
    { unfold e, counted. destruct (store !! ip); cbn; [done|lia]. }
    assert ((window cfg <=? duration_since now (window_start e)) = false) as -> by (unfold duration_since; lia).
    rewrite as_u64_small, Hce by ulia. cbn [answers].
    set (store' := <[ip := mkLimitState (counted store + 1) (window_start e)]> store).
    assert (counted store' = counted store + 1) as Hc1 by (unfold counted at 1, store'; by rewrite lookup_insert_eq).
    rewrite accepted_cons, (IH store'), Hc1; [|lia..|done|unfold store'; by rewrite lookup_insert_eq].
    assert (0 <= requests_of ip reqs) by (unfold requests_of; lia).
    destruct (Z.leb_spec (counted store + 1) (max_requests cfg)).
    + rewrite bool_decide_eq_true_2 by done. lia.
    + rewrite bool_decide_eq_false_2 by done. lia.
  - rewrite bool_decide_eq_false_2 by done. pose proof (other_address store ip' now Hn) as Ho.
    destruct (check_and_increment store ip' cfg now) as [allowed store']. cbn in Ho.
    assert (counted store' = counted store) as Hcs by (unfold counted; by rewrite Ho).
    rewrite accepted_cons, bool_decide_eq_false_2 by congruence. rewrite <-Hcs. apply IH; [lia..|done|by rewrite Ho].
Qed.

(** C36: Within any window an address gets at most twice the limit of requests through,
    whatever it and others send, and a new address exactly as many as it sends up to the
    limit; the 64-bit counter does not overflow. *)
Theorem rate_limit t reqs store :
  0 <= max_requests cfg -> 0 <= counted store -> counted store + Z.of_nat (length reqs) <= u64_max ->
  Forall (fun r => t <= r.2 < t + window cfg) reqs ->
  accepted ip (answers cfg store reqs) <= 2 * max_requests cfg /\
  (store !! ip = None -> accepted ip (answers cfg store reqs) = Z.min (max_requests cfg) (requests_of ip reqs)).
Proof.
  intros Hm Hc Hl Hall. split.
  - pose proof (accepted_bound t reqs store Hm Hc Hl Hall) as Hb. unfold left_over, counted in *.
    destruct (store !! ip); [|lia]. destruct (_ <=? _); lia.
  - intros Hn. rewrite (accepted_exact t) by (try done; by rewrite Hn). unfold counted. rewrite Hn. lia.
Qed.
End limit.

(** * Sanctioned regions *)

Definition DEFAULT_SANCTIONED_COUNTRIES : list text := map lit ["CU"; "IR"; "KP"; "SY"].

Record GeoGuardConfig := mkGeo { blocked_countries : gset text }.

Definition canonical (c : text) : text := to_ascii_uppercase (trim c).
Definition geo_new (countries : list text) : GeoGuardConfig :=
  mkGeo (list_to_set (filter (fun c => c <> []) (map canonical countries))).
Definition geo_from_override (env_value : option text) : GeoGuardConfig :=
  match env_value with
  | Some value => if negb (blank value) then geo_new (split 44 value) else geo_new DEFAULT_SANCTIONED_COUNTRIES
  | None => geo_new DEFAULT_SANCTIONED_COUNTRIES
  end.
Definition is_blocked (c : GeoGuardConfig) (country : text) : bool := bool_decide (canonical country ∈ blocked_countries c).

Definition is_unresolved_country_code (code : text) : bool :=
  is_empty code || eq_ignore_ascii_case code (lit "XX") || eq_ignore_ascii_case code (lit "T1").

(** [header] is the [CF-IPCountry] header when it is text, [lookup] the
    country database when there is one. *)
Definition resolve_country (header : option text) (lookup : option (IpAddr -> option text)) (ip : IpAddr) : option text :=
  match header with
  | Some h =>
    let h := trim h in
    if is_unresolved_country_code h then (lookup ← lookup; lookup ip) else Some h
  | None => lookup ← lookup; lookup ip
  end.

Definition geo_restriction_middleware (c : GeoGuardConfig) (lookup : option (IpAddr -> option text)) (loopback : IpAddr)
    (ip : option IpAddr) (header : option text) : result http_error unit :=
  match resolve_country header lookup (default loopback ip) with
  | Some country =>
    rreject_if (is_blocked c country) (FORBIDDEN "Access denied: requests from this region are restricted.")
  | None => ROk tt
  end.

Lemma geo_new_spec countries c :
  is_blocked (geo_new countries) c = true <->
  canonical c <> [] /\ exists k, k ∈ countries /\ canonical k = canonical c.
Proof.
  unfold is_blocked, geo_new. cbn. rewrite bool_decide_eq_true, elem_of_list_to_set, list_elem_of_filter, list_elem_of_fmap.
  split; intros [Hc (k & Hk)]; split; try done; exists k; naive_solver.
Qed.
(** Case and surrounding blanks do not matter. *)
Lemma is_blocked_canonical c x y : canonical x = canonical y -> is_blocked c x = is_blocked c y.
Proof. unfold is_blocked. by intros ->. Qed.
Lemma geo_restriction_refuses c lookup loopback ip header :
  geo_restriction_middleware c lookup loopback ip header <> ROk tt <->
  exists country, resolve_country header lookup (default loopback ip) = Some country /\ is_blocked c country = true.
Proof.
  unfold geo_restriction_middleware, rreject_if. destruct (resolve_country _ _ _) as [country|]; [|naive_solver].
  destruct (is_blocked c country) eqn:Hb; split; try done; [by eexists|]. intros (? & [= <-] & Hb'). congruence.
Qed.

(** * Authentication *)

Record Claims := mkClaims { sub : text; role : text; exp : Z }.
Record UserContext := mkUser { user_id : text; user_role : text }.

Inductive AuthError :=
  | MissingHeader | InvalidHeaderFormat | MissingToken | InvalidToken | TokenExpired | InvalidSignature | Unauthorized.
(** [IntoResponse]: the message goes with the status. *)
Definition auth_response (e : AuthError) : http_error :=
  UNAUTHORIZED match e with
               | MissingHeader => "Missing authorization header"
               | InvalidHeaderFormat => "Invalid authorization header format"
               | MissingToken => "Missing token"
               | InvalidToken => "Invalid token"
               | TokenExpired => "Token expired"
               | InvalidSignature => "Invalid signature"
               | Unauthorized => "Unauthorized"
               end.

(** The [jsonwebtoken] crate with HS256: encoding, and decoding with the
    validation of the expiry at a time in seconds. *)
Class Jwt := {
  jwt_encode : text -> Claims -> option text;
  jwt_decode : text -> text -> Z -> option Claims
}.
(** The [ed25519_dalek] crate: a point that is a key, and verification. *)
Class Ed25519 := { is_verifying_key : list Z -> bool; verify : list Z -> list Z -> list Z -> bool }.

(** A header: [None] when absent, [Some None] when not text. *)
Abbreviation header := (option (option text)).
Record Headers := mkHeaders { authorization : header; x_public_key : header; x_signature : header }.

(** [str::trim_start_matches] takes the prefix off as often as it is there. *)
Fixpoint trim_prefix (fuel : nat) (p s : text) : text :=
  match fuel with
  | O => s
  | S fuel => match strip_prefix p s with Some s' => trim_prefix fuel p s' | None => s end
  end.
Definition trim_start_matches (p s : text) : text := trim_prefix (length s) p s.

Section auth.
Context `{Jwt} `{Ed25519} `{Hex}.

Definition header_text (h : header) : result AuthError text :=
  let? v := rok_or h MissingHeader in rok_or v InvalidHeaderFormat.

Definition jwt_auth_middleware (jwt_secret : option text) (now : Z) (h : Headers) : result AuthError UserContext :=
  let? auth_str := header_text (authorization h) in
  do? rreject_if (negb (starts_with (lit "Bearer ") auth_str)) InvalidHeaderFormat;
  let token := trim (trim_start_matches (lit "Bearer ") auth_str) in
  do? rreject_if (is_empty token) MissingToken;
  let? secret := rok_or jwt_secret InvalidToken in
  let? claims := rok_or (jwt_decode secret token now) InvalidToken in
  do? rreject_if (negb (bool_decide (role claims = lit "admin"))) Unauthorized;
  ROk (mkUser (sub claims) (role claims)).

(** [body] is the request's, [None] when reading it fails. *)
Definition signature_auth_middleware (h : Headers) (body : option (list Z)) : result AuthError UserContext :=
  let? public_key_hex := header_text (x_public_key h) in
  let? signature_hex := header_text (x_signature h) in
  let? public_key := rok_or (hex_decode (trim_start_matches (lit "0x") public_key_hex)) InvalidSignature in
  let? signature := rok_or (hex_decode (trim_start_matches (lit "0x") signature_hex)) InvalidSignature in
  do? rreject_if (negb (bool_decide (length public_key = 32%nat))) InvalidSignature;
  do? rreject_if (negb (is_verifying_key public_key)) InvalidSignature;
  do? rreject_if (negb (bool_decide (length signature = 64%nat))) InvalidSignature;
  let? body := rok_or body InvalidSignature in
  do? rreject_if (negb (valid_utf8 body)) InvalidSignature;
  do? rreject_if (negb (verify public_key body signature)) InvalidSignature;
  ROk (mkUser public_key_hex (lit "user")).

Definition jwt_or_signature_auth_middleware (jwt_secret : option text) (now : Z) (h : Headers) (body : option (list Z))
  : result AuthError UserContext :=
  let has_bearer := match authorization h with
                    | Some (Some v) => starts_with (lit "Bearer ") v
                    | _ => false
                    end in
  if has_bearer then jwt_auth_middleware jwt_secret now h else signature_auth_middleware h body.

(** ** Who gets in *)

(** The bearer of a token of an administrator. *)
Definition admin_token (jwt_secret : option text) (now : Z) (h : Headers) (u : UserContext) : Prop :=
  exists value secret claims, authorization h = Some (Some value) /\ jwt_secret = Some secret /\
    starts_with (lit "Bearer ") value = true /\
    jwt_decode secret (trim (trim_start_matches (lit "Bearer ") value)) now = Some claims /\
    role claims = lit "admin" /\ u = mkUser (sub claims) (lit "admin").
(** The holder of a key who signed exactly this body. *)
Definition signed_body (h : Headers) (body : option (list Z)) (u : UserContext) : Prop :=
  exists key_hex sig_hex key sig bytes, x_public_key h = Some (Some key_hex) /\ x_signature h = Some (Some sig_hex) /\
    hex_decode (trim_start_matches (lit "0x") key_hex) = Some key /\
    hex_decode (trim_start_matches (lit "0x") sig_hex) = Some sig /\
    is_verifying_key key = true /\ body = Some bytes /\ valid_utf8 bytes = true /\ verify key bytes sig = true /\
    u = mkUser key_hex (lit "user").

Lemma jwt_auth_ROk jwt_secret now h u :
  jwt_auth_middleware jwt_secret now h = ROk u -> admin_token jwt_secret now h u.
Proof.
  unfold jwt_auth_middleware, header_text. intros Hr. apply rbind_ROk in Hr as (value & Hv & Hr).
  destruct (authorization h) as [[v|]|] eqn:Ha; [|done..]. injection Hv as <-. res_inv. bool_hyps.
  eexists _, _, _. split_and!; [done..|congruence].
Qed.
Lemma signature_auth_ROk h body u : signature_auth_middleware h body = ROk u -> signed_body h body u.
Proof.
  unfold signature_auth_middleware, header_text. intros Hr. apply rbind_ROk in Hr as (kx & Hkx & Hr).
  destruct (x_public_key h) as [[k|]|] eqn:Hk; [|done..]. injection Hkx as <-.
  apply rbind_ROk in Hr as (sx & Hsx & Hr).
  destruct (x_signature h) as [[sg|]|] eqn:Hs; [|done..]. injection Hsx as <-. res_inv. bool_hyps.
  eexists _, _, _, _, _. split_and!; done.
Qed.

(** A bad token is not made good by a signature. *)
Lemma either_auth_ROk jwt_secret now h body u :
  jwt_or_signature_auth_middleware jwt_secret now h body = ROk u ->
  admin_token jwt_secret now h u \/
  (forall v, authorization h = Some (Some v) -> starts_with (lit "Bearer ") v = false) /\ signed_body h body u.
Proof.
  unfold jwt_or_signature_auth_middleware. destruct (authorization h) as [[v|]|] eqn:Ha.
  - destruct (starts_with (lit "Bearer ") v) eqn:Hb; [left; by apply jwt_auth_ROk|].
    right. split; [congruence|by apply signature_auth_ROk].
  - right. split; [congruence|by apply signature_auth_ROk].
  - right. split; [congruence|by apply signature_auth_ROk].
Qed.
End auth.

(** Three requests allowed in ten seconds, of five at the end of one window. *)
Definition small_limit : RateLimitConfig := mkRateLimit 3 (10 * NANOS).
Definition burst (from : Z) (n : nat) : list (IpAddr * Z) := replicate n (1%positive, from).
Lemma rate_limit_witness :
  accepted 1%positive (answers small_limit ∅ (burst (9 * NANOS) 5)) = 3.
Proof.
  destruct (rate_limit small_limit 1%positive (9 * NANOS) (burst (9 * NANOS) 5) ∅) as [_ He];
    [done|done|done|repeat constructor; vm_compute; done|].
  exact (He eq_refl).
Defined.
(** Twice the limit does pass around the end of a window. *)
Lemma boundary_burst :
  accepted 1%positive (answers small_limit {[ 1%positive := mkLimitState 0 0 ]} (burst (9 * NANOS) 3 ++ burst (10 * NANOS) 3)) = 6.
Proof. vm_compute. reflexivity. Qed.
End Middleware.
