(* ===== verification/Gateway.v ===== *)
(** The HTTP interface (src/backend/src/api.rs): the routes and what guards
    each, the layers in front of them, signing in, and the handlers that keep
    no plans. *)
From S2P Require Import Prelude Host Text YieldCalculator StellarXdr BackendTypes.
From S2P Require Import StellarSubmit BackendExample Middleware.
Import Text StellarXdr BackendTypes Middleware.

(** Identifiers in text; [String::to_lowercase], with Unicode's tables; the
    [argon2] crate's hashes in PHC notation; the [http] crate's URIs. *)
Class UuidFormat := { uuid_text : uuid -> text; parse_uuid : text -> option uuid }.
Class Unicode := { to_lowercase : text -> text }.
Class Argon2 := {
  PhcHash : Type; parse_phc : text -> option PhcHash; argon2_matches : list Z -> PhcHash -> bool
}.
Record Uri := mkUri { uri_scheme : option text; uri_host : option text; uri_path : text; uri_query : option text }.
Class UriFormat := { parse_uri : text -> option Uri }.

Module Gateway.

(** * Routes *)

Inductive Method := GET | HEAD | POST | PUT | OPTIONS | OtherMethod.
#[export] Instance Method_eq_dec : EqDecision Method.
Proof. solve_decision. Defined.

Inductive endpoint :=
  | CreatePlan | UpdatePlan | CancelPlan | ClaimPlan | PingPlan | TriggerPayout
  | GetPlanReport | GetPlanStatistics
  | FreezeLoans | RecallLoans | LiquidateSettle
  | GetPlans | GetPlansDueForClaim | GetPlanDueForClaim | GetPlanById | GetTriggerInfo
  | GetAnchorPayouts | GetCurrentLendingRate | KycWebhook | GetKycStatus | SubmitKyc | UploadKycDocument
  | IsKycRequired | GetKycRequirements | HealthCheck | SubmitTransaction | AdminLogin | CalculateYield | WsKyc.
#[export] Instance endpoint_eq_dec : EqDecision endpoint.
Proof. solve_decision. Defined.

(** The middleware of the group a route is in. *)
Inductive guard := Public | WalletSignature | AdminToken | TokenOrSignature.
#[export] Instance guard_eq_dec : EqDecision guard.
Proof. solve_decision. Defined.

Inductive segment := Seg (s : string) | Id.
#[export] Instance segment_eq_dec : EqDecision segment.
Proof. solve_decision. Defined.
Abbreviation pattern := (list segment).
Definition api (rest : pattern) : pattern := Seg "api" :: rest.

Definition user_routes : list (pattern * Method * endpoint) :=
  [ (api [Seg "plans"], POST, CreatePlan);
    (api [Seg "plans"; Id], PUT, UpdatePlan);
    (api [Seg "plans"; Id; Seg "cancel"], POST, CancelPlan);
    (api [Seg "plans"; Id; Seg "claim"], POST, ClaimPlan);
    (api [Seg "plans"; Seg "ping"], POST, PingPlan);
    (api [Seg "plans"; Seg "payout"], POST, TriggerPayout) ].
Definition admin_routes : list (pattern * Method * endpoint) :=
  [ (api [Seg "plans"; Id; Seg "report"], GET, GetPlanReport);
    (api [Seg "analytics"; Seg "plan-statistics"], GET, GetPlanStatistics) ].
Definition loan_lifecycle_routes : list (pattern * Method * endpoint) :=
  [ (api [Seg "plans"; Id; Seg "freeze-loans"], POST, FreezeLoans);
    (api [Seg "plans"; Id; Seg "recall-loans"], POST, RecallLoans);
    (api [Seg "plans"; Id; Seg "liquidate-settle"], POST, LiquidateSettle) ].
Definition public_routes : list (pattern * Method * endpoint) :=
  [ (api [Seg "plans"], GET, GetPlans);
    (api [Seg "plans"; Seg "due-for-claim"], GET, GetPlansDueForClaim);
    (api [Seg "plans"; Seg "due-for-claim"; Id], GET, GetPlanDueForClaim);
    (api [Seg "plans"; Id], GET, GetPlanById);
    (api [Seg "plans"; Id; Seg "trigger-info"], GET, GetTriggerInfo);
    (api [Seg "anchor"; Seg "payout-status"], GET, GetAnchorPayouts);
    (api [Seg "lending"; Seg "current-rate"], GET, GetCurrentLendingRate);
    (api [Seg "kyc"; Seg "webhook"], POST, KycWebhook);
    (api [Seg "kyc"; Seg "status"], GET, GetKycStatus);
    (api [Seg "kyc"; Seg "submit"], POST, SubmitKyc);
    (api [Seg "kyc"; Seg "upload"], POST, UploadKycDocument);
    (api [Seg "kyc"; Seg "required"], GET, IsKycRequired);
    (api [Seg "kyc"; Seg "requirements"], GET, GetKycRequirements);
    (api [Seg "health"], GET, HealthCheck);
    (api [Seg "transactions"; Seg "submit"], POST, SubmitTransaction);
    (api [Seg "admin"; Seg "login"], POST, AdminLogin);
    (api [Seg "yield"; Seg "calculate"], GET, CalculateYield);
    ([Seg "ws"; Seg "kyc"], GET, WsKyc) ].

Record route := mkRoute { r_pattern : pattern; r_method : Method; r_endpoint : endpoint; r_guard : guard }.
#[export] Instance route_eq_dec : EqDecision route.
Proof. solve_decision. Defined.
Definition guarded (g : guard) (rs : list (pattern * Method * endpoint)) : list route :=
  map (fun r => mkRoute r.1.1 r.1.2 r.2 g) rs.
Definition routes : list route :=
  guarded WalletSignature user_routes ++ guarded AdminToken admin_routes ++
  guarded TokenOrSignature loan_lifecycle_routes ++ guarded Public public_routes.

(** The segments a path has in a pattern's places. *)
Fixpoint match_path (p : pattern) (path : list text) : option (list text) :=
  match p, path with
  | [], [] => Some []
  | Seg s :: p, x :: path => if bool_decide (x = lit s) then match_path p path else None
  | Id :: p, x :: path => cons x <$> match_path p path
  | _, _ => None
  end.
(** The [axum] crate's choice among patterns for a path. *)
Class PathRouter := { route_of : list pattern -> list text -> option pattern }.
(** [get(..)] answers [HEAD] too. *)
Definition method_matches (m request : Method) : bool :=
  bool_decide (m = request) || (bool_decide (m = GET) && bool_decide (request = HEAD)).

Definition find_route `{PathRouter} (m : Method) (path : list text) : result http_error (route * list text) :=
  let? p := rok_or (route_of (map r_pattern routes) path) (NOT_FOUND "") in
  let? r := rok_or (find (fun r => bool_decide (r_pattern r = p) && method_matches (r_method r) m) routes) METHOD_NOT_ALLOWED in
  let? ids := rok_or (match_path p path) (NOT_FOUND "") in
  ROk (r, ids).

(** * Cross-origin requests *)

Definition ALLOWED_METHODS : list Method := [GET; POST; OPTIONS].
Definition ends_with (p s : text) : bool := starts_with (rev p) (rev s).

Definition allowed_origin `{UriFormat} (origin : option text) : bool :=
  match (u ← (o ← origin; parse_uri o); s ← uri_scheme u; h ← uri_host u; Some (u, s, h)) with
  | None => false
  | Some (u, scheme, host) =>
    if negb (is_empty (uri_path u)) && negb (bool_decide (uri_path u = lit "/")) then false
    else match uri_query u with
         | Some _ => false
         | None =>
           if bool_decide (host ∈ map lit ["localhost"; "127.0.0.1"; "[::1]"; "::1"]) then
             bool_decide (scheme = lit "http") || bool_decide (scheme = lit "https")
           else if negb (bool_decide (scheme = lit "https")) then false
           else if bool_decide (host = lit "xourcex.vercel.app") then true
           else if ends_with (lit ".xourcex.vercel.app") host then byte_len (lit ".xourcex.vercel.app") <? byte_len host
           else false
         end
  end.

(** * The way in *)

(** The router's configuration. *)
Record Layers := mkLayers {
  rate_limit : RateLimitConfig; geo : GeoGuardConfig; country_of : option (IpAddr -> option text);
  loopback : IpAddr; jwt_secret : option text
}.
(** A request; its path is split at the slashes and decoded, its headers are
    [None] when absent or not text. *)
Record Request := mkRequest {
  method : Method; path : list text; query : text; remote : option IpAddr; cf_ipcountry : option text;
  x_kyc_signature : option text; credentials : Headers; body : option (list Z)
}.

(** What becomes of a request: an answer of the CORS layer, a refusal, or a
    handler with the path's parameters and the caller's identity. *)
Inductive admission := Preflight | Refused (e : http_error) | Passed (e : endpoint) (ids : list text) (user : option UserContext).

Section gate.
Context `{Jwt} `{Ed25519} `{Hex} `{PathRouter}.

Definition authenticate (l : Layers) (now : Z) (g : guard) (req : Request) : result AuthError (option UserContext) :=
  match g with
  | Public => ROk None
  | WalletSignature => let? u := signature_auth_middleware (credentials req) (body req) in ROk (Some u)
  | AdminToken => let? u := jwt_auth_middleware (jwt_secret l) now (credentials req) in ROk (Some u)
  | TokenOrSignature =>
    let? u := jwt_or_signature_auth_middleware (jwt_secret l) now (credentials req) (body req) in ROk (Some u)
  end.

(** The layers from the outside in: CORS, which answers every [OPTIONS]
    itself, the regions, the rate, the route and its guard. *)
Definition enter (l : Layers) (store : RateLimitStore) (clock : Z) (req : Request) : admission * RateLimitStore :=
  if bool_decide (method req = OPTIONS) then (Preflight, store)
  else
    match geo_restriction_middleware (geo l) (country_of l) (loopback l) (remote req) (cf_ipcountry req) with
    | RErr e => (Refused e, store)
    | ROk _ =>
      let '(limited, store) := rate_limit_middleware store (rate_limit l) (loopback l) (remote req) clock in
      (match limited with
       | RErr e => Refused e
       | ROk _ =>
         match find_route (method req) (path req) with
         | RErr e => Refused e
         | ROk (r, ids) =>
           match authenticate l (clock / NANOS) (r_guard r) req with
           | RErr e => Refused (auth_response e)
           | ROk u => Passed (r_endpoint r) ids u
           end
         end
       end, store)
    end.
End gate.

(** * Signing in *)

Inductive PasswordError := HashFailed | InvalidStoredHash.
Definition verify_password `{Argon2} (password stored_hash : text) : result PasswordError bool :=
  let? parsed_hash := rok_or (parse_phc stored_hash) InvalidStoredHash in
  ROk (argon2_matches (as_bytes password) parsed_hash).

Record AdminLoginRequest := mkLogin { email : text; password : text }.
Record AdminLoginResponse := mkToken { token : text; expires_at : Z }.

Section handlers.
Context {D : Type}.
Abbreviation W := (backend D).
Abbreviation X A := (M W http_error A).
Implicit Types (w : W) (d : database D).

(** The password is checked against a dummy hash when no administrator has
    the address; only the time it takes depends on that. *)
Definition admin_login `{Jwt} `{Argon2} `{Unicode} `{UuidFormat} (jwt_secret : option text) (payload : AdminLoginRequest)
  : X AdminLoginResponse :=
  let mail := to_lowercase (trim (email payload)) in
  do! reject_if (is_empty mail || is_empty (password payload)) (BAD_REQUEST "Email and password are required");
  let! admin := or_500 (select (fun d => admins d !! mail)) "Internal server error" in
  let is_valid := match admin with
                  | Some (_, hash) => match verify_password (password payload) hash with ROk b => b | RErr _ => false end
                  | None => false
                  end in
  do! reject_if (negb is_valid) (UNAUTHORIZED "Invalid email or password");
  let admin_id := match admin with Some (id, _) => uuid_text id | None => [] end in
  let! secret := ok_or jwt_secret (INTERNAL_SERVER_ERROR "Internal server error") in
  let! now := gets now_secs in
  let expires := now + 24 * 3600 in
  let claims := mkClaims admin_id (lit "admin") (as_u64 expires) in
  let! tok := ok_or (jwt_encode secret claims) (INTERNAL_SERVER_ERROR "Internal server error") in
  ret (mkToken tok expires).

(** * The other handlers *)

Definition submit_transaction `{XdrCodec} (xdr : text) : X unit :=
  do! reject_if (match validate_transaction_xdr xdr with ROk _ => false | RErr _ => true end) (BAD_REQUEST "Invalid XDR");
  or_return (StellarSubmit.submit xdr)
    (fun e => match e with
              | Rejected => BAD_REQUEST "Stellar network rejected the transaction"
              | _ => BAD_GATEWAY "Failed to submit transaction to Stellar network"
              end).

Record HealthResponse := mkHealth { h_status : string; h_postgresql : string; h_stellar_rpc : string }.
(** The status code and the report. *)
Definition health_check : X (Z * HealthResponse) :=
  let! one := outcome_of (select (fun _ => tt)) in
  let postgresql_ok := match one with ROk _ => true | RErr _ => false end in
  let! stellar_rpc_ok := StellarSubmit.health_check in
  let overall := (if postgresql_ok && stellar_rpc_ok then "healthy"
                  else if postgresql_ok || stellar_rpc_ok then "degraded" else "unhealthy")%string in
  let up (b : bool) := (if b then "up" else "down")%string in
  ret (if bool_decide (overall = "healthy"%string) then 200 else 503, mkHealth overall (up postgresql_ok) (up stellar_rpc_ok)).

Record YieldCalculateResponse := mkYield { y_amount : f64; y_rate_bps : Z; y_elapsed : Z; y_accrued : f64 }.
Definition calculate_yield (default_bps : Z) (amount : f64) (yield_rate_bps : option Z) (elapsed_secs : Z) : X YieldCalculateResponse :=
  let rate := default default_bps yield_rate_bps in
  do! reject_if (YieldCalculator.fltb amount YieldCalculator.zero) (BAD_REQUEST "Amount must be non-negative");
  ret (mkYield amount rate elapsed_secs (YieldCalculator.calculate_yield amount rate elapsed_secs)).

(** [apy_cache] is the application's map of rates; a missing or unreadable
    rate counts as zero and is kept. *)
Definition get_apy_rate {E : Type} (apy_cache : gmap text Z) (token_address : text) : M W E (Z * gmap text Z) :=
  match apy_cache !! token_address with
  | Some rate => ret (rate, apy_cache)
  | None =>
    let! row := or_else (select (fun d => apy_configurations d !! token_address)) None in
    let rate_u32 := as_u32 (default 0 row) in
    ret (rate_u32, <[token_address := rate_u32]> apy_cache)
  end.
Definition get_current_lending_rate {E : Type} (apy_cache : gmap text Z) : M W E (f64 * gmap text Z) :=
  let! r := get_apy_rate apy_cache (lit "USDC") in
  ret (YieldCalculator.fdiv (YieldCalculator.of_Z r.1) (YieldCalculator.of_Z 100), r.2).
End handlers.

(** The fixed answers. *)
Definition is_kyc_required : bool * option string := (true, Some "All users must complete KYC to create plans"%string).
Definition get_kyc_requirements : (bool * bool * bool) * list string * list string :=
  (true, true, false, ["international_passport"; "national_id"; "drivers_license"]%string,
   ["US"; "UK"; "DE"; "FR"; "CA"; "AU"; "JP"; "SG"]%string).
Definition upload_kyc_document `{UuidFormat} (new_v4 : uuid) : text * string :=
  (uuid_text new_v4, "https://example.com/documents/doc-001"%string).

(** * Properties *)

(** ** Admission *)

Definition changes_plans (e : endpoint) : bool :=
  bool_decide (e ∈ [CreatePlan; UpdatePlan; CancelPlan; ClaimPlan; PingPlan; TriggerPayout; FreezeLoans; RecallLoans; LiquidateSettle]).

Lemma find_route_ROk `{PathRouter} m p r ids :
  find_route m p = ROk (r, ids) -> r ∈ routes /\ method_matches (r_method r) m = true /\ match_path (r_pattern r) p = Some ids.
Proof.
  unfold find_route. intros Hr. res_inv.
  match goal with Hf : find _ routes = Some _ |- _ => apply find_some in Hf as [Hin Hok] end.
  bool_hyps. subst. split_and!; [by apply list_elem_of_In|done|done].
Qed.
Lemma plan_changes_guarded r : r ∈ routes -> changes_plans (r_endpoint r) = true -> r_guard r <> Public.
Proof.
  assert (Forall (fun r => changes_plans (r_endpoint r) = true -> r_guard r <> Public) routes) as Hall.
  { apply (bool_decide_unpack _). vm_compute. exact I. }
  rewrite Forall_forall in Hall. auto.
Qed.
Section admission.
Context `{!Jwt} `{!Ed25519} `{!Hex} `{!PathRouter}.
Implicit Types (l : Layers) (req : Request).

(** The identity a guard has established. *)
Definition identified l (clock : Z) (g : guard) req (user : option UserContext) : Prop :=
  let signed u := signed_body (credentials req) (body req) u in
  let admin u := admin_token (jwt_secret l) (clock / NANOS) (credentials req) u in
  match g, user with
  | Public, None => True
  | WalletSignature, Some u => signed u
  | AdminToken, Some u => admin u
  | TokenOrSignature, Some u => admin u \/ signed u
  | _, _ => False
  end.

Lemma authenticate_ROk l clock g req user :
  authenticate l (clock / NANOS) g req = ROk user -> identified l clock g req user.
Proof.
  unfold authenticate, identified. destruct g; intros Hr; res_inv; [done| | |].
  - by apply signature_auth_ROk.
  - by apply jwt_auth_ROk.
  - match goal with Ha : jwt_or_signature_auth_middleware _ _ _ _ = _ |- _ => apply either_auth_ROk in Ha as [?|[_ ?]] end;
      [by left|by right].
Qed.

Lemma enter_Passed l store clock req e ids user store' :
  enter l store clock req = (Passed e ids user, store') ->
  (exists r, r ∈ routes /\ r_endpoint r = e /\ method_matches (r_method r) (method req) = true /\
     match_path (r_pattern r) (path req) = Some ids /\ identified l clock (r_guard r) req user) /\
  geo_restriction_middleware (geo l) (country_of l) (loopback l) (remote req) (cf_ipcountry req) = ROk tt /\
  check_and_increment store (default (loopback l) (remote req)) (rate_limit l) clock = (true, store').
Proof.
  unfold enter. case_bool_decide; [done|].
  destruct (geo_restriction_middleware _ _ _ _ _) as [[]|] eqn:Hg; [|done].
  unfold rate_limit_middleware. destruct (check_and_increment _ _ _ _) as [[] st] eqn:Hc; [|done].
  destruct (find_route _ _) as [[r i]|] eqn:Hf; [|done].
  destruct (authenticate _ _ _ _) as [u|] eqn:Ha; [|done]. intros [= <- <- <- <-].
  apply find_route_ROk in Hf as (Hr & Hm & Hp). apply authenticate_ROk in Ha. split_and!; [by exists r|done..].
Qed.
(** Whoever reaches a handler that changes plans is known. *)
Lemma passed_known l store clock req e ids user store' :
  enter l store clock req = (Passed e ids user, store') -> changes_plans e = true ->
  exists u, user = Some u /\
    (admin_token (jwt_secret l) (clock / NANOS) (credentials req) u \/ signed_body (credentials req) (body req) u).
Proof.
  intros ((r & Hr & <- & _ & _ & Hi) & _)%enter_Passed Hw. pose proof (plan_changes_guarded r Hr Hw).
  unfold identified in Hi. destruct (r_guard r), user as [u|]; try done; exists u; tauto.
Qed.

(** A request reaches a handler only through the route of its method and path, with the
    identity the route demands, from a country not blocked, within the rate limit; one
    that changes plans only with a token or a signature. *)
Theorem gate_protects l store clock req e ids user store' :
  enter l store clock req = (Passed e ids user, store') ->
  (exists r, r ∈ routes /\ r_endpoint r = e /\ method_matches (r_method r) (method req) = true /\
     match_path (r_pattern r) (path req) = Some ids /\ identified l clock (r_guard r) req user) /\
  (changes_plans e = true -> exists u, user = Some u /\
     (admin_token (jwt_secret l) (clock / NANOS) (credentials req) u \/ signed_body (credentials req) (body req) u)) /\
  (forall c, resolve_country (cf_ipcountry req) (country_of l) (default (loopback l) (remote req)) = Some c ->
     is_blocked (geo l) c = false) /\
  check_and_increment store (default (loopback l) (remote req)) (rate_limit l) clock = (true, store').
Proof.
  intros Hr. pose proof (passed_known _ _ _ _ _ _ _ _ Hr) as Hu. apply enter_Passed in Hr as (Hr & Hg & Hc).
  split_and!; [done|done| |done]. intros c Hcountry. unfold geo_restriction_middleware in Hg. rewrite Hcountry in Hg.
  by apply rreject_if_ROk in Hg.
Qed.
End admission.

(** ** Signing in *)

(** A token is visible text in base64url and dots, and decodes to its claims
    up to its expiry; the decoder allows another minute. *)
Definition token_char (c : Z) : bool := is_ascii_alphanumeric c || bool_decide (c ∈ [45; 46; 95]).
Class JwtLaws `{Jwt} : Prop := {
  jwt_text : forall s c t, jwt_encode s c = Some t -> t <> [] /\ Forall (fun x => token_char x = true) t;
  jwt_roundtrip : forall s c t now, jwt_encode s c = Some t -> now <= exp c -> jwt_decode s t now = Some c
}.

Lemma token_char_black c : token_char c = true -> is_whitespace c = false.
Proof.
  unfold token_char, is_ascii_alphanumeric, is_digit, is_upper, is_lower, is_whitespace. intros Hc.
  apply orb_true_iff in Hc as [Hc|Hc]; [|bool_hyps; set_unfold; naive_solver].
  apply not_true_iff_false. intros Hw. lia.
Qed.
Lemma bearer_token t :
  t <> [] -> Forall (fun x => token_char x = true) t ->
  starts_with (lit "Bearer ") (lit "Bearer " ++ t) = true /\
  trim (trim_start_matches (lit "Bearer ") (lit "Bearer " ++ t)) = t.
Proof.
  intros Hn Ht. assert (strip_prefix (lit "Bearer ") (lit "Bearer " ++ t) = Some t) as Hs by by apply strip_prefix_app.
  assert (strip_prefix (lit "Bearer ") t = None) as Hnone.
  { destruct (strip_prefix (lit "Bearer ") t) as [u|] eqn:Hu; [|done]. apply strip_prefix_app in Hu as ->.
    exfalso. rewrite Forall_app in Ht. destruct Ht as [Ht _]. rewrite Forall_forall in Ht.
    assert (token_char 32 = true) as Hsp by (apply Ht; vm_compute; set_solver). vm_compute in Hsp. discriminate Hsp. }
  split; [unfold starts_with; by rewrite Hs|]. unfold trim_start_matches.
  replace (length (lit "Bearer " ++ t)) with (S (6 + length t)) by (rewrite length_app; reflexivity).
  cbn [trim_prefix]. rewrite Hs. cbn [Nat.add trim_prefix]. rewrite Hnone. apply trim_black.
  eapply Forall_impl; [exact Ht|]. apply token_char_black.
Qed.

Section login.
Context {D : Type} `{!Jwt} `{!Argon2} `{!Unicode} `{!UuidFormat} `{!JwtLaws}.
Implicit Types (w : backend D).

Lemma admin_login_Ok secret payload r w w' :
  admin_login secret payload w = Ok r w' ->
  exists id hash ph s, admins (db w) !! to_lowercase (trim (email payload)) = Some (id, hash) /\
    parse_phc hash = Some ph /\ argon2_matches (as_bytes (password payload)) ph = true /\ secret = Some s /\
    expires_at r = now_secs w + 86400 /\
    jwt_encode s (mkClaims (uuid_text id) (lit "admin") (as_u64 (expires_at r))) = Some (token r) /\ db w' = db w.
Proof.
  unfold admin_login. intros Hr. apply bind_Ok in Hr as (u1 & w1 & [_ ->]%reject_if_Ok & Hr).
  apply bind_Ok in Hr as (admin & w2 & Ha & Hr). apply or_500_Ok, select_Ok in Ha as (_ & -> & ->).
  apply bind_Ok in Hr as (u2 & w3 & [Hv ->]%reject_if_Ok & Hr). apply bind_Ok in Hr as (s & w4 & [Hs ->]%ok_or_Ok & Hr).
  apply bind_Ok in Hr as (now & w5 & [-> ->]%gets_Ok & Hr). apply bind_Ok in Hr as (tok & w6 & [He ->]%ok_or_Ok & Hr).
  apply ret_Ok in Hr as [-> ->]. destruct (admins (db w) !! _) as [[id hash]|]; [|done].
  unfold verify_password, rok_or, rbind in Hv. destruct (parse_phc hash) as [ph|] eqn:Hph; [|done].
  exists id, hash, ph, s. split_and!; try done. by destruct (argon2_matches _ _).
Qed.

(** C37: The token a successful sign-in returns is accepted by the administrators'
    middleware until it expires, and names the administrator whose stored hash matched the
    password. *)
Theorem login_grants_admin secret payload r w w' h later :
  admin_login secret payload w = Ok r w' ->
  authorization h = Some (Some (lit "Bearer " ++ token r)) -> later <= expires_at r <= u64_max -> 0 <= now_secs w ->
  exists id hash ph, admins (db w) !! to_lowercase (trim (email payload)) = Some (id, hash) /\
    parse_phc hash = Some ph /\ argon2_matches (as_bytes (password payload)) ph = true /\
    jwt_auth_middleware secret later h = ROk (mkUser (uuid_text id) (lit "admin")).
Proof.
  intros Hr Hh Hl Hn. apply admin_login_Ok in Hr as (id & hash & ph & s & Ha & Hph & Hm & -> & He & Ht & _).
  exists id, hash, ph. split_and!; [done..|]. destruct (jwt_text _ _ _ Ht) as [Hne Hc].
  destruct (bearer_token (token r) Hne Hc) as [Hb Htr].
  rewrite as_u64_small in Ht by ulia. apply (jwt_roundtrip _ _ _ later) in Ht; [|cbn; lia].
  unfold jwt_auth_middleware, header_text. rewrite Hh. cbn [rok_or rbind]. rewrite Hb. cbn [negb rreject_if rbind].
  rewrite Htr. destruct (is_empty (token r)) eqn:Hemp; [by apply is_empty_true in Hemp|].
  unfold rreject_if, rbind, rok_or. rewrite Ht. cbn [role sub]. by rewrite bool_decide_eq_true_2.
Qed.
End login.

(** ** Rates and health *)

Section rates.
Context {D : Type}.
Implicit Types (w : backend D).

(** A failing query makes the rate zero for good. *)
Lemma apy_error_sticks cache token w1 w2 :
  cache !! token = None -> fails_next w1 = true ->
  exists cache' w', (get_apy_rate cache token w1 : outcome _ http_error _) = Ok (0, cache') w' /\
    (get_apy_rate cache' token w2 : outcome _ http_error _) = Ok (0, cache') w2.
Proof.
  intros Hc Hf. unfold get_apy_rate. rewrite Hc. exists (<[token := 0]> cache), (pop w1). split.
  - unfold bind, or_else, select. by rewrite statement_run, Hf.
  - by rewrite lookup_insert_eq.
Qed.
(** Healthy is answered with 200, everything else with 503. *)
Lemma health_code r w w' :
  health_check w = Ok r w' ->
  (r.1 = 200 /\ h_postgresql r.2 = "up" /\ h_stellar_rpc r.2 = "up" \/
   r.1 = 503 /\ (h_postgresql r.2 = "down" \/ h_stellar_rpc r.2 = "down"))%string.
Proof.
  unfold health_check. intros Hr. apply bind_Ok in Hr as (one & w1 & _ & Hr). apply bind_Ok in Hr as (ok & w2 & _ & Hr).
  apply ret_Ok in Hr as [-> _]. destruct one as [[]|], ok; cbn; tauto.
Qed.
End rates.

(** The interface allows other origins [GET], [POST] and [OPTIONS] only,
    but plans are updated with [PUT]. *)
Lemma update_plan_not_cross_origin :
  exists r, r ∈ routes /\ r_endpoint r = UpdatePlan /\ r_method r ∉ ALLOWED_METHODS.
Proof.
  exists (mkRoute (api [Seg "plans"; Id]) PUT UpdatePlan WalletSignature). split_and!; [|done|by apply (bool_decide_unpack _)].
  apply (bool_decide_unpack _). vm_compute. exact I.
Qed.

(** * At concrete requests *)

Import BackendExample.
(** A literal segment goes before a placeholder. *)
Fixpoint goes_before (p q : pattern) : bool :=
  match p, q with
  | Seg _ :: _, Id :: _ => true
  | Seg _ :: p, Seg _ :: q | Id :: p, Id :: q => goes_before p q
  | _, _ => false
  end.
Definition best_pattern (ps : list pattern) (path : list text) : option pattern :=
  foldr (fun p best =>
    match match_path p path, best with
    | None, _ => best
    | Some _, None => Some p
    | Some _, Some q => if goes_before p q then Some p else best
    end) None ps.
#[local] Instance example_router : PathRouter := { route_of := best_pattern }.
(** Every route is reached by a path of its own. *)
Lemma routes_reachable :
  Forall (fun r => find_route (r_method r)
    (map (fun s => match s with Seg s => lit s | Id => lit "x" end) (r_pattern r)) =
    ROk (r, omap (fun s => match s with Seg _ => None | Id => Some (lit "x") end) (r_pattern r))) routes.
Proof. repeat (constructor; [vm_compute; reflexivity|]). constructor. Qed.

(** Signatures that repeat the body's first bytes, tokens that spell out their claims. *)
#[local] Instance example_ed25519 : Ed25519 :=
  { is_verifying_key := fun _ => true; verify := fun _ body sig => bool_decide (take 2 sig = take 2 body) }.
Fixpoint bits (p : positive) : text := match p with xH => [49] | xO p => 48 :: bits p | xI p => 49 :: bits p end.
Fixpoint read_bits (s : text) : Z * text :=
  match s with
  | [] => (0, [])
  | c :: s =>
    if c =? 48 then let r := read_bits s in (2 * r.1, r.2)
    else if c =? 49 then let r := read_bits s in (2 * r.1 + 1, r.2) else (0, s)
  end.
#[local] Instance example_jwt : Jwt := {
  jwt_encode := fun _ c => if forallb token_char (sub c) && bool_decide (role c = lit "admin") && (0 <=? exp c)
    then Some (match exp c with Zpos p => bits p | _ => [] end ++ 46 :: sub c) else None;
  jwt_decode := fun _ t now =>
    let r := read_bits t in if now <=? r.1 then Some (mkClaims r.2 (lit "admin") r.1) else None
}.
Lemma read_bits_app p s : read_bits (bits p ++ 46 :: s) = (Zpos p, s).
Proof. induction p as [p IH|p IH|]; cbn; [by rewrite IH..|done]. Qed.
#[local] Instance example_jwt_laws : JwtLaws.
Proof.
  assert (forall u r e, sub (mkClaims u r e) = u /\ role (mkClaims u r e) = r /\ exp (mkClaims u r e) = e) as E by done.
  split; cbn [jwt_encode jwt_decode example_jwt]; intros s [u r e] t; destruct (E u r e) as (-> & -> & ->); clear E.
  - destruct (forallb token_char u) eqn:Hu; [|done]. cbn [andb].
    destruct (bool_decide _ && _); [|done]. intros [= <-]. split.
    + destruct e; [done|by destruct (bits p)|done].
    + apply Forall_app. split.
      * destruct e as [|p|p]; try constructor. induction p; cbn; repeat constructor; done.
      * constructor; [done|]. apply Forall_forall. intros x Hx. rewrite forallb_forall in Hu. apply Hu. by apply list_elem_of_In.
  - intros now. destruct (forallb token_char u); [|done]. cbn [andb]. destruct (bool_decide_reflect (r = lit "admin")) as [->|]; [|done].
    destruct (Z.leb_spec 0 e); [|done]. cbn [andb]. intros [= <-] Hn.
    assert (read_bits (match e with Zpos p => bits p | _ => [] end ++ 46 :: u) = (e, u)) as -> by
      (destruct e; [done|apply read_bits_app|lia]).
    cbn [fst snd]. by rewrite (proj2 (Z.leb_le now e) Hn).
Qed.
#[local] Instance example_argon2 : Argon2 := { PhcHash := list Z; parse_phc := Some; argon2_matches := fun p h => bool_decide (p = h) }.
#[local] Instance example_unicode : Unicode := { to_lowercase := to_ascii_lowercase }.
#[local] Instance example_uuid : UuidFormat := {
  uuid_text := fun id => bits id; parse_uuid := fun t => match (read_bits (t ++ [46])).1 with Zpos p => Some p | _ => None end
}.

Definition staffed : backend Z := empty_world <| db := empty_db <| admins := {[ lit "a@x.org" := (5%positive, lit "secret") ]} |> |>.
Definition sign_in : AdminLoginRequest := mkLogin (lit " A@x.org ") (lit "secret").
Lemma login_grants_admin_witness :
  exists r w', admin_login (Some (lit "k")) sign_in staffed = Ok r w' /\
    jwt_auth_middleware (Some (lit "k")) 87400 (mkHeaders (Some (Some (lit "Bearer " ++ token r))) None None) =
      ROk (mkUser (uuid_text 5%positive) (lit "admin")).
Proof.
  destruct (admin_login (Some (lit "k")) sign_in staffed) as [r w'|e w'|] eqn:Hr;
    [|exfalso; vm_compute in Hr; discriminate Hr..].
  exists r, w'. split; [reflexivity|].
  destruct (login_grants_admin (Some (lit "k")) sign_in r staffed w'
    (mkHeaders (Some (Some (lit "Bearer " ++ token r))) None None) 87400 Hr eq_refl) as (id & hash & ph & Ha & _ & _ & Hj).
  - vm_compute in Hr. injection Hr as <- _. vm_compute. split; intros Hx; discriminate Hx.
  - vm_compute. intros Hx. discriminate Hx.
  - vm_compute in Ha. injection Ha as <- <-. exact Hj.
Defined.

Definition open_gate : Layers := mkLayers default_rate_limit (geo_from_override None) None 1%positive (Some (lit "k")).
(** A signed cancellation. *)
Definition signed_request : Request :=
  mkRequest POST (map lit ["api"; "plans"; "7"; "cancel"]%string) [] (Some 2%positive) (Some (lit "DE")) None
    (mkHeaders None (Some (Some (replicate 32 65))) (Some (Some (replicate 64 123)))) (Some [123; 123; 125]).
Lemma gate_protects_witness :
  exists ids user store', enter open_gate ∅ NANOS signed_request = (Passed CancelPlan ids user, store') /\
    exists u, user = Some u /\ (admin_token (Some (lit "k")) 1 (credentials signed_request) u \/
      signed_body (credentials signed_request) (body signed_request) u).
Proof.
  destruct (enter open_gate ∅ NANOS signed_request) as [[|er|e ids user] store'] eqn:Hr;
    [exfalso; vm_compute in Hr; discriminate Hr..|].
  exists ids, user, store'. destruct (gate_protects open_gate ∅ NANOS signed_request e ids user store' Hr) as (_ & Hu & _).
  assert (e = CancelPlan) as -> by (vm_compute in Hr; by injection Hr as <-).
  split; [reflexivity|]. exact (Hu eq_refl).
Defined.
End Gateway.
