(* ===== verification/BackendLedger.v ===== *)
(** What the backend's operations may do to the plans and to the payouts:
    every handler and worker that writes them, against one relation. *)
From S2P Require Import Prelude Host Text PlanCache YieldCalculator StellarXdr BackendTypes.
From S2P Require Import StellarSubmit Watchdog LoanLifecycle StellarAnchor PlanApi PlanPayouts KycWebhook Webhooks.
Import Text StellarXdr BackendTypes.

Module BackendLedger.
Import PlanApi PlanPayouts.

Section ledger.
Context {D : Type} `{DecimalOps D}.
Implicit Types (p : PlanRow D) (d : database D) (r : PayoutRow D).

(** What a plan agrees on once, and no operation alters. *)
Definition agreed p := (owner_address p, token_address p, amount p, created_at p, onchain_plan_id p).

(** [p'] is a later version of [p]: a plan is not reactivated. *)
Definition succeeds p p' : Prop := agreed p' = agreed p /\ (is_active p' = true -> is_active p = true).
#[export] Instance succeeds_preorder : PreOrder succeeds.
Proof. split; [by split|]. intros p1 p2 p3 [H1 H2] [H3 H4]. split; [congruence|auto]. Qed.

(** The constraints stay true, payouts are only added, and each is to a plan
    that is new or active. *)
Record advances d d' : Prop := {
  ad_sound : keeps_sound d d';
  ad_plans : forall id p, plans d !! id = Some p -> exists p', plans d' !! id = Some p' /\ succeeds p p';
  ad_payouts : exists rows, payouts d' = payouts d ++ rows /\
    forall r p, r ∈ rows -> plans d !! p_plan_id r = Some p -> is_active p = true
}.
#[export] Instance advances_preorder : PreOrder advances.
Proof.
  split.
  - intros d. split; [reflexivity|intros id p Hp; exists p; split; [done|reflexivity]|].
    exists []. split; [by rewrite app_nil_r|]. by intros r p ?%elem_of_nil.
  - intros d1 d2 d3 [Hs1 Hp1 (rows1 & Hr1 & Ha1)] [Hs2 Hp2 (rows2 & Hr2 & Ha2)]. split; [by etrans| |].
    + intros id p Hp. destruct (Hp1 id p Hp) as (p' & Hp' & Hs). destruct (Hp2 id p' Hp') as (p'' & Hp'' & Hs').
      exists p''. split; [done|by etrans].
    + exists (rows1 ++ rows2). split; [by rewrite Hr2, Hr1, app_assoc|]. intros r p [Hin|Hin]%elem_of_app Hp; [by eapply Ha1|].
      destruct (Hp1 _ p Hp) as (p' & Hp' & [_ Hact]). apply Hact. by eapply Ha2.
Qed.

Lemma advances_same d d' :
  plans d' = plans d -> beneficiaries d' = beneficiaries d -> payouts d' = payouts d -> advances d d'.
Proof.
  intros Hp Hb Hr. split; [by apply sound_same|intros id p Hi; exists p; rewrite Hp; split; [done|reflexivity]|].
  exists []. split; [by rewrite Hr, app_nil_r|]. by intros r p ?%elem_of_nil.
Qed.
Lemma advances_rows d bs : keeps_sound d (d <| beneficiaries := bs |>) -> advances d (d <| beneficiaries := bs |>).
Proof.
  intros Hs. split; [exact Hs|intros id p Hp; exists p; split; [done|reflexivity]|].
  exists []. split; [by rewrite app_nil_r|]. by intros r p ?%elem_of_nil.
Qed.
Lemma advances_plans d ps :
  (forall id p, plans d !! id = Some p -> exists p', ps !! id = Some p' /\ succeeds p p') ->
  keeps_sound d (d <| plans := ps |>) -> advances d (d <| plans := ps |>).
Proof. intros Hps Hs. split; [exact Hs|exact Hps|]. exists []. split; [by rewrite app_nil_r|]. by intros r p ?%elem_of_nil. Qed.
Lemma advances_insert d id p' :
  (forall p, plans d !! id = Some p -> succeeds p p') -> plan_checks p' = true ->
  advances d (d <| plans := <[id := p']> (plans d) |>).
Proof.
  intros Hs Hc. apply advances_plans; [|by apply sound_insert_plan]. intros i p Hp. destruct (decide (i = id)) as [->|Hn].
  - exists p'. split; [by rewrite lookup_insert_eq|auto].
  - exists p. split; [by rewrite lookup_insert_ne|reflexivity].
Qed.

(** A change the constraints need not be asked about. *)
Definition harmless (f : PlanRow D -> PlanRow D) : Prop := forall p, succeeds p (f p) /\ plan_checks (f p) = plan_checks p.
Lemma advances_alter d id f : harmless f -> advances d (update_plan_row id f d).
Proof.
  intros Hf. apply advances_plans.
  - intros i p Hp. destruct (decide (i = id)) as [->|Hn].
    + exists (f p). split; [by rewrite lookup_alter_eq, Hp|apply Hf].
    + exists p. split; [by rewrite lookup_alter_ne|reflexivity].
  - intros Hs. apply sound_plans; [| |done].
    + intros i p [(-> & q & Hq & ->)|[_ Hp]]%lookup_alter_Some; [rewrite (proj2 (Hf q))|]; by eapply (so_plans d).
    + intros i Hi. by apply lookup_alter_is_Some.
Qed.

(** The same with payouts to one plan only. *)
Record pays_only (id : uuid) d d' : Prop := {
  po_sound : keeps_sound d d';
  po_plans : forall i p, plans d !! i = Some p -> exists p', plans d' !! i = Some p' /\ succeeds p p';
  po_payouts : exists rows, payouts d' = payouts d ++ rows /\ Forall (fun r => p_plan_id r = id) rows
}.
#[export] Instance pays_only_preorder id : PreOrder (pays_only id).
Proof.
  split.
  - intros d. split; [reflexivity|intros i p Hp; exists p; split; [done|reflexivity]|]. exists []. by rewrite app_nil_r.
  - intros d1 d2 d3 [Hs1 Hp1 (rows1 & Hr1 & Ha1)] [Hs2 Hp2 (rows2 & Hr2 & Ha2)]. split; [by etrans| |].
    + intros i p Hp. destruct (Hp1 i p Hp) as (p' & Hp' & Hs). destruct (Hp2 i p' Hp') as (p'' & Hp'' & Hs').
      exists p''. split; [done|by etrans].
    + exists (rows1 ++ rows2). split; [by rewrite Hr2, Hr1, app_assoc|by apply Forall_app].
Qed.
Lemma pays_only_advances id p d d' :
  plans d !! id = Some p -> is_active p = true -> pays_only id d d' -> advances d d'.
Proof.
  intros Hp Ha [Hs Hps (rows & Hr & Hall)]. split; [done..|]. exists rows. split; [done|]. intros r q Hin Hq.
  rewrite Forall_forall in Hall. rewrite (Hall r Hin) in Hq. by simplify_eq.
Qed.
Lemma pays_only_plans id d d' : payouts d' = payouts d -> advances d d' -> pays_only id d d'.
Proof. intros Hr [Hs Hp _]. split; [done..|]. exists []. by rewrite Hr, app_nil_r. Qed.
End ledger.

Abbreviation advancing m := (moves (tables_move advances) m).
Abbreviation paying id m := (moves (tables_move (pays_only id)) m).

(** * The statements that write, along any relation that lets plans advance *)

Section statements.
Context {D : Type} `{DecimalOps D} (Q : relation (database D)) `{!PreOrder Q}.
Context (HQ : forall d d', payouts d' = payouts d -> advances d d' -> Q d d').
Abbreviation W := (backend D).
Abbreviation moving m := (moves (tables_move Q) m).
Implicit Types (d : database D) (p : PlanRow D).

Lemma q_same d d' : plans d' = plans d -> beneficiaries d' = beneficiaries d -> payouts d' = payouts d -> Q d d'.
Proof. intros Hp Hb Hr. apply HQ; [done|by apply advances_same]. Qed.
Lemma q_ledger d d' : (payouts d', plans d', beneficiaries d') = (payouts d, plans d, beneficiaries d) -> Q d d'.
Proof. intros [= ? ? ?]. by apply q_same. Qed.
Lemma q_keeps {E A} (m : M W E A) : keeps ledger m -> moving m.
Proof. intros Hk. eapply keeps_moves; [exact Hk|]. intros w w'. apply q_ledger. Qed.
Lemma q_statement {A} (f : W -> result sqlx_error (A * database D)) :
  (forall w a d, f w = ROk (a, d) -> (payouts d, plans d, beneficiaries d) = ledger w) -> moving (statement f).
Proof. intros Hf. apply tables_statement; [exact _|]. intros w a d Hr. by eapply q_ledger, Hf. Qed.
Lemma q_execute (f : database D -> database D) :
  (forall d, (payouts (f d), plans (f d), beneficiaries (f d)) = (payouts d, plans d, beneficiaries d)) -> moving (execute f).
Proof. intros Hf. apply tables_execute; [exact _|]. intros d. by apply q_ledger. Qed.
Lemma q_alter id f : harmless f -> moving (execute (update_plan_row id f)).
Proof. intros Hf. apply tables_execute; [exact _|]. intros d. apply HQ; [done|by apply advances_alter]. Qed.

Lemma q_outcome {E1 E2 A} (m : M W E1 A) : moving m -> moving (outcome_of m : M W E2 _).
Proof. apply moves_outcome_of. Qed.
Lemma q_enqueue `{Postgres} type (p : payload D) : moving (enqueue_event type p).
Proof. apply q_keeps. apply keeps_enqueue_event; by intros []. Qed.
Lemma q_invalidate `{CacheLibs} {E} o bs : moving (invalidate_plan_cache o bs : M W E unit).
Proof. apply q_keeps. unfold invalidate_plan_cache. bkeeps_tac. Qed.
Lemma q_exchanged {E A} (m : M W E A) : moves StellarSubmit.exchanged m -> moving m.
Proof.
  intros Hm w. specialize (Hm w). unfold tables_move.
  destruct (m w); [destruct Hm as [_ _ Hr]; injection Hr as Hd _ _ _ _; rewrite Hd; reflexivity..|done].
Qed.

Context `{Postgres}.

Lemma q_update id f : (forall p, succeeds p (f p)) -> moving (update_checked id f).
Proof.
  intros Hf. apply tables_checked_execute; [exact _|]. intros d d' Hd. destruct (plans d !! id) as [p|] eqn:Hp.
  - destruct (plan_checks (f p)) eqn:Hc; [|done]. injection Hd as <-. apply HQ; [done|].
    apply advances_insert; [|done]. intros q Hq. by simplify_eq.
  - injection Hd as <-. reflexivity.
Qed.
Lemma q_insert_plan id p : moving (insert_plan id p).
Proof.
  apply tables_checked_execute; [exact _|]. intros d d' Hd. destruct (_ && _ && _) eqn:Hc; [|done]. injection Hd as <-.
  bool_hyps. apply HQ; [done|]. apply advances_insert; [|done]. intros q Hq. congruence.
Qed.
Lemma q_insert_beneficiary id b : moving (insert_beneficiary id b).
Proof.
  unfold insert_beneficiary, fresh_uuid. repeat tables_step. apply tables_checked_execute; [exact _|]. intros d d'.
  destruct (beneficiary_checks _ d) eqn:Hc; [|done]. intros [= <-]. apply HQ; [done|]. by apply advances_rows, sound_insert_row.
Qed.
Lemma q_save_beneficiaries id bs msg : moving (save_beneficiaries id bs msg).
Proof. unfold save_beneficiaries. repeat first [apply q_insert_beneficiary|tables_step]. Qed.
Lemma q_delete_rows id :
  moving (execute (fun d => d <| beneficiaries := filter (fun b => b_plan_id b <> id) (beneficiaries d) |>)).
Proof. apply tables_execute; [exact _|]. intros d. apply HQ; [done|]. apply advances_rows, sound_delete_rows. Qed.
Lemma q_record_attempts id n f : harmless f -> moving (Watchdog.record_attempts id n f).
Proof.
  intros Hf. apply tables_checked_execute; [exact _|]. intros d d' Hd. destruct (plans d !! id) as [p|] eqn:Hp.
  - cbv zeta in Hd. destruct (Watchdog.i32_range _); [|done]. injection Hd as <-. apply HQ; [done|].
    pose (g := fun p => f (p <| trigger_attempts := trigger_attempts p + as_i32 n |>)).
    assert (harmless g) as Hg by (intros q; destruct (Hf (q <| trigger_attempts := trigger_attempts q + as_i32 n |>)) as [? Hc]; by split).
    pose proof (advances_alter d id g Hg) as Ha. unfold update_plan_row in Ha. by rewrite alter_present, Hp in Ha.
  - injection Hd as <-. reflexivity.
Qed.
Lemma q_distribute pay total remaining bs :
  (forall b share, moving (pay b share)) -> moving (distribute pay total remaining bs).
Proof.
  intros Hp. revert remaining. induction bs as [|b bs IH]; intros remaining; cbn [distribute]; [tables_step|].
  unfold share_of. repeat first [apply Hp|apply IH|tables_step].
Qed.
Lemma q_create_payout {E} req : moving (StellarAnchor.create_payout req : M W E _).
Proof. apply q_exchanged, StellarAnchor.create_payout_exchanged. Qed.
End statements.

(** * The handlers *)

#[local] Hint Extern 0 (harmless _) => (let p := fresh "p" in intros p; by destruct p) : core.

Section handlers.
Context {D : Type} `{!DecimalOps D} `{!Postgres} `{!CacheLibs}.
Abbreviation W := (backend D).
Implicit Types (w : W) (p : PlanRow D).

Lemma plain d d' : payouts d' = payouts d -> advances (D := D) d d' -> advances d d'.
Proof. done. Qed.
Lemma plain_pays id d d' : payouts d' = payouts d -> advances (D := D) d d' -> pays_only id d d'.
Proof. apply pays_only_plans. Qed.

(** The statements, and the structure around them. *)
Ltac q_side :=
  first [ exact _ | exact plain | exact (plain_pays _)
        | let p := fresh "p" in intros p; by destruct p | by intros [] | done ].
Ltac q_step :=
  lazymatch goal with
  | |- moves _ (bind _ _) => apply moves_bind; [exact _| |intros ?]
  | |- moves _ (update_checked _ _) => eapply q_update; q_side
  | |- moves _ (insert_plan _ _) => eapply q_insert_plan; q_side
  | |- moves _ (save_beneficiaries _ _ _) => eapply q_save_beneficiaries; q_side
  | |- moves _ (Watchdog.record_attempts _ _ _) => eapply q_record_attempts; q_side
  | |- moves _ (execute (update_plan_row _ _)) => eapply q_alter; q_side
  | |- moves _ (execute _) => first [eapply q_delete_rows; q_side | eapply q_execute; q_side]
  | |- moves _ (enqueue_event _ _) => eapply q_enqueue; q_side
  | |- moves _ (invalidate_plan_cache _ _) => eapply q_invalidate; q_side
  | |- moves _ (StellarAnchor.create_payout _) => eapply q_create_payout; q_side
  | |- moves _ (outcome_of _) => eapply q_outcome; try q_side
  | |- moves _ (modify _) => eapply q_keeps; [q_side..|apply keeps_modify; by intros []]
  | |- moves _ (select _) => tables_step
  | |- moves _ (statement _) => eapply q_statement; [q_side..|intros ? ? ? [= _ <-]; reflexivity]
  | |- _ => tables_step
  end.
Ltac q_tac := repeat q_step.

Lemma create_plan_advances payload : advancing (create_plan payload).
Proof. unfold create_plan, validate_plan, validate_beneficiaries, add_allocation, save_plan, fresh_uuid. q_tac. Qed.
Lemma update_plan_advances id payload : advancing (update_plan id payload).
Proof.
  unfold update_plan, validate_beneficiaries, add_allocation, write_update, update_if, get_plan, fetch_plan, load_beneficiaries. q_tac.
  eapply q_statement; [q_side..|]. intros w ? ?. destruct (plans (db w) !! id); [|done]. by intros [= _ <-].
Qed.
Lemma ping_plan_advances payload : advancing (ping_plan payload).
Proof. unfold ping_plan, active_plan_of, pinged_yield, load_beneficiary_addresses. q_tac. Qed.
Lemma submit_advances {Q} `{!PreOrder Q} (HQ : forall d d', payouts d' = payouts d -> advances d d' -> Q d d') xdr :
  moves (tables_move (D := D) Q) (StellarSubmit.submit xdr).
Proof. by apply q_exchanged, StellarSubmit.submit_exchanged. Qed.
Lemma cancel_plan_advances `{XdrCodec} id tx : advancing (cancel_plan id tx).
Proof.
  unfold cancel_plan, relay, projected, get_plan, load_beneficiaries, load_beneficiary_addresses.
  repeat first [apply submit_advances; exact plain|q_step].
Qed.

(** ** Payouts *)

Lemma insert_payout_pays id b share st : paying id (insert_payout id b share st).
Proof.
  unfold insert_payout, fresh_uuid. q_tac. apply tables_checked_execute; [exact _|]. intros d d' Hd.
  destruct (dlt _ _ && _); [|done]. injection Hd as <-. split; [by apply sound_same| |].
  - intros i p Hp. exists p. split; [done|reflexivity].
  - eexists. split; [done|]. by constructor.
Qed.
Lemma pay_out_pays_only `{AnchorInfoFormat} id plan b share : paying id (pay_out id plan b share).
Proof. unfold pay_out, check_daily_limit, record_usage. repeat first [apply insert_payout_pays|q_step]. Qed.

(** What a handler does once it has found an active plan. *)
Lemma paying_lands id p {E A} (m : M W E A) w :
  plans (db w) !! id = Some p -> is_active p = true -> paying id m -> lands (tables_move advances) w (m w).
Proof.
  intros Hp Ha Hm. specialize (Hm w). unfold lands, tables_move in *. destruct (m w); [by eapply pays_only_advances..|done].
Qed.

Context `{!PostgresLaws}.
Lemma settle_plan_advances `{AnchorInfoFormat} owner : advancing (settle_plan owner).
Proof.
  intros w. apply (lands_bind (tables_move advances)); [apply lands_moves; unfold active_plan_of; q_tac|].
  intros o w1 [-> Ho]%or_500_Ok%active_plan_of_Ok. apply (lands_bind (tables_move advances)); [apply lands_moves; q_tac|].
  intros [id p] w2 [-> ->]%ok_or_Ok. destruct Ho as (Hp & _ & Ha). apply (paying_lands id p); [done..|].
  unfold projected, load_beneficiaries.
  repeat first [apply q_distribute; [exact _|]; intros; apply pay_out_pays_only|q_step].
Qed.
Lemma trigger_payout_advances `{AnchorInfoFormat} owner : advancing (trigger_payout owner).
Proof. unfold trigger_payout. repeat first [apply settle_plan_advances|q_step]. Qed.

Lemma record_claim_pays id plan bs : paying id (record_claim id plan bs).
Proof.
  unfold record_claim, projected.
  repeat first [apply q_distribute; [exact _|]; intros|apply insert_payout_pays|q_step].
Qed.
Lemma claim_plan_advances id payload : advancing (claim_plan id payload).
Proof.
  intros w. apply (lands_bind (tables_move advances)).
  { apply lands_moves. unfold claimable_plan, get_plan. q_tac. }
  intros p w1 Hc. destruct (claimable_plan_Ok id payload p w w1 Hc) as (Hp & _ & Ha & _ & _ & Hd & _).
  apply (paying_lands id p); [by rewrite Hd|done|]. unfold load_beneficiaries, check_kyc.
  repeat first [apply record_claim_pays|q_step].
Qed.

(** ** Loans *)

Section loans.
Context `{!StellarSubmit.Signer}.

Lemma invoke_advances client f args : advancing (StellarSubmit.invoke_admin client f args : M W _ _).
Proof. apply q_exchanged, StellarSubmit.invoke_admin_exchanged. exact _. Qed.
Lemma outstanding_advances client id : advancing (StellarSubmit.outstanding_loaned client id : M W _ _).
Proof. apply q_exchanged, StellarSubmit.outstanding_loaned_exchanged. exact _. Qed.
Lemma upsert_advances id fr pr se out tx : advancing (LoanLifecycle.upsert_lifecycle id fr pr se out tx : M W _ unit).
Proof.
  apply tables_or_500. eapply q_statement; [q_side..|]. intros w a d. cbv zeta.
  destruct (LoanLifecycle.lifecycle_checks _); [|done]. by intros [= _ <-].
Qed.
Ltac loan_tac :=
  unfold LoanLifecycle.freeze_loans, LoanLifecycle.recall_loans, LoanLifecycle.liquidate_and_settle,
    LoanLifecycle.liquidate_on_chain, LoanLifecycle.load_plan, LoanLifecycle.require_triggered,
    LoanLifecycle.require_onchain_id, LoanLifecycle.call_verified, LoanLifecycle.outstanding_after,
    LoanLifecycle.resolve_recall_amount, LoanLifecycle.outstanding_or_error, LoanLifecycle.invalidate_cache,
    LoanLifecycle.emit_status, StellarSubmit.freeze_loans, StellarSubmit.recall_loan, StellarSubmit.liquidation_fallback,
    publish, get_plan, load_beneficiary_addresses;
  repeat lazymatch goal with
  | |- moves _ (LoanLifecycle.upsert_lifecycle _ _ _ _ _ _) => apply upsert_advances
  | |- moves _ (StellarSubmit.invoke_admin _ _ _) => apply invoke_advances
  | |- moves _ (StellarSubmit.outstanding_loaned _ _) => apply outstanding_advances
  | |- _ => q_step
  end.

Lemma freeze_loans_advances client id : advancing (LoanLifecycle.freeze_loans client id : M W _ _).
Proof. loan_tac. Qed.
Lemma recall_loans_advances client id n : advancing (LoanLifecycle.recall_loans client id n : M W _ _).
Proof. loan_tac. Qed.
Lemma liquidate_and_settle_advances client id : advancing (LoanLifecycle.liquidate_and_settle client id : M W _ _).
Proof.
  loan_tac. apply q_alter; [q_side..|]. intros p. unfold succeeds. case_bool_decide; by destruct p.
Qed.

(** ** The workers *)

Lemma next_fault_advances {E} : advancing (@next_fault D E).
Proof. apply q_keeps; [q_side..|]. apply keeps_next_fault. by intros []. Qed.
Lemma claim_advances c b : advancing (Watchdog.claim_expired_plans c b : M W _ _).
Proof.
  unfold Watchdog.claim_expired_plans. repeat first [apply next_fault_advances|q_step].
  apply tables_statement; [exact _|]. intros w l d [= _ <-].
  assert (forall chosen : list (uuid * PlanRow D), advances (db w) ((db w) <| plans := foldr (fun ip m =>
    alter (Watchdog.claim_row (if b then Watchdog.TRIGGERING_STATUS else Watchdog.TRIGGERED_STATUS) (clock w)) ip.1 m)
    (plans (db w)) chosen |>)) as Hall; [|apply Hall].
  induction chosen as [|ip chosen IH]; cbn [foldr]; [apply advances_same; by destruct (db w)|].
  etrans; [exact IH|]. set (ps := foldr _ _ chosen). exact (advances_alter ((db w) <| plans := ps |>) ip.1 (Watchdog.claim_row _ _) ltac:(q_side)).
Qed.
Lemma trigger_on_chain_advances c client plan : advancing (Watchdog.trigger_on_chain c client plan : M W _ _).
Proof. apply q_exchanged, Watchdog.trigger_on_chain_exchanged. exact _. Qed.
Lemma sweep_one_advances c client n plan : advancing (Watchdog.sweep_one c client n plan : M W _ _).
Proof.
  unfold Watchdog.sweep_one, Watchdog.mark_triggered, Watchdog.mark_trigger_failed,
    Watchdog.announce_triggered, Watchdog.announce_trigger_failure, load_beneficiary_addresses.
  repeat first [apply trigger_on_chain_advances|q_step].
Qed.
Lemma watchdog_advances c client : advancing (Watchdog.run_once c client : M W _ _).
Proof.
  unfold Watchdog.run_once, Watchdog.announce_triggered, load_beneficiary_addresses.
  repeat first [apply claim_advances|apply sweep_one_advances|q_step].
Qed.
End loans.

Lemma http_advances {E} r : advancing (http r : M W E _).
Proof. apply q_exchanged, StellarSubmit.http_exchanged. exact _. Qed.
Lemma update_dispatch_advances id f : advancing (execute (Webhooks.update_dispatch (D := D) id f)).
Proof. apply q_execute; q_side. Qed.
Lemma handle_failure_advances id n e : advancing (Webhooks.handle_failure (D := D) id n e).
Proof.
  unfold Webhooks.handle_failure. apply moves_bind; [exact _|q_step|]. intros row. cbv zeta.
  destruct (_ <=? _); [apply update_dispatch_advances|].
  apply q_statement; [q_side..|]. intros w a d. destruct (timestamp_range _); [|done]. by intros [= _ <-].
Qed.
Lemma webhooks_advances `{!Hmac} `{!Hex} `{!WebhookFormat D} : advancing (Webhooks.run_once : M W _ unit).
Proof.
  apply moves_bind; [exact _|unfold Webhooks.fetch_batch; q_step|]. intros rows. apply moves_foldM; [exact _|]. intros _ r.
  apply moves_bind; [exact _|q_step|]. intros post. apply moves_bind; [exact _|apply http_advances|].
  intros []; first [apply handle_failure_advances|idtac]. destruct success; [apply update_dispatch_advances|apply handle_failure_advances].
Qed.

(** ** Identity *)

Lemma kyc_webhook_advances `{!Hmac} `{!Hex} `{!KycWebhook.KycFormat} secret signature body :
  advancing (KycWebhook.kyc_webhook_handler secret signature body : M W _ unit).
Proof.
  unfold KycWebhook.kyc_webhook_handler, KycWebhook.set_kyc_status, KycWebhook.log_webhook, publish. q_tac.
Qed.
Lemma submit_kyc_advances payload : advancing (KycWebhook.submit_kyc payload : M W _ _).
Proof. unfold KycWebhook.submit_kyc, KycWebhook.save_kyc_record, KycWebhook.set_kyc_status. q_tac. Qed.
End handlers.
End BackendLedger.
