(* ===== verification/BackendSystem.v ===== *)
(** The backend as a whole: requests go through the gate to their handlers
    (src/backend/src/api.rs, [create_router]), between runs of the watchdog and
    of the webhook worker (src/backend/src/main.rs). *)
From S2P Require Import Prelude Host Text PlanCache YieldCalculator StellarXdr BackendTypes.
From S2P Require Import StellarSubmit BackendExample Watchdog LoanLifecycle PlanApi PlanPayouts KycWebhook Webhooks.
From S2P Require Import Middleware Gateway BackendLedger.
From stdpp Require Import sorting.
#[local] Open Scope Z_scope.
Import Text StellarXdr BackendTypes.

(** The [Json] and [Query] extractors of the [axum] crate. *)
Class FromJson (A : Type) := { from_json : list Z -> option A }.
Class FromQuery (A : Type) := { from_query : text -> option A }.

Module BackendSystem.
Import PlanCache PlanApi PlanPayouts Middleware Gateway BackendLedger.

(** * Requests and responses *)

Record CancelPlanRequest := mkCancel { signed_transaction : option text }.
Record PayoutRequest := mkPayoutRequest { po_owner : text }.
Record LoanLifecycleRequest := mkLoanRequest { recall_amount : option Z }.
Record SubmitXdrRequest := mkSubmit { xdr : text }.
Record DueForClaimQuery := mkDueQuery { dq_wallet_address : option text; dq_page : option Z; dq_limit : option Z }.
Record AnchorQuery := mkAnchorQuery { aq_beneficiary_address : option text; aq_page : option Z; aq_page_size : option Z }.
Record KYCStatusQuery := mkKycQuery { kq_wallet_address : text }.
Record YieldCalculateQuery := mkYieldQuery { yq_amount : f64; yq_yield_rate_bps : option Z; yq_elapsed_secs : Z }.

(** What a report prints (src/backend/src/pdf.rs): the plan, its projected
    yield, its beneficiaries and its pings. *)
Record PlanReportData {D : Type} := mkReport {
  re_plan_id : uuid; re_plan : PlanRow D; re_projected : f64; re_beneficiaries : list (BeneficiaryRow D);
  re_ping_logs : list (Z * D)
}.
Arguments PlanReportData : clear implicits.
Arguments mkReport {D}.
(** The [printpdf] crate's document of a report. *)
Class PdfReport (D : Type) := { generate : PlanReportData D -> option (list Z) }.

Inductive Response (D : Type) :=
  | PlanBody (r : PlanResponse D)
  | PlansBody (status : PlanCacheStatus) (rs : list (PlanResponse D))
  | PlanPage (p : @Page (PlanResponse D))
  | PayoutPage (p : @Page (PayoutRow D))
  | PayoutsBody (rows : list (PayoutRow D))
  | PingBody (owner : text) (status : string) (virtual_balance : D)
  | StatisticsBody (s : PlanStatisticsResponse D)
  | ReportBody (pdf : list Z)
  | LoanBody (tx : option text) (amount : Z)
  | RecallBody (r : LoanLifecycle.RecallResponse)
  | TriggerInfoBody (i : option Z * string * Z * string * option (Z * string))
  | RateBody (apy : f64)
  | KycBody (s : KycWebhook.KYCStatusResponse)
  | DocumentBody (id : text) (url : string)
  | RequiredBody (r : bool * option string)
  | RequirementsBody (r : (bool * bool * bool) * list string * list string)
  | HealthBody (code : Z) (h : HealthResponse)
  | TokenBody (r : AdminLoginResponse)
  | YieldBody (r : YieldCalculateResponse)
  | Accepted
  | Upgraded
  | PreflightBody.
Arguments PlanBody {D}. Arguments PlansBody {D}. Arguments PlanPage {D}. Arguments PayoutPage {D}.
Arguments PayoutsBody {D}. Arguments PingBody {D}. Arguments StatisticsBody {D}. Arguments ReportBody {D}.
Arguments LoanBody {D}. Arguments RecallBody {D}. Arguments TriggerInfoBody {D}. Arguments RateBody {D}.
Arguments KycBody {D}. Arguments DocumentBody {D}. Arguments RequiredBody {D}. Arguments RequirementsBody {D}.
Arguments HealthBody {D}. Arguments TokenBody {D}. Arguments YieldBody {D}. Arguments Accepted {D}.
Arguments Upgraded {D}. Arguments PreflightBody {D}.

(** * The state *)

(** [AppState] and the configuration that does not change. *)
Record AppState := mkApp {
  layers : Layers; kyc_webhook_secret : option text; apy_rate_bps : Z;
  stellar_submit : StellarSubmit.StellarSubmitClient; watchdog_config : Watchdog.InactivityWatchdogConfig;
  to_rfc3339 : Z -> text; plan_statistics_cache_ttl_secs : Z
}.
(** [in_flight] are the plans claimed by sweeps that have not come to them. *)
Record server {D : Type} := mkServer {
  world : backend D; limits : RateLimitStore; apy_cache : gmap text Z; in_flight : list Watchdog.ExpiredPlan
}.
Arguments server : clear implicits.
Arguments mkServer {D}.
#[export] Instance eta_server {D} : Eta (server D) := fun s => mkServer (world s) (limits s) (apy_cache s) (in_flight s).

Section system.
Context {D : Type} `{!DecimalOps D} `{!Postgres} `{!CacheLibs} `{!StellarSubmit.Signer} `{!XdrCodec} `{!AnchorInfoFormat}
  `{!Json (list (PlanResponse D))} `{!Json (PlanStatisticsResponse D)} `{!Hmac} `{!Hex} `{!KycWebhook.KycFormat}
  `{!WebhookFormat D} `{!Jwt} `{!Ed25519} `{!Argon2} `{!Unicode} `{!UuidFormat} `{!PathRouter} `{!PdfReport D}
  `{!FromJson PlanRequest} `{!FromJson UpdatePlanRequest} `{!FromJson CancelPlanRequest} `{!FromJson ClaimPlanRequest}
  `{!FromJson PingRequest} `{!FromJson PayoutRequest} `{!FromJson LoanLifecycleRequest}
  `{!FromJson KycWebhook.KYCSubmitRequest} `{!FromJson SubmitXdrRequest} `{!FromJson AdminLoginRequest}
  `{!FromQuery PlanQuery} `{!FromQuery StatisticsQuery} `{!FromQuery DueForClaimQuery} `{!FromQuery AnchorQuery}
  `{!FromQuery KYCStatusQuery} `{!FromQuery YieldCalculateQuery}.
Abbreviation W := (backend D).
Abbreviation X A := (M W http_error A).
Implicit Types (s : server D) (w : W) (app : AppState) (req : Request).

(** * Dispatch *)

(** A refused extraction never reaches the handler. *)
Definition path_uuid (ids : list text) : X uuid := ok_or (id ← head ids; parse_uuid id) (BAD_REQUEST "Invalid URL").
Definition json {A} `{!FromJson A} req : X A :=
  ok_or (b ← body req; from_json b) (UNPROCESSABLE_ENTITY "Failed to deserialize the JSON body").
Definition query_of {A} `{!FromQuery A} req : X A :=
  ok_or (from_query (query req)) (BAD_REQUEST "Failed to deserialize query string").

(** [get_plan_report] with the feature [pdf]; the rows of the greatest
    allocation come first. *)
Definition more_bps (x y : BeneficiaryRow D) : Prop := allocation_bps y <= allocation_bps x.
#[local] Instance more_bps_dec x y : Decision (more_bps x y) := ltac:(unfold more_bps; apply _).
Definition earlier_ping (x y : Z * D) : Prop := x.1 <= y.1.
#[local] Instance earlier_ping_dec x y : Decision (earlier_ping x y) := ltac:(unfold earlier_ping; apply _).
Definition get_plan_report (plan_id : uuid) : X (list Z) :=
  let! found := or_500 (get_plan plan_id) "DB error" in
  let! plan := ok_or found (NOT_FOUND "Plan not found") in
  let! bs := or_500 (select (fun d => merge_sort more_bps (beneficiaries_of plan_id d))) "Failed to load beneficiaries" in
  let! pings := or_500 (select (fun d => merge_sort earlier_ping
    (omap (fun l => if bool_decide (l.1.1 = plan_id) then Some (l.1.2, l.2) else None) (row_order (ping_logs d)))))
    "Failed to load ping logs" in
  let! now := gets clock in
  ok_or (generate (mkReport plan_id plan (compute_projected_accrued_yield plan now) bs pings))
    (INTERNAL_SERVER_ERROR "PDF generation failed").

(** Pair a computation on the database with the map of rates. *)
Definition on_world {A} (m : X A) : M (server D) http_error A := fun s =>
  match m (world s) with
  | Ok a w => Ok a (s <| world := w |>)
  | Fail e w => Fail e (s <| world := w |>)
  | Trap => Trap
  end.

(** The handlers of the endpoints but the lending rate's. *)
Definition handle app (e : endpoint) (ids : list text) req : X (Response D) :=
  match e with
  | CreatePlan => let! b := json req in let! r := create_plan b in ret (PlanBody r)
  | UpdatePlan => let! id := path_uuid ids in let! b := json req in let! r := update_plan id b in ret (PlanBody r)
  | CancelPlan =>
    let! id := path_uuid ids in let! b := json req in let! r := cancel_plan id (signed_transaction b) in ret (PlanBody r)
  | ClaimPlan => let! id := path_uuid ids in let! b := json req in let! r := claim_plan id b in ret (PayoutsBody r)
  | PingPlan => let! b := json req in let! r := ping_plan b in ret (PingBody r.1.1 r.1.2 r.2)
  | TriggerPayout => let! b := json req in let! r := trigger_payout (po_owner b) in ret (PayoutsBody r)
  | GetPlanReport => let! id := path_uuid ids in let! r := get_plan_report id in ret (ReportBody r)
  | GetPlanStatistics =>
    let! q := query_of req in let! r := get_plan_statistics (to_rfc3339 app) (plan_statistics_cache_ttl_secs app) q in ret (StatisticsBody r)
  | FreezeLoans =>
    let! id := path_uuid ids in let! _b := json (A := LoanLifecycleRequest) req in
    let! r := LoanLifecycle.freeze_loans (stellar_submit app) id in ret (LoanBody r.1 r.2)
  | RecallLoans =>
    let! id := path_uuid ids in let! b := json req in
    let! r := LoanLifecycle.recall_loans (stellar_submit app) id (recall_amount b) in ret (RecallBody r)
  | LiquidateSettle =>
    let! id := path_uuid ids in let! _b := json (A := LoanLifecycleRequest) req in
    let! r := LoanLifecycle.liquidate_and_settle (stellar_submit app) id in ret (LoanBody r.1 r.2)
  | GetPlans => let! q := query_of req in let! r := get_plans q in ret (PlansBody r.1 r.2)
  | GetPlansDueForClaim =>
    let! q := query_of req in
    let! r := get_plans_due_for_claim (dq_wallet_address q) (dq_page q) (dq_limit q) in ret (PlanPage r)
  | GetPlanDueForClaim => let! id := path_uuid ids in let! r := get_plan_due_for_claim id in ret (PlanBody r)
  | GetPlanById => let! id := path_uuid ids in let! r := get_plan_by_id id in ret (PlanBody r)
  | GetTriggerInfo => let! id := path_uuid ids in let! r := LoanLifecycle.get_trigger_info id in ret (TriggerInfoBody r)
  | GetAnchorPayouts =>
    let! q := query_of req in
    let! r := get_anchor_payouts (aq_beneficiary_address q) (aq_page q) (aq_page_size q) in ret (PayoutPage r)
  | GetCurrentLendingRate => fail (NOT_FOUND "")
  | KycWebhook =>
    let! b := ok_or (body req) (BAD_REQUEST "Failed to buffer the request body") in
    do! KycWebhook.kyc_webhook_handler (kyc_webhook_secret app) (x_kyc_signature req) b; ret Accepted
  | GetKycStatus => let! q := query_of req in let! r := KycWebhook.get_kyc_status (kq_wallet_address q) in ret (KycBody r)
  | SubmitKyc => let! b := json req in let! r := KycWebhook.submit_kyc b in ret (KycBody r)
  | UploadKycDocument => let! id := fresh_uuid in ret (let r := upload_kyc_document id in DocumentBody r.1 r.2)
  | IsKycRequired => ret (RequiredBody is_kyc_required)
  | GetKycRequirements => ret (RequirementsBody get_kyc_requirements)
  | HealthCheck => let! r := health_check in ret (HealthBody r.1 r.2)
  | SubmitTransaction => let! b := json req in do! submit_transaction (xdr b); ret Accepted
  | AdminLogin => let! b := json req in let! r := admin_login (jwt_secret (layers app)) b in ret (TokenBody r)
  | CalculateYield =>
    let! q := query_of req in
    let! r := Gateway.calculate_yield (apy_rate_bps app) (yq_amount q) (yq_yield_rate_bps q) (yq_elapsed_secs q) in ret (YieldBody r)
  | WsKyc => ret Upgraded
  end.

Definition current_rate : M (server D) http_error (Response D) :=
  let! cache := gets apy_cache in
  let! r := on_world (get_current_lending_rate cache) in
  do! modify (fun s => s <| apy_cache := r.2 |>);
  ret (RateBody r.1).
Definition dispatch app (e : endpoint) (ids : list text) req : M (server D) http_error (Response D) :=
  match e with GetCurrentLendingRate => current_rate | _ => on_world (handle app e ids req) end.

(** One request, from the layers to the handler. *)
Definition serve app req : M (server D) http_error (Response D) := fun s =>
  let '(a, limits') := enter (layers app) (limits s) (clock (world s)) req in
  let s := s <| limits := limits' |> in
  match a with
  | Preflight => Ok PreflightBody s
  | Refused e => Fail e s
  | Passed e ids _ => dispatch app e ids req s
  end.

(** * Runs *)

(** One thing that happens: a request is served, a worker runs, or time passes
    and the environment chooses its coming replies and faults.  A sweep runs at
    once, or in turns: it claims plans, and comes to each of them when the
    others have done something in between. *)
Inductive happens app : server D -> server D -> Prop :=
  | served req r s s' : serve app req s = Ok r s' -> happens app s s'
  | refused req e s s' : serve app req s = Fail e s' -> happens app s s'
  | swept n s w' : Watchdog.run_once (watchdog_config app) (Watchdog.with_stellar (stellar_submit app)) (world s) = Ok n w' ->
      happens app s (s <| world := w' |>)
  | sweep_failed e s w' :
      Watchdog.run_once (watchdog_config app) (Watchdog.with_stellar (stellar_submit app)) (world s) = Fail e w' ->
      happens app s (s <| world := w' |>)
  | claimed l s w' : Watchdog.claim_expired_plans (watchdog_config app) true (world s) = Ok l w' ->
      happens app s (s <| world := w' |> <| in_flight := in_flight s ++ l |>)
  | claim_failed e s w' : Watchdog.claim_expired_plans (watchdog_config app) true (world s) = Fail e w' ->
      happens app s (s <| world := w' |>)
  | swept_one l1 e l2 n m s w' : in_flight s = l1 ++ e :: l2 ->
      Watchdog.sweep_one (watchdog_config app) (Watchdog.with_stellar (stellar_submit app)) n e (world s) = Ok m w' ->
      happens app s (s <| world := w' |> <| in_flight := l1 ++ l2 |>)
  | sweep_one_failed l1 e l2 n r s w' : in_flight s = l1 ++ e :: l2 ->
      Watchdog.sweep_one (watchdog_config app) (Watchdog.with_stellar (stellar_submit app)) n e (world s) = Fail r w' ->
      happens app s (s <| world := w' |> <| in_flight := l1 ++ l2 |>)
  | dispatched u s w' : Webhooks.run_once (world s) = Ok u w' -> happens app s (s <| world := w' |>)
  | dispatch_failed e s w' : Webhooks.run_once (world s) = Fail e w' -> happens app s (s <| world := w' |>)
  | passes s now fs rs : clock (world s) <= now ->
      happens app s (s <| world := (world s) <| clock := now |> <| faults := fs |> <| network := rs |> |>).
Definition runs app : relation (server D) := rtc (happens app).

(** * Properties *)

(** The tables of plans, their beneficiaries, payouts and loans. *)
Definition money w := (ledger w, plan_loan_lifecycle (db w)).

Lemma exchanged_money {E A} (m : M W E A) : moves StellarSubmit.exchanged m -> keeps money m.
Proof.
  intros Hm w. specialize (Hm w). unfold money, ledger. destruct (m w); [by rewrite (StellarSubmit.exchanged_db _ _ Hm)..|done].
Qed.
Lemma keeps_extract {A} (o : option A) (e : http_error) : keeps money (ok_or o e : X A).
Proof. bkeeps_tac. Qed.
Lemma keeps_respond rows : keeps money (respond rows).
Proof. unfold respond, load_beneficiaries. bkeeps_tac. Qed.
Lemma keeps_submit x : keeps money (StellarSubmit.submit x : M W _ _).
Proof. apply exchanged_money, StellarSubmit.submit_exchanged. Qed.
Lemma keeps_http {E} r : keeps money (http r : M W E _).
Proof. apply exchanged_money, StellarSubmit.http_exchanged. Qed.
Lemma keeps_page {A} limit offset (f : database D -> list A) : keeps money (select_page limit offset f).
Proof.
  apply keeps_statement; [by intros []|]. intros w a d. destruct (_ <? _); [done|]. intros [= _ <-]. by destruct w.
Qed.
#[local] Hint Resolve keeps_extract keeps_respond keeps_submit keeps_http keeps_page : keeps.

Lemma keeps_get_plans q : keeps money (get_plans q).
Proof.
  unfold get_plans, query_plans. bkeeps_tac.
  all: apply keeps_modify; intros w; destruct (set_plans _ _ _); by destruct w.
Qed.
Lemma keeps_statistics f ttl q : keeps money (get_plan_statistics f ttl q).
Proof.
  unfold get_plan_statistics, query_statistics. bkeeps_tac.
  all: first [intros w ? d [= _ <-]; by destruct w|apply keeps_modify; intros w; destruct (set_stats _ _ _); by destruct w].
Qed.
Lemma keeps_kyc_webhook secret sig b : keeps money (KycWebhook.kyc_webhook_handler secret sig b).
Proof.
  unfold KycWebhook.kyc_webhook_handler, KycWebhook.set_kyc_status, KycWebhook.log_webhook, publish, execute. bkeeps_tac.
  all: intros w ? d [= _ <-]; by destruct w.
Qed.
Lemma keeps_transaction {E A} (be ce : E) (m : M W E A) : keeps money m -> keeps money (transaction be ce m).
Proof.
  intros Hm w. destruct (transaction be ce m w) as [a w'|e w'|] eqn:Ht; [| |done].
  - apply transaction_Ok in Ht as (_ & w1 & Hb & _ & ->). exact (keeps_Ok _ _ _ _ _ Hm Hb).
  - unfold money, ledger. by rewrite (transaction_Fail _ _ _ _ _ _ Ht).
Qed.
Lemma keeps_submit_kyc b : keeps money (KycWebhook.submit_kyc b).
Proof.
  apply keeps_bind; [|intros; bkeeps_tac]. apply keeps_transaction.
  unfold KycWebhook.save_kyc_record, KycWebhook.set_kyc_status, execute. bkeeps_tac.
  all: intros w ? d [= _ <-]; by destruct w.
Qed.
Lemma keeps_login secret b : keeps money (admin_login secret b).
Proof. unfold admin_login. bkeeps_tac. Qed.
#[local] Hint Resolve keeps_get_plans keeps_statistics keeps_kyc_webhook keeps_submit_kyc keeps_login : keeps.

(** Only the guarded endpoints write these tables. *)
Lemma handle_reads app e ids req : changes_plans e = false -> keeps money (handle app e ids req).
Proof.
  intros He. destruct e; try discriminate He; unfold handle, path_uuid, json, query_of, get_plan_report, get_plans_due_for_claim,
    get_plan_due_for_claim, get_plan_by_id, LoanLifecycle.get_trigger_info, LoanLifecycle.load_plan, get_anchor_payouts,
    KycWebhook.get_kyc_status, fresh_uuid, health_check, StellarSubmit.health_check, submit_transaction, Gateway.calculate_yield,
    get_plan, load_beneficiaries; bkeeps_tac.
Qed.

Context `{!PostgresLaws}.

Lemma moves_extract {A B} (o : option A) (e : http_error) (k : A -> X B) :
  (forall a, moves (tables_move advances) (k a)) -> moves (tables_move advances) (bind (ok_or o e) k).
Proof. intros Hk. apply moves_bind; [exact _|apply moves_ok_or; exact _|done]. Qed.
Lemma moves_reply {A B} (m : X A) (k : A -> B) :
  moves (tables_move advances) m -> moves (tables_move advances) (bind m (fun a => ret (k a))).
Proof. intros Hm. apply moves_bind; [exact _|done|]. intros a. apply moves_ret. exact _. Qed.

Lemma handle_advances app e ids req : moves (tables_move advances) (handle app e ids req).
Proof.
  destruct (changes_plans e) eqn:He.
  - destruct e; try discriminate He; unfold handle, path_uuid, json; repeat (apply moves_extract; intros ?); apply moves_reply.
    + apply BackendLedger.create_plan_advances.
    + apply BackendLedger.update_plan_advances.
    + apply BackendLedger.cancel_plan_advances.
    + apply BackendLedger.claim_plan_advances.
    + apply BackendLedger.ping_plan_advances.
    + apply BackendLedger.trigger_payout_advances.
    + apply BackendLedger.freeze_loans_advances.
    + apply BackendLedger.recall_loans_advances.
    + apply BackendLedger.liquidate_and_settle_advances.
  - eapply keeps_moves; [by apply handle_reads|]. intros w w' [= ? ? ? ?]. by apply BackendLedger.advances_same.
Qed.

Lemma on_world_lands {A} (R : W -> W -> Prop) (m : X A) s :
  moves R m -> lands (fun s s' => R (world s) (world s')) s (on_world m s).
Proof. intros Hm. specialize (Hm (world s)). unfold on_world. by destruct (m (world s)). Qed.
Lemma current_rate_reads s : lands (fun s s' => money (world s') = money (world s)) s (current_rate s).
Proof.
  assert (keeps money (get_current_lending_rate (apy_cache s) : X _)) as Hk
    by (unfold get_current_lending_rate, get_apy_rate; bkeeps_tac).
  specialize (Hk (world s)). unfold current_rate, bind, gets, on_world.
  by destruct (get_current_lending_rate (apy_cache s) (world s)).
Qed.
Lemma dispatch_advances app e ids req s :
  lands (fun s s' => tables_move advances (world s) (world s')) s (dispatch app e ids req s).
Proof.
  destruct (decide (e = GetCurrentLendingRate)) as [->|Hn].
  - cbn [dispatch]. pose proof (current_rate_reads s) as Hl. unfold lands, tables_move in *.
    destruct (current_rate s); [injection Hl as ? ? ? ?; by apply BackendLedger.advances_same..|done].
  - replace (dispatch app e ids req) with (on_world (handle app e ids req)) by (by destruct e).
    apply on_world_lands, handle_advances.
Qed.
Lemma dispatch_reads app e ids req s :
  changes_plans e = false -> lands (fun s s' => money (world s') = money (world s)) s (dispatch app e ids req s).
Proof.
  intros He. destruct (decide (e = GetCurrentLendingRate)) as [->|Hn]; [apply current_rate_reads|].
  replace (dispatch app e ids req) with (on_world (handle app e ids req)) by (by destruct e).
  apply (on_world_lands (fun w w' => money w' = money w)). by apply handle_reads.
Qed.

Lemma happens_advances app s s' : happens app s s' -> BackendLedger.advances (db (world s)) (db (world s')).
Proof.
  assert (forall req, lands (fun s s' => tables_move BackendLedger.advances (world s) (world s')) s (serve app req s)) as Hserve.
  { intros req. unfold serve. destruct (enter _ _ _ _) as [a l]. destruct a; [cbn; reflexivity..|].
    pose proof (dispatch_advances app e ids req (s <| limits := l |>)) as Hl. unfold lands in *. cbn [world] in Hl. exact Hl. }
  destruct 1 as [req r ? ? Hr|req e ? ? Hr|n ? w' Hr|e ? w' Hr|l ? w' Hr|e ? w' Hr|l1 e l2 n m ? w' _ Hr|l1 e l2 n r ? w' _ Hr|u ? w' Hr|e ? w' Hr|].
  - specialize (Hserve req). by rewrite Hr in Hserve.
  - specialize (Hserve req). by rewrite Hr in Hserve.
  - exact (moves_Ok _ _ _ _ _ (BackendLedger.watchdog_advances _ _) Hr).
  - exact (moves_Fail _ _ _ _ _ (BackendLedger.watchdog_advances _ _) Hr).
  - exact (moves_Ok _ _ _ _ _ (BackendLedger.claim_advances _ _) Hr).
  - exact (moves_Fail _ _ _ _ _ (BackendLedger.claim_advances _ _) Hr).
  - exact (moves_Ok _ _ _ _ _ (BackendLedger.sweep_one_advances _ _ _ _) Hr).
  - exact (moves_Fail _ _ _ _ _ (BackendLedger.sweep_one_advances _ _ _ _) Hr).
  - exact (moves_Ok _ _ _ _ _ BackendLedger.webhooks_advances Hr).
  - exact (moves_Fail _ _ _ _ _ BackendLedger.webhooks_advances Hr).
  - reflexivity.
Qed.

(** C6: Along every run of the backend, whatever requests arrive, however the watchdog and
    the webhook worker are interleaved with them and whatever the network and the database
    do: the constraints of the tables stay true, no plan disappears or changes its owner,
    token, amount, creation date or on-chain identifier, an inactive plan never becomes
    active again, payouts are only added, and none goes to a plan that was inactive
    before. *)
Theorem plans_only_advance app s s' :
  runs app s s' ->
  let d := db (world s) in let d' := db (world s') in
  (sound d -> sound d') /\
  (forall id p, plans d !! id = Some p -> exists p', plans d' !! id = Some p' /\
     owner_address p' = owner_address p /\ token_address p' = token_address p /\ amount p' = amount p /\
     created_at p' = created_at p /\ onchain_plan_id p' = onchain_plan_id p /\ (is_active p = false -> is_active p' = false)) /\
  exists rows, payouts d' = payouts d ++ rows /\
    forall r p, r ∈ rows -> plans d !! p_plan_id r = Some p -> is_active p = true.
Proof.
  intros Hr. assert (BackendLedger.advances (db (world s)) (db (world s'))) as [Hs Hp Hpay].
  { induction Hr as [s|s s1 s' Hh _ IH]; [reflexivity|]. etrans; [by eapply happens_advances|exact IH]. }
  cbv zeta. split; [exact Hs|]. split; [|exact Hpay]. intros id p Hid.
  destruct (Hp id p Hid) as (p' & Hp' & [Hag Hact]). exists p'. injection Hag as ? ? ? ? ?.
  split_and!; [done..|]. intros Hf. destruct (is_active p') eqn:Ha; [|done]. rewrite Hact in Hf; done.
Qed.

(** C7: A request leaves the plans, the beneficiaries, the payouts and the loan records as
    they were, unless it carries a valid token of an administrator or a valid signature of
    its body: past all layers, no public endpoint writes these tables. *)
Theorem only_known_callers_change_plans app req s :
  match serve app req s with
  | Ok _ s' | Fail _ s' => money (world s') = money (world s) \/
      exists u, admin_token (jwt_secret (layers app)) (now_secs (world s)) (credentials req) u \/
                signed_body (credentials req) (body req) u
  | Trap => True
  end.
Proof.
  unfold serve. destruct (enter _ _ _ _) as [a l] eqn:Hg. destruct a as [|er|e ids user]; [by left..|].
  destruct (changes_plans e) eqn:He.
  - destruct (passed_known _ _ _ _ _ _ _ _ Hg He) as (u & _ & Hu). destruct (dispatch _ _ _ _ _); [right; by exists u..|done].
  - pose proof (dispatch_reads app e ids req (s <| limits := l |>) He) as Hl. unfold lands in Hl. cbn [world] in Hl.
    destruct (dispatch _ _ _ _ _); [left; exact Hl..|done].
Qed.
End system.

(** * A run *)

Section example.
Import BackendExample.
#[local] Existing Instance example_jwt.
#[local] Existing Instance example_ed25519.
#[local] Existing Instance example_argon2.
#[local] Existing Instance example_unicode.
#[local] Existing Instance example_uuid.
#[local] Existing Instance example_router.
#[local] Existing Instance plain_info.
#[local] Instance no_xdr : XdrCodec := { from_xdr_base64 := fun _ => None }.
#[local] Instance no_text {A} : Json A := { to_string := fun _ => None; from_str := fun _ => None }.
#[local] Instance no_kyc : KycWebhook.KycFormat := { parse_kyc_payload := fun _ => None }.
#[local] Instance no_payload : WebhookFormat Z := { to_vec := fun _ => [] }.
#[local] Instance no_pdf : PdfReport Z := { generate := fun _ => None }.
#[local] Instance no_query {A} : FromQuery A := { from_query := fun _ => None }.
#[local] Instance no_json {A} : FromJson A | 10 := { from_json := fun _ => None }.
#[local] Instance owner_json : FromJson PayoutRequest := { from_json := fun _ => Some (mkPayoutRequest (lit "GA")) }.

Definition demo_app : AppState :=
  mkApp open_gate None 0 None (Watchdog.mkConfig 0 500 (Watchdog.mkOnChain 3 NANOS NANOS NANOS)) (fun _ => []) 300.
Definition overdue_server : server Z := mkServer overdue ∅ ∅ [].
(** The owner's signed request for the payout. *)
Definition payout_request : Request :=
  mkRequest POST (map lit ["api"; "plans"; "payout"]%string) [] (Some 2%positive) (Some (lit "DE")) None
    (mkHeaders None (Some (Some (replicate 32 65))) (Some (Some (replicate 64 123)))) (Some [123; 123; 125]).

Lemma plans_only_advance_witness :
  exists r s', serve demo_app payout_request overdue_server = Ok r s' /\ sound (db (world s')) /\
    exists rows, payouts (db (world s')) = payouts (db (world overdue_server)) ++ rows /\ length rows = 2%nat.
Proof.
  destruct (serve demo_app payout_request overdue_server) as [r s'|e s'|] eqn:Hr; [|exfalso; vm_compute in Hr; discriminate Hr..].
  exists r, s'. split; [reflexivity|].
  destruct (plans_only_advance demo_app overdue_server s'
    (rtc_once _ _ (served demo_app payout_request r overdue_server s' Hr))) as (Hs & _ & rows & Hp & _).
  split; [exact (Hs with_will_sound)|]. exists rows. split; [exact Hp|].
  vm_compute in Hr. injection Hr as _ <-. apply (f_equal length) in Hp. rewrite length_app in Hp.
  vm_compute in Hp. exact (eq_sym Hp).
Defined.

(** A plan cancelled while a sweep has it in flight is triggered nevertheless,
    on chain and in the table. *)
#[local] Instance cancel_json : FromJson CancelPlanRequest := { from_json := fun _ => Some (mkCancel None) }.
Definition cancel_request : Request :=
  mkRequest POST (map lit ["api"; "plans"; "1"; "cancel"]%string) [] (Some 2%positive) (Some (lit "DE")) None
    (mkHeaders None (Some (Some (replicate 32 65))) (Some (Some (replicate 64 123)))) (Some [123; 123; 125]).
Definition signing_app : AppState :=
  mkApp open_gate None 0 (Some demo_ctx) (Watchdog.mkConfig 0 500 (Watchdog.mkOnChain 3 NANOS NANOS NANOS)) (fun _ => []) 300.
Definition expired_server : server Z :=
  mkServer (overdue <| db := update_plan_row 1%positive (fun p => p <| onchain_plan_id := Some 7 |>) (db overdue) |>
                    <| network := [account; simulated; pending; landed_with [triggered_event 7]] |>) ∅ ∅ [].
Definition status_of (s : server Z) : option (string * bool) := (fun p => (status p, is_active p)) <$> plans (db (world s)) !! 1%positive.

Definition demo_expired : Watchdog.ExpiredPlan := Watchdog.mkExpired 1%positive (lit "GA") 960 (Some 7).
Definition claimed_world : backend Z := match Watchdog.claim_expired_plans (watchdog_config signing_app) true (world expired_server) with
  | Ok _ w => w | _ => world expired_server end.
Definition claimed_server : server Z := expired_server <| world := claimed_world |> <| in_flight := [] ++ [demo_expired] |>.
Definition cancelled_server : server Z := match serve signing_app cancel_request claimed_server with
  | Ok _ s => s | _ => claimed_server end.
Definition triggered_world : backend Z := match Watchdog.sweep_one (watchdog_config signing_app) (Some demo_ctx) 0 demo_expired
  (world cancelled_server) with Ok _ w => w | _ => world cancelled_server end.
Definition triggered_server : server Z := cancelled_server <| world := triggered_world |> <| in_flight := [] ++ [] |>.

Lemma cancelled_plan_triggered :
  runs signing_app expired_server cancelled_server /\ runs signing_app cancelled_server triggered_server /\
  status_of cancelled_server = Some ("DEACTIVATED"%string, false) /\
  status_of triggered_server = Some ("TRIGGERED"%string, false).
Proof.
  split_and!.
  - apply (rtc_l _ _ claimed_server).
    + apply (claimed signing_app [demo_expired] expired_server claimed_world). vm_compute. reflexivity.
    + apply rtc_once. eapply (served _ cancel_request). vm_compute. reflexivity.
  - apply rtc_once. apply (swept_one signing_app [] demo_expired [] 0 1 cancelled_server triggered_world); vm_compute; reflexivity.
  - vm_compute. reflexivity.
  - vm_compute. reflexivity.
Qed.
End example.
End BackendSystem.
