(* ===== verification/AccessControl.v ===== *)
(** Shared access control ([contracts/access-control/src/lib.rs]): roles,
    blacklist, reentrancy lock, pause circuit breaker and peer version check.
    Every contract embeds this state; its operations are polymorphic in the
    caller's error type, as in the source. *)
From S2P Require Import Prelude Host.

Module AccessControl.

Inductive Role := Admin | Guardian | Beneficiary | Owner.
#[export] Instance Role_eq_dec : EqDecision Role.
Proof. solve_decision. Defined.

(** The keys [AccessControlKey], [SecurityKey], [PauseKey] and [VersionKey];
    an absent key is [None]. *)
Record state := mkState {
  Roles : gmap address (list Role);
  Blacklisted : gmap address bool;
  ReentrancyLock : option bool;
  Paused : option bool;
  PauseLock : option bool;
  ActiveOps : option Z;
  ContractVersion : option Z
}.
#[export] Instance eta_state : Eta state := fun s =>
  mkState (Roles s) (Blacklisted s) (ReentrancyLock s) (Paused s) (PauseLock s)
    (ActiveOps s) (ContractVersion s).

Definition empty : state := mkState ∅ ∅ None None None None None.

Section ops.
Context {E : Type}.
Abbreviation A X := (M state E X).

Definition roles_of (s : state) (a : address) : list Role := default [] (Roles s !! a).
Definition holds (r : Role) (rs : list Role) : bool := existsb (fun x => bool_decide (x = r)) rs.

(** ** Roles *)
Definition assign_role (a : address) (role : Role) : A unit :=
  let! roles := gets (fun s => roles_of s a) in
  if holds role roles then ret tt
  else modify (fun s => s <| Roles := <[a := roles ++ [role]]> (Roles s) |>).

Definition has_role (a : address) (role : Role) : A bool :=
  let! roles := gets (fun s => roles_of s a) in
  ret (holds role roles).

Definition require_role (a : address) (role : Role) (contract_error : E) : A unit :=
  let! b := has_role a role in
  reject_if (negb b) contract_error.

(** ** Reentrancy lock *)
Definition locked (s : state) : bool := bool_decide (is_Some (ReentrancyLock s)).

Definition reentrancy_enter (error : E) : A unit :=
  let! l := gets locked in
  do! reject_if l error;
  modify (fun s => s <| ReentrancyLock := Some true |>).

Definition reentrancy_enter_or_panic : A unit :=
  let! l := gets locked in
  do! panic_if l;
  modify (fun s => s <| ReentrancyLock := Some true |>).

Definition reentrancy_exit : A unit :=
  modify (fun s => s <| ReentrancyLock := None |>).

Definition revoke_role (a : address) (role : Role) : A unit :=
  do! reentrancy_enter_or_panic;
  let! roles := gets (fun s => roles_of s a) in
  let updated := filter (fun x => x <> role) roles in
  do! modify (fun s => s <| Roles := <[a := updated]> (Roles s) |>);
  reentrancy_exit.

(** ** Blacklist *)
Definition blacklist_address (t : address) : A unit :=
  modify (fun s => s <| Blacklisted := <[t := true]> (Blacklisted s) |>).
Definition unblacklist_address (t : address) : A unit :=
  modify (fun s => s <| Blacklisted := delete t (Blacklisted s) |>).
Definition is_blacklisted (t : address) : A bool :=
  gets (fun s => default false (Blacklisted s !! t)).
Definition require_not_blacklisted (t : address) (contract_error : E) : A unit :=
  let! b := is_blacklisted t in
  reject_if b contract_error.

(** ** Pause and active operations *)
Definition is_contract_paused (s : state) : bool := default false (Paused s).
Definition pause_lock (s : state) : bool := default false (PauseLock s).
Definition active (s : state) : Z := default 0 (ActiveOps s).

Definition pause_contract : A unit :=
  do! modify (fun s => s <| PauseLock := Some true |>);
  let! act := gets active in
  do! when (negb (act =? 0))
    (do! modify (fun s => s <| PauseLock := None |>); trap);
  do! modify (fun s => s <| Paused := Some true |>);
  modify (fun s => s <| PauseLock := None |>).

Definition unpause_contract : A unit :=
  do! modify (fun s => s <| PauseLock := Some true |>);
  do! modify (fun s => s <| Paused := Some false |>);
  modify (fun s => s <| PauseLock := None |>).

Definition require_not_paused (error : E) : A unit :=
  let! pl := gets pause_lock in
  let! p := gets is_contract_paused in
  reject_if (p || pl) error.

Definition require_not_paused_or_panic : A unit :=
  let! pl := gets pause_lock in
  let! p := gets is_contract_paused in
  panic_if (p || pl).

Definition operation_enter_or_panic : A unit :=
  let! pl := gets pause_lock in
  do! panic_if pl;
  let! p := gets is_contract_paused in
  do! panic_if p;
  let! cnt := gets active in
  let! cnt' := wrap_i128 (cnt + 1) in
  modify (fun s => s <| ActiveOps := Some cnt' |>).

Definition operation_exit : A unit :=
  let! cnt := gets active in
  if cnt <=? 1 then modify (fun s => s <| ActiveOps := None |>)
  else modify (fun s => s <| ActiveOps := Some (cnt - 1) |>).

(** ** Versions *)
Definition set_contract_version (v : Z) : A unit :=
  modify (fun s => s <| ContractVersion := Some v |>).
Definition get_contract_version : A Z :=
  gets (fun s => default 1 (ContractVersion s)).

(** What a peer answers to [get_version]: [None] when it is not a contract,
    has no such entry point, traps or returns something else. *)
Variable query_contract_version : address -> option Z.

Definition check_contract_version (target : address) (min_version max_version : Z)
    (error : E) : A unit :=
  match query_contract_version target with
  | Some v => reject_if (negb ((min_version <=? v) && (v <=? max_version))) error
  | None => fail error
  end.

Definition assert_compatible_version (target : address) (expected : Z) (error : E) : A unit :=
  check_contract_version target expected expected error.

Definition assert_compatible_version_or_panic (target : address) (expected : Z) : A unit :=
  match query_contract_version target with
  | Some v => panic_if (negb (v =? expected))
  | None => trap
  end.
End ops.

(** * RAII guard *)

(** [let _guard = ReentrancyGuard::lock(env, error)?; body]: the lock is taken
    in temporary storage and dropped on every path out of [body]. *)
Definition with_guard {W E A} `{Sub W state} (error : E) (body : M W E A) : M W E A :=
  do! zoom (reentrancy_enter error);
  finally body (zoom reentrancy_exit).

(** * Lemmas *)

Lemma holds_spec r rs : holds r rs = true <-> r ∈ rs.
Proof.
  unfold holds. rewrite existsb_exists. setoid_rewrite bool_decide_eq_true.
  setoid_rewrite <-list_elem_of_In. naive_solver.
Qed.

Lemma holds_false r rs : holds r rs = false <-> r ∉ rs.
Proof. rewrite <-holds_spec. by destruct (holds r rs). Qed.

Lemma locked_false s : locked s = false <-> ReentrancyLock s = None.
Proof.
  unfold locked. rewrite bool_decide_eq_false, <-eq_None_not_Some. done.
Qed.

Section zoomed.
Context {W E : Type} `{SubLaws W state}.
Implicit Types (w : W) (e : E).

(** The component's part of a larger state. *)
Definition ac (w : W) : state := sget w.

Lemma require_role_Ok a r e u w w' :
  zoom (require_role a r e) w = Ok u w' <-> r ∈ roles_of (ac w) a /\ w' = w.
Proof.
  rewrite zoom_Ok. unfold require_role, has_role. split.
  - intros (s & Hm & ->). run_inv.
    match goal with Hn : negb _ = false |- _ => apply negb_false_iff, holds_spec in Hn end.
    split; [done|apply sput_sget].
  - intros [Hr ->]. exists (sget w). rewrite sput_sget. split; [|done].
    unfold bind, gets, ret. apply holds_spec in Hr. unfold ac in Hr. rewrite Hr.
    by destruct u.
Qed.

Lemma require_not_paused_Ok e u w w' :
  zoom (require_not_paused e) w = Ok u w' <->
  is_contract_paused (ac w) = false /\ pause_lock (ac w) = false /\ w' = w.
Proof.
  rewrite zoom_Ok. unfold require_not_paused. split.
  - intros (s & Hm & ->). run_inv.
    match goal with Hn : _ || _ = false |- _ => apply orb_false_iff in Hn as [??] end.
    split_and!; [done|done|apply sput_sget].
  - intros (Hp & Hl & ->). exists (sget w). rewrite sput_sget. split; [|done].
    unfold bind, gets. unfold ac in *. rewrite Hp, Hl. by destruct u.
Qed.

Lemma reentrancy_enter_Ok e u w w' :
  zoom (reentrancy_enter e) w = Ok u w' <->
  ReentrancyLock (ac w) = None /\
  w' = sput ((ac w) <| ReentrancyLock := Some true |>) w.
Proof.
  rewrite zoom_Ok. unfold reentrancy_enter. split.
  - intros (s & Hm & ->). run_inv. split; [by apply locked_false|done].
  - intros (Hl & ->). eexists. split; [|done].
    apply locked_false in Hl. unfold bind, gets, reject_if, ac in *. rewrite Hl.
    by destruct u.
Qed.

Lemma reentrancy_exit_Ok u w w' :
  @zoom W state E _ _ reentrancy_exit w = Ok u w' <->
  w' = sput ((ac w) <| ReentrancyLock := None |>) w.
Proof.
  rewrite zoom_Ok. unfold reentrancy_exit. split.
  - intros (s & Hm & ->). by run_inv.
  - intros ->. eexists. split; [|done]. by destruct u.
Qed.

Lemma with_guard_Ok {A} e (m : M W E A) a w w' :
  with_guard e m w = Ok a w' <->
  ReentrancyLock (ac w) = None /\
  exists w1, m (sput ((ac w) <| ReentrancyLock := Some true |>) w) = Ok a w1 /\
    w' = sput ((ac w1) <| ReentrancyLock := None |>) w1.
Proof.
  unfold with_guard. rewrite bind_Ok. split.
  - intros (u & w1 & Hl & Hm). apply reentrancy_enter_Ok in Hl as [Hl ->].
    apply finally_Ok in Hm as (w2 & v & Hm & Hf).
    apply reentrancy_exit_Ok in Hf. eauto.
  - intros (Hl & w1 & Hm & ->). eexists tt, _. split.
    + by apply reentrancy_enter_Ok.
    + apply finally_Ok. eexists w1, tt. split; [done|]. by apply reentrancy_exit_Ok.
Qed.
End zoomed.
#[export] Hint Rewrite @require_role_Ok @require_not_paused_Ok @reentrancy_enter_Ok
  @reentrancy_exit_Ok @with_guard_Ok using typeclasses eauto : run.

Lemma keeps_with_guard {W E A B} `{Sub W state} (f : W -> B) (e : E) (m : M W E A) :
  (forall s w, f (sput s w) = f w) -> keeps f m -> keeps f (with_guard e m).
Proof.
  intros Hf Hm. apply keeps_bind; [by apply keeps_zoom|]. intros _.
  apply keeps_finally; [done|by apply keeps_zoom].
Qed.

(** * Properties *)

(** Assigning a role adds exactly that role to exactly that address, revoking removes
    exactly it and releases the lock it takes. *)
Theorem role_sets {E} (s : state) (a : address) (r : Role) :
  (exists s', @assign_role E a r s = Ok tt s' /\
     forall a' r', r' ∈ roles_of s' a' <-> r' ∈ roles_of s a' \/ a' = a /\ r' = r) /\
  (ReentrancyLock s = None ->
   exists s', @revoke_role E a r s = Ok tt s' /\ ReentrancyLock s' = None /\
     forall a' r', r' ∈ roles_of s' a' <-> r' ∈ roles_of s a' /\ ~ (a' = a /\ r' = r)).
Proof.
  split.
  - unfold assign_role, bind, gets. destruct (holds r (roles_of s a)) eqn:Hh.
    + exists s. split; [done|]. intros a' r'. apply holds_spec in Hh. naive_solver.
    + eexists. split; [done|]. intros a' r'. unfold roles_of; cbn.
      destruct (decide (a' = a)) as [->|Hne].
      * rewrite lookup_insert_eq. simpl. rewrite elem_of_app, list_elem_of_singleton. naive_solver.
      * rewrite lookup_insert_ne by done. naive_solver.
  - intros Hl. apply locked_false in Hl.
    unfold revoke_role, reentrancy_enter_or_panic, reentrancy_exit, bind, gets,
      panic_if, modify. rewrite Hl. eexists. split; [done|]. split; [done|].
    intros a' r'. unfold roles_of; cbn.
    destruct (decide (a' = a)) as [->|Hne].
    + rewrite lookup_insert_eq. simpl. rewrite list_elem_of_filter. naive_solver.
    + rewrite lookup_insert_ne by done. naive_solver.
Qed.

Lemma role_sets_witness :
  exists s', @revoke_role unit 1%positive Admin empty = Ok tt s' /\ ReentrancyLock s' = None.
Proof.
  destruct (@role_sets unit empty 1%positive Admin) as [_ Hrv].
  destruct Hrv as (s' & H1 & H2 & _); [reflexivity|]. exists s'. split; [exact H1|exact H2].
Defined.

(** A guarded body runs only when the lock is free, sees the lock taken, and leaves it
    free whether it returns a value or an error; a second entry is refused without effect.
    *)
Theorem guard_exclusive {W E A} `{SubLaws W state} (e : E) (body : M W E A) (w : W) :
  (ReentrancyLock (ac w) <> None -> with_guard e body w = Fail e w) /\
  (ReentrancyLock (ac w) = None ->
     let w0 := sput ((ac w) <| ReentrancyLock := Some true |>) w in
     locked (ac w0) = true /\
     with_guard e body w =
       match body w0 with
       | Ok a w1 => Ok a (sput ((ac w1) <| ReentrancyLock := None |>) w1)
       | Fail e' w1 => Fail e' (sput ((ac w1) <| ReentrancyLock := None |>) w1)
       | Trap => Trap
       end).
Proof.
  unfold with_guard, ac. split.
  - intros Hl. unfold bind at 1, zoom at 1. unfold reentrancy_enter, bind, gets.
    assert (locked (sget w) = true) as ->.
    { apply not_false_iff_true. by rewrite locked_false. }
    unfold reject_if, fail. by rewrite sput_sget.
  - intros Hl. apply locked_false in Hl. split; [by rewrite sget_sput|].
    unfold bind at 1, zoom at 1, reentrancy_enter, bind at 1, gets.
    rewrite Hl. unfold finally, attempt, reject_if, zoom, reentrancy_exit, bind, ret,
      modify, of_result; simpl. by destruct (body _).
Qed.

(** A component is part of itself. *)
Definition whole : Sub state state := {| sget s := s; sput s _ := s |}.
Definition whole_laws : @SubLaws state state whole.
Proof. by split. Defined.

Lemma guard_exclusive_witness :
  @with_guard state unit Z whole tt (ret 7) (empty <| ReentrancyLock := Some true |>)
  = Fail tt (empty <| ReentrancyLock := Some true |>).
Proof.
  apply (@guard_exclusive state unit Z whole whole_laws tt (ret 7)). discriminate.
Defined.


Definition operation_running (s : state) : Prop := 0 < active s.

(** Pausing succeeds exactly when no operation is running; afterwards no guarded operation
    starts until the contract is unpaused; a started operation blocks pausing until it
    exits, and exiting restores the count. *)
Theorem pause_circuit_breaker {E} (e : E) (s : state) :
  0 <= active s < i128_max ->
  (@pause_contract E s =
     if active s =? 0 then Ok tt (s <| PauseLock := None |> <| Paused := Some true |>)
     else Trap) /\
  (forall s1, @pause_contract E s = Ok tt s1 ->
     require_not_paused e s1 = Fail e s1 /\ @operation_enter_or_panic E s1 = Trap /\
     exists s2, @unpause_contract E s1 = Ok tt s2 /\
       exists s3, @operation_enter_or_panic E s2 = Ok tt s3 /\ active s3 = active s + 1) /\
  (forall s1, @operation_enter_or_panic E s = Ok tt s1 ->
     @pause_contract E s1 = Trap /\
     exists s2, @operation_exit E s1 = Ok tt s2 /\ active s2 = active s).
Proof.
  intros Ha. assert (Hp : @pause_contract E s =
     if active s =? 0 then Ok tt (s <| PauseLock := None |> <| Paused := Some true |>)
     else Trap).
  { unfold pause_contract, bind, gets, modify, when, ret, trap, active; cbn.
    by destruct (_ =? 0). }
  assert (Hadd : checked_i128 (active s + 1) = Some (active s + 1)).
  { apply checked_i128_Some. unfold_ranges. lia. }
  split_and!; [done| |].
  - rewrite Hp. intros s1. destruct (active s =? 0); [|done]. intros [= <-].
    unfold require_not_paused, operation_enter_or_panic, unpause_contract, bind,
      gets, modify, reject_if, panic_if, wrap_i128, unwrap; cbn.
    split_and!; [reflexivity|reflexivity|]. eexists; split; [done|].
    unfold active in *; cbn. rewrite Hadd. eexists; split; [done|]. done.
  - unfold operation_enter_or_panic, bind, gets, panic_if, trap, ret, wrap_i128, unwrap, modify.
    destruct (pause_lock s); [done|]. destruct (is_contract_paused s); [done|].
    rewrite Hadd. intros s1 [= <-].
    unfold pause_contract, operation_exit, bind, gets, modify, when, trap, active in *; cbn.
    destruct (Z.eqb_spec (default 0 (ActiveOps s) + 1) 0); [lia|]. split; [done|].
    destruct (Z.leb_spec (default 0 (ActiveOps s) + 1) 1); eexists; (split; [done|]); cbn; lia.
Qed.

Lemma pause_circuit_breaker_witness :
  (@pause_contract unit empty =
     if active empty =? 0
     then Ok tt (empty <| PauseLock := None |> <| Paused := Some true |>) else Trap).
Proof. apply (pause_circuit_breaker tt empty). vm_compute. split; congruence. Defined.

End AccessControl.
