(* ===== verification/Token.v ===== *)
(** What the contracts rely on when they call a token contract: the
    [TokenOps]/[TokenLaws] interface (SEP-41 [balance] and [transfer] as the
    sources invoke them).  [MockToken] implements it. *)
From S2P Require Import Prelude Host.

(** The state [T] of every token contract of the network.  A [transfer] that
    errors or traps is [None]: the callers use [try_invoke_contract] or let the
    failure propagate. *)
Class TokenOps (T : Type) := {
  tk_balance : T -> address -> address -> Z;
  tk_transfer : T -> gset address -> address -> address -> address -> Z -> option T;
}.

(** The change a transfer makes to the balance of [a] in [tok']. *)
Definition moved (tok from to : address) (amount : Z) (tok' a : address) : Z :=
  if decide (tok' = tok) then
    (if decide (a = to) then amount else 0) - (if decide (a = from) then amount else 0)
  else 0.

(** The promise: between different accounts a transfer that succeeds was
    authorised by the sender, covered by its balance, and moves exactly
    [amount]; nothing else changes.  A transfer of an account to itself too
    leaves the other accounts alone. *)
Class TokenLaws (T : Type) `{TokenOps T} : Prop := {
  tk_transfer_spec : forall t au tok from to amount t',
    from <> to -> tk_transfer t au tok from to amount = Some t' ->
    from ∈ au /\ 0 <= amount <= tk_balance t tok from /\
    forall tok' a, tk_balance t' tok' a = tk_balance t tok' a + moved tok from to amount tok' a;
  tk_transfer_frame : forall t au tok from to amount t' tok' a,
    tk_transfer t au tok from to amount = Some t' ->
    tok' <> tok \/ (a <> from /\ a <> to) -> tk_balance t' tok' a = tk_balance t tok' a;
}.

Lemma moved_other tok from to amount tok' a :
  tok' <> tok \/ (a <> from /\ a <> to) -> moved tok from to amount tok' a = 0.
Proof. unfold moved. repeat case_decide; naive_solver lia. Qed.

Lemma moved_to tok from to amount : from <> to -> moved tok from to amount tok to = amount.
Proof. unfold moved. repeat case_decide; naive_solver lia. Qed.

Lemma moved_from tok from to amount : from <> to -> moved tok from to amount tok from = - amount.
Proof. unfold moved. repeat case_decide; naive_solver lia. Qed.
