(* ===== verification/MockToken.v ===== *)
(** The test token ([contracts/mock-token/src/lib.rs]): balances, supply, and
    the implementation of the [Token] interface by a network of such tokens. *)
From S2P Require Import Prelude Host Token.

Module MockToken.

Definition MAX_SUPPLY : Z := 1000000000000000000.

Inductive ContractError := NegativeAmount | InsufficientBalance | Overflow | ExceedsMaxSupply.

Record state := mkState { Balance : gmap address Z; TotalSupply : option Z }.
#[export] Instance eta_state : Eta state := fun s => mkState (Balance s) (TotalSupply s).
Definition empty : state := mkState ∅ None.

Abbreviation X A := (M state ContractError A).

Definition balance_of (s : state) (id : address) : Z := default 0 (Balance s !! id).
Definition supply_of (s : state) : Z := default 0 (TotalSupply s).

Definition balance (id : address) : X Z := gets (fun s => balance_of s id).
Definition total_supply : X Z := gets supply_of.
Definition max_supply : Z := MAX_SUPPLY.
Definition decimals : Z := 18.

Definition set_balance (id : address) (b : Z) : X unit :=
  modify (fun s => s <| Balance := <[id := b]> (Balance s) |>).
Definition set_supply (v : Z) : X unit :=
  modify (fun s => s <| TotalSupply := Some v |>).

Definition transfer (env : Env) (from to : address) (amount : Z) : X unit :=
  do! require_auth env from;
  do! reject_if (amount <? 0) NegativeAmount;
  let! balance_from := balance from in
  let! balance_to := balance to in
  do! reject_if (balance_from <? amount) InsufficientBalance;
  do! reject_if (bool_decide (checked_add_i128 balance_to amount = None)) Overflow;
  let! bf := wrap_i128 (balance_from - amount) in
  do! set_balance from bf;
  let! bt := wrap_i128 (balance_to + amount) in
  set_balance to bt.

Definition mint (to : address) (amount : Z) : X unit :=
  do! reject_if (amount <? 0) NegativeAmount;
  let! bal := balance to in
  let! supply := total_supply in
  do! reject_if (bool_decide (checked_add_i128 supply amount = None)) Overflow;
  let! new_total := wrap_i128 (supply + amount) in
  do! reject_if (MAX_SUPPLY <? new_total) ExceedsMaxSupply;
  do! reject_if (bool_decide (checked_add_i128 bal amount = None)) Overflow;
  let! b := wrap_i128 (bal + amount) in
  do! set_balance to b;
  set_supply new_total.

Definition burn (env : Env) (from : address) (amount : Z) : X unit :=
  do! require_auth env from;
  do! reject_if (amount <? 0) NegativeAmount;
  let! bal := balance from in
  let! supply := total_supply in
  do! reject_if (bal <? amount) InsufficientBalance;
  do! reject_if (supply <? amount) InsufficientBalance;
  let! b := wrap_i128 (bal - amount) in
  do! set_balance from b;
  let! v := wrap_i128 (supply - amount) in
  set_supply v.

(** * Supply invariant *)

Definition wf (s : state) : Prop :=
  (forall a b, Balance s !! a = Some b -> 0 <= b) /\
  supply_of s = msum (fun _ b => b) (Balance s) /\
  supply_of s <= MAX_SUPPLY.

(** The calls other than a transfer to oneself. *)
Inductive step : state -> state -> Prop :=
  | step_transfer env from to amount s s' : from <> to ->
      transfer env from to amount s = Ok tt s' -> step s s'
  | step_mint to amount s s' : mint to amount s = Ok tt s' -> step s s'
  | step_burn env from amount s s' : burn env from amount s = Ok tt s' -> step s s'.

Lemma balance_of_insert s a b a' :
  balance_of (s <| Balance := <[a := b]> (Balance s) |>) a' =
  if decide (a' = a) then b else balance_of s a'.
Proof.
  unfold balance_of; cbn. case_decide as Hd; [subst; by rewrite lookup_insert_eq|].
  by rewrite lookup_insert_ne.
Qed.

Ltac tok_inv :=
  unfold balance, total_supply, set_balance, set_supply in *; run_inv;
  repeat match goal with
  | H : (_ <? _) = false |- _ => apply Z.ltb_ge in H
  | H : bool_decide (_ = None) = false |- _ => apply bool_decide_eq_false in H
  end.

Lemma token_transfer_Ok env from to amount s u s' :
  transfer env from to amount s = Ok u s' ->
  from ∈ auths env /\ 0 <= amount <= balance_of s from /\
  i128 (balance_of s to + amount) /\
  s' = mkState (<[to := balance_of s to + amount]>
                 (<[from := balance_of s from - amount]> (Balance s))) (TotalSupply s).
Proof. unfold transfer. intros H. tok_inv. split_and!; done. Qed.

Lemma token_mint_Ok to amount s u s' :
  mint to amount s = Ok u s' ->
  0 <= amount /\ supply_of s + amount <= MAX_SUPPLY /\
  s' = mkState (<[to := balance_of s to + amount]> (Balance s)) (Some (supply_of s + amount)).
Proof. unfold mint. intros H. tok_inv. split_and!; done. Qed.

Lemma token_burn_Ok env from amount s u s' :
  burn env from amount s = Ok u s' ->
  from ∈ auths env /\ 0 <= amount <= balance_of s from /\
  s' = mkState (<[from := balance_of s from - amount]> (Balance s)) (Some (supply_of s - amount)).
Proof. unfold burn. intros H. tok_inv. split_and!; done. Qed.

Lemma wf_insert s a b :
  (forall a b, Balance s !! a = Some b -> 0 <= b) -> 0 <= b ->
  forall a' b', <[a := b]> (Balance s) !! a' = Some b' -> 0 <= b'.
Proof. intros Hs Hb a' b' [[-> <-]|[_ ?]]%lookup_insert_Some; eauto. Qed.

Lemma balance_of_nonneg s a : wf s -> 0 <= balance_of s a.
Proof.
  intros (Hb & _ & _). unfold balance_of. destruct (Balance s !! a) eqn:?; simpl; [eauto|lia].
Qed.

Lemma step_wf s s' : wf s -> step s s' -> wf s'.
Proof.
  intros Hwf. pose proof (balance_of_nonneg s) as Hnn.
  assert (Hnn' := fun a => Hnn a Hwf). destruct Hwf as (Hb & Hs & Hm).
  destruct 1 as [env from to amount s s' Hne H|to amount s s' H|env from amount s s' H].
  - apply token_transfer_Ok in H as (_ & Ha & _ & ->). unfold wf; cbn. split_and!.
    + intros a b [[-> <-]|[_ ?]]%lookup_insert_Some; [specialize (Hnn' a); lia|].
      eapply wf_insert; [done| |done]. lia.
    + unfold supply_of in *; cbn. rewrite !msum_insert, lookup_insert_ne by done.
      unfold balance_of in *. destruct (Balance s !! from), (Balance s !! to); simpl in *; lia.
    + done.
  - apply token_mint_Ok in H as (Ha & Hc & ->). unfold wf, supply_of in *; cbn. split_and!.
    + apply wf_insert; [done|]. specialize (Hnn' to). lia.
    + rewrite msum_insert. unfold balance_of in *. destruct (Balance s !! _); simpl in *; lia.
    + lia.
  - apply token_burn_Ok in H as (_ & Ha & ->). unfold wf, supply_of in *; cbn. split_and!.
    + apply wf_insert; [done|]. lia.
    + rewrite msum_insert. unfold balance_of in *. destruct (Balance s !! _); simpl in *; lia.
    + lia.
Qed.

(** The states reachable from a fresh deployment. *)
Inductive reachable : state -> Prop :=
  | reach_init : reachable empty
  | reach_step s s' : reachable s -> step s s' -> reachable s'.

(** Without transfers of an account to itself the token's supply is the sum of the
    balances, no balance is negative or above the supply, and the supply stays under its
    cap. *)
Theorem supply_invariant s :
  reachable s ->
  (forall a, 0 <= balance_of s a <= supply_of s) /\
  supply_of s = msum (fun _ b => b) (Balance s) /\ supply_of s <= MAX_SUPPLY.
Proof.
  intros Hr. assert (wf s) as Hwf.
  { induction Hr as [|s s' _ IH Hst]; [|by eapply step_wf].
    split_and!; [intros a b; cbn; by rewrite lookup_empty|done|done]. }
  pose proof Hwf as (Hb & Hs & Hm). split_and!; [|done|done].
  intros a. split; [by apply balance_of_nonneg|]. unfold balance_of.
  destruct (Balance s !! a) as [b|] eqn:Ha; simpl; rewrite Hs.
  - by apply (msum_lookup_le (fun _ b => b)) with (k := a).
  - by apply msum_nonneg.
Qed.

(** Account 2 after a mint of 1000 and a transfer of 300 to account 3. *)
Definition env2 : Env := mkEnv 0 0 9%positive {[ 2%positive ]}.
Definition minted : state := after (mint 2%positive 1000) empty.
Definition shared : state := after (transfer env2 2%positive 3%positive 300) minted.

Lemma supply_invariant_witness : supply_of shared = 1000.
Proof.
  assert (reachable shared) as Hr.
  { eapply reach_step; [eapply reach_step; [apply reach_init|]|].
    - apply (step_mint 2%positive 1000 empty minted). vm_compute. reflexivity.
    - apply (step_transfer env2 2%positive 3%positive 300 minted shared);
        [discriminate|vm_compute; reflexivity]. }
  destruct (supply_invariant _ Hr) as (_ & Hs & _). rewrite Hs. vm_compute. reflexivity.
Defined.

(** A transfer of an account to itself reads both balances before it writes either, so it
    succeeds and increases the balance by the amount while the supply stays. *)
Theorem self_transfer_mints env a amount s :
  a ∈ auths env -> 0 <= amount <= balance_of s a -> i128 (balance_of s a) ->
  i128 (balance_of s a + amount) ->
  exists s', transfer env a a amount s = Ok tt s' /\
    balance_of s' a = balance_of s a + amount /\ supply_of s' = supply_of s.
Proof.
  intros Hau Ha Hi0 Hi. exists (mkState (<[a := balance_of s a + amount]>
    (<[a := balance_of s a - amount]> (Balance s))) (TotalSupply s)).
  assert (Hc : checked_add_i128 (balance_of s a) amount = Some (balance_of s a + amount))
    by (by apply checked_add_i128_Some).
  split_and!; [|unfold balance_of; cbn; by rewrite lookup_insert_eq|done].
  unfold transfer, balance, set_balance.
  run_fwd ltac:(rewrite ?Hc; first [done | apply Z.ltb_ge; lia | ulia]).
Qed.

Lemma self_transfer_mints_witness :
  exists s', transfer env2 2%positive 2%positive 400 minted = Ok tt s' /\
    balance_of s' 2%positive = balance_of minted 2%positive + 400.
Proof.
  destruct (self_transfer_mints env2 2%positive 400 minted) as (s' & Ht & Hb & _);
    [vm_compute; reflexivity|vm_compute; split; congruence..|].
  exists s'. split; [exact Ht|exact Hb].
Defined.

(** * The interface *)

(** The network holds one [MockToken] instance per token address. *)
Abbreviation network := (gmap address state).

Definition net_balance (t : network) (tok a : address) : Z :=
  from_option (fun s => balance_of s a) 0 (t !! tok).

Definition net_transfer (t : network) (au : gset address) (tok from to : address) (amount : Z)
  : option network :=
  match t !! tok with
  | None => None
  | Some s =>
    match transfer (mkEnv 0 0 tok au) from to amount s with
    | Ok _ s' => Some (<[tok := s']> t)
    | _ => None
    end
  end.

(** A covered transfer signed by the sender goes through. *)
Lemma net_transfer_runs t au tok s from to n :
  t !! tok = Some s -> from ∈ au -> 0 <= n <= balance_of s from -> i128 (balance_of s from) ->
  0 <= balance_of s to -> balance_of s to + n <= i128_max -> is_Some (net_transfer t au tok from to n).
Proof.
  intros Ht Hau Hn Hf Ht0 Hto. unfold net_transfer. rewrite Ht.
  assert (exists s', transfer (mkEnv 0 0 tok au) from to n s = Ok tt s') as [s' ->]; [|by eexists].
  assert (checked_i128 (balance_of s to + n) = Some (balance_of s to + n)) as H1 by (apply checked_i128_Some; ulia).
  assert (checked_i128 (balance_of s from - n) = Some (balance_of s from - n)) as H2 by (apply checked_i128_Some; ulia).
  unfold transfer, require_auth, set_balance, balance, bind, gets, wrap_i128, checked_add_i128. cbn [auths].
  rewrite bool_decide_true by done. cbn. destruct (Z.ltb_spec n 0); [lia|]. cbn.
  destruct (Z.ltb_spec (balance_of s from) n); [lia|]. cbn. rewrite H1. cbn. rewrite H2. cbn. by eexists.
Qed.

#[global] Instance network_ops : TokenOps network :=
  { tk_balance := net_balance; tk_transfer := net_transfer }.

#[global] Instance network_laws : TokenLaws network.
Proof.
  constructor; cbn; unfold net_transfer, net_balance.
  2: { intros t au tok from to amount t' tok' a. destruct (t !! tok) as [s|] eqn:Ht; [|done].
    destruct (transfer _ _ _ _ _) as [u s'| |] eqn:Hr; [|done..]. intros [= <-] Ha.
    destruct (decide (tok' = tok)) as [->|]; [|by rewrite lookup_insert_ne].
    destruct Ha as [|[??]]; [done|]. rewrite lookup_insert_eq, Ht. cbn.
    unfold transfer, set_balance, balance in Hr. run_inv.
    unfold balance_of, upd_field; cbn. by rewrite !lookup_insert_ne by done. }
  intros t au tok from to amount t' Hne.
  destruct (t !! tok) as [s|] eqn:Ht; [|done].
  destruct (transfer _ _ _ _ _) as [u s'| |] eqn:Hr; [|done..]. intros [= <-].
  apply token_transfer_Ok in Hr as (Hau & Ha & _ & ->). split_and!; [done|simpl; lia..|].
  intros tok' a. unfold moved. case_decide as Hd; [subst tok'|].
  - rewrite lookup_insert_eq, Ht. simpl. unfold balance_of; cbn.
    repeat case_decide; subst; try done.
    + rewrite lookup_insert_eq. simpl. lia.
    + rewrite lookup_insert_ne, lookup_insert_eq by done. simpl. lia.
    + rewrite !lookup_insert_ne by done. lia.
  - rewrite lookup_insert_ne by done. lia.
Qed.

End MockToken.
