(* ===== verification/LoanNft.v ===== *)
(** Loan-position NFTs ([contracts/loan-nft/src/lib.rs]): minting and burning by
    the admin, transfers gated by a per-token restriction, approvals. *)
From S2P Require Import Prelude Host.
From Stdlib Require Import String.

Module LoanNft.

Definition DEFAULT_APPROVAL_EXPIRATION_SECONDS : Z := 60 * 60 * 24 * 7.

Record LoanMetadata := mkMetadata {
  loan_id : Z;
  borrower : address;
  principal : Z;
  collateral_amount : Z;
  collateral_token : address;
  due_date : Z;
  ltv_ratio_bps : Z;
  plan_id : Z;
  uri : string
}.

Record ApprovalRecord := mkApproval { operator : address; expires_at : Z }.

(** The published events; [None] is the unit topic of a mint or a burn. *)
Inductive event :=
  | TransferEvent (from to : option address) (id : Z)
  | ApprovalEvent (owner operator : address) (id : Z)
  | ApprovalForAllEvent (owner operator : address) (approved : bool).

Record state := mkState {
  Admin : option address;
  Metadata : gmap Z LoanMetadata;
  Owner : gmap Z address;
  Approved : gmap Z ApprovalRecord;
  Operator : gmap (address * address) bool;
  Balance : gmap address Z;
  TotalSupply : option Z;
  TokenUri : gmap Z string;
  ReentrancyGuard : option bool;
  Transferable : gmap Z bool;
  MetadataLocked : gmap Z bool;
  Events : list event
}.
#[export] Instance eta_state : Eta state := fun s =>
  mkState (Admin s) (Metadata s) (Owner s) (Approved s) (Operator s) (Balance s)
    (TotalSupply s) (TokenUri s) (ReentrancyGuard s) (Transferable s)
    (MetadataLocked s) (Events s).
Definition empty : state := mkState None ∅ ∅ ∅ ∅ ∅ None ∅ None ∅ ∅ [].

Definition balance_of (s : state) (a : address) : Z := default 0 (Balance s !! a).
Definition total_supply (s : state) : Z := default 0 (TotalSupply s).
Definition owner_of (s : state) (id : Z) : option address := Owner s !! id.
Definition token_uri (s : state) (id : Z) : string := default EmptyString (TokenUri s !! id).
Definition get_metadata (s : state) (id : Z) : option LoanMetadata := Metadata s !! id.
Definition get_token_uri (s : state) (token_id : Z) : string :=
  from_option uri EmptyString (Metadata s !! token_id).
Definition is_metadata_locked (s : state) (id : Z) : bool := default false (MetadataLocked s !! id).
Definition is_approved_for_all (s : state) (owner op : address) : bool :=
  default false (Operator s !! (owner, op)).
Definition get_approved (env : Env) (s : state) (id : Z) : option address :=
  match Approved s !! id with
  | Some rec => if timestamp env <? expires_at rec then Some (operator rec) else None
  | None => None
  end.

Section ops.
Context {E : Type}.
Abbreviation X A := (M state E A).
Implicit Types env : Env.

Definition emit (e : event) : X unit := modify (fun s => s <| Events := Events s ++ [e] |>).

Definition initialize (admin : address) : X unit :=
  let! a := gets Admin in
  do! panic_if (bool_decide (is_Some a));
  do! modify (fun s => s <| Admin := Some admin |>);
  modify (fun s => s <| TotalSupply := Some 0 |>).

Definition check_admin env : X unit :=
  let! a := gets Admin in
  let! admin := unwrap a in
  require_auth env admin.

Definition enter_reentrancy_guard : X unit :=
  let! g := gets ReentrancyGuard in
  do! panic_if (bool_decide (is_Some g));
  modify (fun s => s <| ReentrancyGuard := Some true |>).
Definition exit_reentrancy_guard : X unit :=
  modify (fun s => s <| ReentrancyGuard := None |>).

Definition set_balance (a : address) (b : Z) : X unit :=
  modify (fun s => s <| Balance := <[a := b]> (Balance s) |>).

Definition mint env (to : address) (metadata : LoanMetadata) : X unit :=
  do! check_admin env;
  do! enter_reentrancy_guard;
  let id := loan_id metadata in
  let! exists_ := gets (fun s => Metadata s !! id) in
  do! when (bool_decide (is_Some exists_)) (do! exit_reentrancy_guard; trap);
  do! modify (fun s => s <| Metadata := <[id := metadata]> (Metadata s) |>);
  do! modify (fun s => s <| Owner := <[id := to]> (Owner s) |>);
  do! modify (fun s => s <| Transferable := <[id := false]> (Transferable s) |>);
  do! modify (fun s => s <| MetadataLocked := <[id := true]> (MetadataLocked s) |>);
  let! supply := gets total_supply in
  let! supply' := add64 supply 1 in
  do! modify (fun s => s <| TotalSupply := Some supply' |>);
  let! bal := gets (fun s => balance_of s to) in
  let! bal' := add64 bal 1 in
  do! set_balance to bal';
  do! emit (TransferEvent None (Some to) id);
  exit_reentrancy_guard.

Definition burn env (id : Z) : X unit :=
  do! check_admin env;
  do! enter_reentrancy_guard;
  let! o := gets (fun s => owner_of s id) in
  let! owner := unwrap o in
  do! modify (fun s => s <| Metadata := delete id (Metadata s) |>);
  do! modify (fun s => s <| Owner := delete id (Owner s) |>);
  do! modify (fun s => s <| Approved := delete id (Approved s) |>);
  do! modify (fun s => s <| TokenUri := delete id (TokenUri s) |>);
  do! modify (fun s => s <| Transferable := delete id (Transferable s) |>);
  do! modify (fun s => s <| MetadataLocked := delete id (MetadataLocked s) |>);
  let! supply := gets total_supply in
  do! when (0 <? supply) (modify (fun s => s <| TotalSupply := Some (supply - 1) |>));
  let! bal := gets (fun s => balance_of s owner) in
  do! set_balance owner (saturating_sub bal 1);
  do! emit (TransferEvent (Some owner) None id);
  exit_reentrancy_guard.

Definition check_transfer_restriction (id : Z) : X unit :=
  let! b := gets (fun s => default true (Transferable s !! id)) in
  panic_if (negb b).

Definition do_transfer (from to : address) (id : Z) : X unit :=
  do! modify (fun s => s <| Owner := <[id := to]> (Owner s) |>);
  do! modify (fun s => s <| Approved := delete id (Approved s) |>);
  let! balance_from := gets (fun s => balance_of s from) in
  do! set_balance from (saturating_sub balance_from 1);
  let! balance_to := gets (fun s => balance_of s to) in
  let! b := add64 balance_to 1 in
  do! set_balance to b;
  emit (TransferEvent (Some from) (Some to) id).

Definition transfer env (from to : address) (id : Z) : X unit :=
  do! require_auth env from;
  do! enter_reentrancy_guard;
  do! check_transfer_restriction id;
  let! o := gets (fun s => owner_of s id) in
  let! owner := unwrap o in
  do! panic_if (negb (bool_decide (owner = from)));
  do! do_transfer from to id;
  exit_reentrancy_guard.

(** The spender test of [transfer_from]: the holder itself, an operator, or
    the approved address before its approval expires. *)
Definition may_spend env (s : state) (spender from : address) (id : Z) : bool :=
  if bool_decide (spender = from) then true
  else if is_approved_for_all s from spender then true
  else match Approved s !! id with
       | Some r => negb (negb (bool_decide (operator r = spender)) ||
                         (expires_at r <=? timestamp env))
       | None => false
       end.

Definition transfer_from env (spender from to : address) (id : Z) : X unit :=
  do! require_auth env spender;
  do! enter_reentrancy_guard;
  do! check_transfer_restriction id;
  let! o := gets (fun s => owner_of s id) in
  let! owner := unwrap o in
  do! panic_if (negb (bool_decide (owner = from)));
  let! ok := gets (fun s => may_spend env s spender from id) in
  do! panic_if (negb ok);
  do! do_transfer from to id;
  exit_reentrancy_guard.

Definition approve env (caller op : address) (id : Z) : X unit :=
  do! require_auth env caller;
  let! o := gets (fun s => owner_of s id) in
  let! owner := unwrap o in
  do! panic_if (bool_decide (op = owner));
  let! all := gets (fun s => is_approved_for_all s owner caller) in
  do! panic_if (negb (bool_decide (caller = owner)) && negb all);
  let expires := saturating_add64 (timestamp env) DEFAULT_APPROVAL_EXPIRATION_SECONDS in
  do! modify (fun s => s <| Approved := <[id := mkApproval op expires]> (Approved s) |>);
  emit (ApprovalEvent owner op id).

Definition set_approval_for_all env (caller op : address) (approved : bool) : X unit :=
  do! require_auth env caller;
  do! panic_if (bool_decide (caller = op));
  do! modify (fun s => s <| Operator := <[(caller, op) := approved]> (Operator s) |>);
  emit (ApprovalForAllEvent caller op approved).

Definition set_token_uri env (id : Z) (u : string) : X unit :=
  do! check_admin env;
  let! m := gets (fun s => Metadata s !! id) in
  do! panic_if (negb (bool_decide (is_Some m)));
  modify (fun s => s <| TokenUri := <[id := u]> (TokenUri s) |>).

Definition set_transferable env (id : Z) (b : bool) : X unit :=
  do! check_admin env;
  let! m := gets (fun s => Metadata s !! id) in
  do! panic_if (negb (bool_decide (is_Some m)));
  modify (fun s => s <| Transferable := <[id := b]> (Transferable s) |>).
End ops.

(** * The contract as a transition system *)

Inductive call :=
  | CInitialize (admin : address)
  | CMint (to : address) (metadata : LoanMetadata)
  | CBurn (id : Z)
  | CTransfer (from to : address) (id : Z)
  | CTransferFrom (spender from to : address) (id : Z)
  | CApprove (caller op : address) (id : Z)
  | CSetApprovalForAll (caller op : address) (approved : bool)
  | CSetTokenUri (id : Z) (u : string)
  | CSetTransferable (id : Z) (b : bool).

Definition exec {E} (env : Env) (c : call) : M state E unit :=
  match c with
  | CInitialize admin => initialize admin
  | CMint to md => mint env to md
  | CBurn id => burn env id
  | CTransfer from to id => transfer env from to id
  | CTransferFrom sp from to id => transfer_from env sp from to id
  | CApprove caller op id => approve env caller op id
  | CSetApprovalForAll caller op b => set_approval_for_all env caller op b
  | CSetTokenUri id u => set_token_uri env id u
  | CSetTransferable id b => set_transferable env id b
  end.

Inductive reachable : state -> Prop :=
  | reach_init : reachable empty
  | reach_step env c s s' : reachable s -> @exec Empty_set env c s = Ok tt s' -> reachable s'.

(** * Inversion of the operations *)

Ltac nft_inv :=
  unfold check_admin, enter_reentrancy_guard, exit_reentrancy_guard, emit, set_balance in *;
  run_inv;
  repeat match goal with
  | H : when ?b _ _ = Ok _ _ |- _ =>
    rewrite when_Ok in H; destruct b eqn:?; run_inv
  | H : bool_decide _ = true |- _ => apply bool_decide_eq_true in H
  | H : bool_decide _ = false |- _ => apply bool_decide_eq_false in H
  | H : negb _ = false |- _ => apply negb_false_iff in H
  | H : ~ is_Some _ |- _ => apply eq_None_not_Some in H
  end; subst.

Section inversion.
Context {E : Type}.
Implicit Types (env : Env) (s : state).

Lemma nft_mint_Ok env to md s s' :
  @mint E env to md s = Ok tt s' ->
  (exists adm, Admin s = Some adm /\ adm ∈ auths env) /\
  ReentrancyGuard s = None /\ Metadata s !! loan_id md = None /\
  s' = mkState (Admin s) (<[loan_id md := md]> (Metadata s)) (<[loan_id md := to]> (Owner s))
    (Approved s) (Operator s) (<[to := balance_of s to + 1]> (Balance s))
    (Some (total_supply s + 1)) (TokenUri s) None
    (<[loan_id md := false]> (Transferable s)) (<[loan_id md := true]> (MetadataLocked s))
    (Events s ++ [TransferEvent None (Some to) (loan_id md)]).
Proof. unfold mint. intros H. nft_inv. split_and!; eauto. Qed.

Lemma nft_burn_Ok env id s s' :
  @burn E env id s = Ok tt s' ->
  exists owner, (exists adm, Admin s = Some adm /\ adm ∈ auths env) /\
  ReentrancyGuard s = None /\ Owner s !! id = Some owner /\
  s' = mkState (Admin s) (delete id (Metadata s)) (delete id (Owner s))
    (delete id (Approved s)) (Operator s)
    (<[owner := saturating_sub (balance_of s owner) 1]> (Balance s))
    (if 0 <? total_supply s then Some (total_supply s - 1) else TotalSupply s)
    (delete id (TokenUri s)) None
    (delete id (Transferable s)) (delete id (MetadataLocked s))
    (Events s ++ [TransferEvent (Some owner) None id]).
Proof.
  unfold burn, owner_of. intros H. nft_inv;
    (eexists; split_and!; [eauto..|]; unfold total_supply in *; cbn in *;
     match goal with Hb : (0 <? _) = _ |- _ => rewrite Hb end; done).
Qed.

Lemma nft_do_transfer_Ok from to id s s' :
  @do_transfer E from to id s = Ok tt s' ->
  s' = mkState (Admin s) (Metadata s) (<[id := to]> (Owner s)) (delete id (Approved s))
    (Operator s)
    (let b := <[from := saturating_sub (balance_of s from) 1]> (Balance s) in
     <[to := default 0 (b !! to) + 1]> b)
    (TotalSupply s) (TokenUri s) (ReentrancyGuard s) (Transferable s) (MetadataLocked s)
    (Events s ++ [TransferEvent (Some from) (Some to) id]).
Proof. unfold do_transfer. intros H. nft_inv. done. Qed.

Lemma nft_transfer_Ok env from to id s s' :
  @transfer E env from to id s = Ok tt s' ->
  from ∈ auths env /\ ReentrancyGuard s = None /\
  default true (Transferable s !! id) = true /\ Owner s !! id = Some from /\
  exists s1, @do_transfer E from to id (s <| ReentrancyGuard := Some true |>) = Ok tt s1 /\
    s' = s1 <| ReentrancyGuard := None |>.
Proof.
  unfold transfer, check_transfer_restriction, owner_of. intros H. nft_inv. cbn in *.
  split_and!; eauto.
Qed.

Lemma nft_transfer_from_Ok env sp from to id s s' :
  @transfer_from E env sp from to id s = Ok tt s' ->
  sp ∈ auths env /\ ReentrancyGuard s = None /\
  default true (Transferable s !! id) = true /\ Owner s !! id = Some from /\
  may_spend env s sp from id = true /\
  exists s1, @do_transfer E from to id (s <| ReentrancyGuard := Some true |>) = Ok tt s1 /\
    s' = s1 <| ReentrancyGuard := None |>.
Proof.
  unfold transfer_from, check_transfer_restriction, owner_of. intros H. nft_inv. cbn in *.
  split_and!; eauto.
Qed.
End inversion.

(** * Ledger consistency *)

Definition owned_by (a : address) (id : Z) (o : address) : Z := if decide (o = a) then 1 else 0.

Record wf (s : state) : Prop := {
  wf_dom : forall id, is_Some (Metadata s !! id) <-> is_Some (Owner s !! id);
  wf_supply : total_supply s = msum (fun _ _ => 1) (Owner s);
  wf_balance : forall a, balance_of s a = msum (owned_by a) (Owner s);
  wf_approved : forall id, is_Some (Approved s !! id) -> is_Some (Owner s !! id);
  wf_locked : forall id, is_Some (Metadata s !! id) -> is_metadata_locked s id = true;
  wf_key : forall id md, Metadata s !! id = Some md -> loan_id md = id;
  wf_admin : Admin s = None -> Owner s = ∅;
  wf_guard : ReentrancyGuard s = None
}.

Lemma owned_by_nonneg a m : 0 <= msum (owned_by a) m.
Proof. apply msum_nonneg. intros. unfold owned_by. case_decide; lia. Qed.

Lemma owned_by_pos a (m : gmap Z address) id : m !! id = Some a -> 1 <= msum (owned_by a) m.
Proof.
  intros Hid. transitivity (owned_by a id a); [unfold owned_by; by case_decide|].
  apply msum_lookup_le; [|done]. intros. unfold owned_by. case_decide; lia.
Qed.

Lemma size_pos (m : gmap Z address) id a : m !! id = Some a -> 1 <= msum (fun _ _ => 1) m.
Proof. intros Hid. by apply (msum_lookup_le (fun _ _ => 1)) with (k := id) (v := a). Qed.

Lemma wf_empty : wf empty.
Proof. split; try done; intros *; cbn; by rewrite ?lookup_empty. Qed.

Lemma mint_wf {E} env to md s s' : wf s -> @mint E env to md s = Ok tt s' -> wf s'.
Proof.
  intros Hwf H. apply nft_mint_Ok in H as ([adm [Hadm _]] & _ & Hnone & ->).
  assert (Owner s !! loan_id md = None) as Ho.
  { apply eq_None_not_Some. rewrite <-(wf_dom s Hwf). by rewrite Hnone; intros []. }
  destruct Hwf as [Hd Hs Hb Ha Hl Hk Had Hg]. split; cbn; try done.
  - intros id. rewrite !lookup_insert_is_Some. by rewrite Hd.
  - unfold total_supply in *; cbn in *. rewrite msum_insert_fresh by done. lia.
  - intros a. unfold balance_of at 1; cbn. rewrite msum_insert_fresh by done.
    unfold owned_by at 1. case_decide as Hd'; [subst; rewrite lookup_insert_eq; simpl|].
    + rewrite Hb. lia.
    + rewrite lookup_insert_ne by done. apply Hb.
  - intros id Hid. apply lookup_insert_is_Some. destruct (decide (loan_id md = id)); eauto.
  - intros id. unfold is_metadata_locked; cbn.
    rewrite lookup_insert_is_Some. destruct (decide (loan_id md = id)) as [->|Hne].
    + by rewrite lookup_insert_eq.
    + rewrite lookup_insert_ne by done. intros [?|[_ ?]]; [done|]. by apply Hl.
  - intros id md' [[<- <-]|[_ ?]]%lookup_insert_Some; eauto.
  - congruence.
Qed.

Lemma burn_wf {E} env id s s' : wf s -> @burn E env id s = Ok tt s' -> wf s'.
Proof.
  intros Hwf H. apply nft_burn_Ok in H as (owner & [adm [Hadm _]] & _ & Ho & ->).
  pose proof (wf_balance s Hwf) as Hb0.
  destruct Hwf as [Hd Hs Hb Ha Hl Hk Had Hg]. split; cbn; try done.
  - intros id'. rewrite !lookup_delete_is_Some. by rewrite Hd.
  - pose proof (size_pos _ _ _ Ho). unfold total_supply in *; cbn.
    rewrite msum_delete, Ho. simpl. destruct (Z.ltb_spec 0 (default 0 (TotalSupply s))); cbn; lia.
  - intros a. unfold balance_of at 1; cbn. rewrite msum_delete, Ho. simpl.
    unfold owned_by at 2. case_decide as Hd'; [subst; rewrite lookup_insert_eq; simpl|].
    + rewrite Hb. pose proof (owned_by_pos _ _ _ Ho). ulia.
    + rewrite lookup_insert_ne by done. rewrite Z.sub_0_r. apply Hb.
  - intros id'. rewrite !lookup_delete_is_Some. naive_solver.
  - intros id'. unfold is_metadata_locked; cbn. rewrite lookup_delete_is_Some.
    intros [Hne ?]. rewrite lookup_delete_ne by done. by apply Hl.
  - intros id' md [_ ?]%lookup_delete_Some; eauto.
  - congruence.
Qed.

Lemma do_transfer_wf {E} from to id s s' :
  wf s -> Owner s !! id = Some from ->
  @do_transfer E from to id (s <| ReentrancyGuard := Some true |>) = Ok tt s' ->
  wf (s' <| ReentrancyGuard := None |>).
Proof.
  intros Hwf Ho H. apply nft_do_transfer_Ok in H as ->.
  destruct Hwf as [Hd Hs Hb Ha Hl Hk Had Hg]. split; cbn; try done.
  - intros id'. rewrite lookup_insert_is_Some, Hd. destruct (decide (id = id')); naive_solver.
  - unfold total_supply in *; cbn in *. rewrite msum_insert, Ho; simpl. lia.
  - intros a. rewrite msum_insert, Ho; simpl. pose proof (owned_by_pos _ _ _ Ho).
    rewrite <-Hb in *. unfold balance_of in *; cbn.
    unfold owned_by.
    destruct (decide (to = a)) as [->|], (decide (from = a)) as [->|];
      rewrite ?lookup_insert_eq; simpl; rewrite ?lookup_insert_eq;
      repeat (rewrite lookup_insert_ne by done); rewrite ?lookup_insert_eq; simpl; ulia.
  - intros id'. rewrite lookup_delete_is_Some, lookup_insert_is_Some.
    intros [? ?]. right. split; [done|]. by apply Ha.
  - intros Hn. specialize (Had Hn). rewrite Had, lookup_empty in Ho. done.
Qed.

Lemma exec_wf {E} env c s s' : wf s -> @exec E env c s = Ok tt s' -> wf s'.
Proof.
  intros Hwf. destruct c; simpl; intros H.
  - unfold initialize in H. nft_inv. destruct Hwf as [Hd Hs Hb Ha Hl Hk Had Hg].
    split; cbn; try done. rewrite Had; done.
  - by eapply mint_wf.
  - by eapply burn_wf.
  - apply nft_transfer_Ok in H as (_ & _ & _ & Ho & s1 & Hs1 & ->). by eapply do_transfer_wf.
  - apply nft_transfer_from_Ok in H as (_ & _ & _ & Ho & _ & s1 & Hs1 & ->).
    by eapply do_transfer_wf.
  - unfold approve, owner_of in H. nft_inv. destruct Hwf as [Hd Hs Hb Ha Hl Hk Had Hg].
    split; cbn; try done. intros id'. rewrite lookup_insert_is_Some. naive_solver.
  - unfold set_approval_for_all in H. nft_inv. by destruct Hwf.
  - unfold set_token_uri in H. nft_inv. by destruct Hwf.
  - unfold set_transferable in H. nft_inv. by destruct Hwf.
Qed.

Lemma reachable_wf s : reachable s -> wf s.
Proof. induction 1; [apply wf_empty|by eapply exec_wf]. Qed.

(** * Properties *)

(** C40: In every reachable state of the loan NFT contract the total supply counts the
    tokens, each balance counts the tokens of its owner, metadata exists exactly for the
    tokens, and only existing tokens carry an approval. *)
Theorem nft_ledger_consistent s :
  reachable s ->
  total_supply s = msum (fun _ _ => 1) (Owner s) /\
  (forall a, balance_of s a = msum (owned_by a) (Owner s)) /\
  (forall id, is_Some (get_metadata s id) <-> is_Some (owner_of s id)) /\
  (forall env id op, get_approved env s id = Some op -> is_Some (owner_of s id)).
Proof.
  intros Hr. apply reachable_wf in Hr as [Hd Hs Hb Ha Hl Hk Had Hg].
  split_and!; [done..|]. intros env id op. unfold get_approved, owner_of.
  destruct (Approved s !! id) eqn:?; [|done]. intros _. apply Ha. eauto.
Qed.

Lemma nft_ledger_consistent_witness :
  let md := mkMetadata 1 2%positive 100 150 3%positive 9 6666 0 EmptyString in
  let env := mkEnv 0 0 5%positive {[ 9%positive ]} in
  exists s, reachable s /\ balance_of s 2%positive = msum (owned_by 2%positive) (Owner s).
Proof.
  intros md env. eexists. apply and_wlog_r.
  - eapply reach_step with (env := env) (c := CMint 2%positive md).
    + eapply reach_step with (env := env) (c := CInitialize 9%positive).
      * apply reach_init.
      * vm_compute. reflexivity.
    + vm_compute. reflexivity.
  - intros Hr. by apply (nft_ledger_consistent _ Hr).
Defined.

(** A delegated transfer moves an unlocked token of its owner, was signed by the spender,
    who is the owner, an operator of the owner or the holder of an unexpired approval; it
    clears the approval and moves nothing else. *)
Theorem transfer_authorised {E} env sp from to id s s' :
  reachable s -> @transfer_from E env sp from to id s = Ok tt s' ->
  owner_of s id = Some from /\ default true (Transferable s !! id) = true /\
  sp ∈ auths env /\
  (sp = from \/ is_approved_for_all s from sp = true \/ get_approved env s id = Some sp) /\
  owner_of s' id = Some to /\ get_approved env s' id = None /\
  (forall id', id' <> id -> owner_of s' id' = owner_of s id').
Proof.
  intros Hr H. apply nft_transfer_from_Ok in H as (Hau & _ & Ht & Ho & Hsp & s1 & Hs1 & ->).
  apply nft_do_transfer_Ok in Hs1 as ->. split_and!; try done.
  - unfold may_spend, get_approved in *. case_bool_decide; [by left|right].
    destruct (is_approved_for_all s from sp); [by left|right].
    destruct (Approved s !! id) as [r|]; [|done].
    apply negb_true_iff, orb_false_iff in Hsp as [Hop Hexp].
    apply negb_false_iff, bool_decide_eq_true in Hop. apply Z.leb_gt in Hexp.
    destruct (Z.ltb_spec (timestamp env) (expires_at r)); [by subst|lia].
  - unfold owner_of; cbn. by rewrite lookup_insert_eq.
  - unfold get_approved; cbn. by rewrite lookup_delete_eq.
  - intros id' Hne. unfold owner_of; cbn. by rewrite lookup_insert_ne.
Qed.

(** The metadata of a loan NFT, keyed by its own loan identifier and locked at mint, is
    never changed by any call; it disappears only when the token is burnt. *)
Theorem metadata_immutable {E} env c s s' id md :
  reachable s -> @exec E env c s = Ok tt s' -> get_metadata s id = Some md ->
  loan_id md = id /\ is_metadata_locked s id = true /\
  (get_metadata s' id = Some md \/ c = CBurn id /\ get_metadata s' id = None).
Proof.
  intros Hr H Hmd. apply reachable_wf in Hr. unfold get_metadata in *.
  split_and!; [by eapply wf_key|by apply (wf_locked _ Hr)|].
  destruct c; simpl in H.
  - unfold initialize in H. nft_inv. by left.
  - apply nft_mint_Ok in H as (_ & _ & Hn & ->); cbn. left.
    rewrite lookup_insert_ne; [done|]. intros <-. congruence.
  - apply nft_burn_Ok in H as (o & _ & _ & _ & ->); cbn.
    destruct (decide (id0 = id)) as [->|]; [right|left].
    + by rewrite lookup_delete_eq.
    + by rewrite lookup_delete_ne.
  - apply nft_transfer_Ok in H as (_ & _ & _ & _ & s1 & Hs1 & ->).
    apply nft_do_transfer_Ok in Hs1 as ->. by left.
  - apply nft_transfer_from_Ok in H as (_ & _ & _ & _ & _ & s1 & Hs1 & ->).
    apply nft_do_transfer_Ok in Hs1 as ->. by left.
  - unfold approve in H. nft_inv. by left.
  - unfold set_approval_for_all in H. nft_inv. by left.
  - unfold set_token_uri in H. nft_inv. by left.
  - unfold set_transferable in H. nft_inv. by left.
Qed.

Section witnesses.
Let env := mkEnv 0 0 5%positive {[ 9%positive; 2%positive ]}.
Let md := mkMetadata 1 2%positive 100 150 3%positive 9 6666 0 EmptyString.

(** The contract after initialisation, one mint to account 2 and unlocking. *)
Definition init : state := after (@exec Empty_set env (CInitialize 9%positive)) empty.
Definition locked_nft : state := after (@exec Empty_set env (CMint 2%positive md)) init.
Definition minted : state := after (@exec Empty_set env (CSetTransferable 1 true)) locked_nft.
Definition moved_on : state :=
  after (@exec Empty_set env (CTransferFrom 2%positive 2%positive 4%positive 1)) minted.
Definition burnt : state := after (@exec Empty_set env (CBurn 1)) minted.

Lemma minted_reachable : reachable minted.
Proof.
  apply (reach_step env (CSetTransferable 1 true) locked_nft); [|vm_compute; reflexivity].
  apply (reach_step env (CMint 2%positive md) init); [|vm_compute; reflexivity].
  apply (reach_step env (CInitialize 9%positive) empty); [|vm_compute; reflexivity].
  apply reach_init.
Qed.

Lemma transfer_authorised_witness : owner_of minted 1 = Some 2%positive.
Proof.
  assert (@exec Empty_set env (CTransferFrom 2%positive 2%positive 4%positive 1) minted
          = Ok tt moved_on) as Hm by (vm_compute; reflexivity).
  exact (proj1 (transfer_authorised _ _ _ _ _ _ _ minted_reachable Hm)).
Defined.

Lemma metadata_immutable_witness : is_metadata_locked minted 1 = true.
Proof.
  assert (@exec Empty_set env (CBurn 1) minted = Ok tt burnt) as Hm by (vm_compute; reflexivity).
  assert (get_metadata minted 1 = Some md) as Hmd by (vm_compute; reflexivity).
  exact (proj1 (proj2 (metadata_immutable _ _ _ _ _ _ minted_reachable Hm Hmd))).
Defined.
End witnesses.

End LoanNft.
