(* ===== verification/PlanVault.v ===== *)
(** Per-plan custody vault ([contracts/plan-vault/src/lib.rs]): initialised
    once, releases tokens only under its controller's authorisation. *)
From S2P Require Import Prelude Host Token MockToken.

Module PlanVault.

Inductive PlanVaultError := Unauth | BadAmt | TxFail.

(** The instance storage, keyed by [PlanVaultKey]. *)
Record store := mkStore {
  Init : option bool;
  Ctl : option address;
  Owner : option address;
  Pid : option Z
}.
#[export] Instance eta_store : Eta store := fun s => mkStore (Init s) (Ctl s) (Owner s) (Pid s).
Definition fresh : store := mkStore None None None None.

Section vault.
Context {T : Type} `{TokenOps T}.

(** The vault's storage and the token network. *)
Record world := mkWorld { st : store; toks : T }.
#[export] Instance eta_world : Eta world := fun w => mkWorld (st w) (toks w).
Abbreviation X A := (M world PlanVaultError A).

Definition initialize (controller owner : address) (plan_id : Z) : X unit :=
  let! i := gets (fun w => default false (Init (st w))) in
  do! reject_if i Unauth;
  do! modify (fun w => w <| st := (st w) <| Ctl := Some controller |> |>);
  do! modify (fun w => w <| st := (st w) <| Owner := Some owner |> |>);
  do! modify (fun w => w <| st := (st w) <| Pid := Some plan_id |> |>);
  modify (fun w => w <| st := (st w) <| Init := Some true |> |>).

Definition release (env : Env) (token recipient : address) (amount : Z) : X unit :=
  do! reject_if (amount =? 0) BadAmt;
  let! c := gets (fun w => Ctl (st w)) in
  let! controller := ok_or c Unauth in
  do! require_auth env controller;
  let vault_address := current_contract env in
  let! t := gets toks in
  match tk_transfer t (auths (sub_env env token)) token vault_address recipient amount with
  | None => fail TxFail
  | Some t' => modify (fun w => w <| toks := t' |>)
  end.

Definition balance (env : Env) (token : address) : X Z :=
  gets (fun w => tk_balance (toks w) token (current_contract env)).

(** The vault's entry points, each a whole invocation. *)
Inductive call :=
  | CInitialize (controller owner : address) (plan_id : Z)
  | CRelease (token recipient : address) (amount : Z).

Definition exec (env : Env) (c : call) : X unit :=
  match c with
  | CInitialize ctl own pid => initialize ctl own pid
  | CRelease tok r a => release env tok r a
  end.

(** C-VAULT-INIT: once initialised, no sequence of invocations changes the
    controller, the owner or the plan. *)
Definition initialised (w : world) : Prop := Init (st w) = Some true.

Lemma exec_keeps_store env c w :
  initialised w -> st (invoke (exec env c) w).2 = st w.
Proof.
  intros Hi. unfold invoke. destruct (exec env c w) as [u w'| |] eqn:He; try done.
  simpl. destruct c; simpl in He.
  - unfold initialize in He. run_inv. by rewrite Hi in *.
  - unfold release in He. run_inv.
    destruct (tk_transfer _ _ _ _ _ _); run_inv. done.
Qed.

(** Initialising a fresh vault succeeds, and after it no sequence of invocations changes
    its controller, owner or plan, and a second initialisation is refused without effect.
    *)
Theorem initialize_once w controller owner plan_id (calls : list (Env * call)) :
  default false (Init (st w)) = false ->
  exists w1, invoke (initialize controller owner plan_id) w = (Returned tt, w1) /\
    let w2 := fold_left (fun w '(env, c) => (invoke (exec env c) w).2) calls w1 in
    st w2 = mkStore (Some true) (Some controller) (Some owner) (Some plan_id) /\
    forall c o p, invoke (initialize c o p) w2 = (Errored Unauth, w2).
Proof.
  intros Hi. set (w1 := mkWorld (mkStore (Some true) (Some controller) (Some owner)
    (Some plan_id)) (toks w)). exists w1. split.
  { apply invoke_Returned. unfold initialize. run_fwd ltac:(done). }
  assert (initialised w1) as Hw1 by done.
  assert (Hst : st w1 = mkStore (Some true) (Some controller) (Some owner) (Some plan_id)) by done.
  clearbody w1. cbv zeta. revert w1 Hw1 Hst.
  induction calls as [|[env c] calls IH]; intros w1 Hw1 Hst; simpl.
  - split; [done|]. intros. unfold invoke, initialize, bind, gets. by rewrite Hw1.
  - apply IH; unfold initialised; by rewrite exec_keeps_store.
Qed.

(** A release is authorised by the controller, is of a positive amount the vault holds,
    and moves exactly that amount to the recipient. *)
Theorem release_spec `{!TokenLaws T} env token recipient amount w w' :
  recipient <> current_contract env ->
  release env token recipient amount w = Ok tt w' ->
  exists controller, Ctl (st w) = Some controller /\ controller ∈ auths env /\
    0 < amount <= tk_balance (toks w) token (current_contract env) /\ st w' = st w /\
    forall tok a, tk_balance (toks w') tok a =
      tk_balance (toks w) tok a + moved token (current_contract env) recipient amount tok a.
Proof.
  intros Hne Hr. unfold release in Hr. run_inv.
  destruct (tk_transfer _ _ _ _ _ _) as [t'|] eqn:Ht; run_inv.
  apply tk_transfer_spec in Ht as (_ & Ha & Hmv); [|done].
  match goal with Hz : (amount =? 0) = false |- _ => apply Z.eqb_neq in Hz end.
  eexists. split_and!; [done|done|lia|lia|done|done].
Qed.
End vault.

Definition demo_vault : address := 1%positive.
Definition demo_tok : address := 2%positive.
Definition demo_ctl : address := 3%positive.
Definition demo_heir : address := 4%positive.
Definition demo_net : MockToken.network :=
  {[ demo_tok := MockToken.mkState {[ demo_vault := 1000 ]} (Some 1000) ]}.
Definition demo_w0 : @world MockToken.network := mkWorld (mkStore (Some true) (Some demo_ctl) (Some 5%positive) (Some 1)) demo_net.
Definition demo_env : Env := mkEnv 0 0 demo_vault {[ demo_ctl ]}.

Lemma release_spec_witness :
    match release demo_env demo_tok demo_heir 250 demo_w0 with
    | Ok _ w' => tk_balance (toks w') demo_tok demo_heir = 250 /\ tk_balance (toks w') demo_tok demo_vault = 750
    | _ => False
    end.
  Proof.
    destruct (release demo_env demo_tok demo_heir 250 demo_w0) as [[] w'| |] eqn:Hr; [|by vm_compute in Hr..].
    apply release_spec in Hr as (c & _ & _ & _ & _ & Hmv); [|by vm_compute].
    rewrite !Hmv. vm_compute. by split.
  Defined.

Lemma initialize_once_witness :
  exists w1 : @world MockToken.network,
    invoke (initialize 3%positive 5%positive 1) (mkWorld fresh ∅) = (Returned tt, w1).
Proof.
  destruct (initialize_once (T := MockToken.network) (mkWorld fresh ∅) 3%positive 5%positive 1 [])
    as (w1 & Hw & _); [reflexivity|]. by exists w1.
Defined.

End PlanVault.
