(* ===== verification/InheritanceTypes.v ===== *)
(** Data model of the inheritance contract
    ([contracts/inheritance-contract/src/lib.rs], [src/disputes.rs]): constants,
    errors, records, storage keys, events, the host functions and peers it
    relies on, and the world an entry point runs in. *)
From S2P Require Import Prelude Host AccessControl Token PlanVault.
From Stdlib Require Import String.

Module InheritanceTypes.

(** * Constants *)
Definition CONTRACT_VERSION : Z := 1.
Definition MAX_BENEFICIARIES : Z := 10.
Definition EMERGENCY_TRANSFER_LIMIT_BP : Z := 1000.
Definition MAX_YIELD_RELAYERS : Z := 10.
Definition MAX_YIELD_HISTORY : Z := 20.
Definition MAX_YIELD_BATCH : Z := 25.
Definition EMERGENCY_COOLDOWN_PERIOD : Z := 86400.
Definition MIN_GRACE_PERIOD_SECONDS : Z := 604800.
Definition MAX_GRACE_PERIOD_SECONDS : Z := 5 * 365 * 24 * 60 * 60.
Definition EMERGENCY_EXPIRATION_PERIOD : Z := 604800.
Definition CLAIM_ATTEMPT_WINDOW_SECONDS : Z := 3600.
Definition CLAIM_MAX_ATTEMPTS_PER_WINDOW : Z := 10.
Definition CREATION_FEE_BP : Z := 200.
Definition BATCH_LIMIT : Z := 20.
Definition BATCH_MESSAGE_LIMIT : Z := 10.

(** * Errors *)
Inductive InheritanceError :=
  | InvalidAssetType | InvalidTotalAmount | MissingRequiredField | TooManyBeneficiaries
  | InvalidClaimCode | AllocationPercentageMismatch | DescriptionTooLong
  | InvalidBeneficiaryData | Unauthorized | PlanNotFound | InvalidBeneficiaryIndex
  | InvalidAllocation | InvalidClaimCodeRange | ClaimNotAllowedYet | AlreadyClaimed
  | BeneficiaryNotFound | PlanAlreadyDeactivated | PlanNotActive | AdminNotSet
  | AdminAlreadyInitialized | NotAdmin | KycNotSubmitted | PlanNotClaimed
  | KycAlreadyRejected | InsufficientBalance | FeeTransferFailed
  | InsufficientLiquidity | InheritanceAlreadyTriggered | EmergencyCooldownActive
  | VestingScheduleActive | NothingToClaim | EmergencyAccessAlreadyActive
  | InvalidGuardianThreshold | EmergencyContactAlreadyExists | TooManyEmergencyContacts
  | EmergencyContactNotFound | GuardianNotFound | AlreadyApproved
  | InheritanceNotTriggered | NoOutstandingLoans | LoanRecallFailed
  | WillHashAlreadyStored | VaultNotFound | WillAlreadyLinked | WillAlreadyFinalized
  | WillVersionNotFound | ReentrantCall | Blk.
#[global] Instance InheritanceError_eq_dec : EqDecision InheritanceError.
Proof. solve_decision. Defined.

Definition code (e : InheritanceError) : Z :=
  match e with
  | InvalidAssetType => 1 | InvalidTotalAmount => 2 | MissingRequiredField => 3
  | TooManyBeneficiaries => 4 | InvalidClaimCode => 5 | AllocationPercentageMismatch => 6
  | DescriptionTooLong => 7 | InvalidBeneficiaryData => 8 | Unauthorized => 9
  | PlanNotFound => 10 | InvalidBeneficiaryIndex => 11
  | InvalidAllocation => 13 | InvalidClaimCodeRange => 14 | ClaimNotAllowedYet => 15
  | AlreadyClaimed => 16 | BeneficiaryNotFound => 17 | PlanAlreadyDeactivated => 18
  | PlanNotActive => 19 | AdminNotSet => 20 | AdminAlreadyInitialized => 21
  | NotAdmin => 22 | KycNotSubmitted => 23 | PlanNotClaimed => 27
  | KycAlreadyRejected => 28 | InsufficientBalance => 29 | FeeTransferFailed => 30
  | InsufficientLiquidity => 31 | InheritanceAlreadyTriggered => 32
  | EmergencyCooldownActive => 33 | VestingScheduleActive => 34 | NothingToClaim => 35
  | EmergencyAccessAlreadyActive => 36 | InvalidGuardianThreshold => 37
  | EmergencyContactAlreadyExists => 38 | TooManyEmergencyContacts => 39
  | EmergencyContactNotFound => 40 | GuardianNotFound => 41 | AlreadyApproved => 42
  | InheritanceNotTriggered => 43 | NoOutstandingLoans => 44 | LoanRecallFailed => 45
  | WillHashAlreadyStored => 46 | VaultNotFound => 47 | WillAlreadyLinked => 48
  | WillAlreadyFinalized => 49 | WillVersionNotFound => 50 | ReentrantCall => 51
  | Blk => 52
  end.

(** * Records *)

(** [String], [Bytes] and [BytesN<32>] are sequences of bytes. *)
Abbreviation bytes := (list Z).
Abbreviation hash := (list Z).

Inductive DistributionMethod := LumpSum | Monthly | Quarterly | Yearly.

Record Beneficiary := mkBeneficiary {
  hashed_full_name : hash; hashed_email : hash; hashed_claim_code : hash;
  bank_account : bytes; allocation_bp : Z; priority : Z; is_claimed : bool
}.
#[global] Instance eta_beneficiary : Eta Beneficiary := fun b =>
  mkBeneficiary (hashed_full_name b) (hashed_email b) (hashed_claim_code b)
    (bank_account b) (allocation_bp b) (priority b) (is_claimed b).

Record BeneficiaryInput := mkInput {
  bi_name : bytes; bi_email : bytes; bi_claim_code : Z; bi_bank_account : bytes;
  bi_allocation_bp : Z; bi_priority : Z
}.

Record InheritancePlan := mkPlan {
  plan_name : bytes; description : bytes; token : address; asset_type : string;
  total_amount : Z; distribution_method : DistributionMethod;
  beneficiaries : list Beneficiary; total_allocation_bp : Z; owner : address;
  created_at : Z; is_active : bool; is_lendable : bool; total_loaned : Z;
  waterfall_enabled : bool; grace_period : Z; earn_yield : bool
}.
#[global] Instance eta_plan : Eta InheritancePlan := fun p =>
  mkPlan (plan_name p) (description p) (token p) (asset_type p) (total_amount p)
    (distribution_method p) (beneficiaries p) (total_allocation_bp p) (owner p)
    (created_at p) (is_active p) (is_lendable p) (total_loaned p) (waterfall_enabled p)
    (grace_period p) (earn_yield p).

Record GuardianConfig := mkGuardians { guardians : list address; threshold : Z }.

Record ClaimRecord := mkClaim { cr_plan_id : Z; cr_beneficiary_index : Z; cr_claimed_at : Z }.

Record ClaimAttemptWindow := mkWindow { window_start : Z; attempts : Z }.

Record KycStatus := mkKyc {
  submitted : bool; approved : bool; rejected : bool;
  submitted_at : Z; approved_at : Z; rejected_at : Z
}.
#[global] Instance eta_kyc : Eta KycStatus := fun k =>
  mkKyc (submitted k) (approved k) (rejected k) (submitted_at k) (approved_at k) (rejected_at k).

Record InheritanceTriggerInfo := mkTrigger {
  triggered_at : Z; loan_freeze_active : bool; recall_attempted : bool;
  liquidation_triggered : bool; original_loaned : Z; recalled_amount : Z;
  settled_amount : Z
}.
#[global] Instance eta_trigger : Eta InheritanceTriggerInfo := fun t =>
  mkTrigger (triggered_at t) (loan_freeze_active t) (recall_attempted t)
    (liquidation_triggered t) (original_loaned t) (recalled_amount t) (settled_amount t).

Record EmergencyAccessRecord := mkAccess {
  ea_plan_id : Z; trusted_contact : address; activated_at : Z
}.

Record YieldConfig := mkYieldConfig {
  auto_compound : bool; min_harvest_amount : Z; harvest_interval : Z;
  performance_fee_bp : Z
}.
Definition default_config : YieldConfig := mkYieldConfig true 0 0 0.

Record YieldHarvestRecord := mkHarvest {
  gross_amount : Z; net_amount : Z; fee_amount : Z; harvested_at : Z;
  harvested_by : address; compounded : bool
}.

Record PlanYieldState := mkYield {
  ys_asset : address; last_harvest_at : Z; total_harvested : Z; total_fees_paid : Z;
  harvest_count : Z; last_harvest_amount : Z; registered_principal : Z;
  pending_credit : Z; ys_paused : bool; config : YieldConfig;
  history : list YieldHarvestRecord
}.
#[global] Instance eta_yield : Eta PlanYieldState := fun y =>
  mkYield (ys_asset y) (last_harvest_at y) (total_harvested y) (total_fees_paid y)
    (harvest_count y) (last_harvest_amount y) (registered_principal y) (pending_credit y)
    (ys_paused y) (config y) (history y).

Record YieldSummary := mkSummary {
  sm_plan_id : Z; sm_asset : address; sm_registered_principal : Z; sm_total_harvested : Z;
  sm_total_fees_paid : Z; sm_pending_credit : Z; sm_harvest_count : Z;
  sm_last_harvest_at : Z; sm_last_harvest_amount : Z; sm_next_harvest_at : Z;
  sm_paused : bool; sm_auto_compound : bool
}.

Record LegacyMessageMetadata := mkMessage {
  vault_id : Z; message_id : Z; message_hash : hash; creator : address;
  key_reference : bytes; unlock_timestamp : Z; is_unlocked : bool; is_finalized : bool;
  msg_created_at : Z
}.
#[global] Instance eta_message : Eta LegacyMessageMetadata := fun m =>
  mkMessage (vault_id m) (message_id m) (message_hash m) (creator m) (key_reference m)
    (unlock_timestamp m) (is_unlocked m) (is_finalized m) (msg_created_at m).

Record CreateLegacyMessageParams := mkMessageParams {
  mp_vault_id : Z; mp_message_hash : hash; mp_unlock_timestamp : Z; mp_key_reference : bytes
}.

Record WillVersionInfo := mkWillVersion {
  wv_version : Z; wv_will_hash : hash; wv_created_at : Z; wv_is_active : bool
}.
#[global] Instance eta_will_version : Eta WillVersionInfo := fun v =>
  mkWillVersion (wv_version v) (wv_will_hash v) (wv_created_at v) (wv_is_active v).

Record WillSignatureProof := mkProof {
  pr_vault_id : Z; pr_will_hash : hash; signer : address; sig_hash : hash; signed_at : Z
}.

Inductive TriggerConditionType := CManual | CTime | CInactivity | COracle | CHealth.
#[global] Instance TriggerConditionType_eq_dec : EqDecision TriggerConditionType.
Proof. solve_decision. Defined.

Record TriggerConfig := mkConfig {
  conditions : list TriggerConditionType; trigger_date : Z; inactivity_period : Z;
  last_activity : Z; oracle_address : option address; oracle_triggered : bool;
  health_triggered : bool
}.
#[global] Instance eta_config : Eta TriggerConfig := fun c =>
  mkConfig (conditions c) (trigger_date c) (inactivity_period c) (last_activity c)
    (oracle_address c) (oracle_triggered c) (health_triggered c).

(** The tuples [(name, email, claim_code, bank_account, bp, priority)]. *)
Abbreviation beneficiary_data := (bytes * bytes * Z * bytes * Z * Z)%type.

Record CreateInheritancePlanParams := mkParams {
  cp_owner : address; cp_token : address; cp_plan_name : bytes; cp_description : bytes;
  cp_total_amount : Z; cp_distribution_method : DistributionMethod;
  cp_beneficiaries_data : list beneficiary_data; cp_is_lendable : bool;
  cp_guardians : list address; cp_guardian_threshold : Z
}.

Record FreezeRecord := mkFreeze {
  fz_plan_id : Z; frozen_at : Z; fz_reason : string; frozen_by : address
}.
Record LegalHold := mkHold {
  lh_plan_id : Z; lh_added_at : Z; lh_reason : bytes; lh_added_by : address
}.
Record BeneficiaryAcknowledgment := mkAck {
  ack_plan_id : Z; ack_beneficiary_index : Z; notification_sent_at : Z; acknowledged_at : Z
}.

Inductive DisputeStatus := Filed | UnderReview | Resolved | Rejected.
#[global] Instance DisputeStatus_eq_dec : EqDecision DisputeStatus.
Proof. solve_decision. Defined.
Record DisputeRecord := mkDispute {
  dispute_id : Z; ds_plan_id : Z; disputer : address; ds_reason : bytes;
  status : DisputeStatus; filed_at : Z; resolved_at : Z; resolution_notes : bytes;
  arbitrator : address
}.
#[global] Instance eta_dispute : Eta DisputeRecord := fun d =>
  mkDispute (dispute_id d) (ds_plan_id d) (disputer d) (ds_reason d) (status d)
    (filed_at d) (resolved_at d) (resolution_notes d) (arbitrator d).

(** * Events *)
Inductive plan_event :=
  | BeneficiaryAddedEvent (plan_id : Z) (email : hash) (bp : Z)
  | BeneficiaryRemovedEvent (plan_id index bp : Z)
  | PlanDeactivatedEvent (plan_id : Z) (owner : address) (total_amount deactivated_at : Z)
  | KycApprovedEvent (user : address) (approved_at : Z)
  | KycRejectedEvent (user : address) (rejected_at : Z)
  | LendingLinkedEvent (a : address)
  | GovernanceLinkedEvent (a : address).
Inductive yield_event :=
  | YieldHarvestedEvent (plan_id yield_amount new_total harvested_at : Z)
  | YieldCompoundedEvent (plan_id yield_amount new_total harvested_at : Z)
  | YieldFeeCollectedEvent (plan_id gross fee fee_bp : Z)
  | YieldConfigUpdatedEvent (plan_id : Z) (c : YieldConfig)
  | YieldPausedEvent (plan_id : Z) (paused : bool)
  | YieldBatchHarvestEvent (success fail total : Z)
  | YieldPositionRegisteredEvent (plan_id : Z) (asset : address) (principal : Z)
  | YieldRelayerUpdatedEvent (relayer : address) (authorized : bool).
Inductive vault_event :=
  | ContractUpgradedEvent (old_version new_version : Z) (wasm : hash) (admin : address) (at_ : Z)
  | VaultDepositEvent (plan_id amount : Z)
  | VaultWithdrawEvent (plan_id amount : Z)
  | VaultLendableChangedEvent (plan_id : Z) (is_lendable : bool)
  | GracePeriodUpdatedEvent (plan_id new_grace_period : Z)
  | InheritanceTriggeredEvent (plan_id triggered_at outstanding : Z)
  | LoanFreezeEvent (plan_id frozen_at : Z)
  | LoanRecallEvent (plan_id recalled remaining : Z)
  | LiquidationFallbackEvent (plan_id settled claimable : Z)
  | EmergencyAccessRevocationEvent (plan_id revoked_at : Z)
  | EmergencyAccessApprovedEvent (plan_id : Z) (contact guardian : address) (approvals : Z)
  | EmergencyAccessExpirationEvent (plan_id expired_at : Z)
  | EmergencyAccessActivatedEvent (plan_id : Z) (contact : address) (activated_at : Z)
  | EmergencyContactAddedEvent (plan_id : Z) (contact : address)
  | EmergencyContactRemovedEvent (plan_id : Z) (contact : address)
  | WaterfallEnabledEvent (plan_id enabled_at : Z)
  | PrioritySetEvent (plan_id index priority : Z).
Inductive message_event :=
  | MessageCreatedEvent (vault_id message_id timestamp : Z)
  | MessageUpdatedEvent (vault_id message_id timestamp : Z)
  | MessageFinalizedEvent (vault_id message_id timestamp : Z)
  | MessageDeletedEvent (vault_id message_id timestamp : Z)
  | MessageUnlockedEvent (vault_id message_id timestamp : Z)
  | MessageAccessedEvent (vault_id message_id timestamp : Z)
  | KeyRotatedEvent (vault_id version : Z).
Inductive will_event :=
  | WillHashStoredEvent (plan_id : Z) (h : hash)
  | WillLinkedToVaultEvent (plan_id : Z) (h : hash)
  | BeneficiariesVerifiedEvent (plan_id : Z) (status : bool)
  | WillVersionCreatedEvent (plan_id version : Z)
  | WillVersionActivatedEvent (plan_id version : Z).
Inductive batch_event :=
  | BatchBeneficiariesAddedEvent (plan_id success fail : Z)
  | BatchBeneficiariesRemovedEvent (plan_id success fail : Z)
  | BatchAllocationsUpdatedEvent (plan_id success : Z)
  | BatchKycApprovedEvent (success fail : Z)
  | BatchMessagesCreatedEvent (vault_id success fail : Z)
  | BatchClaimEvent (plan_id success fail : Z).
Inductive signing_event :=
  | WillSignedEvent (vault_id : Z) (signer : address)
  | WillFinalizedEvent (vault_id version finalized_at : Z)
  | WitnessAddedEvent (vault_id : Z) (witness : address)
  | WitnessSignedEvent (vault_id : Z) (witness : address)
  | PlanOwnershipTransferredEvent (plan_id : Z) (old new : address) (transferred_at : Z).
Inductive trigger_event :=
  | TriggerConditionSetEvent (plan_id count : Z)
  | TriggerConditionMetEvent (plan_id triggered_at : Z).
Inductive notice_event :=
  | PlanFrozenEvent (plan_id : Z) (frozen_by : address) (frozen_at : Z) (reason : string)
  | PlanUnfrozenEvent (plan_id : Z) (unfrozen_by : address) (unfrozen_at : Z)
  | BeneficiaryNotifiedEvent (plan_id index notified_at : Z)
  | BeneficiaryAcknowledgedEvent (plan_id index acknowledged_at : Z).
Inductive dispute_event :=
  | DisputeFiledEvent (id plan_id : Z) (disputer : address) (reason : bytes) (filed_at : Z)
  | DisputeRaisedEvent (id plan_id : Z) (disputer : address) (filed_at : Z)
  | DisputeResolvedEvent (id plan_id : Z) (status : DisputeStatus) (arbitrator : address)
      (resolved_at : Z)
  | DisputeFrozenEvent (plan_id dispute_id frozen_at : Z)
  | DisputeUnfrozenEvent (plan_id dispute_id unfrozen_at : Z).
(** Everything [env.events().publish] is called with; the last four are the
    untyped tuples. *)
Inductive event :=
  | EPlan (e : plan_event) | EYield (e : yield_event) | EVault (e : vault_event)
  | EMessage (e : message_event) | EWill (e : will_event) | EBatch (e : batch_event)
  | ESigning (e : signing_event) | ETrigger (e : trigger_event)
  | ENotice (e : notice_event) | EDispute (e : dispute_event)
  | AdminPaused (timestamp : Z) | AdminUnpaused (timestamp : Z)
  | ClaimSucceeded (plan_id : Z) (email : hash) (payout : Z)
  | FiatPayoutRequested (plan_id index payout : Z)
  | WrappedTokenEvent (add : bool) (token : address).
Coercion EPlan : plan_event >-> event.
Coercion EYield : yield_event >-> event.
Coercion EVault : vault_event >-> event.
Coercion EMessage : message_event >-> event.
Coercion EWill : will_event >-> event.
Coercion EBatch : batch_event >-> event.
Coercion ESigning : signing_event >-> event.
Coercion ETrigger : trigger_event >-> event.
Coercion ENotice : notice_event >-> event.
Coercion EDispute : dispute_event >-> event.

(** * Storage: one field per [DataKey] constructor or symbol key, grouped by
      the component that owns it *)

Record plan_store := mkPlans {
  Npi : option Z;
  P : gmap Z InheritancePlan;
  Up : gmap address (list Z);
  Uc : gmap address (list Z);
  Dp : option (list Z);
  Ac : option (list Z);
  Ad : option address;
  Ky : gmap address KycStatus;
  Ver : option Z;
  Lc : option address;
  Gc : option address;
  vhash : option hash;
  pvault : gmap Z address;
  supp_wrp : option (list address)
}.
#[global] Instance eta_plans : Eta plan_store := fun s =>
  mkPlans (Npi s) (P s) (Up s) (Uc s) (Dp s) (Ac s) (Ad s) (Ky s) (Ver s) (Lc s) (Gc s)
    (vhash s) (pvault s) (supp_wrp s).

(** [Ves], [Fb] and [Lh] are read, never written, by the contract. *)
Record claim_store := mkClaims {
  C : gmap hash ClaimRecord;
  Cs : gmap (Z * Z) hash;
  Ca : gmap (Z * address) ClaimAttemptWindow;
  Ves : gmap (Z * Z) Z;
  Fb : gmap (Z * Z) bool
}.
#[global] Instance eta_claims : Eta claim_store := fun s =>
  mkClaims (C s) (Cs s) (Ca s) (Ves s) (Fb s).

Record dispute_store := mkDisputes {
  Fz : gmap Z FreezeRecord;
  Lh : gmap Z LegalHold;
  Ndi : option Z;
  Ds : gmap Z DisputeRecord;
  Pd : gmap Z (list Z);
  Arb : option (list address)
}.
#[global] Instance eta_disputes : Eta dispute_store := fun s =>
  mkDisputes (Fz s) (Lh s) (Ndi s) (Ds s) (Pd s) (Arb s).

Record trigger_store := mkTriggers {
  It : gmap Z InheritanceTriggerInfo;
  Tc : gmap Z TriggerConfig;
  Eac : gmap Z EmergencyAccessRecord;
  Gd : gmap Z GuardianConfig;
  Eap : gmap (Z * address) (list address);
  Ec : gmap Z (list address)
}.
#[global] Instance eta_triggers : Eta trigger_store := fun s =>
  mkTriggers (It s) (Tc s) (Eac s) (Gd s) (Eap s) (Ec s).

Record will_store := mkWills {
  Wh : gmap Z hash;
  Vw : gmap Z hash;
  Bv : gmap Z bool;
  Wvc : gmap Z Z;
  Wv : gmap (Z * Z) WillVersionInfo;
  Awv : gmap Z Z;
  Ws : gmap Z WillSignatureProof;
  Su : gmap hash bool;
  Wf : gmap (Z * Z) bool;
  Wfa : gmap (Z * Z) Z;
  Ww : gmap Z (list address);
  Wsig : gmap (Z * address) Z
}.
#[global] Instance eta_wills : Eta will_store := fun s =>
  mkWills (Wh s) (Vw s) (Bv s) (Wvc s) (Wv s) (Awv s) (Ws s) (Su s) (Wf s) (Wfa s) (Ww s)
    (Wsig s).

Record message_store := mkMessages {
  Nmi : option Z;
  Lm : gmap Z LegacyMessageMetadata;
  Vm : gmap Z (list Z);
  vk_ver : gmap Z Z;
  vk_cur : gmap Z Z;
  vk_ref : gmap (Z * Z) bytes
}.
#[global] Instance eta_messages : Eta message_store := fun s =>
  mkMessages (Nmi s) (Lm s) (Vm s) (vk_ver s) (vk_cur s) (vk_ref s).

Record notice_store := mkNotices {
  Bn : gmap (Z * Z) Z;
  Ba : gmap (Z * Z) Z;
  Ra : gmap Z bool
}.
#[global] Instance eta_notices : Eta notice_store := fun s => mkNotices (Bn s) (Ba s) (Ra s).

Record yield_store := mkYields {
  Yr : option (list address);
  Ys : gmap Z PlanYieldState
}.
#[global] Instance eta_yields : Eta yield_store := fun s => mkYields (Yr s) (Ys s).

(** * Host functions and peers *)

(** The host: SHA-256, the contract's pseudo-random stream, the address of a
    contract deployed with a salt, the version a peer reports, and the bytes an
    address converts to ([None]: the conversion panics). *)
Class HostFns := {
  sha256 : bytes -> hash;
  prng_gen : nat -> hash;
  deployed_address : address -> bytes -> address;
  peer_version : address -> option Z;
  address_bytes : address -> option bytes
}.

(** The four entry points of the lending contract this contract invokes; a call
    that errors or traps is [None].  [register_plan_yield] and the others get
    the address invoked, the caller argument and their own arguments. *)
Class LendingPeer (L : Type) := {
  lp_register : L -> Env -> address -> address -> Z -> address -> Z -> option L;
  lp_unregister : L -> Env -> address -> address -> Z -> option L;
  lp_accrued : L -> Env -> address -> Z -> option Z;
  lp_claim : L -> Env -> address -> address -> Z -> option (Z * L)
}.

(** Its replies are [u64]s. *)
Class LendingPeerTyped (L : Type) `{LendingPeer L} : Prop := {
  lp_claim_u64 : forall l env c a id g l', lp_claim l env c a id = Some (g, l') -> u64 g;
  lp_accrued_u64 : forall l env c id g, lp_accrued l env c id = Some g -> u64 g
}.

(** The contract's storage, its access-control state and published events, the
    position in its pseudo-random stream, the token network, the plan vaults it
    deployed and the lending contract it is linked to. *)
Record world {T L : Type} := mkWorld {
  acl : AccessControl.state;
  plans : plan_store;
  claims : claim_store;
  disputes : dispute_store;
  triggers : trigger_store;
  wills : will_store;
  messages : message_store;
  notices : notice_store;
  yields : yield_store;
  evs : list event;
  prng : nat;
  toks : T;
  vaults : gmap address PlanVault.store;
  lend : L
}.
Arguments world T L : clear implicits.
#[global] Instance eta_world {T L} : Eta (world T L) := fun w =>
  mkWorld _ _ (acl w) (plans w) (claims w) (disputes w) (triggers w) (wills w) (messages w)
    (notices w) (yields w) (evs w) (prng w) (toks w) (vaults w) (lend w).

#[global] Instance sub_acl {T L} : Sub (world T L) AccessControl.state :=
  { sget := acl; sput s w := w <| acl := s |> }.
#[global] Instance sub_plans {T L} : Sub (world T L) plan_store :=
  { sget := plans; sput s w := w <| plans := s |> }.
#[global] Instance sub_claims {T L} : Sub (world T L) claim_store :=
  { sget := claims; sput s w := w <| claims := s |> }.
#[global] Instance sub_disputes {T L} : Sub (world T L) dispute_store :=
  { sget := disputes; sput s w := w <| disputes := s |> }.
#[global] Instance sub_triggers {T L} : Sub (world T L) trigger_store :=
  { sget := triggers; sput s w := w <| triggers := s |> }.
#[global] Instance sub_wills {T L} : Sub (world T L) will_store :=
  { sget := wills; sput s w := w <| wills := s |> }.
#[global] Instance sub_messages {T L} : Sub (world T L) message_store :=
  { sget := messages; sput s w := w <| messages := s |> }.
#[global] Instance sub_notices {T L} : Sub (world T L) notice_store :=
  { sget := notices; sput s w := w <| notices := s |> }.
#[global] Instance sub_yields {T L} : Sub (world T L) yield_store :=
  { sget := yields; sput s w := w <| yields := s |> }.
#[global] Instance sub_acl_laws {T L} : SubLaws (world T L) AccessControl.state.
Proof. by split; [|intros []]. Qed.
#[global] Instance sub_plans_laws {T L} : SubLaws (world T L) plan_store.
Proof. by split; [|intros []]. Qed.
#[global] Instance sub_triggers_laws {T L} : SubLaws (world T L) trigger_store.
Proof. by split; [|intros []]. Qed.

Definition no_plans : plan_store := mkPlans None ∅ ∅ ∅ None None None ∅ None None None None ∅ None.
(** A freshly deployed contract in a network [t] with peer [l]. *)
Definition deployed {T L} (t : T) (l : L) : world T L :=
  mkWorld T L AccessControl.empty no_plans (mkClaims ∅ ∅ ∅ ∅ ∅) (mkDisputes ∅ ∅ None ∅ ∅ None)
    (mkTriggers ∅ ∅ ∅ ∅ ∅ ∅) (mkWills ∅ ∅ ∅ ∅ ∅ ∅ ∅ ∅ ∅ ∅ ∅ ∅)
    (mkMessages None ∅ ∅ ∅ ∅ ∅) (mkNotices ∅ ∅ ∅) (mkYields None ∅) [] 0 t ∅ l.

End InheritanceTypes.
