(* ===== verification/YieldMath.v ===== *)
(** Overflow-checked yield arithmetic
    ([contracts/inheritance-contract/src/yield_math.rs]): every function is
    total and returns a value or an [InheritanceError]. *)
From S2P Require Import Prelude Host InheritanceTypes.
Import InheritanceTypes.

Module YieldMath.

Abbreviation R A := (result InheritanceError A).

Definition BPS_DENOMINATOR : Z := 10000.
Definition YIELD_SCALE : Z := 1000000000000.
Definition SECONDS_PER_DAY : Z := 86400.
Definition DAYS_PER_YEAR : Z := 365.
Definition SECONDS_PER_YEAR : Z := 31536000.
Definition MAX_YIELD_RATE_BPS : Z := 10000.
Definition MAX_PERFORMANCE_FEE_BPS : Z := 5000.
Definition MAX_COMPOUND_PERIODS : Z := 36500.

(** * Checked primitives *)
Definition safe_add (a b : Z) : R Z := rok_or (checked_add64 a b) InvalidTotalAmount.
Definition safe_sub (a b : Z) : R Z := rok_or (checked_sub64 a b) InvalidTotalAmount.
Definition safe_mul (a b : Z) : R Z := rok_or (checked_mul64 a b) InvalidTotalAmount.
Definition safe_div (a b : Z) : R Z :=
  do? rreject_if (b =? 0) InvalidBeneficiaryData;
  rok_or (checked_div a b) InvalidTotalAmount.
Definition safe_mul_u128 (a b : Z) : R Z := rok_or (checked_mul128 a b) InvalidTotalAmount.
Definition safe_div_u128 (a b : Z) : R Z :=
  do? rreject_if (b =? 0) InvalidBeneficiaryData;
  rok_or (checked_div a b) InvalidTotalAmount.
(** [u64::try_from], [u32::try_from]. *)
Definition to_u64 (v : Z) : R Z := rok_or (checked u64_max v) InvalidTotalAmount.
Definition to_u32 (v : Z) : R Z := rok_or (checked u32_max v) InvalidTotalAmount.

Definition mul_div (a b denominator : Z) : R Z :=
  do? rreject_if (denominator =? 0) InvalidBeneficiaryData;
  let? product := safe_mul_u128 a b in
  let? q := safe_div_u128 product denominator in
  to_u64 q.

Definition apply_bps (amount bps : Z) : R Z := mul_div amount bps BPS_DENOMINATOR.

(** * Validation *)
Definition validate_yield_rate (rate_bps : Z) : R unit :=
  rreject_if (MAX_YIELD_RATE_BPS <? rate_bps) InvalidAllocation.
Definition validate_performance_fee (fee_bps : Z) : R unit :=
  rreject_if (MAX_PERFORMANCE_FEE_BPS <? fee_bps) InvalidAllocation.
Definition validate_periods (periods : Z) : R unit :=
  rreject_if (MAX_COMPOUND_PERIODS <? periods) InvalidAllocation.

(** * Interest *)
Definition simple_interest (principal annual_rate_bps elapsed_secs : Z) : R Z :=
  do? validate_yield_rate annual_rate_bps;
  if (principal =? 0) || (annual_rate_bps =? 0) || (elapsed_secs =? 0) then ROk 0
  else
    let? pr := safe_mul_u128 principal annual_rate_bps in
    let? numerator := safe_mul_u128 pr elapsed_secs in
    let? denominator := safe_mul_u128 BPS_DENOMINATOR SECONDS_PER_YEAR in
    let? q := safe_div_u128 numerator denominator in
    to_u64 q.

Definition daily_rate_bps (annual_rate_bps : Z) : R Z :=
  do? validate_yield_rate annual_rate_bps;
  ROk (as_u32 (annual_rate_bps / DAYS_PER_YEAR)).

Definition periods_elapsed (elapsed_secs period_secs : Z) : R Z :=
  do? rreject_if (period_secs =? 0) InvalidBeneficiaryData;
  ROk (elapsed_secs / period_secs).

(** * Compounding *)
Definition daily_growth_factor (annual_rate_bps : Z) : R Z :=
  do? validate_yield_rate annual_rate_bps;
  let? daily_numerator := safe_mul_u128 YIELD_SCALE annual_rate_bps in
  let? d := safe_mul_u128 BPS_DENOMINATOR DAYS_PER_YEAR in
  let? daily_increment := safe_div_u128 daily_numerator d in
  rok_or (checked_add128 YIELD_SCALE daily_increment) InvalidTotalAmount.

Definition mul_factor (a b : Z) : R Z :=
  let? p := safe_mul_u128 a b in
  safe_div_u128 p YIELD_SCALE.

(** The squaring loop; [fuel] bounds the bits of [remaining]. *)
Fixpoint pow_loop (fuel : nat) (result accumulator remaining : Z) : R Z :=
  match fuel with
  | O => RErr InvalidAllocation
  | S fuel =>
    let? result :=
      (if Z.land remaining 1 =? 1 then mul_factor result accumulator else ROk result) in
    let remaining := Z.shiftr remaining 1 in
    if remaining =? 0 then ROk result
    else
      let? accumulator := mul_factor accumulator accumulator in
      pow_loop fuel result accumulator remaining
  end.

Definition pow_factor (base exponent : Z) : R Z :=
  do? validate_periods exponent;
  if exponent =? 0 then ROk YIELD_SCALE
  else pow_loop 64 YIELD_SCALE base exponent.

Definition compound_amount (principal rate_bps_per_period periods : Z) : R Z :=
  do? validate_yield_rate rate_bps_per_period;
  do? validate_periods periods;
  if (principal =? 0) || (rate_bps_per_period =? 0) || (periods =? 0) then ROk principal
  else
    let? n := safe_mul_u128 YIELD_SCALE rate_bps_per_period in
    let? per_period_increment := safe_div_u128 n BPS_DENOMINATOR in
    let? per_period_factor :=
      rok_or (checked_add128 YIELD_SCALE per_period_increment) InvalidTotalAmount in
    let? growth := pow_factor per_period_factor periods in
    let? g := safe_mul_u128 principal growth in
    let? q := safe_div_u128 g YIELD_SCALE in
    to_u64 q.

Definition compound_interest (principal rate_bps_per_period periods : Z) : R Z :=
  let? total := compound_amount principal rate_bps_per_period periods in
  safe_sub total principal.

Definition project_daily_compound (principal annual_rate_bps days : Z) : R Z :=
  do? validate_yield_rate annual_rate_bps;
  do? validate_periods days;
  if (principal =? 0) || (annual_rate_bps =? 0) || (days =? 0) then ROk principal
  else
    let? f := daily_growth_factor annual_rate_bps in
    let? growth := pow_factor f days in
    let? g := safe_mul_u128 principal growth in
    let? q := safe_div_u128 g YIELD_SCALE in
    to_u64 q.

Definition project_daily_interest (principal annual_rate_bps days : Z) : R Z :=
  let? total := project_daily_compound principal annual_rate_bps days in
  safe_sub total principal.

Definition effective_apy_bps (nominal_annual_rate_bps : Z) : R Z :=
  do? validate_yield_rate nominal_annual_rate_bps;
  if nominal_annual_rate_bps =? 0 then ROk 0
  else
    let? f := daily_growth_factor nominal_annual_rate_bps in
    let? growth := pow_factor f DAYS_PER_YEAR in
    let? gain := rok_or (checked_sub128 growth YIELD_SCALE) InvalidTotalAmount in
    let? g := safe_mul_u128 gain BPS_DENOMINATOR in
    let? bps := safe_div_u128 g YIELD_SCALE in
    to_u32 bps.

(** * Fee splitting and blending *)
Definition split_performance_fee (amount fee_bps : Z) : R (Z * Z) :=
  do? validate_performance_fee fee_bps;
  if (amount =? 0) || (fee_bps =? 0) then ROk (amount, 0)
  else
    let? fee := apply_bps amount fee_bps in
    let? net := safe_sub amount fee in
    ROk (net, fee).

Definition blended_rate_bps (principal_a rate_a_bps principal_b rate_b_bps : Z) : R Z :=
  do? validate_yield_rate rate_a_bps;
  do? validate_yield_rate rate_b_bps;
  let? total := safe_add principal_a principal_b in
  if total =? 0 then ROk 0
  else
    let? wa := safe_mul_u128 principal_a rate_a_bps in
    let? wb := safe_mul_u128 principal_b rate_b_bps in
    let? weighted := rok_or (checked_add128 wa wb) InvalidTotalAmount in
    let? blended := safe_div_u128 weighted total in
    to_u32 blended.

(** * Harvest scheduling *)
Definition is_harvest_due (now last_harvest_at interval_secs pending minimum : Z) : bool :=
  let cooldown_elapsed :=
    (interval_secs =? 0) || (saturating_add64 last_harvest_at interval_secs <=? now) in
  let clears_floor := minimum <=? pending in
  cooldown_elapsed && clears_floor && (0 <? pending).

Definition next_harvest_at (last_harvest_at interval_secs : Z) : Z :=
  saturating_add64 last_harvest_at interval_secs.

(** Values of the source's own tests. *)
Example compound_amount_test : compound_amount 1000000 1000 10 = ROk 2593742.
Proof. reflexivity. Qed.
Example pow_factor_test : pow_factor (YIELD_SCALE * 2) 36500 = RErr InvalidTotalAmount.
Proof. reflexivity. Qed.

(** * The squaring loop *)

(** The loop as a recursion on the exponent's binary digits. *)
Fixpoint pow_bits (p : positive) (result accumulator : Z) : R Z :=
  match p with
  | xH => mul_factor result accumulator
  | xO p => let? accumulator := mul_factor accumulator accumulator in
            pow_bits p result accumulator
  | xI p => let? result := mul_factor result accumulator in
            let? accumulator := mul_factor accumulator accumulator in
            pow_bits p result accumulator
  end.

Lemma land_1_odd p : (Z.land (Zpos p) 1 =? 1) = (match p with xO _ => false | _ => true end).
Proof. by destruct p. Qed.

(** One unit of fuel per digit is enough. *)
Lemma pow_loop_bits fuel p result acc :
  (Pos.size_nat p <= fuel)%nat -> pow_loop fuel result acc (Zpos p) = pow_bits p result acc.
Proof.
  revert fuel result acc. induction p as [p IH|p IH|]; intros [|fuel] result acc Hf;
    simpl in Hf; try lia; cbn [pow_loop]; rewrite land_1_odd; cbn [pow_bits].
  - destruct (mul_factor result acc); simpl; [|done].
    destruct (mul_factor acc acc); simpl; [|done]. apply IH. lia.
  - simpl. destruct (mul_factor acc acc); simpl; [|done]. apply IH. lia.
  - by destruct (mul_factor result acc).
Qed.

Lemma size_nat_le p n : (Zpos p < 2 ^ Z.of_nat n)%Z -> (Pos.size_nat p <= n)%nat.
Proof.
  revert n. induction p as [p IH|p IH|]; intros [|n] Hp; cbn [Pos.size_nat]; try lia;
    rewrite Nat2Z.inj_succ, Z.pow_succ_r in Hp by lia; specialize (IH n); lia.
Qed.

Lemma pow_factor_bits base n :
  0 < n <= MAX_COMPOUND_PERIODS ->
  pow_factor base n = pow_bits (Z.to_pos n) YIELD_SCALE base.
Proof.
  intros Hn. unfold pow_factor, validate_periods, rreject_if.
  destruct (Z.ltb_spec MAX_COMPOUND_PERIODS n); [lia|]. cbn [rbind].
  destruct (Z.eqb_spec n 0); [lia|]. destruct n as [|p|]; try lia.
  apply pow_loop_bits, size_nat_le. change (2 ^ Z.of_nat 64) with (u64_max + 1).
  unfold MAX_COMPOUND_PERIODS, u64_max in *. lia.
Qed.

(** [below base a m]: the factor [a] does not exceed the exact power [base^m] at
    the fixed-point scale. *)
Definition below (base a m : Z) : Prop :=
  0 <= a /\ a * YIELD_SCALE ^ m <= YIELD_SCALE * base ^ m.

Lemma mul_factor_ROk a b r :
  mul_factor a b = ROk r <-> r = a * b / YIELD_SCALE /\ u128 (a * b).
Proof.
  unfold mul_factor, safe_mul_u128, safe_div_u128, checked_mul128. split.
  - intros H. res_inv. apply checked_Some in H0 as [-> ?].
    unfold checked_div in H. simpl in H. by simplify_eq.
  - intros [-> ?]. rewrite checked_in by done. done.
Qed.

Lemma mul_factor_below base a b r m k :
  0 <= base -> 0 <= m -> 0 <= k -> below base a m -> below base b k ->
  mul_factor a b = ROk r -> below base r (m + k).
Proof.
  intros Hbase Hm Hk [Ha0 Ha] [Hb0 Hb] [-> _]%mul_factor_ROk. unfold below.
  split; [apply Z.div_pos; [nia|done]|].
  pose proof (div_floor (a * b) YIELD_SCALE ltac:(done)) as [Hd _].
  rewrite !Z.pow_add_r by done.
  set (S := YIELD_SCALE) in *. assert (0 < S) by done.
  assert (0 <= S ^ m) by (apply Z.pow_nonneg; lia).
  assert (0 <= S ^ k) by (apply Z.pow_nonneg; lia).
  assert ((a * S ^ m) * (b * S ^ k) <= (S * base ^ m) * (S * base ^ k)) as Hp
    by (apply Z.mul_le_mono_nonneg; nia).
  set (q := a * b / S) in *. clearbody q S.
  assert (q * S * (S ^ m * S ^ k) <= a * b * (S ^ m * S ^ k)) as Hq
    by (apply Z.mul_le_mono_nonneg_r; nia).
  apply (Z.mul_le_mono_pos_r _ _ S); [done|]. nia.
Qed.

Lemma mul_factor_ge a b r :
  YIELD_SCALE <= a -> YIELD_SCALE <= b -> mul_factor a b = ROk r -> Z.max a b <= r.
Proof.
  intros Ha Hb [-> _]%mul_factor_ROk. apply Z.max_lub; apply Z.div_le_lower_bound;
    unfold YIELD_SCALE in *; nia.
Qed.

Lemma pow_bits_below base p : forall result acc r m k,
  0 <= base -> 0 <= m -> 0 <= k ->
  below base result m -> below base acc k -> pow_bits p result acc = ROk r ->
  below base r (m + k * Zpos p).
Proof.
  induction p as [p IH|p IH|]; intros result acc r m k Hb Hm Hk Hr Ha H; simpl in H; res_inv.
  - replace (m + k * Zpos p~1) with ((m + k) + (k + k) * Zpos p) by lia.
    eapply IH; [done|lia|lia| |..|done]; eapply mul_factor_below; eauto.
  - replace (m + k * Zpos p~0) with (m + (k + k) * Zpos p) by lia.
    eapply IH; [done|lia|lia| |..|done]; [done|]; eapply mul_factor_below; eauto.
  - replace (m + k * 1) with (m + k) by lia. eapply mul_factor_below; eauto.
Qed.

Lemma pow_bits_ge p : forall result acc r,
  YIELD_SCALE <= result -> YIELD_SCALE <= acc -> pow_bits p result acc = ROk r ->
  Z.max result acc <= r.
Proof.
  induction p as [p IH|p IH|]; intros result acc r Hr Ha H; simpl in H; res_inv.
  - pose proof (mul_factor_ge _ _ _ Hr Ha H0). pose proof (mul_factor_ge _ _ _ Ha Ha H1).
    apply IH in H; lia.
  - pose proof (mul_factor_ge _ _ _ Ha Ha H0).
    apply IH in H; lia.
  - by apply mul_factor_ge.
Qed.

(** * Properties *)

(** The squaring loop ends within 64 iterations for every 64-bit exponent: with that much
    fuel or more it is the recursion on the exponent's binary digits. *)
Theorem pow_loop_terminates base n fuel :
  0 < n <= u64_max -> (64 <= fuel)%nat ->
  pow_loop fuel YIELD_SCALE base n = pow_bits (Z.to_pos n) YIELD_SCALE base.
Proof.
  intros Hn Hf. destruct n as [|p|]; try lia. apply pow_loop_bits.
  transitivity 64%nat; [|done]. apply size_nat_le.
  change (2 ^ Z.of_nat 64) with (u64_max + 1). lia.
Qed.

Lemma pow_loop_terminates_witness :
  pow_loop 64 YIELD_SCALE (YIELD_SCALE + 1000) 12345 =
  pow_bits 12345 YIELD_SCALE (YIELD_SCALE + 1000).
Proof. apply (pow_loop_terminates (YIELD_SCALE + 1000) 12345 64); [unfold u64_max|]; lia. Defined.

(** When fixed-point exponentiation by squaring returns, the exponent was within its bound
    and the result is at least the scale, at least the base for a positive exponent, and
    never above the exact power. *)
Theorem pow_factor_sound base n r :
  YIELD_SCALE <= base -> 0 <= n -> pow_factor base n = ROk r ->
  n <= MAX_COMPOUND_PERIODS /\
  YIELD_SCALE <= r /\ (0 < n -> base <= r) /\
  r * YIELD_SCALE ^ n <= YIELD_SCALE * base ^ n.
Proof.
  intros Hb Hn H. assert (Hmax : n <= MAX_COMPOUND_PERIODS).
  { unfold pow_factor, validate_periods in H. res_inv.
    match goal with Hl : (_ <? _) = false |- _ => by apply Z.ltb_ge in Hl end. }
  split; [done|]. destruct (Z.eq_dec n 0) as [->|Hnz].
  - unfold pow_factor in H; cbn in H. res_inv. split_and!; [done|lia|done].
  - rewrite pow_factor_bits in H by lia.
    pose proof (pow_bits_ge _ YIELD_SCALE base _ (Z.le_refl _) Hb H).
    assert (below base r (0 + 1 * Zpos (Z.to_pos n))) as [_ Hr].
    { assert (0 <= base) by (unfold YIELD_SCALE in *; lia).
      eapply pow_bits_below; [done|done|done| | |done]; unfold below;
        [simpl|]; rewrite ?Z.pow_1_r; (split; [done|lia]). }
    rewrite Z2Pos.id, Z.mul_1_l, Z.add_0_l in Hr by lia. split_and!; [lia|lia|done].
Qed.

Lemma pow_factor_sound_witness :
  exists r, pow_factor 1100000000000 10 = ROk r /\ YIELD_SCALE <= r.
Proof.
  eexists. split; [vm_compute; reflexivity|].
  by apply (pow_factor_sound 1100000000000 10).
Defined.

Lemma mul_div_ROk a b d r :
  0 <= a -> 0 <= b -> 0 < d ->
  mul_div a b d = ROk r <-> r = a * b / d /\ a * b <= u128_max /\ r <= u64_max.
Proof.
  intros Ha Hb Hd. unfold mul_div, safe_mul_u128, safe_div_u128, to_u64, checked_mul128,
    checked_div, rreject_if. destruct (Z.eqb_spec d 0); [lia|]. cbn [rbind].
  split.
  - intros H. res_inv. apply checked_Some in H0 as [-> ?]. cbn [rbind] in H1.
    res_inv. simplify_eq. apply checked_Some in H as [-> ?]. split_and!; [done|lia|lia].
  - intros (-> & Hu & Hr). rewrite checked_in by nia. simpl.
    rewrite checked_in; [done|]. split; [apply Z.div_pos; nia|done].
Qed.

(** Compounding never loses principal, never pays more than the exact compound amount, and
    the compound interest is the difference to the principal. *)
Theorem compound_amount_bounds principal rate periods total :
  u64 principal -> u32 rate -> u64 periods ->
  compound_amount principal rate periods = ROk total ->
  principal <= total /\
  total * BPS_DENOMINATOR ^ periods <= principal * (BPS_DENOMINATOR + rate) ^ periods /\
  compound_interest principal rate periods = ROk (total - principal).
Proof.
  intros Hp Hr Hn H. assert (Hi : principal <= total ->
    compound_interest principal rate periods = ROk (total - principal)).
  { intros Hle. unfold compound_interest. rewrite H. cbn [rbind].
    assert (total <= u64_max).
    { unfold compound_amount in H. res_inv. destruct (_ || _); res_inv; [ulia|].
      unfold to_u64 in H. res_inv. apply checked_Some in H. lia. }
    unfold safe_sub, checked_sub64. rewrite checked_in; [done|ulia]. }
  enough (principal <= total /\
    total * BPS_DENOMINATOR ^ periods <= principal * (BPS_DENOMINATOR + rate) ^ periods)
    as [? ?] by auto. clear Hi.
  assert (0 <= BPS_DENOMINATOR ^ periods <= (BPS_DENOMINATOR + rate) ^ periods) as Hpow.
  { split; [apply Z.pow_nonneg; done|]. apply Z.pow_le_mono_l.
    unfold BPS_DENOMINATOR. ulia. }
  unfold compound_amount in H. res_inv. destruct (_ || _) eqn:Hz; res_inv; [unia|].
  apply orb_false_iff in Hz as [[Hz1 Hz2]%orb_false_iff Hz3].
  apply Z.eqb_neq in Hz1, Hz2, Hz3.
  unfold safe_mul_u128, safe_div_u128, checked_mul128, checked_add128, to_u64 in *. res_inv.
  repeat match goal with Hc : checked _ _ = Some _ |- _ => apply checked_Some in Hc as [-> ?] end.
  unfold checked_div in *. cbn in *. simplify_eq.
  match goal with Hf : pow_factor ?b _ = ROk ?g |- _ =>
    assert (b = 100000000 * (BPS_DENOMINATOR + rate)) as Hb;
      [|rename Hf into Hpf; set (growth := g) in *] end.
  { unfold YIELD_SCALE, BPS_DENOMINATOR.
    replace (1000000000000 * rate) with (rate * 100000000 * 10000) by lia.
    rewrite Z.div_mul by done. lia. }
  rewrite Hb in Hpf. apply pow_factor_sound in Hpf as (_ & Hge & _ & Hle);
    [|unfold YIELD_SCALE, BPS_DENOMINATOR; ulia|ulia].
  pose proof (div_floor (principal * growth) YIELD_SCALE ltac:(done)) as [Hd1 Hd2].
  split; [apply Z.div_le_lower_bound; [done|unfold YIELD_SCALE in *; unia]|].
  change YIELD_SCALE with (100000000 * BPS_DENOMINATOR) in Hle at 1.
  rewrite !Z.pow_mul_l in Hle. set (q := principal * growth / YIELD_SCALE) in *.
  assert (0 < 100000000 ^ periods) by (apply Z.pow_pos_nonneg; ulia).
  set (A := 100000000 ^ periods) in *. set (B := BPS_DENOMINATOR ^ periods) in *.
  set (C := (BPS_DENOMINATOR + rate) ^ periods) in *. clearbody A B C q growth.
  assert (growth * B <= YIELD_SCALE * C) as Hgb by (apply (Z.mul_le_mono_pos_r _ _ A); nia).
  assert (0 <= q) by (unfold YIELD_SCALE in *; unia).
  apply (Z.mul_le_mono_pos_r _ _ YIELD_SCALE); [done|].
  assert (q * YIELD_SCALE * B <= principal * growth * B) by (apply Z.mul_le_mono_nonneg_r; lia).
  assert (principal * (growth * B) <= principal * (YIELD_SCALE * C))
    by (apply Z.mul_le_mono_nonneg_l; unfold u64 in *; lia). lia.
Qed.

Lemma compound_amount_bounds_witness :
  1000000 <= 2593742 /\ 2593742 * BPS_DENOMINATOR ^ 10 <= 1000000 * (BPS_DENOMINATOR + 1000) ^ 10.
Proof.
  destruct (compound_amount_bounds 1000000 1000 10 2593742) as (? & ? & _);
    [unfold u64, u32, u64_max, u32_max; lia..|reflexivity|by split].
Defined.

Lemma split_ROk amount fee_bps net fee :
  0 <= amount -> split_performance_fee amount fee_bps = ROk (net, fee) ->
  net + fee = amount /\ 0 <= net /\ 0 <= fee.
Proof.
  intros Ha. unfold split_performance_fee. intros Hs. apply rbind_ROk in Hs as (? & _ & Hs).
  destruct (_ || _); [injection Hs as <- <-; lia|].
  apply rbind_ROk in Hs as (f & Hf & Hs). apply rbind_ROk in Hs as (n & Hn & [= -> ->]).
  apply rok_or_ROk, checked_Some in Hn as [-> ?]. unfold apply_bps, mul_div in Hf.
  apply rbind_ROk in Hf as (? & _ & Hf). apply rbind_ROk in Hf as (? & _ & Hf).
  apply rbind_ROk in Hf as (? & _ & Hf). apply rok_or_ROk, checked_Some in Hf as [-> ?]. lia.
Qed.

(** For every amount and fee rate the split is an error above the fee cap and otherwise
    the rounded-down share of the amount and exactly the rest. *)
Theorem split_performance_fee_exact amount fee_bps :
  u64 amount -> u32 fee_bps ->
  split_performance_fee amount fee_bps =
    if MAX_PERFORMANCE_FEE_BPS <? fee_bps then RErr InvalidAllocation
    else ROk (amount - amount * fee_bps / BPS_DENOMINATOR, amount * fee_bps / BPS_DENOMINATOR).
Proof.
  intros Ha Hf. unfold split_performance_fee, validate_performance_fee, rreject_if.
  destruct (Z.ltb_spec MAX_PERFORMANCE_FEE_BPS fee_bps) as [|Hle]; [done|]. cbn [rbind].
  destruct (_ || _) eqn:Hz.
  { apply orb_true_iff in Hz as [->%Z.eqb_eq| ->%Z.eqb_eq];
      rewrite ?Z.mul_0_l, ?Z.mul_0_r, Z.div_0_l by done; by rewrite ?Z.sub_0_r. }
  pose proof (mul_frac_le amount fee_bps BPS_DENOMINATOR) as Hfee.
  unfold MAX_PERFORMANCE_FEE_BPS, BPS_DENOMINATOR in *.
  unfold apply_bps. rewrite (proj2 (mul_div_ROk amount fee_bps BPS_DENOMINATOR
    (amount * fee_bps / 10000) ltac:(ulia) ltac:(ulia) ltac:(done)));
    [|split_and!; [done|unia|ulia]].
  cbn [rbind]. unfold safe_sub, checked_sub64. rewrite checked_in; [done|ulia].
Qed.

Lemma split_performance_fee_exact_witness :
  split_performance_fee 1000000 1000 = ROk (900000, 100000).
Proof.
  rewrite (split_performance_fee_exact 1000000 1000) by (unfold u64, u32, u64_max, u32_max; lia).
  reflexivity.
Defined.

(** A blended rate is the principal-weighted mean rounded down and lies between the two
    rates it blends. *)
Theorem blended_rate_between pa ra pb rb r :
  u64 pa -> u64 pb -> u32 ra -> u32 rb -> 0 < pa + pb ->
  blended_rate_bps pa ra pb rb = ROk r ->
  Z.min ra rb <= r <= Z.max ra rb /\ r <= MAX_YIELD_RATE_BPS /\
  r = (pa * ra + pb * rb) / (pa + pb).
Proof.
  intros Hpa Hpb Hra Hrb Hpos H. unfold blended_rate_bps, validate_yield_rate,
    safe_add, safe_mul_u128, safe_div_u128, to_u32, checked_add64, checked_mul128,
    checked_add128, checked_div in H. res_inv.
  repeat match goal with Hc : checked _ _ = Some _ |- _ => apply checked_Some in Hc as [-> ?] end.
  destruct (Z.eqb_spec (pa + pb) 0); [lia|]. res_inv.
  repeat match goal with Hc : checked _ _ = Some _ |- _ => apply checked_Some in Hc as [-> ?] end.
  simplify_eq. repeat match goal with Hl : (_ <? _) = false |- _ => apply Z.ltb_ge in Hl end.
  assert (Z.min ra rb <= (pa * ra + pb * rb) / (pa + pb) <= Z.max ra rb).
  { split; [apply Z.div_le_lower_bound|apply div_le_mul]; unia. }
  split_and!; lia.
Qed.

Lemma blended_rate_between_witness : Z.min 400 800 <= 500 <= Z.max 400 800.
Proof.
  apply (blended_rate_between 3000 400 1000 800 500);
    [unfold u64, u32, u64_max, u32_max; lia..|reflexivity].
Defined.

End YieldMath.
