(* ===== verification/InheritanceCore.v ===== *)
(** Storage access, guards, hashing, plan vaults, roles and administration of
    the inheritance contract ([contracts/inheritance-contract/src/lib.rs]). *)
From S2P Require Import Prelude Host AccessControl Token PlanVault InheritanceTypes.
Import InheritanceTypes.

Module InheritanceCore.
Import AccessControl.

(** The length of a [Vec], [Vec::get] and [Vec::set] with a [u32] index. *)
Definition len {A} (l : list A) : Z := Z.of_nat (length l).
Definition vget {A} (l : list A) (i : Z) : option A := l !! Z.to_nat i.
Definition vset {A} (i : Z) (x : A) (l : list A) : list A := <[Z.to_nat i := x]> l.

(** [u64::to_be_bytes]. *)
Fixpoint be_bytes (n : nat) (z : Z) : bytes :=
  match n with
  | O => []
  | S n => be_bytes n (z / 256) ++ [z mod 256]
  end.

(** The six ASCII digits of a claim code. *)
Definition code_digits (claim_code : Z) : bytes :=
  map (fun i => (claim_code / 10 ^ (5 - i)) mod 10 + 48) [0; 1; 2; 3; 4; 5].

Definition zero_salt : hash := replicate 32 0.
#[global] Arguments be_bytes : simpl never.
#[global] Arguments code_digits : simpl never.
#[global] Arguments zero_salt : simpl never.

Section core.
Context {T L : Type} `{TokenOps T} `{HostFns}.
Abbreviation W := (world T L).
Abbreviation X A := (M W InheritanceError A).
Implicit Types (env : Env) (w : W).

(** ** Storage *)

Definition load {S A} `{Sub W S} (f : S -> A) : X A := gets (fun w => f (sget w)).
Definition save {S} `{Sub W S} (f : S -> S) : X unit := modify (fun w => sput (f (sget w)) w).
Definition emit (e : event) : X unit := modify (fun w => w <| evs := evs w ++ [e] |>).

(** Plain [+] on [u32]. *)
Definition add32 (a b : Z) : X Z := unwrap (checked u32_max (a + b)).

(** ** Hashing *)

(** The copy into the 256-byte buffer panics when the string is longer than the
    buffer slice it is copied to. *)
Definition hash_string (input : bytes) : X hash :=
  let slice_len := Z.min (len input) 256 in
  do! panic_if (negb (len input =? slice_len));
  ret (sha256 input).

Definition hash_bytes (input : bytes) : X hash := ret (sha256 input).

Definition hash_claim_code_with_salt (claim_code : Z) (salt : hash) : X hash :=
  do! reject_if (999999 <? claim_code) InvalidClaimCodeRange;
  ret (sha256 (salt ++ code_digits claim_code)).

Definition hash_claim_code (claim_code : Z) : X hash :=
  hash_claim_code_with_salt claim_code zero_salt.

Definition generate_claim_salt : X hash :=
  let! n := gets prng in
  do! modify (fun w => w <| prng := S n |>);
  ret (prng_gen n).

(** ** Guards *)

Definition get_admin : X (option address) := load Ad.

Definition require_not_blacklisted (a : address) : X unit :=
  zoom (AccessControl.require_not_blacklisted a Blk).

Definition require_admin env (admin : address) : X unit :=
  do! require_auth env admin;
  do! require_not_blacklisted admin;
  zoom (require_role admin Admin NotAdmin).

Definition enter_guard : X unit := zoom reentrancy_enter_or_panic.
Definition exit_guard : X unit := zoom reentrancy_exit.
Definition check_not_paused : X unit := zoom require_not_paused_or_panic.

Definition check_and_record_claim_attempt env (plan_id : Z) (claimer : address) : X unit :=
  let now := timestamp env in
  let! stored := load (fun s => Ca s !! (plan_id, claimer)) in
  let w0 := default (mkWindow now 0) stored in
  let w1 := if CLAIM_ATTEMPT_WINDOW_SECONDS <=? saturating_sub now (window_start w0)
            then mkWindow now 0 else w0 in
  do! reject_if (CLAIM_MAX_ATTEMPTS_PER_WINDOW <=? attempts w1) Unauthorized;
  let w2 := mkWindow (window_start w1) (saturating_add32 (attempts w1) 1) in
  save (fun s => s <| Ca := <[(plan_id, claimer) := w2]> (Ca s) |>).

Definition check_kyc_approved (user : address) : X unit :=
  let! stored := load (fun s => Ky s !! user) in
  let! status := ok_or stored KycNotSubmitted in
  reject_if (negb (approved status)) KycNotSubmitted.

(** ** Administration *)

Definition pause env (admin : address) : X unit :=
  do! require_admin env admin;
  do! zoom pause_contract;
  emit (AdminPaused (timestamp env)).
Definition unpause env (admin : address) : X unit :=
  do! require_admin env admin;
  do! zoom unpause_contract;
  emit (AdminUnpaused (timestamp env)).
Definition is_paused : X bool := gets (fun w => is_contract_paused (acl w)).
Definition get_version : X Z := zoom get_contract_version.

Definition initialize_admin env (admin : address) : X unit :=
  do! require_auth env admin;
  do! require_not_blacklisted admin;
  let! a := get_admin in
  do! reject_if (bool_decide (is_Some a)) AdminAlreadyInitialized;
  do! save (fun s => s <| Ad := Some admin |>);
  do! zoom (set_contract_version 1);
  zoom (AccessControl.assign_role admin Admin).

Definition assign_role env (admin a : address) (role : Role) : X unit :=
  do! require_admin env admin;
  do! require_not_blacklisted a;
  zoom (AccessControl.assign_role a role).
Definition revoke_role env (admin a : address) (role : Role) : X unit :=
  do! require_admin env admin;
  zoom (AccessControl.revoke_role a role).
Definition blacklist_address env (admin target : address) : X unit :=
  do! require_admin env admin;
  zoom (AccessControl.blacklist_address target).
Definition unblacklist_address env (admin target : address) : X unit :=
  do! require_admin env admin;
  zoom (AccessControl.unblacklist_address target).
Definition is_blacklisted (target : address) : X bool :=
  zoom (AccessControl.is_blacklisted target).
Definition has_role (a : address) (role : Role) : X bool := zoom (AccessControl.has_role a role).
Definition get_roles (a : address) : X (list Role) := gets (fun w => roles_of (acl w) a).

(** ** Plans *)

Definition get_next_plan_id : X Z := load (fun s => default 1 (Npi s)).
Definition increment_plan_id : X Z :=
  let! current_id := get_next_plan_id in
  let! next_id := add64 current_id 1 in
  do! save (fun s => s <| Npi := Some next_id |>);
  ret current_id.

Definition get_plan (plan_id : Z) : X (option InheritancePlan) := load (fun s => P s !! plan_id).
(** [Self::get_plan(..).ok_or(PlanNotFound)?]. *)
Definition require_plan (plan_id : Z) : X InheritancePlan :=
  let! p := get_plan plan_id in ok_or p PlanNotFound.

(** Storage lifetimes are not modelled: renewing them changes nothing. *)
Definition extend_ttl (plan_id : Z) : X unit :=
  let! p := get_plan plan_id in
  reject_if (bool_decide (p = None)) PlanNotFound.
Definition store_plan (plan_id : Z) (plan : InheritancePlan) : X unit :=
  do! save (fun s => s <| P := <[plan_id := plan]> (P s) |>);
  let! _ := attempt (extend_ttl plan_id) in
  ret tt.

(** ** Plan vaults *)

Definition plan_vault_salt (plan_id : Z) : bytes :=
  [112; 108; 97; 110; 118; 97; 117; 108; 116; 58] ++ replicate 14 0 ++ be_bytes 8 plan_id.

Definition get_configured_plan_vault_wasm : X (option hash) := load vhash.
Definition store_plan_vault (plan_id : Z) (vault : address) : X unit :=
  save (fun s => s <| pvault := <[plan_id := vault]> (pvault s) |>).
Definition get_plan_vault (plan_id : Z) : X (option address) := load (fun s => pvault s !! plan_id).

(** [try_invoke_contract] on a plan vault: a callee that errors or traps leaves
    no trace and its caller fails with [FeeTransferFailed]. *)
Definition call_vault env (vault : address)
    (m : Env -> M (@PlanVault.world T) PlanVault.PlanVaultError unit) : X unit :=
  let! vs := gets vaults in
  match vs !! vault with
  | None => fail FeeTransferFailed
  | Some s =>
    let! t := gets toks in
    match m (sub_env env vault) (PlanVault.mkWorld s t) with
    | Ok _ v => modify (fun w => w <| toks := PlanVault.toks v |>
                                   <| vaults := <[vault := PlanVault.st v]> (vaults w) |>)
    | _ => fail FeeTransferFailed
    end
  end.

Definition deploy_plan_vault env (plan_id : Z) (owner : address) : X address :=
  let! h := get_configured_plan_vault_wasm in
  let! _wasm_hash := ok_or h VaultNotFound in
  let vault := deployed_address (current_contract env) (plan_vault_salt plan_id) in
  let! vs := gets vaults in
  do! panic_if (bool_decide (is_Some (vs !! vault)));
  do! modify (fun w => w <| vaults := <[vault := PlanVault.fresh]> (vaults w) |>);
  do! call_vault env vault (fun _ => PlanVault.initialize (current_contract env) owner plan_id);
  do! store_plan_vault plan_id vault;
  ret vault.

Definition require_plan_vault (plan_id : Z) : X address :=
  let! v := get_plan_vault plan_id in ok_or v VaultNotFound.

Definition release_from_plan_vault env (plan_id : Z) (tok recipient : address) (amount : Z) : X unit :=
  let! vault := require_plan_vault plan_id in
  call_vault env vault (fun e => PlanVault.release e tok recipient amount).

(** [try_invoke_contract(token, "transfer", ..)]. *)
Definition try_transfer env (tok from to : address) (amount : Z) : X bool :=
  let! t := gets toks in
  match tk_transfer t (auths (sub_env env tok)) tok from to amount with
  | None => ret false
  | Some t' => do! modify (fun w => w <| toks := t' |>); ret true
  end.

(** ** Plan lists *)

Definition user_plans (s : plan_store) (a : address) : list Z := default [] (Up s !! a).
Definition claimed_plans (s : plan_store) (a : address) : list Z := default [] (Uc s !! a).

Definition add_plan_to_user (owner : address) (plan_id : Z) : X unit :=
  let! plans := load (fun s => user_plans s owner) in
  save (fun s => s <| Up := <[owner := plans ++ [plan_id]]> (Up s) |>).

(** Remove the first occurrence. *)
Fixpoint remove_first (x : Z) (l : list Z) : list Z :=
  match l with
  | [] => []
  | y :: l => if y =? x then l else y :: remove_first x l
  end.
Definition remove_plan_from_user (owner : address) (plan_id : Z) : X unit :=
  let! plans := load (fun s => user_plans s owner) in
  save (fun s => s <| Up := <[owner := remove_first plan_id plans]> (Up s) |>).

Definition add_plan_to_deactivated (plan_id : Z) : X unit :=
  let! plans := load (fun s => default [] (Dp s)) in
  when (negb (bool_decide (plan_id ∈ plans)))
    (save (fun s => s <| Dp := Some (plans ++ [plan_id]) |>)).

Definition add_plan_to_claimed (owner : address) (plan_id : Z) : X unit :=
  let! user := load (fun s => claimed_plans s owner) in
  do! when (negb (bool_decide (plan_id ∈ user)))
        (save (fun s => s <| Uc := <[owner := user ++ [plan_id]]> (Uc s) |>));
  let! all := load (fun s => default [] (Ac s)) in
  when (negb (bool_decide (plan_id ∈ all)))
    (save (fun s => s <| Ac := Some (all ++ [plan_id]) |>)).

(** ** Views of plans *)

Definition get_plan_details (plan_id : Z) : X (option InheritancePlan) := get_plan plan_id.
Definition set_plan_vault_wasm_hash env (admin : address) (wasm_hash : hash) : X unit :=
  do! require_admin env admin;
  save (fun s => s <| vhash := Some wasm_hash |>).
Definition get_plan_vault_address (plan_id : Z) : X (option address) := get_plan_vault plan_id.

(** [for id in ids { if let Some(p) = get_plan(id) { push } }]. *)
Definition plans_of (ids : list Z) : X (list InheritancePlan) :=
  load (fun s => omap (fun id => P s !! id) ids).

Definition get_user_plans env (user : address) : X (list InheritancePlan) :=
  do! require_auth env user;
  let! ids := load (fun s => user_plans s user) in
  plans_of ids.

Definition get_all_plans env (admin : address) : X (list InheritancePlan) :=
  do! require_admin env admin;
  let! next := get_next_plan_id in
  plans_of (seqZ 1 (next - 1)).

Definition get_user_pending_plans env (user : address) : X (list InheritancePlan) :=
  let! all := get_user_plans env user in
  ret (filter (fun p => is_active p = true) all).
Definition get_all_pending_plans env (admin : address) : X (list InheritancePlan) :=
  let! all := get_all_plans env admin in
  ret (filter (fun p => is_active p = true) all).

Definition get_deactivated_plan env (user : address) (plan_id : Z) : X InheritancePlan :=
  do! require_auth env user;
  let! plan := require_plan plan_id in
  do! reject_if (negb (bool_decide (owner plan = user))) Unauthorized;
  do! reject_if (is_active plan) PlanNotActive;
  ret plan.
Definition get_user_deactivated_plans env (user : address) : X (list InheritancePlan) :=
  do! require_auth env user;
  let! ids := load (fun s => user_plans s user) in
  let! all := plans_of ids in
  ret (filter (fun p => is_active p = false) all).
Definition get_all_deactivated_plans env (admin : address) : X (list InheritancePlan) :=
  do! require_auth env admin;
  let! stored := get_admin in
  let! stored_admin := ok_or stored Unauthorized in
  do! reject_if (negb (bool_decide (admin = stored_admin))) Unauthorized;
  let! ids := load (fun s => default [] (Dp s)) in
  let! all := plans_of ids in
  ret (filter (fun p => is_active p = false) all).

Definition get_claimed_plan env (user : address) (plan_id : Z) : X InheritancePlan :=
  do! require_auth env user;
  let! plan := require_plan plan_id in
  do! reject_if (negb (bool_decide (owner plan = user))) Unauthorized;
  let! ids := load (fun s => claimed_plans s user) in
  do! reject_if (negb (bool_decide (plan_id ∈ ids))) PlanNotClaimed;
  ret plan.
Definition get_user_claimed_plans env (user : address) : X (list InheritancePlan) :=
  do! require_auth env user;
  let! ids := load (fun s => claimed_plans s user) in
  plans_of ids.
Definition get_all_claimed_plans env (admin : address) : X (list InheritancePlan) :=
  do! require_admin env admin;
  let! ids := load (fun s => default [] (Ac s)) in
  plans_of ids.

Definition verify_plan_ownership (plan_id : Z) (user : address) : X bool :=
  let! p := get_plan plan_id in
  ret (match p with Some plan => bool_decide (owner plan = user) | None => false end).

(** ** Upgrade and migration *)

Definition version : X Z := load (fun s => default CONTRACT_VERSION (Ver s)).

(** The version bump and event shared by the upgrade entry points, which then
    replace the contract's code. *)
Definition bump_version env (admin : address) (old_version : Z) (wasm : hash) : X unit :=
  let! new_version := add32 old_version 1 in
  do! save (fun s => s <| Ver := Some new_version |>);
  emit (ContractUpgradedEvent old_version new_version wasm admin (timestamp env)).

Definition upgrade env (admin : address) (wasm : hash) : X unit :=
  do! require_admin env admin;
  let! old_version := version in
  bump_version env admin old_version wasm.
Definition upgrade_wasm env (wasm : hash) : X unit :=
  let! a := get_admin in
  let! admin := ok_or a AdminNotSet in
  do! require_admin env admin;
  let! old_version := version in
  bump_version env admin old_version wasm.
Definition upgrade_contract env (admin : address) (wasm : hash) : X unit :=
  do! require_admin env admin;
  let! old_version := load (fun s => default 0 (Ver s)) in
  bump_version env admin old_version wasm.
Definition migrate env (admin : address) : X unit :=
  do! require_admin env admin;
  let! stored_version := load (fun s => default 0 (Ver s)) in
  if CONTRACT_VERSION <=? stored_version then ret tt
  else save (fun s => s <| Ver := Some CONTRACT_VERSION |>).

(** ** Linked contracts *)

Definition require_compatible_version (contract : address) : X unit :=
  zoom (assert_compatible_version_or_panic peer_version contract 1).

Definition set_lending_contract env (admin contract : address) : X unit :=
  do! require_admin env admin;
  do! require_compatible_version contract;
  do! save (fun s => s <| Lc := Some contract |>);
  emit (LendingLinkedEvent contract).
Definition get_lending_contract : X (option address) := load Lc.
Definition set_governance_contract env (admin contract : address) : X unit :=
  do! require_admin env admin;
  do! require_compatible_version contract;
  do! save (fun s => s <| Gc := Some contract |>);
  emit (GovernanceLinkedEvent contract).
Definition get_governance_contract : X (option address) := load Gc.

Definition require_lending_contract : X address :=
  let! c := get_lending_contract in ok_or c AdminNotSet.
Definition require_governance_contract : X address :=
  let! c := get_governance_contract in ok_or c AdminNotSet.

(** ** Wrapped tokens *)

Definition wrapped (s : plan_store) : list address := default [] (supp_wrp s).
(** The signature of the stored administrator. *)
Definition admin_signs env : X unit :=
  let! a := get_admin in
  let! admin := ok_or a AdminNotSet in
  require_auth env admin.
Definition add_supported_wrapped_token env (tok : address) : X unit :=
  do! admin_signs env;
  let! tokens := load wrapped in
  do! reject_if (bool_decide (tok ∈ tokens)) AlreadyApproved;
  do! save (fun s => s <| supp_wrp := Some (tokens ++ [tok]) |>);
  emit (WrappedTokenEvent true tok).
Definition remove_wrapped_token env (tok : address) : X unit :=
  do! admin_signs env;
  let! tokens := load wrapped in
  match list_find (fun t => t = tok) tokens with
  | Some (index, _) =>
    do! save (fun s => s <| supp_wrp := Some (delete index tokens) |>);
    emit (WrappedTokenEvent false tok)
  | None => fail BeneficiaryNotFound
  end.
Definition is_wrapped_token_supported (tok : address) : X bool :=
  load (fun s => bool_decide (tok ∈ wrapped s)).
Definition get_wrapped_tokens : X (list address) := load wrapped.

(** ** KYC *)

Definition submit_kyc env (user : address) : X unit :=
  do! require_auth env user;
  do! require_not_blacklisted user;
  let! stored := load (fun s => Ky s !! user) in
  let status := default (mkKyc false false false 0 0 0) stored in
  do! reject_if (approved status) AlreadyApproved;
  save (fun s => s <| Ky := <[user := status <| submitted := true |>
                                             <| submitted_at := timestamp env |>]> (Ky s) |>).

(** The submitted record of a user. *)
Definition submitted_kyc (user : address) : X KycStatus :=
  let! stored := load (fun s => Ky s !! user) in
  let! status := ok_or stored KycNotSubmitted in
  do! reject_if (negb (submitted status)) KycNotSubmitted;
  ret status.
Definition approve_kyc env (admin user : address) : X unit :=
  do! require_admin env admin;
  do! require_not_blacklisted user;
  let! status := submitted_kyc user in
  do! reject_if (approved status) AlreadyApproved;
  do! save (fun s => s <| Ky := <[user := status <| approved := true |>
                                               <| approved_at := timestamp env |>]> (Ky s) |>);
  emit (KycApprovedEvent user (timestamp env)).
Definition reject_kyc env (admin user : address) : X unit :=
  do! require_admin env admin;
  do! require_not_blacklisted user;
  let! status := submitted_kyc user in
  do! reject_if (rejected status) KycAlreadyRejected;
  do! save (fun s => s <| Ky := <[user := status <| rejected := true |>
                                               <| rejected_at := timestamp env |>]> (Ky s) |>);
  emit (KycRejectedEvent user (timestamp env)).

(** One user of [batch_approve_kyc]; the counters are [(success, fail)]. *)
Definition approve_one env (acc : Z * Z) (user : address) : X (Z * Z) :=
  let '(success, fail_count) := acc in
  let! stored := load (fun s => Ky s !! user) in
  match stored with
  | None => ret (success, fail_count + 1)
  | Some status =>
    if negb (submitted status) || approved status then ret (success, fail_count + 1)
    else
      do! save (fun s => s <| Ky := <[user := status <| approved := true |>
                                                   <| approved_at := timestamp env |>]> (Ky s) |>);
      do! emit (KycApprovedEvent user (timestamp env));
      ret (success + 1, fail_count)
  end.
Definition batch_approve_kyc env (admin : address) (users : list address) : X (Z * Z) :=
  do! require_admin env admin;
  do! reject_if (BATCH_LIMIT <? len users) TooManyBeneficiaries;
  let! counts := foldM (approve_one env) users (0, 0) in
  do! emit (BatchKycApprovedEvent counts.1 counts.2);
  ret counts.

(** * Calls *)

Inductive admin_call :=
  | Pause (admin : address) | Unpause (admin : address)
  | InitializeAdmin (admin : address)
  | AssignRole (admin a : address) (role : Role) | RevokeRole (admin a : address) (role : Role)
  | BlacklistAddress (admin a : address) | UnblacklistAddress (admin a : address)
  | SetVaultWasm (admin : address) (h : hash)
  | Upgrade (admin : address) (h : hash) | UpgradeWasm (h : hash)
  | UpgradeContract (admin : address) (h : hash) | Migrate (admin : address)
  | SetLending (admin c : address) | SetGovernance (admin c : address)
  | AddWrapped (tok : address) | RemoveWrapped (tok : address)
  | SubmitKyc (user : address) | ApproveKyc (admin user : address) | RejectKyc (admin user : address)
  | BatchApproveKyc (admin : address) (users : list address).
Definition run_admin env (c : admin_call) : X unit :=
  match c with
  | Pause a => pause env a | Unpause a => unpause env a
  | InitializeAdmin a => initialize_admin env a
  | AssignRole a x r => assign_role env a x r | RevokeRole a x r => revoke_role env a x r
  | BlacklistAddress a x => blacklist_address env a x
  | UnblacklistAddress a x => unblacklist_address env a x
  | SetVaultWasm a h => set_plan_vault_wasm_hash env a h
  | Upgrade a h => upgrade env a h | UpgradeWasm h => upgrade_wasm env h
  | UpgradeContract a h => upgrade_contract env a h | Migrate a => migrate env a
  | SetLending a c => set_lending_contract env a c | SetGovernance a c => set_governance_contract env a c
  | AddWrapped t => add_supported_wrapped_token env t | RemoveWrapped t => remove_wrapped_token env t
  | SubmitKyc u => submit_kyc env u | ApproveKyc a u => approve_kyc env a u
  | RejectKyc a u => reject_kyc env a u
  | BatchApproveKyc a us => do! batch_approve_kyc env a us; ret tt
  end.

(** * Inversion *)
#[local] Arguments plan_vault_salt : simpl never.

Lemma ih_load_Ok {S A} `{Sub W S} (f : S -> A) a w w' :
  load f w = Ok a w' <-> a = f (sget w) /\ w' = w.
Proof. apply (gets_Ok (fun w => f (sget w))). Qed.
Lemma ih_save_Ok {S} `{Sub W S} (f : S -> S) u w w' :
  save f w = Ok u w' <-> u = tt /\ w' = sput (f (sget w)) w.
Proof. apply (modify_Ok (fun w => sput (f (sget w)) w)). Qed.
Lemma ih_emit_Ok e u w w' : emit e w = Ok u w' <-> u = tt /\ w' = w <| evs := evs w ++ [e] |>.
Proof. apply (modify_Ok (fun w => w <| evs := evs w ++ [e] |>)). Qed.
Lemma add32_Ok a b r w w' : add32 a b w = Ok r w' <-> r = a + b /\ u32 (a + b) /\ w' = w.
Proof. unfold add32. rewrite unwrap_Ok, checked_Some. unfold u32. naive_solver. Qed.

Lemma hash_string_Ok s h w w' :
  hash_string s w = Ok h w' <-> len s <= 256 /\ h = sha256 s /\ w' = w.
Proof.
  unfold hash_string, bind, panic_if, ret. destruct (Z.eqb_spec (len s) (Z.min (len s) 256)); simpl.
  - split; [intros [= <- <-]; split_and!; [lia|done..]|by intros (_ & -> & ->)].
  - split; [done|lia].
Qed.
Lemma hash_claim_code_with_salt_Ok c salt h w w' :
  hash_claim_code_with_salt c salt w = Ok h w' <->
  c <= 999999 /\ h = sha256 (salt ++ code_digits c) /\ w' = w.
Proof.
  unfold hash_claim_code_with_salt, bind, reject_if, ret. destruct (Z.ltb_spec 999999 c); simpl.
  - split; [done|lia].
  - split; [by intros [= <- <-]|by intros (_ & -> & ->)].
Qed.

Lemma require_not_blacklisted_Ok a u w w' :
  require_not_blacklisted a w = Ok u w' <->
  default false (Blacklisted (acl w) !! a) = false /\ w' = w.
Proof.
  unfold require_not_blacklisted. rewrite zoom_Ok. split.
  - intros (s & Hm & ->). unfold AccessControl.require_not_blacklisted, AccessControl.is_blacklisted in Hm.
    run_inv. split; [done|by destruct w].
  - intros [Hb ->]. exists (acl w). split; [|by destruct w].
    unfold AccessControl.require_not_blacklisted, AccessControl.is_blacklisted, bind, gets. cbn.
    rewrite Hb. by destruct u.
Qed.
Lemma ih_require_admin_Ok env a u w w' :
  require_admin env a w = Ok u w' <->
  (a ∈ auths env /\ default false (Blacklisted (acl w) !! a) = false /\
   Admin ∈ roles_of (acl w) a) /\ w' = w.
Proof.
  unfold require_admin. rewrite bind_Ok. setoid_rewrite require_auth_Ok. setoid_rewrite bind_Ok.
  setoid_rewrite require_not_blacklisted_Ok. split.
  - intros (? & ? & [? ->] & ? & ? & [? ->] & Hr).
    apply (AccessControl.require_role_Ok a Admin NotAdmin u w w') in Hr as [? ->]. done.
  - intros ((? & ? & ?) & ->). exists tt, w. split; [done|]. exists tt, w. split; [done|].
    by apply (AccessControl.require_role_Ok a Admin NotAdmin u w w).
Qed.
Lemma enter_guard_Ok u w w' :
  enter_guard w = Ok u w' <->
  ReentrancyLock (acl w) = None /\
  w' = w <| acl := (acl w) <| ReentrancyLock := Some true |> |>.
Proof.
  unfold enter_guard. rewrite zoom_Ok. unfold reentrancy_enter_or_panic. split.
  - intros (s & Hm & ->). run_inv. split; [by apply locked_false|done].
  - intros (Hl & ->). eexists. split; [|done]. apply locked_false in Hl.
    unfold bind, gets, panic_if. cbn. rewrite Hl. by destruct u.
Qed.
Lemma exit_guard_Ok u w w' :
  exit_guard w = Ok u w' <-> w' = w <| acl := (acl w) <| ReentrancyLock := None |> |>.
Proof. unfold exit_guard. exact (AccessControl.reentrancy_exit_Ok (E := InheritanceError) u w w'). Qed.
Lemma check_not_paused_Ok u w w' :
  check_not_paused w = Ok u w' <->
  (is_contract_paused (acl w) = false /\ pause_lock (acl w) = false) /\ w' = w.
Proof.
  unfold check_not_paused. rewrite zoom_Ok. unfold require_not_paused_or_panic. split.
  - intros (s & Hm & ->). run_inv. bool_hyps. split; [done|by destruct w].
  - intros ((Hp & Hl) & ->). exists (acl w). split; [|by destruct w].
    unfold bind, gets. cbn. rewrite Hp, Hl. by destruct u.
Qed.
Lemma check_kyc_approved_Ok user u w w' :
  check_kyc_approved user w = Ok u w' <->
  (exists k, Ky (plans w) !! user = Some k /\ approved k = true) /\ w' = w.
Proof.
  unfold check_kyc_approved, bind, load, gets, ok_or, reject_if, fail, ret. cbn.
  destruct (Ky (plans w) !! user) as [k|]; cbn.
  - destruct (approved k) eqn:Ha; cbn.
    + split; [intros [= _ <-]; by eauto|]. intros [_ ->]. by destruct u.
    + split; [done|]. intros [(? & [= <-] & ?) _]. congruence.
  - split; [done|]. by intros [(? & ? & _) _].
Qed.

Lemma get_admin_Ok a w w' : get_admin w = Ok a w' <-> a = Ad (plans w) /\ w' = w.
Proof. exact (ih_load_Ok Ad a w w'). Qed.
Lemma get_plan_Ok id p w w' : get_plan id w = Ok p w' <-> p = P (plans w) !! id /\ w' = w.
Proof. exact (ih_load_Ok (fun s => P s !! id) p w w'). Qed.
Lemma require_plan_Ok id p w w' :
  require_plan id w = Ok p w' <-> P (plans w) !! id = Some p /\ w' = w.
Proof.
  unfold require_plan. rewrite bind_Ok. setoid_rewrite get_plan_Ok. setoid_rewrite ok_or_Ok.
  naive_solver.
Qed.
Lemma store_plan_Ok id p u w w' :
  store_plan id p w = Ok u w' <->
  u = tt /\ w' = w <| plans := (plans w) <| P := <[id := p]> (P (plans w)) |> |>.
Proof.
  unfold store_plan, bind, save, modify, attempt, extend_ttl, get_plan, load, gets, ret. cbn.
  rewrite lookup_insert_eq. cbn. split; [by intros [= <- <-]|by intros [-> ->]].
Qed.
Lemma increment_plan_id_Ok id w w' :
  increment_plan_id w = Ok id w' <->
  id = default 1 (Npi (plans w)) /\ u64 (id + 1) /\
  w' = w <| plans := (plans w) <| Npi := Some (id + 1) |> |>.
Proof.
  unfold increment_plan_id, get_next_plan_id. split.
  - intros Hr. run_bind Hr. match goal with Hl : load _ _ = _ |- _ => apply ih_load_Ok in Hl as [-> ->] end.
    run_inv. match goal with Hl : save _ _ = _ |- _ => apply ih_save_Ok in Hl as [_ ->] end. done.
  - intros (-> & Hu & ->). apply bind_Ok. eexists _, w. split; [by apply ih_load_Ok|].
    apply bind_Ok. eexists _, w. split; [by apply add64_Ok|].
    apply bind_Ok. eexists tt, _. split; [by apply ih_save_Ok|]. by apply ret_Ok.
Qed.

Lemma try_transfer_Ok env tok from to n b w w' :
  try_transfer env tok from to n w = Ok b w' <->
  match tk_transfer (toks w) (auths (sub_env env tok)) tok from to n with
  | Some t => b = true /\ w' = w <| toks := t |>
  | None => b = false /\ w' = w
  end.
Proof.
  unfold try_transfer, bind, gets. destruct (tk_transfer _ _ _ _ _ _).
  - split; [by intros [= <- <-]|by intros [-> ->]].
  - split; [by intros [= <- <-]|by intros [-> ->]].
Qed.

(** A call of a vault that succeeds, in terms of the vault's own run. *)
Lemma call_vault_Ok env v m u w w' :
  call_vault env v m w = Ok u w' <->
  exists s x, vaults w !! v = Some s /\
    m (sub_env env v) (PlanVault.mkWorld s (toks w)) = Ok tt x /\
    w' = w <| toks := PlanVault.toks x |> <| vaults := <[v := PlanVault.st x]> (vaults w) |>.
Proof.
  unfold call_vault, bind, gets. destruct (vaults w !! v) as [s|] eqn:Hv.
  - cbn. destruct (m _ _) as [[] x| |] eqn:Hm.
    + split; [intros [= <- <-]; eauto|]. intros (? & ? & [= <-] & Hm' & ->). rewrite Hm in Hm'.
      injection Hm' as <-. by destruct u.
    + split; [done|]. intros (? & ? & [= <-] & Hm' & _). by rewrite Hm in Hm'.
    + split; [done|]. intros (? & ? & [= <-] & Hm' & _). by rewrite Hm in Hm'.
  - split; [done|]. by intros (? & ? & ? & _).
Qed.

(** A release moves the amount out of the plan's vault, which the contract
    controls, and changes nothing else. *)
Lemma release_Ok env id tok to n u w w' :
  release_from_plan_vault env id tok to n w = Ok u w' ->
  exists v s c t, pvault (plans w) !! id = Some v /\ vaults w !! v = Some s /\
    PlanVault.Ctl s = Some c /\ c ∈ auths (sub_env env v) /\ n <> 0 /\
    tk_transfer (toks w) (auths (sub_env (sub_env env v) tok)) tok v to n = Some t /\
    w' = w <| toks := t |>.
Proof.
  unfold release_from_plan_vault, require_plan_vault, get_plan_vault. intros Hr. run_bind Hr.
  repeat match goal with
  | Hb : bind _ _ _ = _ |- _ => run_bind Hb
  | Hl : load _ _ = _ |- _ => apply ih_load_Ok in Hl as [-> ->]
  | Hl : ok_or _ _ _ = _ |- _ => apply ok_or_Ok in Hl as [Hv ->]
  end.
  apply call_vault_Ok in Hr as (s & vw & Hs & Hm & ->). unfold PlanVault.release in Hm. run_inv.
  destruct (tk_transfer _ _ _ _ _ _) as [t|] eqn:Ht; run_inv. bool_hyps. cbn in *.
  eexists _, s, _, t. split_and!; try done. rewrite insert_id by done. by destruct w.
Qed.

(** Deploying a vault needs a configured code and a free address; the vault is
    controlled by this contract. *)
Lemma deploy_plan_vault_Ok env id own v w w' :
  deploy_plan_vault env id own w = Ok v w' <->
  is_Some (vhash (plans w)) /\ v = deployed_address (current_contract env) (plan_vault_salt id) /\
  vaults w !! v = None /\
  w' = w <| vaults := <[v := PlanVault.mkStore (Some true) (Some (current_contract env)) (Some own)
                              (Some id)]> (vaults w) |>
         <| plans := (plans w) <| pvault := <[id := v]> (pvault (plans w)) |> |>.
Proof.
  unfold deploy_plan_vault, get_configured_plan_vault_wasm, bind, load, gets, ok_or. cbn.
  destruct (vhash (plans w)) as [h|] eqn:Hh; [|split; [done|]; by intros ([] & _)]. cbn.
  destruct (vaults w !! _) as [s|] eqn:Hv.
  - rewrite bool_decide_true by done. split; [done|]. intros (_ & -> & Hn & _). congruence.
  - rewrite bool_decide_false by (by intros []). cbn.
    unfold call_vault, bind, gets, modify. cbn. rewrite lookup_insert_eq. cbn.
    rewrite insert_insert_eq. split.
    + intros [= <- <-]. split_and!; [done|done|done|]. rewrite <-Hh. by destruct w.
    + intros (_ & -> & _ & ->). rewrite <-Hh. by destruct w.
Qed.

Lemma add_plan_to_user_Ok a id u w w' :
  add_plan_to_user a id w = Ok u w' <->
  w' = w <| plans := (plans w) <| Up := <[a := user_plans (plans w) a ++ [id]]> (Up (plans w)) |> |>.
Proof. split; [by intros [= <- <-]|intros ->; by destruct u]. Qed.

Lemma add_plan_to_deactivated_Ok id u w w' :
  add_plan_to_deactivated id w = Ok u w' ->
  exists l, w' = w <| plans := (plans w) <| Dp := l |> |> /\ id ∈ default [] l.
Proof.
  unfold add_plan_to_deactivated, bind, load, gets, when, save, modify, ret. cbn.
  case_bool_decide; cbn; intros [= <- <-].
  - exists (Dp (plans w)). split; [by destruct w as [? []]|done].
  - eexists (Some _). split; [done|set_solver].
Qed.
(** The claimed-plan lists after [add_plan_to_claimed]. *)
Definition listed_once (id : Z) (l : list Z) : list Z :=
  if bool_decide (id ∈ l) then l else l ++ [id].
Lemma listed_once_in id l : id ∈ listed_once id l.
Proof. unfold listed_once. case_bool_decide; set_solver. Qed.
Lemma add_plan_to_claimed_Ok a id u w w' :
  add_plan_to_claimed a id w = Ok u w' ->
  exists uc ac, w' = w <| plans := (plans w) <| Uc := uc |> <| Ac := ac |> |> /\
    default [] (uc !! a) = listed_once id (default [] (Uc (plans w) !! a)) /\
    (forall o, o <> a -> uc !! o = Uc (plans w) !! o) /\
    default [] ac = listed_once id (default [] (Ac (plans w))).
Proof.
  unfold add_plan_to_claimed, bind, load, gets, when, save, modify, claimed_plans, ret, listed_once. cbn.
  destruct (bool_decide (id ∈ default [] (Uc (plans w) !! a))) eqn:H1; cbn;
    destruct (bool_decide (id ∈ default [] (Ac (plans w)))) eqn:H2; cbn; intros [= <- <-]; bool_hyps.
  - eexists (Uc (plans w)), (Ac (plans w)). split_and!; [by destruct w as [? []]|done..].
  - eexists (Uc (plans w)), _. by split_and!.
  - eexists _, (Ac (plans w)). split_and!; [done|by rewrite lookup_insert_eq|intros o Ho; by rewrite lookup_insert_ne|done].
  - eexists _, _. split_and!; [done|by rewrite lookup_insert_eq|intros o Ho; by rewrite lookup_insert_ne|done].
Qed.
End core.

(** Invert the component's operations; a component adds its own to [ih_more]. *)
Ltac ih_more := fail.
Ltac norm_pairs := cbn [fst snd] in *.
Ltac ih_extra :=
  match goal with
  | H : load _ _ = Ok _ _ |- _ => apply ih_load_Ok in H
  | H : save _ _ = Ok _ _ |- _ => apply ih_save_Ok in H
  | H : emit _ _ = Ok _ _ |- _ => apply ih_emit_Ok in H
  | H : add32 _ _ _ = Ok _ _ |- _ => apply add32_Ok in H
  | H : hash_string _ _ = Ok _ _ |- _ => apply hash_string_Ok in H
  | H : hash_claim_code_with_salt _ _ _ = Ok _ _ |- _ => apply hash_claim_code_with_salt_Ok in H
  | H : require_not_blacklisted _ _ = Ok _ _ |- _ => apply require_not_blacklisted_Ok in H
  | H : require_admin _ _ _ = Ok _ _ |- _ => apply ih_require_admin_Ok in H
  | H : enter_guard _ = Ok _ _ |- _ => apply enter_guard_Ok in H
  | H : exit_guard _ = Ok _ _ |- _ => apply exit_guard_Ok in H
  | H : check_not_paused _ = Ok _ _ |- _ => apply check_not_paused_Ok in H
  | H : check_kyc_approved _ _ = Ok _ _ |- _ => apply check_kyc_approved_Ok in H
  | H : get_admin _ = Ok _ _ |- _ => apply get_admin_Ok in H
  | H : get_plan _ _ = Ok _ _ |- _ => apply get_plan_Ok in H
  | H : require_plan _ _ = Ok _ _ |- _ => apply require_plan_Ok in H
  | H : store_plan _ _ _ = Ok _ _ |- _ => apply store_plan_Ok in H
  | H : increment_plan_id _ = Ok _ _ |- _ => apply increment_plan_id_Ok in H
  | H : require_plan_vault _ _ = Ok _ _ |- _ => unfold require_plan_vault, get_plan_vault in H
  | H : release_from_plan_vault _ _ _ _ _ _ = Ok _ _ |- _ => apply release_Ok in H
  | H : deploy_plan_vault _ _ _ _ = Ok _ _ |- _ => apply deploy_plan_vault_Ok in H
  | H : add_plan_to_user _ _ _ = Ok _ _ |- _ => apply add_plan_to_user_Ok in H
  | H : add_plan_to_deactivated _ _ = Ok _ _ |- _ => apply add_plan_to_deactivated_Ok in H
  | H : add_plan_to_claimed _ _ _ = Ok _ _ |- _ => apply add_plan_to_claimed_Ok in H
  | H : (let '(_, _) := ?x in _) _ = Ok _ _ |- _ => is_var x; destruct x; norm_pairs
  | _ => ih_more
  end.
Ltac run_extra ::= ih_extra.

(** Compute the projections of updated worlds. *)
Ltac norm_ih :=
  cbn [upd_field sget sput sub_acl sub_plans sub_claims sub_disputes sub_triggers sub_wills
       sub_messages sub_notices sub_yields acl plans claims disputes triggers wills messages
       notices yields evs prng toks vaults lend
       Roles Blacklisted ReentrancyLock Paused PauseLock ActiveOps AccessControl.ContractVersion
       Npi P Up Uc Dp Ac Ad Ky Ver Lc Gc vhash pvault supp_wrp C Cs Ca Ves Fb Fz Lh Ndi Ds Pd Arb
       It Tc Eac Gd Eap Ec Wh Vw Bv Wvc Wv Awv Ws Su Wf Wfa Ww Wsig Nmi Lm Vm vk_ver vk_cur vk_ref
       Bn Ba Ra Yr Ys
       plan_name description token asset_type total_amount distribution_method beneficiaries
       total_allocation_bp owner created_at is_active is_lendable total_loaned waterfall_enabled
       grace_period earn_yield
       hashed_full_name hashed_email hashed_claim_code bank_account allocation_bp priority is_claimed
       submitted approved rejected submitted_at approved_at rejected_at
       triggered_at loan_freeze_active recall_attempted liquidation_triggered original_loaned
       recalled_amount settled_amount
       conditions trigger_date inactivity_period last_activity oracle_address oracle_triggered
       health_triggered
       ys_asset last_harvest_at total_harvested total_fees_paid harvest_count last_harvest_amount
       registered_principal pending_credit ys_paused config history
       vault_id message_id message_hash creator key_reference unlock_timestamp is_unlocked
       is_finalized msg_created_at wv_version wv_will_hash wv_created_at wv_is_active
       dispute_id ds_plan_id disputer ds_reason status filed_at resolved_at resolution_notes
       arbitrator] in *.

(** Eliminate the intermediate worlds from the last to the first. *)
Ltac last_world H x :=
  is_var x; lazymatch type of x with world _ _ => idtac end;
  assert_fails (idtac; match goal with
    | H' : ?y = ?r |- _ =>
      is_var y; lazymatch type of y with world _ _ => idtac end;
      lazymatch r with context [x] => idtac end
    end).
Ltac ih_final :=
  repeat match goal with
  | H : ?x = _ |- _ => last_world H x; subst x; norm_ih
  end; subst.
Ltac run_final ::= ih_final.
Ltac run_fallback ::= fail.

(** Framing and [moves] decide by unfolding the operation at the head. *)
Ltac head_of t := lazymatch t with ?f _ => head_of f | _ => t end.
Ltac unfold_head m := let h := head_of m in unfold h.
Ltac ih_keeps_known := fail.
Ltac ih_keeps_step :=
  first
  [ ih_keeps_known
  | keeps_step
  | apply keeps_zoom; by intros ? []
  | match goal with |- keeps _ ?m => unfold_head m end ].
Ltac ih_keeps := intros; repeat ih_keeps_step.
(** For [moves R m]; the updates that [R] does not allow by itself are left. *)
Ltac ih_step :=
  first [ moves_step | progress unfold store_plan, extend_ttl, emit, save, load ].
Ltac ih_moves_known := fail.
Ltac ih_moves_step side :=
  first
  [ ih_moves_known
  | moves_step
  | apply moves_modify; intros ?; solve [side]
  | apply moves_zoom; intros ? ?; solve [side]
  | match goal with |- moves _ ?m => unfold_head m end ].
Ltac ih_moves side := intros; repeat ih_moves_step side.

End InheritanceCore.
