(* ===== verification/InheritanceEmergency.v ===== *)
(** Emergency access, guardians and emergency contacts of the inheritance
    contract ([contracts/inheritance-contract/src/lib.rs]). *)
From S2P Require Import Prelude Host AccessControl Token PlanVault InheritanceTypes.
From S2P Require Import InheritanceCore.
Import InheritanceTypes InheritanceCore.

Module InheritanceEmergency.
Import AccessControl.

Section emergency.
Context {T L : Type} `{TokenOps T}.
Abbreviation W := (world T L).
Abbreviation X A := (M W InheritanceError A).
Implicit Types (env : Env) (w : W).

(** [for x in xs.iter() { f(x) }]. *)
Definition iterM {A} (f : A -> X unit) (xs : list A) : X unit := foldM (fun _ x => f x) xs tt.

(** [plan.owner != owner]. *)
Definition owned_plan env (owner : address) (plan_id : Z) : X InheritancePlan :=
  do! require_auth env owner;
  let! plan := require_plan plan_id in
  do! reject_if (negb (bool_decide (InheritanceTypes.owner plan = owner))) Unauthorized;
  ret plan.

(** * Emergency access *)

Definition check_and_expire_emergency_access env (plan_id : Z) : X bool :=
  let! stored := load (fun s => Eac s !! plan_id) in
  match stored with
  | Some record =>
    let! expiry := add64 (activated_at record) EMERGENCY_EXPIRATION_PERIOD in
    if expiry <? timestamp env then
      do! save (fun s => s <| Eac := delete plan_id (Eac s) |>);
      do! emit (EmergencyAccessExpirationEvent plan_id (timestamp env));
      ret false
    else ret true
  | None => ret false
  end.

Definition get_emergency_access env (plan_id : Z) : X (option EmergencyAccessRecord) :=
  let! live := check_and_expire_emergency_access env plan_id in
  if live then load (fun s => Eac s !! plan_id) else ret None.

Definition is_emergency_active env (plan_id : Z) : X bool :=
  let! live := check_and_expire_emergency_access env plan_id in
  if negb live then ret false
  else
    let! stored := load (fun s => Eac s !! plan_id) in
    match stored with
    | Some record =>
      ret (saturating_sub (timestamp env) (activated_at record) <? EMERGENCY_COOLDOWN_PERIOD)
    | None => ret false
    end.

(** Write the access record and announce it. *)
Definition open_access env (plan_id : Z) (contact : address) : X unit :=
  let now := timestamp env in
  do! save (fun s => s <| Eac := <[plan_id := mkAccess plan_id contact now]> (Eac s) |>);
  emit (EmergencyAccessActivatedEvent plan_id contact now).

Definition activate_emergency_access env (owner : address) (plan_id : Z)
    (trusted_contact : address) : X unit :=
  do! check_and_expire_emergency_access env plan_id;
  let! _plan := owned_plan env owner plan_id in
  let! active := load (fun s => Eac s !! plan_id) in
  do! reject_if (bool_decide (is_Some active)) EmergencyAccessAlreadyActive;
  open_access env plan_id trusted_contact.

Definition deactivate_emergency_access env (owner : address) (plan_id : Z) : X unit :=
  let! _plan := owned_plan env owner plan_id in
  let! active := load (fun s => Eac s !! plan_id) in
  when (bool_decide (is_Some active))
    (do! save (fun s => s <| Eac := delete plan_id (Eac s) |>);
     emit (EmergencyAccessRevocationEvent plan_id (timestamp env))).

(** The owner or the live emergency contact of a plan. *)
Definition get_user_plan env (caller : address) (plan_id : Z) : X InheritancePlan :=
  do! require_auth env caller;
  let! plan := require_plan plan_id in
  if bool_decide (InheritanceTypes.owner plan = caller) then ret plan
  else
    let! access := get_emergency_access env plan_id in
    match access with
    | Some record =>
      if bool_decide (trusted_contact record = caller) then ret plan else fail Unauthorized
    | None => fail Unauthorized
    end.

(** * Guardians *)

Definition set_guardians env (owner : address) (plan_id : Z) (gs : list address)
    (threshold : Z) : X unit :=
  let! _plan := owned_plan env owner plan_id in
  do! reject_if ((threshold =? 0) || (len gs <? threshold)) InvalidGuardianThreshold;
  do! save (fun s => s <| Gd := <[plan_id := mkGuardians gs threshold]> (Gd s) |>);
  iterM (fun g => zoom (AccessControl.assign_role g Guardian)) gs.

Definition approvals_of (s : trigger_store) (plan_id : Z) (contact : address) : list address :=
  default [] (Eap s !! (plan_id, contact)).

Definition approve_emergency_access env (guardian : address) (plan_id : Z)
    (trusted_contact : address) : X unit :=
  do! check_and_expire_emergency_access env plan_id;
  do! require_auth env guardian;
  do! zoom (require_role guardian Guardian Unauthorized);
  let! _plan := require_plan plan_id in
  let! active := load (fun s => Eac s !! plan_id) in
  do! reject_if (bool_decide (is_Some active)) EmergencyAccessAlreadyActive;
  let! stored := load (fun s => Gd s !! plan_id) in
  let! config := ok_or stored GuardianNotFound in
  do! reject_if (negb (bool_decide (guardian ∈ guardians config))) Unauthorized;
  let! approvals := load (fun s => approvals_of s plan_id trusted_contact) in
  do! reject_if (bool_decide (guardian ∈ approvals)) AlreadyApproved;
  let approvals := approvals ++ [guardian] in
  do! save (fun s => s <| Eap := <[(plan_id, trusted_contact) := approvals]> (Eap s) |>);
  do! emit (EmergencyAccessApprovedEvent plan_id trusted_contact guardian (len approvals));
  when (threshold config <=? len approvals) (open_access env plan_id trusted_contact).

(** * Emergency contacts *)

Definition contacts_of (s : trigger_store) (plan_id : Z) : list address := default [] (Ec s !! plan_id).

Definition add_emergency_contact env (owner : address) (plan_id : Z) (contact : address) : X unit :=
  let! _plan := owned_plan env owner plan_id in
  let! contacts := load (fun s => contacts_of s plan_id) in
  do! reject_if (bool_decide (contact ∈ contacts)) EmergencyContactAlreadyExists;
  do! reject_if (10 <=? len contacts) TooManyEmergencyContacts;
  do! save (fun s => s <| Ec := <[plan_id := contacts ++ [contact]]> (Ec s) |>);
  emit (EmergencyContactAddedEvent plan_id contact).

(** Overwrite position [i] by the last element and drop the last. *)
Definition swap_remove {A} (i : nat) (l : list A) : list A :=
  match last l with
  | Some x => removelast (<[i := x]> l)
  | None => l
  end.

Definition remove_emergency_contact env (owner : address) (plan_id : Z) (contact : address) : X unit :=
  let! _plan := owned_plan env owner plan_id in
  let! contacts := load (fun s => contacts_of s plan_id) in
  let! found := ok_or (list_find (fun c => c = contact) contacts) EmergencyContactNotFound in
  do! save (fun s => s <| Ec := <[plan_id := swap_remove found.1 contacts]> (Ec s) |>);
  emit (EmergencyContactRemovedEvent plan_id contact).

Definition get_emergency_contacts (plan_id : Z) : X (list address) :=
  load (fun s => contacts_of s plan_id).

Lemma swap_remove_perm {A} (l : list A) i x : l !! i = Some x -> l ≡ₚ x :: swap_remove i l.
Proof.
  unfold swap_remove. destruct l as [|y l _] using rev_ind; [done|]. intros Hi. rewrite last_snoc.
  destruct (decide (i < length l)%nat) as [Hlt|Hge].
  - rewrite lookup_app_l in Hi by done. rewrite insert_app_l, removelast_last by done.
    rewrite <-(list_insert_id l i x) at 1 by done.
    rewrite Permutation_app_comm. cbn. rewrite !insert_take_drop by done.
    rewrite !Permutation_app_comm with (l' := _ :: drop _ _). cbn. apply perm_swap.
  - assert (i = length l) as ->.
    { apply lookup_lt_Some in Hi. rewrite length_app in Hi. cbn in Hi. lia. }
    rewrite lookup_app_r, Nat.sub_diag in Hi by done. injection Hi as ->.
    rewrite insert_app_r_alt, Nat.sub_diag by done. cbn. rewrite removelast_last.
    by rewrite Permutation_app_comm.
Qed.

(** * Inversion *)

Lemma owned_plan_Ok env a id p w w' :
  owned_plan env a id w = Ok p w' <->
  (a ∈ auths env /\ P (plans w) !! id = Some p /\ InheritanceTypes.owner p = a) /\ w' = w.
Proof.
  unfold owned_plan. split.
  - intros Hr. run_inv. bool_hyps. done.
  - intros ((Ha & Hp & Ho) & ->). apply bind_Ok. exists tt, w. split; [by apply require_auth_Ok|].
    apply bind_Ok. exists p, w. split; [by apply require_plan_Ok|].
    apply bind_Ok. exists tt, w. split; [apply reject_if_Ok|by apply ret_Ok].
    split; [|done]. by rewrite bool_decide_true.
Qed.

(** The access record of a plan has outlived its term. *)
Definition access_expired env w (plan_id : Z) : bool :=
  match Eac (triggers w) !! plan_id with
  | Some r => activated_at r + EMERGENCY_EXPIRATION_PERIOD <? timestamp env
  | None => false
  end.
(** The world after [check_and_expire_emergency_access]. *)
Definition expire env (plan_id : Z) w : W :=
  if access_expired env w plan_id
  then w <| triggers := (triggers w) <| Eac := delete plan_id (Eac (triggers w)) |> |>
         <| evs := evs w ++ [EVault (EmergencyAccessExpirationEvent plan_id (timestamp env))] |>
  else w.

Lemma check_and_expire_Ok env id b w w' :
  check_and_expire_emergency_access env id w = Ok b w' ->
  w' = expire env id w /\ b = bool_decide (is_Some (Eac (triggers w') !! id)).
Proof.
  unfold check_and_expire_emergency_access, expire, access_expired. intros Hr. run_bind Hr.
  match goal with Hl : load _ _ = _ |- _ => apply ih_load_Ok in Hl as [-> ->] end. cbn in Hr.
  destruct (Eac (triggers w) !! id) as [r|] eqn:Hr0.
  - run_bind Hr.
    match goal with Hl : add64 _ _ _ = _ |- _ => apply add64_Ok in Hl as (-> & _ & ->) end. cbv beta in Hr.
    destruct (_ <? _); run_inv; (split; [done|]); cbn.
    + by rewrite lookup_delete_eq.
    + by rewrite Hr0.
  - apply ret_Ok in Hr as [-> ->]. by rewrite Hr0.
Qed.

Lemma get_emergency_access_Ok env id r w w' :
  get_emergency_access env id w = Ok r w' ->
  w' = expire env id w /\ r = Eac (triggers w') !! id.
Proof.
  unfold get_emergency_access. intros Hr. run_bind Hr.
  match goal with Hc : check_and_expire_emergency_access _ _ _ = _ |- _ =>
    apply check_and_expire_Ok in Hc as [-> ->] end.
  case_bool_decide as Hs; [by apply ih_load_Ok in Hr as [-> ->]|]. apply ret_Ok in Hr as [-> ->].
  split; [done|]. symmetry. by apply eq_None_not_Some.
Qed.

(** Emergency access was opened less than a day ago. *)
Definition cooling env w (plan_id : Z) : bool :=
  match Eac (triggers w) !! plan_id with
  | Some r => saturating_sub (timestamp env) (activated_at r) <? EMERGENCY_COOLDOWN_PERIOD
  | None => false
  end.
Lemma is_emergency_active_Ok env id b w w' :
  is_emergency_active env id w = Ok b w' ->
  w' = expire env id w /\ b = cooling env w' id.
Proof.
  unfold is_emergency_active, cooling. intros Hr. run_bind Hr.
  match goal with Hc : check_and_expire_emergency_access _ _ _ = _ |- _ =>
    apply check_and_expire_Ok in Hc as [-> ->] end.
  case_bool_decide as Hs; cbn in Hr.
  - destruct Hs as [r Hs]. unfold bind, load, gets, ret in Hr. cbn in Hr. rewrite Hs in Hr.
    injection Hr as <- <-. by rewrite Hs.
  - apply ret_Ok in Hr as [-> ->]. apply eq_None_not_Some in Hs. by rewrite Hs.
Qed.

(** The cooldown depends on the access records alone. *)
Lemma cooling_ext env id w w' :
  Eac (triggers w) = Eac (triggers w') ->
  cooling env (expire env id w) id = cooling env (expire env id w') id.
Proof.
  intros He. unfold cooling, expire, access_expired. rewrite He.
  destruct (Eac (triggers w') !! id) as [r|] eqn:Hr; [destruct (_ <? _)|]; cbn; by rewrite ?He, ?Hr.
Qed.
Lemma expire_plans env id w : plans (expire env id w) = plans w.
Proof. unfold expire. by destruct (access_expired _ _ _). Qed.
Lemma expire_claims env id w : claims (expire env id w) = claims w.
Proof. unfold expire. by destruct (access_expired _ _ _). Qed.
Lemma expire_disputes env id w : disputes (expire env id w) = disputes w.
Proof. unfold expire. by destruct (access_expired _ _ _). Qed.
Lemma expire_toks env id w : toks (expire env id w) = toks w.
Proof. unfold expire. by destruct (access_expired _ _ _). Qed.
Lemma expire_vaults env id w : vaults (expire env id w) = vaults w.
Proof. unfold expire. by destruct (access_expired _ _ _). Qed.
Lemma expire_acl env id w : acl (expire env id w) = acl w.
Proof. unfold expire. by destruct (access_expired _ _ _). Qed.
Lemma expire_It env id w : It (triggers (expire env id w)) = It (triggers w).
Proof. unfold expire. by destruct (access_expired _ _ _). Qed.
Lemma expire_Eac_ext env id w w' :
  Eac (triggers w) = Eac (triggers w') -> Eac (triggers (expire env id w)) = Eac (triggers (expire env id w')).
Proof. intros He. unfold expire, access_expired. rewrite He. by repeat case_match; cbn; rewrite ?He. Qed.
Lemma expire_evs env id w : exists es, evs (expire env id w) = evs w ++ es.
Proof. unfold expire. destruct (access_expired _ _ _); [by eexists|]. exists []. by rewrite app_nil_r. Qed.
(** Expiry touches the access records and the events only. *)
Lemma expire_shape env id w :
  expire env id w = w <| triggers := (triggers w) <| Eac := Eac (triggers (expire env id w)) |> |>
    <| evs := evs (expire env id w) |>.
Proof. unfold expire. destruct (access_expired _ _ _); by destruct w as [? ? ? ? []]. Qed.
Lemma expire_twice env id w : expire env id (expire env id w) = expire env id w.
Proof.
  unfold expire at 1. destruct (access_expired env (expire env id w) id) eqn:He; [|done].
  unfold expire, access_expired in He. destruct (Eac (triggers w) !! id) as [r|] eqn:Hr.
  - destruct (_ <? _) eqn:Hlt; cbn in He; [by rewrite lookup_delete_eq in He|]. by rewrite Hr, Hlt in He.
  - by rewrite Hr in He.
Qed.

(** * Calls *)

Inductive emergency_call :=
  | ActivateAccess (owner : address) (plan_id : Z) (contact : address)
  | DeactivateAccess (owner : address) (plan_id : Z)
  | GetUserPlan (caller : address) (plan_id : Z)
  | GetAccess (plan_id : Z)
  | EmergencyActive (plan_id : Z)
  | SetGuardians (owner : address) (plan_id : Z) (gs : list address) (threshold : Z)
  | ApproveAccess (guardian : address) (plan_id : Z) (contact : address)
  | AddContact (owner : address) (plan_id : Z) (contact : address)
  | RemoveContact (owner : address) (plan_id : Z) (contact : address).

Definition discard {A} (m : X A) : X unit := do! m; ret tt.
Definition run_emergency env (c : emergency_call) : X unit :=
  match c with
  | ActivateAccess o id x => activate_emergency_access env o id x
  | DeactivateAccess o id => deactivate_emergency_access env o id
  | GetUserPlan a id => discard (get_user_plan env a id)
  | GetAccess id => discard (get_emergency_access env id)
  | EmergencyActive id => discard (is_emergency_active env id)
  | SetGuardians o id gs n => set_guardians env o id gs n
  | ApproveAccess g id x => approve_emergency_access env g id x
  | AddContact o id x => add_emergency_contact env o id x
  | RemoveContact o id x => remove_emergency_contact env o id x
  end.
Lemma ih_discard_Ok {A} (m : X A) u w w' : discard m w = Ok u w' -> exists a, m w = Ok a w'.
Proof. unfold discard. intros Hr. run_bind Hr. apply ret_Ok in Hr as [_ ->]. eauto. Qed.
End emergency.

Create Rewrite HintDb expire.
#[export] Hint Rewrite @expire_plans @expire_claims @expire_disputes @expire_toks @expire_vaults
  @expire_acl @expire_It : expire.
Ltac emergency_more :=
  match goal with
  | H : owned_plan _ _ _ _ = Ok _ _ |- _ => apply owned_plan_Ok in H
  | H : check_and_expire_emergency_access _ _ _ = Ok _ _ |- _ => apply check_and_expire_Ok in H
  | H : get_emergency_access _ _ _ = Ok _ _ |- _ => apply get_emergency_access_Ok in H
  | H : is_emergency_active _ _ _ = Ok _ _ |- _ => apply is_emergency_active_Ok in H
  | H : discard _ _ = Ok _ _ |- _ => apply ih_discard_Ok in H
  end.
Ltac ih_more ::= emergency_more.

End InheritanceEmergency.
