(* ===== verification/InheritanceTriggers.v ===== *)
(** Inheritance triggers and loan recall of the inheritance contract
    ([contracts/inheritance-contract/src/lib.rs]): the conditions, the owner's,
    the guardians' and the automatic trigger, freezing, recall and write-off. *)
From S2P Require Import Prelude Host AccessControl Token PlanVault InheritanceTypes.
From S2P Require Import InheritanceCore InheritanceEmergency.
Import InheritanceTypes InheritanceCore InheritanceEmergency.

Module InheritanceTriggers.
Import AccessControl.

Section triggers.
Context {T L : Type} `{TokenOps T}.
Abbreviation W := (world T L).
Abbreviation X A := (M W InheritanceError A).
Implicit Types (env : Env) (w : W).

Definition get_trigger_info (plan_id : Z) : X (option InheritanceTriggerInfo) :=
  load (fun s => It s !! plan_id).
Definition set_trigger_info (plan_id : Z) (info : InheritanceTriggerInfo) : X unit :=
  save (fun s => s <| It := <[plan_id := info]> (It s) |>).
Definition get_trigger_config (plan_id : Z) : X (option TriggerConfig) :=
  load (fun s => Tc s !! plan_id).
Definition save_trigger_config (plan_id : Z) (c : TriggerConfig) : X unit :=
  save (fun s => s <| Tc := <[plan_id := c]> (Tc s) |>).

(** * Conditions *)

(** One arm of the scan; the deadline of the inactivity condition is a checked
    sum, so a huge period panics. *)
Definition condition_met (now : Z) (c : TriggerConfig) (condition : TriggerConditionType) : X bool :=
  match condition with
  | CTime => ret ((0 <? trigger_date c) && (trigger_date c <=? now))
  | CInactivity =>
    if (0 <? inactivity_period c) && (0 <? last_activity c) then
      let! deadline := add64 (last_activity c) (inactivity_period c) in
      ret (deadline <=? now)
    else ret false
  | COracle => ret (oracle_triggered c)
  | CHealth => ret (health_triggered c)
  | CManual => ret false
  end.

(** The loop returns at the first condition that is met. *)
Fixpoint any_condition_met (now : Z) (c : TriggerConfig) (cs : list TriggerConditionType) : X bool :=
  match cs with
  | [] => ret false
  | condition :: cs =>
    let! b := condition_met now c condition in
    if b then ret true else any_condition_met now c cs
  end.

Definition check_trigger_conditions env (plan_id : Z) : X bool :=
  let! stored := get_trigger_config plan_id in
  match stored with
  | Some c => any_condition_met (timestamp env) c (conditions c)
  | None => ret false
  end.

Definition get_trigger_conditions (plan_id : Z) : X (option TriggerConfig) :=
  get_trigger_config plan_id.

Definition has_condition (x : TriggerConditionType) (cs : list TriggerConditionType) : bool :=
  existsb (fun c => bool_decide (c = x)) cs.

Definition not_triggered (plan_id : Z) : X unit :=
  let! info := get_trigger_info plan_id in
  reject_if (bool_decide (is_Some info)) InheritanceAlreadyTriggered.

Definition set_trigger_conditions env (owner : address) (plan_id : Z)
    (cs : list TriggerConditionType) (date period : Z) (oracle : option address) : X unit :=
  let! _plan := owned_plan env owner plan_id in
  do! not_triggered plan_id;
  do! reject_if (has_condition COracle cs && bool_decide (oracle = None)) MissingRequiredField;
  do! save_trigger_config plan_id (mkConfig cs date period (timestamp env) oracle false false);
  emit (TriggerConditionSetEvent plan_id (len cs)).

(** The stored configuration or an empty one, with the condition listed. *)
Definition config_with env (plan_id : Z) (x : TriggerConditionType) : X TriggerConfig :=
  let! stored := get_trigger_config plan_id in
  let c := default (mkConfig [] 0 0 (timestamp env) None false false) stored in
  ret (if has_condition x (conditions c) then c else c <| conditions := conditions c ++ [x] |>).

Definition add_time_trigger env (owner : address) (plan_id date : Z) : X unit :=
  let! _plan := owned_plan env owner plan_id in
  do! reject_if (date =? 0) MissingRequiredField;
  do! not_triggered plan_id;
  let! c := config_with env plan_id CTime in
  save_trigger_config plan_id (c <| trigger_date := date |>).

Definition add_inactivity_trigger env (owner : address) (plan_id period_seconds : Z) : X unit :=
  let! _plan := owned_plan env owner plan_id in
  do! reject_if (period_seconds =? 0) MissingRequiredField;
  let! c := config_with env plan_id CInactivity in
  let c := c <| inactivity_period := period_seconds |> in
  save_trigger_config plan_id
    (if last_activity c =? 0 then c <| last_activity := timestamp env |> else c).

Definition add_oracle_trigger env (owner : address) (plan_id : Z) (oracle : address) : X unit :=
  let! _plan := owned_plan env owner plan_id in
  let! c := config_with env plan_id COracle in
  save_trigger_config plan_id (c <| oracle_address := Some oracle |>).

Definition add_health_trigger env (owner : address) (plan_id : Z) (oracle : address) : X unit :=
  let! _plan := owned_plan env owner plan_id in
  let! c := config_with env plan_id CHealth in
  save_trigger_config plan_id (c <| oracle_address := Some oracle |>).

Definition record_activity env (owner : address) (plan_id : Z) : X unit :=
  let! _plan := owned_plan env owner plan_id in
  let! stored := get_trigger_config plan_id in
  let! c := ok_or stored PlanNotFound in
  save_trigger_config plan_id (c <| last_activity := timestamp env |>).

(** The configuration of a plan whose oracle signs. *)
Definition oracle_config env (oracle : address) (plan_id : Z) : X TriggerConfig :=
  do! require_auth env oracle;
  let! stored := get_trigger_config plan_id in
  let! c := ok_or stored PlanNotFound in
  do! reject_if (negb (bool_decide (oracle_address c = Some oracle))) Unauthorized;
  ret c.
Definition submit_oracle_trigger env (oracle : address) (plan_id : Z) : X unit :=
  let! c := oracle_config env oracle plan_id in
  save_trigger_config plan_id (c <| oracle_triggered := true |>).
Definition submit_health_trigger env (oracle : address) (plan_id : Z) : X unit :=
  let! c := oracle_config env oracle plan_id in
  save_trigger_config plan_id (c <| health_triggered := true |>).

(** * Triggering *)

(** Stop lending from the plan and record the trigger. *)
Definition record_trigger env (plan_id : Z) (plan : InheritancePlan) : X unit :=
  do! store_plan plan_id (plan <| is_lendable := false |>);
  set_trigger_info plan_id
    (mkTrigger (timestamp env) true false false (total_loaned plan) 0 0).

Definition auto_trigger_check env (plan_id : Z) : X unit :=
  let! met := check_trigger_conditions env plan_id in
  if negb met then ret tt
  else
    let! info := get_trigger_info plan_id in
    if bool_decide (is_Some info) then ret tt
    else
      let! plan := require_plan plan_id in
      do! reject_if (negb (is_active plan)) PlanNotActive;
      do! record_trigger env plan_id plan;
      do! emit (TriggerConditionMetEvent plan_id (timestamp env));
      emit (InheritanceTriggeredEvent plan_id (timestamp env) (total_loaned plan)).

(** Neither frozen nor under a legal hold. *)
Definition require_not_held (plan_id : Z) : X unit :=
  let! frozen := load (fun s => Fz s !! plan_id) in
  do! reject_if (bool_decide (is_Some frozen)) PlanNotActive;
  let! hold := load (fun s => Lh s !! plan_id) in
  reject_if (bool_decide (is_Some hold)) PlanNotActive.

(** The common part of the owner's and the guardians' trigger. *)
Definition trigger_plan env (plan_id : Z) : X unit :=
  let! plan := require_plan plan_id in
  do! reject_if (negb (is_active plan)) PlanNotActive;
  do! require_not_held plan_id;
  do! not_triggered plan_id;
  do! record_trigger env plan_id plan;
  do! emit (InheritanceTriggeredEvent plan_id (timestamp env) (total_loaned plan));
  emit (LoanFreezeEvent plan_id (timestamp env)).

(** Administrator, owner, or trusted contact with live emergency access. *)
Definition may_trigger env (caller : address) (plan_id : Z) : X bool :=
  let! a := get_admin in
  if bool_decide (a = Some caller) then do! require_auth env caller; ret true
  else
    let! plan := require_plan plan_id in
    if bool_decide (owner plan = caller) then do! require_auth env caller; ret true
    else
      let! access := get_emergency_access env plan_id in
      match access with
      | Some record =>
        if bool_decide (trusted_contact record = caller)
        then do! require_auth env caller; ret true
        else ret false
      | None => ret false
      end.

Definition trigger_inheritance env (caller : address) (plan_id : Z) : X unit :=
  do! check_not_paused;
  do! enter_guard;
  let! is_authorized := may_trigger env caller plan_id in
  do! reject_if (negb is_authorized) Unauthorized;
  do! trigger_plan env plan_id;
  exit_guard.

(** One signer of [guardian_emergency_trigger]. *)
Definition collect_guardian env (config : GuardianConfig) (approved : list address)
    (signer : address) : X (list address) :=
  if negb (bool_decide (signer ∈ guardians config)) then ret approved
  else if bool_decide (signer ∈ approved) then ret approved
  else do! require_auth env signer; ret (approved ++ [signer]).

Definition guardian_emergency_trigger env (plan_id : Z) (signers : list address) : X unit :=
  do! check_not_paused;
  do! enter_guard;
  let! stored := load (fun s => Gd s !! plan_id) in
  let! config := ok_or stored GuardianNotFound in
  let! approved := foldM (collect_guardian env config) signers [] in
  do! reject_if (len approved <? threshold config) Unauthorized;
  do! trigger_plan env plan_id;
  exit_guard.

(** * Loans after the trigger *)

(** The plan and its trigger record, for the administrator. *)
Definition triggered_plan env (admin : address) (plan_id : Z)
  : X (InheritancePlan * InheritanceTriggerInfo) :=
  do! require_admin env admin;
  let! plan := require_plan plan_id in
  let! info := get_trigger_info plan_id in
  let! trigger_info := ok_or info InheritanceNotTriggered in
  ret (plan, trigger_info).

Definition freeze_loans env (admin : address) (plan_id : Z) : X unit :=
  do! check_not_paused;
  let! pt := triggered_plan env admin plan_id in
  do! store_plan plan_id (pt.1 <| is_lendable := false |>);
  do! set_trigger_info plan_id (pt.2 <| loan_freeze_active := true |>);
  emit (LoanFreezeEvent plan_id (timestamp env)).

Definition recall_loan env (admin : address) (plan_id recall_amount : Z) : X unit :=
  let! pt := triggered_plan env admin plan_id in
  let '(plan, trigger_info) := pt in
  do! reject_if (total_loaned plan =? 0) NoOutstandingLoans;
  do! reject_if ((recall_amount =? 0) || (total_loaned plan <? recall_amount)) LoanRecallFailed;
  let! loaned := sub64 (total_loaned plan) recall_amount in
  do! store_plan plan_id (plan <| total_loaned := loaned |>);
  let! recalled := add64 (recalled_amount trigger_info) recall_amount in
  do! set_trigger_info plan_id
        (trigger_info <| recall_attempted := true |> <| recalled_amount := recalled |>);
  emit (LoanRecallEvent plan_id recall_amount loaned).

Definition liquidation_fallback env (admin : address) (plan_id : Z) : X unit :=
  let! pt := triggered_plan env admin plan_id in
  let '(plan, trigger_info) := pt in
  do! reject_if (total_loaned plan =? 0) NoOutstandingLoans;
  let unrecoverable := total_loaned plan in
  let remaining := saturating_sub (total_amount plan) unrecoverable in
  do! store_plan plan_id (plan <| total_amount := remaining |> <| total_loaned := 0 |>);
  let! settled := add64 (settled_amount trigger_info) unrecoverable in
  do! set_trigger_info plan_id
        (trigger_info <| liquidation_triggered := true |> <| settled_amount := settled |>);
  emit (LiquidationFallbackEvent plan_id unrecoverable remaining).

Definition get_inheritance_trigger (plan_id : Z) : X (option InheritanceTriggerInfo) :=
  get_trigger_info plan_id.
Definition get_claimable_amount (plan_id : Z) : X Z :=
  let! plan := require_plan plan_id in
  ret (saturating_sub (total_amount plan) (total_loaned plan)).

(** * Inversion *)

Lemma not_triggered_Ok id u w w' :
  not_triggered id w = Ok u w' <-> It (triggers w) !! id = None /\ w' = w.
Proof.
  unfold not_triggered, get_trigger_info, bind, load, gets, reject_if, fail, ret. cbn.
  destruct (It (triggers w) !! id) as [i|]; cbn.
  - split; [done|by intros [? _]].
  - split; [by intros [= <- <-]|intros [_ ->]; by destruct u].
Qed.
Lemma require_not_held_Ok id u w w' :
  require_not_held id w = Ok u w' <->
  (Fz (disputes w) !! id = None /\ Lh (disputes w) !! id = None) /\ w' = w.
Proof.
  unfold require_not_held, bind, load, gets, reject_if, fail, ret. cbn.
  destruct (Fz (disputes w) !! id); cbn; [split; [done|by intros [[??] _]]|].
  destruct (Lh (disputes w) !! id); cbn; [split; [done|by intros [[??] _]]|].
  split; [by intros [= <- <-]|intros [_ ->]; by destruct u].
Qed.

(** The world after [record_trigger]. *)
Definition triggered_now env (plan_id : Z) (plan : InheritancePlan) w : W :=
  w <| plans := (plans w) <| P := <[plan_id := plan <| is_lendable := false |>]> (P (plans w)) |> |>
    <| triggers := (triggers w) <| It :=
         <[plan_id := mkTrigger (timestamp env) true false false (total_loaned plan) 0 0]>
           (It (triggers w)) |> |>.
Lemma record_trigger_Ok env id plan u w w' :
  record_trigger env id plan w = Ok u w' -> w' = triggered_now env id plan w.
Proof. unfold record_trigger, set_trigger_info, triggered_now. intros Hr. run_inv. done. Qed.

Lemma any_condition_keeps {B} (f : W -> B) now c cs : keeps f (any_condition_met now c cs).
Proof.
  induction cs as [|x cs IH]; simpl; [apply keeps_ret|].
  apply keeps_bind; [destruct x; unfold condition_met; keeps_tac|]. intros []; [apply keeps_ret|done].
Qed.
Lemma check_trigger_conditions_Ok env id b w w' :
  check_trigger_conditions env id w = Ok b w' -> w' = w.
Proof.
  apply (keeps_Ok (fun w => w)). unfold check_trigger_conditions, get_trigger_config, load.
  apply keeps_bind; [apply keeps_gets|]. intros [c|]; [apply any_condition_keeps|apply keeps_ret].
Qed.

(** The automatic trigger, whose result its callers in this contract ignore. *)
Lemma auto_trigger_Ok env id u w w' :
  auto_trigger_check env id w = Ok u w' ->
  w' = w \/ exists plan es, P (plans w) !! id = Some plan /\ is_active plan = true /\
    It (triggers w) !! id = None /\ w' = triggered_now env id plan w <| evs := evs w ++ es |>.
Proof.
  unfold auto_trigger_check, get_trigger_info. intros Hr. run_bind Hr.
  match goal with Hc : check_trigger_conditions _ _ _ = _ |- _ => apply check_trigger_conditions_Ok in Hc as -> end.
  destruct (negb _); [apply ret_Ok in Hr as [_ ->]; by left|].
  run_bind Hr. match goal with Hl : load _ _ = _ |- _ => apply ih_load_Ok in Hl as [-> ->] end. cbn in Hr.
  case_bool_decide as Hi; [apply ret_Ok in Hr as [_ ->]; by left|]. right.
  do 3 run_bind Hr. run_bind Hr.
  match goal with Hc : record_trigger _ _ _ _ = _ |- _ => apply record_trigger_Ok in Hc as -> end.
  run_inv. bool_hyps. eexists _, [_; _]. split_and!; [done|done|by apply eq_None_not_Some|].
  unfold triggered_now. cbn. by rewrite <-app_assoc.
Qed.
(** The scan itself never errors, so an [Err] of the automatic trigger comes
    before any change. *)
Lemma check_trigger_no_err env id : no_err (check_trigger_conditions env id : X bool).
Proof.
  unfold check_trigger_conditions, get_trigger_config, load.
  apply no_err_bind; [by intros w e w'|]. intros [c|]; [|apply no_err_ret].
  induction (conditions c) as [|x cs IH]; simpl; [apply no_err_ret|].
  apply no_err_bind; [|intros []; [apply no_err_ret|done]].
  destruct x; unfold condition_met; try apply no_err_ret.
  case_match; [|apply no_err_ret]. apply no_err_bind; [|intros ?; apply no_err_ret].
  unfold add64, unwrap. intros w e w'. by case_match.
Qed.
Lemma record_trigger_no_err env id p : no_err (record_trigger env id p : X unit).
Proof.
  unfold record_trigger, set_trigger_info, save.
  apply no_err_bind; [|intros _; apply no_err_modify].
  intros w1 e1 w2 Hs. unfold store_plan, bind, save, modify, attempt, extend_ttl, get_plan, load, gets, ret in Hs.
  cbn in Hs. by rewrite lookup_insert_eq in Hs.
Qed.
Lemma auto_trigger_Fail env id e w w' : auto_trigger_check env id w = Fail e w' -> w' = w.
Proof.
  assert (clean (auto_trigger_check env id : X unit)) as Hc; [|by apply Hc].
  unfold auto_trigger_check. apply clean_bind.
  { intros w1. destruct (check_trigger_conditions env id w1) as [b w2|e' w2|] eqn:Hr; [| |done].
    - by apply check_trigger_conditions_Ok in Hr.
    - by apply check_trigger_no_err in Hr. }
  intros b. destruct (negb b); [by intros w1 e' w2|]. apply clean_bind; [apply keeps_gets|]. intros i.
  case_bool_decide; [by intros w1 e' w2|]. apply clean_bind.
  { unfold require_plan, get_plan, load. keeps_tac. }
  intros p. apply clean_bind; [apply keeps_reject_if|]. intros _. apply clean_no_err.
  apply no_err_bind; [apply record_trigger_no_err|].
  intros _. apply no_err_bind; [apply no_err_modify|]. intros _. apply no_err_modify.
Qed.
(** Either nothing happened or the plan was triggered at this moment. *)
Definition auto_triggers env (id : Z) w (ps : gmap Z InheritancePlan) (its : gmap Z InheritanceTriggerInfo) : Prop :=
  (ps = P (plans w) /\ its = It (triggers w)) \/
  exists plan, P (plans w) !! id = Some plan /\ is_active plan = true /\ It (triggers w) !! id = None /\
    ps = <[id := plan <| is_lendable := false |>]> (P (plans w)) /\
    its = <[id := mkTrigger (timestamp env) true false false (total_loaned plan) 0 0]> (It (triggers w)).
Lemma auto_triggers_insert env id w ps its plan' :
  auto_triggers env id w ps its -> <[id := plan']> ps = <[id := plan']> (P (plans w)).
Proof. intros [[-> _]|(p & _ & _ & _ & -> & _)]; [done|]. by rewrite insert_insert_eq. Qed.
Lemma auto_triggers_It env id w ps its :
  auto_triggers env id w ps its ->
  its = It (triggers w) \/ exists plan, P (plans w) !! id = Some plan /\ It (triggers w) !! id = None /\
    its = <[id := mkTrigger (timestamp env) true false false (total_loaned plan) 0 0]> (It (triggers w)).
Proof. intros [[_ ->]|(p & ? & _ & ? & _ & ->)]; [by left|right; eauto]. Qed.
Lemma attempt_auto_Ok env id r w w' :
  attempt (auto_trigger_check env id) w = Ok r w' ->
  exists ps its es, w' = w <| plans := (plans w) <| P := ps |> |>
      <| triggers := (triggers w) <| It := its |> |> <| evs := evs w ++ es |> /\
    auto_triggers env id w ps its.
Proof.
  intros Hr. assert (w' = w \/ exists plan es, P (plans w) !! id = Some plan /\ is_active plan = true /\
    It (triggers w) !! id = None /\ w' = triggered_now env id plan w <| evs := evs w ++ es |>) as Hc.
  { rewrite attempt_Ok in Hr. destruct r; [by apply auto_trigger_Ok in Hr|].
    apply auto_trigger_Fail in Hr as ->. by left. }
  destruct Hc as [->|(plan & es & ? & ? & ? & ->)].
  - exists (P (plans w)), (It (triggers w)), []. split; [|by left].
    destruct w as [? [] ? ? []]. cbn. by rewrite app_nil_r.
  - eexists _, _, es. split; [done|]. right. by exists plan.
Qed.

Lemma trigger_plan_Ok env id u w w' :
  trigger_plan env id w = Ok u w' ->
  exists plan es, P (plans w) !! id = Some plan /\ is_active plan = true /\
    Fz (disputes w) !! id = None /\ Lh (disputes w) !! id = None /\
    It (triggers w) !! id = None /\ w' = triggered_now env id plan w <| evs := evs w ++ es |>.
Proof.
  unfold trigger_plan. intros Hr. do 4 run_bind Hr. run_bind Hr.
  repeat match goal with
  | Hc : require_not_held _ _ = _ |- _ => apply require_not_held_Ok in Hc as [[??] ->]
  | Hc : not_triggered _ _ = _ |- _ => apply not_triggered_Ok in Hc as [? ->]
  | Hc : record_trigger _ _ _ _ = _ |- _ => apply record_trigger_Ok in Hc as ->
  end.
  run_inv. bool_hyps. eexists _, [_; _]. split_and!; [done..|].
  unfold triggered_now. cbn. by rewrite <-app_assoc.
Qed.

Lemma triggered_plan_Ok env adm id pt w w' :
  triggered_plan env adm id w = Ok pt w' <->
  (adm ∈ auths env /\ default false (AccessControl.Blacklisted (acl w) !! adm) = false /\
   AccessControl.Admin ∈ AccessControl.roles_of (acl w) adm /\
   P (plans w) !! id = Some pt.1 /\ It (triggers w) !! id = Some pt.2) /\ w' = w.
Proof.
  unfold triggered_plan, get_trigger_info. split.
  - intros Hr. run_inv. done.
  - intros ((? & ? & ? & ? & ?) & ->). apply bind_Ok. exists tt, w. split; [by apply ih_require_admin_Ok|].
    apply bind_Ok. exists pt.1, w. split; [by apply require_plan_Ok|].
    apply bind_Ok. eexists _, w. split; [by apply ih_load_Ok|].
    apply bind_Ok. exists pt.2, w. split; [by apply ok_or_Ok|]. by destruct pt.
Qed.

(** * Calls *)

Inductive trigger_call :=
  | SetConditions (owner : address) (plan_id : Z) (cs : list TriggerConditionType)
      (date period : Z) (oracle : option address)
  | AddTime (owner : address) (plan_id date : Z)
  | AddInactivity (owner : address) (plan_id period : Z)
  | AddOracle (owner : address) (plan_id : Z) (oracle : address)
  | AddHealth (owner : address) (plan_id : Z) (oracle : address)
  | RecordActivity (owner : address) (plan_id : Z)
  | SubmitOracle (oracle : address) (plan_id : Z)
  | SubmitHealth (oracle : address) (plan_id : Z)
  | AutoTrigger (plan_id : Z)
  | Trigger (caller : address) (plan_id : Z)
  | GuardianTrigger (plan_id : Z) (signers : list address)
  | FreezeLoans (admin : address) (plan_id : Z)
  | RecallLoan (admin : address) (plan_id amount : Z)
  | Liquidation (admin : address) (plan_id : Z).
Definition run_trigger env (c : trigger_call) : X unit :=
  match c with
  | SetConditions o id cs d p x => set_trigger_conditions env o id cs d p x
  | AddTime o id d => add_time_trigger env o id d
  | AddInactivity o id p => add_inactivity_trigger env o id p
  | AddOracle o id x => add_oracle_trigger env o id x
  | AddHealth o id x => add_health_trigger env o id x
  | RecordActivity o id => record_activity env o id
  | SubmitOracle x id => submit_oracle_trigger env x id
  | SubmitHealth x id => submit_health_trigger env x id
  | AutoTrigger id => auto_trigger_check env id
  | Trigger a id => trigger_inheritance env a id
  | GuardianTrigger id xs => guardian_emergency_trigger env id xs
  | FreezeLoans a id => freeze_loans env a id
  | RecallLoan a id n => recall_loan env a id n
  | Liquidation a id => liquidation_fallback env a id
  end.
End triggers.

Ltac trigger_more :=
  match goal with
  | H : not_triggered _ _ = Ok _ _ |- _ => apply not_triggered_Ok in H
  | H : require_not_held _ _ = Ok _ _ |- _ => apply require_not_held_Ok in H
  | H : record_trigger _ _ _ _ = Ok _ _ |- _ => apply record_trigger_Ok in H
  | H : trigger_plan _ _ _ = Ok _ _ |- _ => apply trigger_plan_Ok in H
  | H : triggered_plan _ _ _ _ = Ok _ _ |- _ => apply triggered_plan_Ok in H
  | H : get_trigger_info _ _ = Ok _ _ |- _ => unfold get_trigger_info in H
  | H : set_trigger_info _ _ _ = Ok _ _ |- _ => unfold set_trigger_info in H
  | H : get_trigger_config _ _ = Ok _ _ |- _ => unfold get_trigger_config in H
  | H : save_trigger_config _ _ _ = Ok _ _ |- _ => unfold save_trigger_config in H
  | H : attempt (auto_trigger_check _ _) _ = Ok _ _ |- _ => apply attempt_auto_Ok in H
  | H : auto_trigger_check _ _ _ = Ok _ _ |- _ => apply auto_trigger_Ok in H
  | _ => emergency_more
  end.
Ltac ih_more ::= trigger_more.
Ltac ih_keeps_known ::= apply any_condition_keeps.

End InheritanceTriggers.
