(* ===== verification/InheritancePlans.v ===== *)
(** Plans of the inheritance contract ([contracts/inheritance-contract/src/lib.rs]):
    creation, beneficiaries, deposits and withdrawals, priorities, deactivation,
    ownership, and the batched edits. *)
From S2P Require Import Prelude Host AccessControl Token PlanVault InheritanceTypes.
From S2P Require Import InheritanceCore InheritanceEmergency InheritanceTriggers.
Import InheritanceTypes InheritanceCore InheritanceEmergency InheritanceTriggers.

Module InheritancePlans.

(** * Validation *)

Definition validate_plan_inputs (name descr : bytes) (asset : string) (amount : Z)
  : result InheritanceError unit :=
  do? rreject_if (len name =? 0) MissingRequiredField;
  do? rreject_if (500 <? len descr) DescriptionTooLong;
  do? rreject_if (negb (bool_decide (asset = "USDC"%string))) InvalidAssetType;
  rreject_if (amount =? 0) InvalidTotalAmount.

(** The loop of [validate_beneficiaries] with what it has seen so far. *)
Fixpoint check_entries (entries : list beneficiary_data) (emails : list bytes)
    (priorities : list Z) (total : Z) : result InheritanceError Z :=
  match entries with
  | [] => ROk total
  | (name, email, _, _, bp, prio) :: entries =>
    do? rreject_if (len name =? 0) InvalidBeneficiaryData;
    do? rreject_if (bool_decide (email ∈ emails)) InvalidBeneficiaryData;
    let? total' := rok_or (checked u32_max (total + bp)) AllocationPercentageMismatch in
    do? rreject_if (prio =? 0) InvalidBeneficiaryData;
    do? rreject_if (bool_decide (prio ∈ priorities)) InvalidBeneficiaryData;
    check_entries entries (emails ++ [email]) (priorities ++ [prio]) total'
  end.

Definition validate_beneficiaries (entries : list beneficiary_data) : result InheritanceError unit :=
  do? rreject_if (10 <? len entries) TooManyBeneficiaries;
  do? rreject_if (len entries =? 0) MissingRequiredField;
  let? total := check_entries entries [] [] 0 in
  rreject_if (negb (total =? 10000)) AllocationPercentageMismatch.

(** [amount * bp / 10000], zero when the product overflows [u128]. *)
Definition share_of (amount bp : Z) : Z :=
  as_u64 (default 0 (checked_mul128 amount bp ≫= fun v => checked_div v 10000)).

Lemma share_of_exact amount bp :
  u64 amount -> 0 <= bp <= 10000 ->
  share_of amount bp = amount * bp / 10000 /\ 0 <= share_of amount bp <= amount.
Proof.
  intros [H0 H1] Hbp. pose proof (mul_frac_le amount bp 10000 H0 Hbp ltac:(lia)) as Hm.
  unfold share_of, checked_mul128. rewrite checked_in by unia. cbn.
  rewrite as_u64_small by ulia. lia.
Qed.

(** The two percent fee on creation. *)
Definition creation_fee (amount : Z) : Z :=
  default 0 (checked_mul64 amount CREATION_FEE_BP ≫= fun v => checked_div v 10000).

(** The arguments are of the widths the entry points declare. *)
Definition typed_entry (e : beneficiary_data) : Prop :=
  let '(_, _, c, _, bp, prio) := e in u32 c /\ u32 bp /\ u32 prio.

(** ** What the validation accepts *)

Definition entry_name (e : beneficiary_data) : bytes := let '(n, _, _, _, _, _) := e in n.
Definition entry_email (e : beneficiary_data) : bytes := let '(_, m, _, _, _, _) := e in m.
Definition entry_bp (e : beneficiary_data) : Z := let '(_, _, _, _, bp, _) := e in bp.
Definition entry_priority (e : beneficiary_data) : Z := let '(_, _, _, _, _, p) := e in p.
Definition entries_bp (es : list beneficiary_data) : Z := foldr (fun e acc => entry_bp e + acc) 0 es.

(** One to ten named entries with different emails and different non-zero
    priorities, the shares adding up to the whole. *)
Record valid_entries (es : list beneficiary_data) : Prop := {
  ve_count : 1 <= len es <= 10;
  ve_each : Forall (fun e => entry_name e <> [] /\ entry_priority e <> 0) es;
  ve_emails : NoDup (map entry_email es);
  ve_priorities : NoDup (map entry_priority es);
  ve_total : entries_bp es = 10000
}.

Lemma entries_bp_nonneg es : Forall typed_entry es -> 0 <= entries_bp es.
Proof.
  unfold entries_bp. induction 1 as [|[[[[[? ?] ?] ?] bp] ?] es He _ IH]; cbn; [done|].
  destruct He as (_ & [? _] & _). lia.
Qed.
Lemma NoDup_snoc_iff {A} `{EqDecision A} (l : list A) x : NoDup l -> NoDup (l ++ [x]) <-> x ∉ l.
Proof. intros Hl. rewrite NoDup_app. split; [set_solver|]. intros ?. split_and!; [done|set_solver|apply NoDup_singleton]. Qed.
Lemma check_entries_ROk es emails prios total r :
  Forall typed_entry es -> NoDup emails -> NoDup prios -> 0 <= total <= u32_max ->
  check_entries es emails prios total = ROk r <->
  r = total + entries_bp es /\ r <= u32_max /\
  Forall (fun e => entry_name e <> [] /\ entry_priority e <> 0) es /\
  NoDup (emails ++ map entry_email es) /\ NoDup (prios ++ map entry_priority es).
Proof.
  intros Hty. revert emails prios total.
  induction Hty as [|[[[[[name email] c] acct] bp] prio] es (_ & Hbp & _) Hes IH];
    intros emails prios total He Hp Ht; cbn; [|fold (entries_bp es)].
  - rewrite !app_nil_r, Z.add_0_r. split; [intros [= <-]|intros (-> & _)]; [|done].
    by split_and!; [done|lia|constructor|..].
  - unfold len. destruct name as [|n name]; [split; [done|]; intros (_ & _ & Hf & _); by apply Forall_inv in Hf as [? _]|].
    cbn. case_bool_decide as Hin; cbn.
    { split; [done|]. intros (_ & _ & _ & Hnd & _). apply NoDup_app in Hnd as (_ & Hnd & _).
      exfalso. by eapply Hnd; [done|left]. }
    unfold rok_or. destruct (checked u32_max (total + bp)) as [t'|] eqn:Hc; cbn.
    2: { split; [done|]. intros (-> & Hle & _). apply checked_None in Hc. pose proof (entries_bp_nonneg es Hes).
         unfold u32 in Hbp. lia. }
    apply checked_Some in Hc as [-> Hc].
    destruct (Z.eqb_spec prio 0) as [->|Hz]; cbn.
    { split; [done|]. intros (_ & _ & Hf & _). by apply Forall_inv in Hf as [_ ?]. }
    case_bool_decide as Hin'; cbn.
    { split; [done|]. intros (_ & _ & _ & _ & Hnd). apply NoDup_app in Hnd as (_ & Hnd & _).
      exfalso. by eapply Hnd; [done|left]. }
    change (Z.of_nat (S (length name)) =? 0) with false. cbn.
    rewrite IH; [|by apply NoDup_snoc_iff|by apply NoDup_snoc_iff|done].
    rewrite <-!app_assoc, Forall_cons. cbn. rewrite Z.add_assoc. naive_solver.
Qed.
Lemma validate_ROk es u :
  Forall typed_entry es -> validate_beneficiaries es = ROk u <-> valid_entries es.
Proof.
  intros Hty. unfold validate_beneficiaries. unfold len.
  destruct (Z.ltb_spec 10 (Z.of_nat (length es))); cbn; [split; [done|]; intros [Hl _]; unfold len in Hl; lia|].
  destruct (Z.eqb_spec (Z.of_nat (length es)) 0); cbn; [split; [done|]; intros [Hl _]; unfold len in Hl; lia|].
  destruct (check_entries es [] [] 0) as [t|e] eqn:Hc; cbn.
  - apply check_entries_ROk in Hc as (-> & _ & ? & ? & ?); [|done|constructor|constructor|done].
    rewrite Z.add_0_l in *. destruct (Z.eqb_spec (entries_bp es) 10000); cbn.
    + split; [|by destruct u]. intros _. split; try done. unfold len. lia.
    + split; [done|]. by intros [].
  - split; [done|]. intros [Hl Hf Hm Hp Hs].
    assert (check_entries es [] [] 0 = ROk (0 + entries_bp es)) as Hk; [|by rewrite Hk in Hc].
    apply check_entries_ROk; [done|constructor|constructor|done|]. rewrite Hs. by split_and!.
Qed.

(** C24: The validation of a list of beneficiaries accepts exactly one to ten named
    entries with different emails, different non-zero priorities and shares that add up to
    the whole, and names the limit that is broken otherwise. *)
Theorem validation_exact es :
  Forall typed_entry es ->
  (validate_beneficiaries es = ROk tt <-> valid_entries es) /\
  (10 < len es -> validate_beneficiaries es = RErr TooManyBeneficiaries) /\
  (es = [] -> validate_beneficiaries es = RErr MissingRequiredField) /\
  (1 <= len es <= 10 -> Forall (fun e => entry_name e <> [] /\ entry_priority e <> 0) es ->
   NoDup (map entry_email es) -> NoDup (map entry_priority es) -> entries_bp es <= u32_max ->
   entries_bp es <> 10000 -> validate_beneficiaries es = RErr AllocationPercentageMismatch).
Proof.
  intros Hty. split_and!; [by apply validate_ROk| |by intros ->|].
  - intros Hl. unfold validate_beneficiaries. destruct (Z.ltb_spec 10 (len es)); [done|lia].
  - intros Hl Hf Hm Hp Hs Hne. unfold validate_beneficiaries.
    destruct (Z.ltb_spec 10 (len es)); [lia|]. destruct (Z.eqb_spec (len es) 0); [lia|]. cbn.
    assert (check_entries es [] [] 0 = ROk (entries_bp es)) as ->.
    { apply check_entries_ROk; [done|constructor|constructor|done|]. by split_and!. }
    cbn. by destruct (Z.eqb_spec (entries_bp es) 10000).
Qed.
Definition sample_entries : list beneficiary_data :=
  [([66], [98], 111111, [1], 6000, 1); ([67], [99], 222222, [2], 4000, 2)].
Lemma validation_exact_witness :
  valid_entries sample_entries /\
  validate_beneficiaries (take 1 sample_entries) = RErr AllocationPercentageMismatch.
Proof.
  split.
  - apply (validation_exact sample_entries); [|done]. repeat constructor; by vm_compute.
  - apply (validation_exact (take 1 sample_entries)); try done; repeat constructor; try (by vm_compute); set_solver.
Defined.

Section plans.
Context {T L : Type} `{TokenOps T} `{HostFns}.
Abbreviation W := (world T L).
Abbreviation X A := (M W InheritanceError A).
Implicit Types (env : Env) (w : W).

(** * Beneficiaries *)

Definition create_beneficiary (plan_id index : Z) (full_name email : bytes) (claim_code : Z)
    (account : bytes) (bp prio : Z) : X Beneficiary :=
  do! reject_if ((len full_name =? 0) || (len email =? 0) || (len account =? 0)) InvalidBeneficiaryData;
  do! reject_if (bp =? 0) InvalidAllocation;
  let! salt := generate_claim_salt in
  do! save (fun s => s <| Cs := <[(plan_id, index) := salt]> (Cs s) |>);
  let! hashed_code := hash_claim_code_with_salt claim_code salt in
  let! name_hash := hash_string full_name in
  let! email_hash := hash_string email in
  ret (mkBeneficiary name_hash email_hash hashed_code account bp prio false).

Definition create_from_input (plan_id index : Z) (i : BeneficiaryInput) : X Beneficiary :=
  create_beneficiary plan_id index (bi_name i) (bi_email i) (bi_claim_code i)
    (bi_bank_account i) (bi_allocation_bp i) (bi_priority i).

(** One entry of the loops of [create_inheritance_plan] and [update_plan]. *)
Definition add_entry (plan_id : Z) (acc : list Beneficiary * Z) (entry : beneficiary_data)
  : X (list Beneficiary * Z) :=
  let '(bs, total) := acc in
  let '(name, email, claim_code, account, bp, prio) := entry in
  let! b := create_beneficiary plan_id (len bs) name email claim_code account bp prio in
  let! total' := add32 total bp in
  ret (bs ++ [b], total').

Definition add_beneficiary env (owner : address) (plan_id : Z) (input : BeneficiaryInput) : X unit :=
  do! require_auth env owner;
  do! require_not_blacklisted owner;
  do! check_not_paused;
  do! enter_guard;
  let! plan := require_plan plan_id in
  do! reject_if (negb (bool_decide (InheritanceTypes.owner plan = owner))) Unauthorized;
  do! reject_if (10 <=? len (beneficiaries plan)) TooManyBeneficiaries;
  do! reject_if (bi_allocation_bp input =? 0) InvalidAllocation;
  let! new_total := add32 (total_allocation_bp plan) (bi_allocation_bp input) in
  do! reject_if (10000 <? new_total) AllocationPercentageMismatch;
  let! b := create_from_input plan_id (len (beneficiaries plan)) input in
  do! store_plan plan_id (plan <| beneficiaries := beneficiaries plan ++ [b] |>
                               <| total_allocation_bp := new_total |>);
  do! emit (BeneficiaryAddedEvent plan_id (hashed_email b) (bi_allocation_bp input));
  exit_guard.

Definition remove_beneficiary env (owner : address) (plan_id index : Z) : X unit :=
  do! require_auth env owner;
  do! check_not_paused;
  do! enter_guard;
  let! plan := require_plan plan_id in
  do! reject_if (negb (bool_decide (InheritanceTypes.owner plan = owner))) Unauthorized;
  do! reject_if (len (beneficiaries plan) <=? index) InvalidBeneficiaryIndex;
  let! removed := unwrap (vget (beneficiaries plan) index) in
  let! total := unwrap (checked u32_max (total_allocation_bp plan - allocation_bp removed)) in
  do! store_plan plan_id
        (plan <| beneficiaries := swap_remove (Z.to_nat index) (beneficiaries plan) |>
              <| total_allocation_bp := total |>);
  do! emit (BeneficiaryRemovedEvent plan_id index (allocation_bp removed));
  exit_guard.

(** * Creation *)

Definition register_guardians (plan_id : Z) (gs : list address) (threshold : Z) : X unit :=
  when (negb (len gs =? 0))
    (do! reject_if (5 <? len gs) TooManyEmergencyContacts;
     do! reject_if ((threshold =? 0) || (len gs <? threshold)) InvalidGuardianThreshold;
     do! save (fun s => s <| Gd := <[plan_id := mkGuardians gs threshold]> (Gd s) |>);
     iterM (fun g => zoom (AccessControl.assign_role g AccessControl.Guardian)) gs).

Definition create_inheritance_plan env (params : CreateInheritancePlanParams) : X Z :=
  let owner := cp_owner params in
  let tok := cp_token params in
  let amount := cp_total_amount params in
  do! require_auth env owner;
  do! check_not_paused;
  do! enter_guard;
  do! check_kyc_approved owner;
  let! a := get_admin in
  let! admin := ok_or a AdminNotSet in
  let fee := creation_fee amount in
  let! net_amount := ok_or (checked_sub64 amount fee) InvalidTotalAmount in
  do! reject_if (net_amount =? 0) InvalidTotalAmount;
  do! of_result (validate_plan_inputs (cp_plan_name params) (cp_description params) "USDC"%string amount);
  let! balance := gets (fun w => tk_balance (toks w) tok owner) in
  do! reject_if (balance <? amount) InsufficientBalance;
  do! when (0 <? fee) (let! _ := try_transfer env tok owner admin fee in ret tt);
  let! plan_id := increment_plan_id in
  let! vault_address := deploy_plan_vault env plan_id owner in
  let! moved := try_transfer env tok owner vault_address net_amount in
  do! reject_if (negb moved) FeeTransferFailed;
  do! of_result (validate_beneficiaries (cp_beneficiaries_data params));
  let! built := foldM (add_entry plan_id) (cp_beneficiaries_data params) ([], 0) in
  do! store_plan plan_id
        (mkPlan (cp_plan_name params) (cp_description params) tok "USDC"%string net_amount
           (cp_distribution_method params) built.1 built.2 owner (timestamp env) true
           (cp_is_lendable params) 0 false 0 false);
  do! add_plan_to_user owner plan_id;
  do! zoom (AccessControl.assign_role owner AccessControl.Owner);
  do! register_guardians plan_id (cp_guardians params) (cp_guardian_threshold params);
  do! exit_guard;
  ret plan_id.

(** * Editing *)

Definition set_lendable env (owner : address) (plan_id : Z) (lendable : bool) : X unit :=
  let! plan := owned_plan env owner plan_id in
  do! store_plan plan_id (plan <| is_lendable := lendable |>);
  emit (VaultLendableChangedEvent plan_id lendable).

Definition update_grace_period env (plan_id new_grace_period : Z) : X unit :=
  let! plan := require_plan plan_id in
  do! require_auth env (owner plan);
  do! reject_if (negb ((MIN_GRACE_PERIOD_SECONDS <=? new_grace_period) &&
                       (new_grace_period <=? MAX_GRACE_PERIOD_SECONDS))) InvalidBeneficiaryData;
  do! store_plan plan_id (plan <| grace_period := new_grace_period |>);
  emit (GracePeriodUpdatedEvent plan_id new_grace_period).

Definition update_plan env (owner : address) (plan_id : Z) (entries : list beneficiary_data)
    (grace : Z) (earn : bool) : X unit :=
  do! require_auth env owner;
  do! check_not_paused;
  do! enter_guard;
  let! plan := require_plan plan_id in
  do! reject_if (negb (bool_decide (InheritanceTypes.owner plan = owner))) Unauthorized;
  do! not_triggered plan_id;
  do! of_result (validate_beneficiaries entries);
  let! built := foldM (add_entry plan_id) entries ([], 0) in
  do! store_plan plan_id
        (plan <| beneficiaries := built.1 |> <| total_allocation_bp := built.2 |>
              <| grace_period := grace |> <| earn_yield := earn |>);
  exit_guard.

(** * Deposits and withdrawals *)

Definition deposit env (caller tok : address) (plan_id amount : Z) : X unit :=
  do! require_auth env caller;
  do! check_not_paused;
  do! enter_guard;
  do! reject_if (amount =? 0) InvalidTotalAmount;
  let! plan := require_plan plan_id in
  do! reject_if (negb (bool_decide (owner plan = caller))) Unauthorized;
  do! reject_if (negb (bool_decide (token plan = tok))) InvalidAssetType;
  do! reject_if (negb (is_active plan)) PlanNotActive;
  do! require_not_held plan_id;
  let! balance := gets (fun w => tk_balance (toks w) tok caller) in
  do! reject_if (balance <? amount) InsufficientBalance;
  let! vault_address := require_plan_vault plan_id in
  let! moved := try_transfer env tok caller vault_address amount in
  do! reject_if (negb moved) FeeTransferFailed;
  let! total := add64 (total_amount plan) amount in
  do! store_plan plan_id (plan <| total_amount := total |>);
  do! emit (VaultDepositEvent plan_id amount);
  exit_guard.

(** The cap on transfers in the day after emergency access was opened. *)
Definition emergency_cap env (plan_id : Z) (plan : InheritancePlan) (amount : Z) : X unit :=
  let! active := is_emergency_active env plan_id in
  reject_if (active && (share_of (total_amount plan) EMERGENCY_TRANSFER_LIMIT_BP <? amount))
    EmergencyCooldownActive.

Definition withdraw env (caller tok : address) (plan_id amount : Z) : X unit :=
  do! require_auth env caller;
  do! check_not_paused;
  do! enter_guard;
  do! reject_if (amount =? 0) InvalidTotalAmount;
  let! plan := require_plan plan_id in
  do! reject_if (negb (bool_decide (owner plan = caller))) Unauthorized;
  do! reject_if (negb (bool_decide (token plan = tok))) InvalidAssetType;
  do! require_not_held plan_id;
  do! emergency_cap env plan_id plan amount;
  do! emergency_cap env plan_id plan amount;
  let available := saturating_sub (total_amount plan) (total_loaned plan) in
  do! reject_if (available <? amount) InsufficientLiquidity;
  do! release_from_plan_vault env plan_id tok caller amount;
  let! total := sub64 (total_amount plan) amount in
  do! store_plan plan_id (plan <| total_amount := total |>);
  do! emit (VaultWithdrawEvent plan_id amount);
  exit_guard.

(** * Priorities and waterfall *)

(** Another beneficiary than number [i] holds the priority. *)
Definition priority_taken (prio : Z) (i : nat) (bs : list Beneficiary) : bool :=
  existsb (fun jb => negb (jb.1 =? Z.of_nat i) && (priority jb.2 =? prio))
    (imap (fun j b => (Z.of_nat j, b)) bs).

Definition set_beneficiary_priority env (owner : address) (plan_id index prio : Z) : X unit :=
  let! plan := owned_plan env owner plan_id in
  do! reject_if (len (beneficiaries plan) <=? index) InvalidBeneficiaryIndex;
  do! reject_if (prio =? 0) InvalidBeneficiaryData;
  do! reject_if (priority_taken prio (Z.to_nat index) (beneficiaries plan)) InvalidBeneficiaryData;
  let! b := unwrap (vget (beneficiaries plan) index) in
  do! store_plan plan_id
        (plan <| beneficiaries := vset index (b <| priority := prio |>) (beneficiaries plan) |>);
  emit (PrioritySetEvent plan_id index prio).

(** The beneficiary at an index, with the view's error. *)
Definition beneficiary_at (plan : InheritancePlan) (index : Z) : X Beneficiary :=
  do! reject_if (len (beneficiaries plan) <=? index) InvalidBeneficiaryIndex;
  unwrap (vget (beneficiaries plan) index).
Definition get_beneficiary_priority (plan_id index : Z) : X Z :=
  let! plan := require_plan plan_id in
  let! b := beneficiary_at plan index in
  ret (priority b).

Definition enable_waterfall_distribution env (owner : address) (plan_id : Z) : X unit :=
  let! plan := owned_plan env owner plan_id in
  do! store_plan plan_id (plan <| waterfall_enabled := true |>);
  emit (WaterfallEnabledEvent plan_id (timestamp env)).

(** * Deactivation and ownership *)

Definition deactivate_inheritance_plan env (owner : address) (plan_id : Z) : X unit :=
  do! check_not_paused;
  do! enter_guard;
  do! require_auth env owner;
  let! plan := require_plan plan_id in
  do! reject_if (negb (bool_decide (InheritanceTypes.owner plan = owner))) Unauthorized;
  do! reject_if (negb (is_active plan)) PlanAlreadyDeactivated;
  do! store_plan plan_id (plan <| is_active := false |>);
  do! add_plan_to_deactivated plan_id;
  do! emit (PlanDeactivatedEvent plan_id owner (total_amount plan) (timestamp env));
  exit_guard.

Definition transfer_plan_ownership env (owner new_owner : address) (plan_id : Z) : X unit :=
  let! plan := owned_plan env owner plan_id in
  let! info := get_trigger_info plan_id in
  do! reject_if (bool_decide (is_Some info)) PlanNotActive;
  do! require_not_held plan_id;
  do! remove_plan_from_user owner plan_id;
  do! add_plan_to_user new_owner plan_id;
  do! store_plan plan_id (plan <| InheritanceTypes.owner := new_owner |>);
  emit (PlanOwnershipTransferredEvent plan_id (InheritanceTypes.owner plan) new_owner (timestamp env)).

(** * Batched edits *)

(** One input of [batch_add_beneficiaries]: [(plan, success, fail)]. *)
Definition batch_add_one (plan_id : Z) (acc : InheritancePlan * Z * Z) (input : BeneficiaryInput)
  : X (InheritancePlan * Z * Z) :=
  let '(plan, success, fail_count) := acc in
  if 10 <=? len (beneficiaries plan) then ret (plan, success, fail_count + 1)
  else if bi_allocation_bp input =? 0 then ret (plan, success, fail_count + 1)
  else
    let! new_total := add32 (total_allocation_bp plan) (bi_allocation_bp input) in
    if 10000 <? new_total then ret (plan, success, fail_count + 1)
    else
      let! created := attempt (create_from_input plan_id (len (beneficiaries plan)) input) in
      match created with
      | ROk b => ret (plan <| total_allocation_bp := new_total |>
                           <| beneficiaries := beneficiaries plan ++ [b] |>, success + 1, fail_count)
      | RErr _ => ret (plan, success, fail_count + 1)
      end.

Definition batch_add_beneficiaries env (owner : address) (plan_id : Z)
    (inputs : list BeneficiaryInput) : X (Z * Z) :=
  do! require_auth env owner;
  do! reject_if (BATCH_LIMIT <? len inputs) TooManyBeneficiaries;
  let! plan := require_plan plan_id in
  do! reject_if (negb (bool_decide (InheritanceTypes.owner plan = owner))) Unauthorized;
  let! r := foldM (batch_add_one plan_id) inputs (plan, 0, 0) in
  let '(plan, success, fail_count) := r in
  do! store_plan plan_id plan;
  do! emit (BatchBeneficiariesAddedEvent plan_id success fail_count);
  ret (success, fail_count).

(** The requested indices that are in range, each once, in the order given. *)
Definition valid_indices (n : Z) (indices : list Z) : list Z :=
  fold_left (fun acc i => if (i <? n) && negb (bool_decide (i ∈ acc)) then acc ++ [i] else acc)
    indices [].

(** The exchange sort: for every [i], for every later [j], swap when the entry
    at [i] is smaller. *)
Definition exchange (i j : nat) (l : list Z) : list Z :=
  match l !! i, l !! j with
  | Some a, Some b => if a <? b then <[j := a]> (<[i := b]> l) else l
  | _, _ => l
  end.
Definition sort_pass (n i : nat) (l : list Z) : list Z :=
  fold_left (fun l j => exchange i j l) (seq (S i) (n - S i)) l.
Definition sort_descending (l : list Z) : list Z :=
  fold_left (fun l i => sort_pass (length l) i l) (seq 0 (length l)) l.

(** One removal: [(beneficiaries, total_allocation_bp, success)]. *)
Definition batch_remove_one (acc : list Beneficiary * Z * Z) (i : Z) : list Beneficiary * Z * Z :=
  let '(bs, total, success) := acc in
  match vget bs i with
  | None => acc
  | Some removed =>
    (swap_remove (Z.to_nat i) bs, saturating_sub total (allocation_bp removed), success + 1)
  end.

Definition batch_remove_beneficiaries env (owner : address) (plan_id : Z) (indices : list Z)
  : X (Z * Z) :=
  do! require_auth env owner;
  do! reject_if (BATCH_LIMIT <? len indices) TooManyBeneficiaries;
  let! plan := require_plan plan_id in
  do! reject_if (negb (bool_decide (InheritanceTypes.owner plan = owner))) Unauthorized;
  let sorted := sort_descending (valid_indices (len (beneficiaries plan)) indices) in
  let fail_count := saturating_sub (len indices) (len sorted) in
  let '(bs, total, success) :=
    fold_left batch_remove_one sorted (beneficiaries plan, total_allocation_bp plan, 0) in
  do! store_plan plan_id (plan <| beneficiaries := bs |> <| total_allocation_bp := total |>);
  do! emit (BatchBeneficiariesRemovedEvent plan_id success fail_count);
  ret (success, fail_count).

Definition set_allocations (bs : list Beneficiary) (bps : list Z) : list Beneficiary :=
  zip_with (fun b bp => b <| allocation_bp := bp |>) bs bps.

Definition batch_update_allocations env (owner : address) (plan_id : Z)
    (new_allocations : list Z) : X unit :=
  do! require_auth env owner;
  do! reject_if (BATCH_LIMIT <? len new_allocations) TooManyBeneficiaries;
  let! plan := require_plan plan_id in
  do! reject_if (negb (bool_decide (InheritanceTypes.owner plan = owner))) Unauthorized;
  do! reject_if (negb (len new_allocations =? len (beneficiaries plan))) InvalidBeneficiaryData;
  do! reject_if (existsb (fun bp => bp =? 0) new_allocations) InvalidAllocation;
  let! total := foldM add32 new_allocations 0 in
  do! reject_if (negb (total =? 10000)) AllocationPercentageMismatch;
  do! store_plan plan_id
        (plan <| beneficiaries := set_allocations (beneficiaries plan) new_allocations |>
              <| total_allocation_bp := 10000 |>);
  emit (BatchAllocationsUpdatedEvent plan_id (len (beneficiaries plan))).

(** * Inversion *)

(** Only the pseudo-random stream and the stored salts differ. *)
Definition salting (w w' : W) : Prop :=
  exists n cs, w' = w <| prng := n |> <| claims := (claims w) <| Cs := cs |> |>.
#[export] Instance salting_preorder : PreOrder salting.
Proof.
  split.
  - intros w. exists (prng w), (Cs (claims w)). by destruct w as [? ? []].
  - intros w1 w2 w3 (n & cs & ->) (n' & cs' & ->). by exists n', cs'.
Qed.

Lemma create_beneficiary_Ok id i name email c acct bp prio b w w' :
  create_beneficiary id i name email c acct bp prio w = Ok b w' ->
  bp <> 0 /\ name <> [] /\ email <> [] /\ acct <> [] /\ c <= 999999 /\
  b = mkBeneficiary (sha256 name) (sha256 email) (sha256 (prng_gen (prng w) ++ code_digits c))
        acct bp prio false /\
  w' = w <| prng := S (prng w) |>
         <| claims := (claims w) <| Cs := <[(id, i) := prng_gen (prng w)]> (Cs (claims w)) |> |>.
Proof.
  unfold create_beneficiary, generate_claim_salt. intros Hr. run_inv. bool_hyps.
  unfold len in *. split_and!; try done; by intros ->.
Qed.
Lemma create_moves id i name email c acct bp prio :
  moves salting (create_beneficiary id i name email c acct bp prio).
Proof.
  unfold create_beneficiary, generate_claim_salt, hash_claim_code_with_salt, hash_string.
  repeat ih_step; apply moves_modify; intros w; cbn.
  - exists (S a1), (Cs (claims w)). by destruct w as [? ? []].
  - eexists (prng w), _. by destruct w as [? ? []].
Qed.

Definition sum_bp (bs : list Beneficiary) : Z := foldr (fun b acc => allocation_bp b + acc) 0 bs.
Lemma sum_bp_app bs bs' : sum_bp (bs ++ bs') = sum_bp bs + sum_bp bs'.
Proof. induction bs as [|b bs IH]; simpl; [done|]. rewrite IH. lia. Qed.

(** What an entry becomes. *)
Definition built_from (e : beneficiary_data) (b : Beneficiary) : Prop :=
  let '(name, email, c, acct, bp, prio) := e in
  allocation_bp b = bp /\ bp <> 0 /\ priority b = prio /\ is_claimed b = false /\
  hashed_email b = sha256 email.
Lemma entries_Ok id es acc r w w' :
  foldM (add_entry id) es acc w = Ok r w' ->
  salting w w' /\ exists new, r.1 = acc.1 ++ new /\ r.2 = acc.2 + sum_bp new /\
    Forall2 built_from es new /\ (es <> [] -> u32 r.2).
Proof.
  revert acc w. induction es as [|e es IH]; intros acc w Hr; simpl in Hr.
  - apply ret_Ok in Hr as [-> ->]. split; [done|]. exists [].
    rewrite app_nil_r. cbn. split_and!; [done|lia|done|done].
  - run_bind Hr. apply IH in Hr as (Hs & new & Hr1 & Hr2 & Hf & Hu). destruct acc as [bs total].
    destruct e as [[[[[name email] c] acct] bp] prio].
    match goal with Ha : add_entry _ _ _ _ = _ |- _ => unfold add_entry in Ha; run_bind Ha; rename Ha into Ha end.
    match goal with Hc : create_beneficiary _ _ _ _ _ _ _ _ _ = _ |- _ =>
      pose proof (moves_Ok _ _ _ _ _ (create_moves _ _ _ _ _ _ _ _) Hc) as Hm;
      apply create_beneficiary_Ok in Hc as (? & _ & _ & _ & _ & -> & _) end.
    match goal with Ha : bind _ _ _ = _ |- _ => run_bind Ha; apply ret_Ok in Ha as [-> ->] end.
    match goal with Ha : add32 _ _ _ = _ |- _ => apply add32_Ok in Ha as (-> & Hu32 & ->) end.
    split; [by etrans|]. eexists (_ :: new). cbn in *. rewrite Hr1, <-app_assoc.
    split_and!; [done|unfold sum_bp in Hr2; cbn; lia|by constructor|]. intros _. destruct es; [|by apply Hu].
    apply Forall2_nil_inv_l in Hf as ->. cbn in *. by rewrite Hr2, Z.add_0_r.
Qed.

Lemma built_sum es bs : Forall2 built_from es bs -> sum_bp bs = entries_bp es.
Proof.
  induction 1 as [|[[[[[? ?] ?] ?] bp] ?] b es bs Hb _ IH]; [done|]. destruct Hb as [Hb _]. cbn. rewrite Hb.
  unfold sum_bp, entries_bp in IH. by rewrite IH.
Qed.

Lemma expire_held env id w : disputes (expire env id w) = disputes w.
Proof. apply expire_disputes. Qed.

(** The cap leaves the world to the expiry of the access record. *)
Lemma emergency_cap_Ok env id plan n u w w' :
  emergency_cap env id plan n w = Ok u w' ->
  w' = expire env id w /\
  (cooling env (expire env id w) id = true -> n <= share_of (total_amount plan) EMERGENCY_TRANSFER_LIMIT_BP).
Proof.
  unfold emergency_cap. intros Hr. run_bind Hr.
  match goal with Hc : is_emergency_active _ _ _ = _ |- _ => apply is_emergency_active_Ok in Hc as [-> ->] end.
  apply reject_if_Ok in Hr as [Hb ->]. split; [done|]. intros Hc. rewrite Hc in Hb. by apply Z.ltb_ge in Hb.
Qed.

(** * Calls *)

Inductive plan_call :=
  | CreatePlan (params : CreateInheritancePlanParams)
  | AddBeneficiary (owner : address) (plan_id : Z) (input : BeneficiaryInput)
  | RemoveBeneficiary (owner : address) (plan_id index : Z)
  | SetLendable (owner : address) (plan_id : Z) (lendable : bool)
  | UpdateGrace (plan_id grace : Z)
  | UpdatePlan (owner : address) (plan_id : Z) (entries : list beneficiary_data) (grace : Z) (earn : bool)
  | PlanDeposit (caller tok : address) (plan_id amount : Z)
  | PlanWithdraw (caller tok : address) (plan_id amount : Z)
  | SetPriority (owner : address) (plan_id index prio : Z)
  | EnableWaterfall (owner : address) (plan_id : Z)
  | Deactivate (owner : address) (plan_id : Z)
  | TransferOwnership (owner new_owner : address) (plan_id : Z)
  | BatchAdd (owner : address) (plan_id : Z) (inputs : list BeneficiaryInput)
  | BatchRemove (owner : address) (plan_id : Z) (indices : list Z)
  | BatchAllocate (owner : address) (plan_id : Z) (bps : list Z).
Definition run_plan env (c : plan_call) : X unit :=
  match c with
  | CreatePlan p => discard (create_inheritance_plan env p)
  | AddBeneficiary o id i => add_beneficiary env o id i
  | RemoveBeneficiary o id i => remove_beneficiary env o id i
  | SetLendable o id b => set_lendable env o id b
  | UpdateGrace id g => update_grace_period env id g
  | UpdatePlan o id es g e => update_plan env o id es g e
  | PlanDeposit a t id n => deposit env a t id n
  | PlanWithdraw a t id n => withdraw env a t id n
  | SetPriority o id i p => set_beneficiary_priority env o id i p
  | EnableWaterfall o id => enable_waterfall_distribution env o id
  | Deactivate o id => deactivate_inheritance_plan env o id
  | TransferOwnership o n id => transfer_plan_ownership env o n id
  | BatchAdd o id ins => discard (batch_add_beneficiaries env o id ins)
  | BatchRemove o id js => discard (batch_remove_beneficiaries env o id js)
  | BatchAllocate o id bps => batch_update_allocations env o id bps
  end.

(** The arguments are of the widths the entry points declare. *)
Definition typed_input (i : BeneficiaryInput) : Prop :=
  u32 (bi_claim_code i) /\ u32 (bi_allocation_bp i) /\ u32 (bi_priority i).
Definition typed_plan_call (c : plan_call) : Prop :=
  match c with
  | CreatePlan p => u64 (cp_total_amount p) /\ Forall typed_entry (cp_beneficiaries_data p) /\
                    u32 (cp_guardian_threshold p)
  | AddBeneficiary _ _ i => typed_input i
  | RemoveBeneficiary _ _ i => u32 i
  | UpdatePlan _ _ es g _ => Forall typed_entry es /\ u64 g
  | PlanDeposit _ _ _ n | PlanWithdraw _ _ _ n => u64 n
  | SetPriority _ _ i p => u32 i /\ u32 p
  | BatchAdd _ _ ins => Forall typed_input ins
  | BatchRemove _ _ js => Forall u32 js
  | BatchAllocate _ _ bps => Forall u32 bps
  | _ => True
  end.
End plans.

Ltac plan_more :=
  match goal with
  | H : create_beneficiary _ _ _ _ _ _ _ _ _ = Ok _ _ |- _ => apply create_beneficiary_Ok in H
  | H : foldM (add_entry _) _ _ _ = Ok _ _ |- _ => apply entries_Ok in H as [(? & ? & H) ?]
  | H : emergency_cap _ _ _ _ _ = Ok _ _ |- _ => apply emergency_cap_Ok in H
  | H : try_transfer _ _ _ _ _ _ = Ok _ _ |- _ =>
    apply try_transfer_Ok in H;
    let Ht := fresh "Ht" in
    match type of H with match ?x with _ => _ end => destruct x eqn:Ht end
  | _ => trigger_more
  end.
Ltac ih_more ::= plan_more.

End InheritancePlans.
