(* ===== verification/InheritanceExample.v ===== *)
(** A concrete network for the theorems of the inheritance files: host
    functions, a lending peer, a network of [MockToken]s, and a contract with an
    administrator, approved users and one funded plan. *)
From S2P Require Import Prelude Host AccessControl Token MockToken.
From S2P Require Import PlanVault InheritanceTypes InheritanceCore InheritanceEmergency InheritancePlans.
Import InheritanceTypes InheritanceCore InheritancePlans.

Module InheritanceExample.

(** Hashing is the identity, vault addresses start at 101. *)
#[export] Instance host : HostFns := {|
  sha256 b := b;
  prng_gen n := [Z.of_nat n];
  deployed_address _ salt := Z.to_pos (101 + from_option Z.abs 0 (last salt));
  peer_version _ := Some 1;
  address_bytes a := Some [Zpos a]
|}.

(** A lending contract that has accrued the recorded yield for each plan. *)
Abbreviation peer := (gmap Z Z).
#[export] Instance lending : LendingPeer peer := {|
  lp_register l env _ caller _ _ _ := if decide (caller ∈ auths env) then Some l else None;
  lp_unregister l env _ caller id := if decide (caller ∈ auths env) then Some (delete id l) else None;
  lp_accrued l _ _ id := Some (as_u64 (default 0 (l !! id)));
  lp_claim l env _ caller id := Some (as_u64 (default 0 (l !! id)), <[id := 0]> l)
|}.
#[export] Instance lending_typed : LendingPeerTyped peer.
Proof.
  split; cbn.
  - intros ? ? ? ? ? ? ? [= <- <-]. apply as_u64_range.
  - intros ? ? ? ? ? [= <-]. apply as_u64_range.
Qed.

Definition self : address := 20%positive.
Definition admin : address := 1%positive.
Definition alice : address := 2%positive.
Definition bob : address := 3%positive.
Definition carol : address := 4%positive.
Definition usd : address := 10%positive.

Definition env_at (time : Z) (signers : list address) : Env := mkEnv time 0 self (list_to_set signers).

Definition network0 : MockToken.network :=
  {[ usd := MockToken.mkState {[ alice := 1000000; bob := 500 ]} (Some 1000500) ]}.
Abbreviation W := (world MockToken.network peer).
Definition fresh : W := deployed network0 {[ 1 := 5000 ]}.

(** An administrator, a vault code, and approved users. *)
Definition setup : list (Env * admin_call) :=
  [ (env_at 1 [admin], InitializeAdmin admin); (env_at 2 [admin], SetVaultWasm admin [7]);
    (env_at 3 [alice], SubmitKyc alice); (env_at 4 [bob], SubmitKyc bob);
    (env_at 5 [carol], SubmitKyc carol);
    (env_at 6 [admin], BatchApproveKyc admin [alice; bob; carol]) ].
Definition run_setup (w : W) (ec : Env * admin_call) : W := after (run_admin ec.1 ec.2) w.
Definition ready : W := fold_left run_setup setup fresh.

(** Alice leaves 60 percent to Bob and 40 percent to Carol. *)
Definition plan_params : CreateInheritancePlanParams :=
  mkParams alice usd [65] [66] 10000 LumpSum
    [([66], [98], 111111, [1], 6000, 1); ([67], [99], 222222, [2], 4000, 2)] true [] 0.
Definition create : plan_call := CreatePlan plan_params.
Definition funded : W := after (run_plan (env_at 10 [alice]) create) ready.

End InheritanceExample.
