(* ===== verification/InheritanceClaims.v ===== *)
(** Claims on inheritance plans ([contracts/inheritance-contract/src/lib.rs]):
    the waterfall, single and batched claims. *)
From S2P Require Import Prelude Host AccessControl Token PlanVault InheritanceTypes.
From S2P Require Import InheritanceCore InheritanceEmergency InheritanceTriggers InheritancePlans.
From S2P Require Import MockToken InheritanceExample.
Import InheritanceTypes InheritanceCore InheritanceEmergency InheritanceTriggers.
Import InheritancePlans.

Module InheritanceClaims.

(** * The waterfall *)

(** An unclaimed beneficiary that must be served before [b]. *)
Definition blocked_by (b : Beneficiary) (bs : list Beneficiary) : bool :=
  existsb (fun o => negb (priority o =? 0) && (priority o <? priority b) && negb (is_claimed o)) bs.

Definition waterfall_payout (plan : InheritancePlan) (b : Beneficiary) : Z :=
  if waterfall_enabled plan && blocked_by b (beneficiaries plan) then 0
  else Z.min (share_of (total_amount plan) (allocation_bp b)) (total_amount plan).

(** The distribution method lets beneficiaries claim after [elapsed] seconds. *)
Definition method_allows (m : DistributionMethod) (elapsed : Z) : bool :=
  match m with
  | LumpSum => true
  | Monthly => 30 * 24 * 60 * 60 <=? elapsed
  | Quarterly => 90 * 24 * 60 * 60 <=? elapsed
  | Yearly => 365 * 24 * 60 * 60 <=? elapsed
  end.

Section claims.
Context {T L : Type} `{TokenOps T} `{HostFns}.
Abbreviation W := (world T L).
Abbreviation X A := (M W InheritanceError A).
Implicit Types (env : Env) (w : W).

Definition calculate_waterfall_payout (plan : InheritancePlan) (index : Z) : X Z :=
  let! b := unwrap (vget (beneficiaries plan) index) in
  ret (waterfall_payout plan b).

Definition has_active_vesting_schedule (plan_id index : Z) : bool := false.

Definition get_vesting_exit_settlement (plan_id index : Z) : X Z :=
  load (fun s => default 0 (Ves s !! (plan_id, index))).

Definition get_claimable_by_priority (plan_id index : Z) : X Z :=
  let! plan := require_plan plan_id in
  do! reject_if (len (beneficiaries plan) <=? index) InvalidBeneficiaryIndex;
  calculate_waterfall_payout plan index.

Definition is_claim_time_valid env (plan : InheritancePlan) : X bool :=
  let! elapsed := sub64 (timestamp env) (created_at plan) in
  ret (method_allows (distribution_method plan) elapsed).

(** Before the trigger the distribution method decides. *)
Definition require_claim_time env (triggered : bool) (plan : InheritancePlan) : X unit :=
  if triggered then ret tt
  else let! b := is_claim_time_valid env plan in reject_if (negb b) ClaimNotAllowedYet.

(** [sha256(plan_id || hashed_email)]. *)
Definition claim_key (plan_id : Z) (email : hash) : hash := sha256 (be_bytes 8 plan_id ++ email).

Definition salt_of (s : claim_store) (plan_id i : Z) : hash := default zero_salt (Cs s !! (plan_id, i)).

(** The search for the beneficiary with the email whose salted claim code
    matches, from number [i] on. *)
Fixpoint find_claimant (plan_id claim_code : Z) (email : hash) (i : Z) (bs : list Beneficiary)
  : X (option Z) :=
  match bs with
  | [] => ret None
  | b :: bs =>
    if negb (bool_decide (hashed_email b = email))
    then find_claimant plan_id claim_code email (i + 1) bs
    else
      let! salt := load (fun s => salt_of s plan_id i) in
      let! hashed_code := hash_claim_code_with_salt claim_code salt in
      if bool_decide (hashed_claim_code b = hashed_code) then ret (Some i)
      else find_claimant plan_id claim_code email (i + 1) bs
  end.

(** The balances and records after a payout. *)
Definition settle_claim env (plan_id index : Z) (plan : InheritancePlan) (key : hash)
    (exit_settlement payout : Z) : X unit :=
  let remaining := saturating_sub exit_settlement payout in
  let finalized := (exit_settlement =? 0) || (remaining =? 0) in
  let! b := unwrap (vget (beneficiaries plan) index) in
  let b := if finalized then b <| is_claimed := true |> else b in
  do! store_plan plan_id
        (plan <| beneficiaries := vset index b (beneficiaries plan) |>
              <| total_amount := saturating_sub (total_amount plan) payout |>);
  do! when (0 <? exit_settlement)
    (if remaining =? 0
     then save (fun s => s <| Ves := delete (plan_id, index) (Ves s) |>)
     else save (fun s => s <| Ves := <[(plan_id, index) := remaining]> (Ves s) |>));
  when finalized
    (do! save (fun s => s <| C := <[key := mkClaim plan_id index (timestamp env)]> (C s) |>);
     add_plan_to_claimed (owner plan) plan_id).

(** The second half of [claim_inheritance_plan]: the beneficiary is looked up,
    paid and booked. *)
Definition pay_claim env (plan_id : Z) (claimer : address) (email : bytes) (claim_code : Z)
    (plan : InheritancePlan) (triggered : bool) : X unit :=
  let! email_hash := hash_string email in
  let key := claim_key plan_id email_hash in
  let! claimed := load (fun s => C s !! key) in
  do! reject_if (bool_decide (is_Some claimed)) AlreadyClaimed;
  let candidates := take (Z.to_nat MAX_BENEFICIARIES) (beneficiaries plan) in
  let! found := find_claimant plan_id claim_code email_hash 0 candidates in
  let! index := ok_or found BeneficiaryNotFound in
  let! frozen := load (fun s => default false (Fb s !! (plan_id, index))) in
  do! reject_if frozen Unauthorized;
  do! reject_if (has_active_vesting_schedule plan_id index) VestingScheduleActive;
  let! this := unwrap (vget (beneficiaries plan) index) in
  do! reject_if (waterfall_enabled plan && blocked_by this candidates) ClaimNotAllowedYet;
  let! entitlement := calculate_waterfall_payout plan index in
  let! exit_settlement := get_vesting_exit_settlement plan_id index in
  let payout := if 0 <? exit_settlement then Z.min entitlement exit_settlement else entitlement in
  do! emergency_cap env plan_id plan payout;
  let available := saturating_sub (total_amount plan) (total_loaned plan) in
  do! reject_if (negb triggered && (available <? payout)) InsufficientLiquidity;
  do! reject_if (payout =? 0) NothingToClaim;
  do! release_from_plan_vault env plan_id (token plan) claimer payout;
  do! settle_claim env plan_id index plan key exit_settlement payout;
  do! zoom (AccessControl.assign_role claimer AccessControl.Beneficiary);
  do! emit (ClaimSucceeded plan_id email_hash payout);
  do! when (negb (len (bank_account this) =? 0)) (emit (FiatPayoutRequested plan_id index payout));
  exit_guard.

(** [claim_inheritance_plan] under its guard. *)
Definition claim_body env (plan_id : Z) (claimer : address) (email : bytes) (claim_code : Z) : X unit :=
  do! check_kyc_approved claimer;
  let! plan := require_plan plan_id in
  do! reject_if (negb (is_active plan)) PlanNotActive;
  do! require_not_held plan_id;
  do! check_and_record_claim_attempt env plan_id claimer;
  let! _ := attempt (auto_trigger_check env plan_id) in
  let! info := get_trigger_info plan_id in
  let triggered := bool_decide (is_Some info) in
  do! require_claim_time env triggered plan;
  pay_claim env plan_id claimer email claim_code plan triggered.

Definition claim_inheritance_plan env (plan_id : Z) (claimer : address) (email : bytes)
    (claim_code : Z) : X unit :=
  do! require_auth env claimer;
  do! require_not_blacklisted claimer;
  do! check_not_paused;
  do! enter_guard;
  finally (claim_body env plan_id claimer email claim_code) exit_guard.

(** * Batched claims *)

(** The outcome of one entry's checks: the beneficiary, or the number of
    failures it counts for. *)
Definition batch_find env (plan_id : Z) (email_hash : hash) (claim_code : Z) (plan : InheritancePlan)
  : X (Z + Z) :=
  let! found := attempt (find_claimant plan_id claim_code email_hash 0 (beneficiaries plan)) in
  ret (match found with
       | ROk (Some i) => inl i
       | ROk None => inr 1
       | RErr _ => inr 2
       end).

(** Book a batched claim: no payout is made and no beneficiary is marked. *)
Definition batch_settle env (plan_id index : Z) (plan : InheritancePlan) (key email_hash : hash)
    (base_payout : Z) : X unit :=
  do! save (fun s => s <| C := <[key := mkClaim plan_id index (timestamp env)]> (C s) |>);
  do! store_plan plan_id
        (plan <| total_amount := saturating_sub (total_amount plan) base_payout |>);
  do! add_plan_to_claimed (owner plan) plan_id;
  emit (ClaimSucceeded plan_id email_hash base_payout).

(** The part of an entry after the claimer's checks; it returns how many
    failures it counts, none on success. *)
Definition batch_claim_entry env (plan_id : Z) (email : bytes) (claim_code : Z) : X Z :=
  let! email_hash := hash_string email in
  let key := claim_key plan_id email_hash in
  let! claimed := load (fun s => C s !! key) in
  if bool_decide (is_Some claimed) then ret 1
  else
    let! current := get_plan plan_id in
    match current with
    | None => ret 1
    | Some plan =>
      let! found := batch_find env plan_id email_hash claim_code plan in
      match found with
      | inr n => ret n
      | inl index =>
        let! b := unwrap (vget (beneficiaries plan) index) in
        let base_payout := share_of (total_amount plan) (allocation_bp b) in
        let! active := is_emergency_active env plan_id in
        if active && (share_of (total_amount plan) EMERGENCY_TRANSFER_LIMIT_BP <? base_payout)
        then ret 1
        else do! batch_settle env plan_id index plan key email_hash base_payout; ret 0
      end
    end.

(** The guards of an entry, each counted as one failure. *)
Definition batch_claimer_ok env (plan_id : Z) (claimer : address) : X bool :=
  let! r1 := attempt (require_not_blacklisted claimer) in
  match r1 with
  | RErr _ => ret false
  | ROk _ =>
    let! r2 := attempt (check_and_record_claim_attempt env plan_id claimer) in
    match r2 with
    | RErr _ => ret false
    | ROk _ =>
      let! r3 := attempt (check_kyc_approved claimer) in
      ret (match r3 with ROk _ => true | RErr _ => false end)
    end
  end.

Definition batch_claim_one env (plan_id : Z) (acc : Z * Z) (entry : address * bytes * Z) : X (Z * Z) :=
  let '(success, fail_count) := acc in
  let '(claimer, email, claim_code) := entry in
  do! require_auth env claimer;
  let! ok := batch_claimer_ok env plan_id claimer in
  if negb ok then ret (success, fail_count + 1)
  else
    let! failures := batch_claim_entry env plan_id email claim_code in
    ret (if failures =? 0 then (success + 1, fail_count) else (success, fail_count + failures)).

Definition batch_claim env (plan_id : Z) (claimers : list (address * bytes * Z)) : X (Z * Z) :=
  do! check_not_paused;
  do! enter_guard;
  do! reject_if (BATCH_LIMIT <? len claimers) TooManyBeneficiaries;
  let! plan := require_plan plan_id in
  let! _ := attempt (auto_trigger_check env plan_id) in
  let! info := get_trigger_info plan_id in
  let triggered := bool_decide (is_Some info) in
  do! reject_if (negb (is_active plan)) PlanNotActive;
  do! require_not_held plan_id;
  do! require_claim_time env triggered plan;
  let! counts := foldM (batch_claim_one env plan_id) claimers (0, 0) in
  do! emit (BatchClaimEvent plan_id counts.1 counts.2);
  do! exit_guard;
  ret counts.

(** * Inversion *)

(** The attempt window the next attempt is counted in. *)
Definition rolled (now : Z) (stored : option ClaimAttemptWindow) : ClaimAttemptWindow :=
  let w0 := default (mkWindow now 0) stored in
  if CLAIM_ATTEMPT_WINDOW_SECONDS <=? saturating_sub now (window_start w0) then mkWindow now 0 else w0.
Lemma claim_attempt_Ok env id a u w w' :
  check_and_record_claim_attempt env id a w = Ok u w' ->
  let r := rolled (timestamp env) (Ca (claims w) !! (id, a)) in
  attempts r < CLAIM_MAX_ATTEMPTS_PER_WINDOW /\
  w' = w <| claims := (claims w) <| Ca :=
         <[(id, a) := mkWindow (window_start r) (saturating_add32 (attempts r) 1)]> (Ca (claims w)) |> |>.
Proof. unfold check_and_record_claim_attempt. intros Hr. run_inv. by bool_hyps. Qed.

(** What the search finds carries the email and the salted code, and nothing
    before it does. *)
Definition matches w (id code : Z) (email : hash) (i : Z) (b : Beneficiary) : Prop :=
  hashed_email b = email /\ code <= 999999 /\
  hashed_claim_code b = sha256 (salt_of (claims w) id i ++ code_digits code).
Definition unmatched w (id code : Z) (email : hash) (i : Z) (bs : list Beneficiary) : Prop :=
  forall m c, bs !! m = Some c -> ~ matches w id code email (i + Z.of_nat m) c.
Lemma unmatched_cons w id code email i b bs :
  ~ matches w id code email i b -> unmatched w id code email (i + 1) bs -> unmatched w id code email i (b :: bs).
Proof.
  intros Hb Hbs [|m] c Hc; cbn in Hc; [injection Hc as <-; by rewrite Z.add_0_r|].
  replace (i + Z.of_nat (S m)) with (i + 1 + Z.of_nat m) by lia. by apply Hbs.
Qed.
Lemma find_claimant_Ok id code email i bs r w w' :
  find_claimant id code email i bs w = Ok r w' ->
  w' = w /\ forall j, r = Some j ->
    exists k b, j = i + Z.of_nat k /\ bs !! k = Some b /\ matches w id code email j b /\
      unmatched w id code email i (take k bs).
Proof.
  revert i r. induction bs as [|b bs IH]; intros i r Hr; cbn in Hr; [by apply ret_Ok in Hr as [-> ->]|].
  assert (~ matches w id code email i b -> forall r, find_claimant id code email (i + 1) bs w = Ok r w' ->
    w' = w /\ forall j, r = Some j -> exists k b', j = i + Z.of_nat k /\ (b :: bs) !! k = Some b' /\
      matches w id code email j b' /\ unmatched w id code email i (take k (b :: bs))) as Hrec.
  { clear Hr. intros Hno r' Hr. apply IH in Hr as [-> Hr]. split; [done|]. intros j Hj.
    destruct (Hr j Hj) as (k & b' & -> & Hk & Hm & Hu). exists (S k), b'.
    split_and!; [lia|done|done|]. by apply unmatched_cons. }
  unfold matches in Hrec at 1. case_bool_decide as He; cbn in Hr; [|apply Hrec; [by intros [? _]|done]].
  run_bind Hr.
  repeat match goal with
  | Hl : load _ _ = _ |- _ => apply ih_load_Ok in Hl as [-> ->]
  | Hl : hash_claim_code_with_salt _ _ _ = _ |- _ => apply hash_claim_code_with_salt_Ok in Hl as (? & -> & ->)
  end.
  case_bool_decide as Hc; [|apply Hrec; [by intros (_ & _ & ?)|done]]. apply ret_Ok in Hr as [-> ->]. split; [done|].
  intros ? [= <-]. exists 0%nat, b. split_and!; [lia|done..|]. by intros m c Hm.
Qed.
Lemma find_keeps {B} (f : W -> B) id code email i bs : keeps f (find_claimant id code email i bs).
Proof.
  revert i. induction bs as [|b bs IH]; intros i; [apply keeps_ret|]. cbn [find_claimant].
  case_match; [done|]. apply keeps_bind; [apply keeps_gets|]. intros salt.
  apply keeps_bind; [by unfold hash_claim_code_with_salt; keeps_tac|]. intros h. case_match; [apply keeps_ret|done].
Qed.
Lemma require_claim_time_Ok env trig plan u w w' :
  require_claim_time env trig plan w = Ok u w' <->
  (trig = true \/ (method_allows (distribution_method plan) (timestamp env - created_at plan) = true /\
    u64 (timestamp env - created_at plan))) /\ w' = w.
Proof.
  unfold require_claim_time, is_claim_time_valid. destruct trig.
  - rewrite ret_Ok. destruct u. naive_solver.
  - rewrite bind_Ok. setoid_rewrite bind_Ok. setoid_rewrite sub64_Ok. setoid_rewrite ret_Ok.
    setoid_rewrite reject_if_Ok. setoid_rewrite negb_false_iff. naive_solver.
Qed.

(** The claim is final when nothing of a vesting settlement remains. *)
Definition settles (exit_settlement payout : Z) : bool :=
  (exit_settlement =? 0) || (saturating_sub exit_settlement payout =? 0).
Definition paid_plan (plan : InheritancePlan) (i : Z) (b : Beneficiary) (final : bool) (payout : Z)
  : InheritancePlan :=
  plan <| beneficiaries := vset i (if final then b <| is_claimed := true |> else b) (beneficiaries plan) |>
       <| total_amount := saturating_sub (total_amount plan) payout |>.
(** What is left of a vesting settlement. *)
Definition vesting_after (ves : gmap (Z * Z) Z) (k : Z * Z) (exit_settlement payout : Z) : gmap (Z * Z) Z :=
  if 0 <? exit_settlement then
    if saturating_sub exit_settlement payout =? 0 then delete k ves
    else <[k := saturating_sub exit_settlement payout]> ves
  else ves.
(** A final claim lists the plan once among the owner's claimed plans and among
    all claimed plans. *)
Definition listed_claim (final : bool) (o : address) (id : Z) (ps ps' : plan_store) : Prop :=
  if final then
    claimed_plans ps' o = listed_once id (claimed_plans ps o) /\
    (forall o', o' <> o -> Uc ps' !! o' = Uc ps !! o') /\
    default [] (Ac ps') = listed_once id (default [] (Ac ps))
  else Uc ps' = Uc ps /\ Ac ps' = Ac ps.
Lemma settle_claim_Ok env id i plan key ex pay u w w' :
  settle_claim env id i plan key ex pay w = Ok u w' ->
  exists b uc ac, vget (beneficiaries plan) i = Some b /\
    w' = w <| plans := (plans w) <| P := <[id := paid_plan plan i b (settles ex pay) pay]> (P (plans w)) |>
                                 <| Uc := uc |> <| Ac := ac |> |>
           <| claims := (claims w)
                <| C := if settles ex pay then <[key := mkClaim id i (timestamp env)]> (C (claims w)) else C (claims w) |>
                <| Ves := vesting_after (Ves (claims w)) (id, i) ex pay |> |> /\
    listed_claim (settles ex pay) (owner plan) id (plans w) ((plans w) <| Uc := uc |> <| Ac := ac |>).
Proof.
  unfold settle_claim. fold (settles ex pay). intros Hr. run_bind Hr. run_bind Hr. run_bind Hr.
  match goal with Hu : unwrap _ _ = _ |- _ => apply unwrap_Ok in Hu as [Hb ->] end.
  match goal with Hs : store_plan _ _ _ = _ |- _ => apply store_plan_Ok in Hs as [_ ->] end.
  match goal with Hs : when (0 <? ex) _ _ = Ok _ ?v |- _ =>
    assert (v = w <| plans := (plans w) <| P :=
        <[id := paid_plan plan i x (settles ex pay) pay]> (P (plans w)) |> |>
      <| claims := (claims w) <| Ves := vesting_after (Ves (claims w)) (id, i) ex pay |> |>) as -> end.
  { unfold when, vesting_after in *. destruct (0 <? ex); [destruct (_ =? 0) in *|]; run_inv; try done. by destruct w as [? ? []]. }
  unfold when in Hr. destruct (settles ex pay) eqn:Hf; run_inv.
  - eexists _, _, _. split_and!; [done|done|]. unfold claimed_plans. cbn. by split_and!.
  - exists x, (Uc (plans w)), (Ac (plans w)). split_and!; [done| |done]. by destruct w as [? [] []].
Qed.

(** * Calls *)

Inductive claim_call :=
  | Claim (plan_id : Z) (claimer : address) (email : bytes) (claim_code : Z)
  | BatchClaim (plan_id : Z) (claimers : list (address * bytes * Z)).
Definition run_claim env (c : claim_call) : X unit :=
  match c with
  | Claim id a e code => claim_inheritance_plan env id a e code
  | BatchClaim id xs => discard (batch_claim env id xs)
  end.
End claims.

Ltac claim_more :=
  match goal with
  | H : check_and_record_claim_attempt _ _ _ _ = Ok _ _ |- _ => apply claim_attempt_Ok in H
  | H : find_claimant _ _ _ _ _ _ = Ok _ _ |- _ => apply find_claimant_Ok in H
  | H : require_claim_time _ _ _ _ = Ok _ _ |- _ => apply require_claim_time_Ok in H
  | H : settle_claim _ _ _ _ _ _ _ _ = Ok _ _ |- _ => apply settle_claim_Ok in H
  | H : calculate_waterfall_payout _ _ _ = Ok _ _ |- _ => unfold calculate_waterfall_payout in H
  | H : get_vesting_exit_settlement _ _ _ = Ok _ _ |- _ => unfold get_vesting_exit_settlement in H
  | _ => plan_more
  end.
Ltac ih_more ::= claim_more.
Ltac ih_keeps_known ::= first [apply any_condition_keeps|apply find_keeps].


(** * What a claim does *)

Section spec.
Context {T L : Type} `{TokenOps T} `{HostFns}.
Abbreviation W := (world T L).
Implicit Types (env : Env) (w : W).

(** What the beneficiary at [i] is due: the payout of the waterfall, capped by
    a vesting settlement when there is one. *)
Definition settlement w (id i : Z) : Z := default 0 (Ves (claims w) !! (id, i)).
Definition payout_due w (id i : Z) (plan : InheritancePlan) (b : Beneficiary) : Z :=
  let e := waterfall_payout plan b in
  if 0 <? settlement w id i then Z.min e (settlement w id i) else e.

(** [w] with the parts a claim writes taken from [w']: the roles, the plans and
    the lists of claimed ones, the claim records, attempt windows and vesting
    settlements, the triggers and emergency accesses, the events and the tokens. *)
#[local] Existing Instance AccessControl.eta_state.
Definition with_parts_of w w' : W :=
  w <| acl := (acl w) <| AccessControl.Roles := AccessControl.Roles (acl w') |> |>
    <| plans := (plans w) <| P := P (plans w') |> <| Uc := Uc (plans w') |> <| Ac := Ac (plans w') |> |>
    <| claims := (claims w) <| C := C (claims w') |> <| Ca := Ca (claims w') |> <| Ves := Ves (claims w') |> |>
    <| triggers := (triggers w) <| It := It (triggers w') |> <| Eac := Eac (triggers w') |> |>
    <| evs := evs w' |> <| toks := toks w' |>.

(** The run of a claim that succeeds: who may claim, when, how much is paid,
    and what is written. *)
Record claim_run env (id : Z) (a : address) (email : bytes) (code : Z) w w'
    (plan : InheritancePlan) (i : Z) (b : Beneficiary) (v : address) : Prop := {
  cl_auth : a ∈ auths env /\ default false (AccessControl.Blacklisted (acl w) !! a) = false;
  cl_open : AccessControl.is_contract_paused (acl w) = false /\ AccessControl.ReentrancyLock (acl w) = None;
  cl_kyc : exists k, Ky (plans w) !! a = Some k /\ approved k = true;
  cl_plan : P (plans w) !! id = Some plan /\ is_active plan = true;
  cl_held : Fz (disputes w) !! id = None /\ Lh (disputes w) !! id = None;
  cl_attempts : attempts (rolled (timestamp env) (Ca (claims w) !! (id, a))) < CLAIM_MAX_ATTEMPTS_PER_WINDOW;
  cl_new : C (claims w) !! claim_key id (sha256 email) = None;
  cl_found : 0 <= i < MAX_BENEFICIARIES /\ vget (beneficiaries plan) i = Some b /\
    matches w id code (sha256 email) i b;
  cl_first : unmatched w id code (sha256 email) 0 (take (Z.to_nat i) (beneficiaries plan));
  cl_turn : waterfall_enabled plan = true ->
    blocked_by b (take (Z.to_nat MAX_BENEFICIARIES) (beneficiaries plan)) = false;
  cl_time : is_Some (It (triggers w') !! id) \/
    method_allows (distribution_method plan) (timestamp env - created_at plan) = true;
  cl_pay : payout_due w id i plan b <> 0;
  cl_liquid : It (triggers w') !! id = None ->
    payout_due w id i plan b <= saturating_sub (total_amount plan) (total_loaned plan);
  cl_cooling : cooling env (expire env id w) id = true ->
    payout_due w id i plan b <= share_of (total_amount plan) EMERGENCY_TRANSFER_LIMIT_BP;
  cl_vault : pvault (plans w) !! id = Some v;
  cl_moved : tk_transfer (toks w) (auths (sub_env (sub_env env v) (token plan))) (token plan) v a
    (payout_due w id i plan b) = Some (toks w');
  cl_stored : P (plans w') = <[id := paid_plan plan i b (settles (settlement w id i) (payout_due w id i plan b))
    (payout_due w id i plan b)]> (P (plans w));
  cl_recorded : C (claims w') = if settles (settlement w id i) (payout_due w id i plan b)
    then <[claim_key id (sha256 email) := mkClaim id i (timestamp env)]> (C (claims w)) else C (claims w);
  cl_vesting : Ves (claims w') = vesting_after (Ves (claims w)) (id, i) (settlement w id i) (payout_due w id i plan b);
  cl_listed : listed_claim (settles (settlement w id i) (payout_due w id i plan b)) (owner plan) id (plans w) (plans w');
  cl_window : Ca (claims w') = let r := rolled (timestamp env) (Ca (claims w) !! (id, a)) in
    <[(id, a) := mkWindow (window_start r) (saturating_add32 (attempts r) 1)]> (Ca (claims w));
  cl_access : Eac (triggers w') = Eac (triggers (expire env id w));
  cl_role : AccessControl.Roles (acl w') =
    let roles := AccessControl.roles_of (acl w) a in
    if AccessControl.holds AccessControl.Beneficiary roles then AccessControl.Roles (acl w)
    else <[a := roles ++ [AccessControl.Beneficiary]]> (AccessControl.Roles (acl w));
  cl_trigger : It (triggers w') = It (triggers w) \/
    (It (triggers w) !! id = None /\ It (triggers w') =
       <[id := mkTrigger (timestamp env) true false false (total_loaned plan) 0 0]> (It (triggers w)));
  cl_announced : exists es, evs w' = evs w ++ es /\
    ClaimSucceeded id (sha256 email) (payout_due w id i plan b) ∈ es;
  cl_rest : w' = with_parts_of w w'
}.

Lemma assign_role_writes a r u w w' :
  (zoom (AccessControl.assign_role a r) : M W InheritanceError unit) w = Ok u w' ->
  w' = w <| acl := (acl w) <| AccessControl.Roles :=
    let roles := AccessControl.roles_of (acl w) a in
    if AccessControl.holds r roles then AccessControl.Roles (acl w)
    else <[a := roles ++ [r]]> (AccessControl.Roles (acl w)) |> |>.
Proof.
  intros (s & Hs & ->)%zoom_Ok. unfold AccessControl.assign_role in Hs. run_inv. cbn in *.
  destruct (AccessControl.holds _ _); run_inv; [by destruct w as [[]]|done].
Qed.

(** The events a claim emits after those of the automatic trigger and the expiry. *)
Ltac announced :=
  match goal with |- context [evs (expire ?env ?id ?x)] => destruct (expire_evs env id x) as [es ->] end;
  eexists; split; [cbn; rewrite <-?app_assoc; reflexivity|set_solver].
Ltac only_parts :=
  match goal with |- context [expire ?env ?id ?x] => rewrite (expire_shape env id x);
    generalize (Eac (triggers (expire env id x))) (evs (expire env id x)) end;
  intros; unfold with_parts_of; cbn; f_equal; first [done|congruence|by f_equal].

Lemma claim_Ok env id a email code u w w' :
  claim_inheritance_plan env id a email code w = Ok u w' ->
  exists plan i b v, claim_run env id a email code w w' plan i b v.
Proof.
  intros Hr. unfold claim_inheritance_plan in Hr. run_inv.
  match goal with Hf : finally _ _ _ = _ |- _ => apply finally_Ok in Hf as (w1 & u1 & Hb & He) end.
  apply exit_guard_Ok in He as ->. unfold claim_body, pay_claim in Hb. run_inv. bool_hyps.
  match goal with Hz : zoom (AccessControl.assign_role _ _) _ = _ |- _ => apply assign_role_writes in Hz end.
  match goal with Hm : forall j, Some ?i = Some j -> _ |- _ =>
    destruct (Hm i eq_refl) as (k & b' & -> & Hk & Hmatch & Hfirst); clear Hm end.
  rewrite take_take, Nat.min_l in Hfirst by (apply lookup_take_Some in Hk as [_ ?]; lia).
  apply lookup_take_Some in Hk as [Hk Hlt]. cbn in Hlt.
  match goal with Ha : auto_triggers _ _ _ _ _ |- _ =>
    pose proof (auto_triggers_insert _ _ _ _ _ (paid_plan x (0 + Z.of_nat k) b'
      (settles (settlement w id (0 + Z.of_nat k)) (payout_due w id (0 + Z.of_nat k) x b'))
      (payout_due w id (0 + Z.of_nat k) x b')) Ha) as Hins;
    apply auto_triggers_It in Ha as Hits end.
  unfold when in *. case_match; run_inv; autorewrite with expire in *; cbn in *.
  all: rewrite ?Z.add_0_l in *; unfold vget in *; rewrite ?Nat2Z.id in *; simplify_eq.
  all: match goal with Hv : pvault _ !! _ = Some ?v |- _ => eexists x, (Z.of_nat k), _, v end.
  all: split; unfold payout_due, settlement, claimed_plans, matches, vget in *; cbn; rewrite ?Nat2Z.id; try done; eauto.
  all: autorewrite with expire; cbn.
  all: lazymatch goal with
  | |- C _ !! _ = None => by apply eq_None_not_Some
  | |- _ /\ _ => unfold MAX_BENEFICIARIES in *; destruct Hmatch as (? & ? & ?);
      split_and!; solve [done|clear - Hlt; lia]
  | |- unmatched _ _ _ _ _ _ => exact Hfirst
  | |- waterfall_enabled _ = true -> _ => intros Hw; by rewrite ?Hw in *
  | |- is_Some _ \/ _ => match goal with Ho : bool_decide _ = true \/ _ |- _ =>
      destruct Ho as [?%bool_decide_eq_true|[? _]]; auto end
  | |- _ = None -> _ => intros Hn; match goal with Hl : _ && _ = false |- _ =>
      rewrite Hn, bool_decide_false in Hl by (by intros []); by apply Z.ltb_ge in Hl end
  | |- cooling _ _ _ = true -> _ => intros Hc; match goal with Hl : cooling _ _ _ = true -> _ |- _ =>
      apply Hl; rewrite <-Hc; by apply cooling_ext end
  | |- Eac _ = Eac _ => by apply expire_Eac_ext
  | |- exists es, _ => announced
  | |- _ = with_parts_of _ _ => only_parts
  | |- _ = _ \/ _ => destruct Hits as [->|(? & ? & ? & ->)]; [by left|right; by simplify_eq]
  end.
Qed.

(** C8: A claim that succeeds was signed by an approved claimer who is not blacklisted,
    met every guard, went to the first beneficiary whose email hash and salted code match,
    whose turn it was, and moved exactly the payout due from the plan's vault to the
    claimer, under the emergency cap and, without a trigger, the liquid amount. It wrote
    the plan's amount and, when nothing of a vesting settlement remains, the beneficiary's
    flag, the claim record and the two lists of claimed plans; what is left of that
    settlement; the claimer's attempt window and beneficiary role; possibly the automatic
    trigger; it deleted an expired emergency access of the plan, and emitted events among
    which is that of the claim. The rest of the world is as it was. *)
Theorem claim_contract env id a email code w w' :
  claim_inheritance_plan env id a email code w = Ok tt w' ->
  exists plan i b v, claim_run env id a email code w w' plan i b v.
Proof. apply claim_Ok. Qed.

(** A claim pays its share of what is left at that moment: a beneficiary with less than
    the whole leaves a positive rest, and everybody who claims later is paid at most, and
    computed on that rest, less than the share of the original amount. *)
Theorem claim_leaves_rest env id a email code w w' :
  claim_inheritance_plan env id a email code w = Ok tt w' -> Ves (claims w) = ∅ ->
  map_Forall (fun _ p => u64 (total_amount p) /\ Forall (fun b => 0 < allocation_bp b <= 10000) (beneficiaries p))
    (P (plans w)) ->
  exists plan b rest, P (plans w) !! id = Some plan /\ b ∈ beneficiaries plan /\
    (total_amount <$> P (plans w') !! id) = Some rest /\
    rest = total_amount plan - total_amount plan * allocation_bp b / 10000 /\
    total_amount plan * (10000 - allocation_bp b) <= rest * 10000 /\
    (allocation_bp b < 10000 -> 0 < rest) /\
    forall c, 0 <= allocation_bp c <= 10000 ->
      share_of rest (allocation_bp c) <= total_amount plan * allocation_bp c / 10000.
Proof.
  intros (plan & i & b & v & Hc)%claim_Ok Hves Hwf.
  pose proof (cl_plan _ _ _ _ _ _ _ _ _ _ _ Hc) as [Hp _].
  pose proof (cl_found _ _ _ _ _ _ _ _ _ _ _ Hc) as (_ & Hb & _).
  pose proof (cl_pay _ _ _ _ _ _ _ _ _ _ _ Hc) as Hpay.
  pose proof (cl_stored _ _ _ _ _ _ _ _ _ _ _ Hc) as Hs.
  destruct (Hwf _ _ Hp) as [Hu Hf].
  assert (b ∈ beneficiaries plan) as Hin by by eapply list_elem_of_lookup_2.
  pose proof (proj1 (Forall_forall _ _) Hf b Hin) as Hbp. cbn in Hbp.
  destruct (share_of_exact (total_amount plan) (allocation_bp b) Hu) as [He Hr]; [lia|].
  unfold payout_due, settlement in *. rewrite Hves, lookup_empty in *. cbn in *.
  unfold waterfall_payout in *. destruct (waterfall_enabled plan && _); [done|]. rewrite Z.min_l in * by lia.
  exists plan, b, (total_amount plan - total_amount plan * allocation_bp b / 10000).
  rewrite Hs, lookup_insert_eq. unfold u64 in Hu.
  pose proof (div_floor (total_amount plan * allocation_bp b) 10000 ltac:(lia)).
  split_and!; [done|done|cbn; f_equal; ulia|done|lia|nia|].
  intros c Hcb. destruct (share_of_exact (total_amount plan - total_amount plan * allocation_bp b / 10000) (allocation_bp c))
    as [-> _]; [unfold u64; lia|done|]. apply Z.div_le_mono; [lia|]. apply Z.mul_le_mono_nonneg_r; lia.
Qed.
End spec.

(** * Concrete runs *)

Import InheritanceExample.

(** Bob claims his sixty percent of 9800. *)
Abbreviation bob_claims := (claim_inheritance_plan (L := peer) (env_at 100 [bob]) 1 bob [98] 111111).
Lemma claim_contract_witness :
  exists plan i b v, claim_run (env_at 100 [bob]) 1 bob [98] 111111 funded (after bob_claims funded) plan i b v /\
    MockToken.net_balance (toks (after bob_claims funded)) usd bob = 6380.
Proof.
  destruct (bob_claims funded) as [[] w'|e w'|] eqn:Hr; [|by vm_compute in Hr..].
  destruct (claim_contract (env_at 100 [bob]) 1 bob [98] 111111 funded w' Hr) as (plan & i & b & v & Hc).
  exists plan, i, b, v. unfold after. rewrite Hr. split; [done|]. vm_compute in Hr. injection Hr as <-.
  by vm_compute.
Defined.
(** What is left is 3920, of which Carol can claim 1568, not the 3920 of her
    forty percent. *)
Lemma claim_leaves_rest_witness :
  (exists plan b rest, P (plans funded) !! 1 = Some plan /\
     (total_amount <$> P (plans (after bob_claims funded)) !! 1) = Some rest /\
     rest = total_amount plan - total_amount plan * allocation_bp b / 10000) /\
  (total_amount <$> P (plans (after bob_claims funded)) !! 1) = Some 3920 /\ share_of 3920 4000 = 1568.
Proof.
  split; [|split; by vm_compute].
  destruct (bob_claims funded) as [[] w'|e w'|] eqn:Hr; [|exfalso; by vm_compute in Hr..].
  destruct (claim_leaves_rest (env_at 100 [bob]) 1 bob [98] 111111 funded w' Hr) as (plan & b & rest & Hp & _ & Ht & Hrest & _).
  - by vm_compute.
  - apply (bool_decide_eq_true_1 _). by vm_compute.
  - exists plan, b, rest. split; [exact Hp|]. split; [|exact Hrest]. unfold after. rewrite Hr. exact Ht.
Defined.

End InheritanceClaims.
