(* ===== verification/InheritanceBatch.v ===== *)
(** Removing several beneficiaries at once
    ([contracts/inheritance-contract/src/lib.rs], [batch_remove_beneficiaries]):
    the requested positions are made distinct, sorted in descending order by
    exchanges, and removed one by one by swapping the last entry in; the result
    is compared with filtering the positions out. *)
From S2P Require Import Prelude Host AccessControl Token PlanVault InheritanceTypes.
From S2P Require Import InheritanceCore InheritanceEmergency InheritanceTriggers InheritancePlans.
From S2P Require Import InheritanceExample InheritanceClaims.
Import InheritanceTypes InheritanceCore InheritanceEmergency InheritanceTriggers InheritancePlans.
Import InheritanceClaims.

Module InheritanceBatch.

(** * The distinct positions *)

Lemma valid_indices_step n acc indices :
  NoDup acc -> Forall (fun i => i < n) acc ->
  let r := fold_left (fun acc i => if (i <? n) && negb (bool_decide (i ∈ acc)) then acc ++ [i] else acc)
    indices acc in
  NoDup r /\ forall i, i ∈ r <-> i ∈ acc \/ (i ∈ indices /\ i < n).
Proof.
  revert acc. induction indices as [|i indices IH]; intros acc Hnd Hn; cbn; [set_solver|].
  destruct (Z.ltb_spec i n) as [Hlt|Hge]; cbn.
  - case_bool_decide as Hin; cbn.
    + destruct (IH acc Hnd Hn) as [? Hr]. split; [done|]. set_solver.
    + destruct (IH (acc ++ [i])) as [? Hr]; [by apply NoDup_snoc_iff|by apply Forall_app; split; [|constructor]|].
      split; [done|]. set_solver.
  - destruct (IH acc Hnd Hn) as [? Hr]. split; [done|]. intros j. rewrite Hr, elem_of_cons. naive_solver lia.
Qed.
Lemma valid_indices_spec n indices :
  NoDup (valid_indices n indices) /\ forall i, i ∈ valid_indices n indices <-> i ∈ indices /\ i < n.
Proof.
  destruct (valid_indices_step n [] indices) as [? Hr]; [constructor|constructor|]. split; [done|].
  intros i. unfold valid_indices. rewrite Hr. set_solver.
Qed.

(** * The exchange sort *)

Lemma exchange_perm i j l : exchange i j l ≡ₚ l.
Proof.
  unfold exchange. destruct (l !! i) as [a|] eqn:Hi; [|done]. destruct (l !! j) as [b|] eqn:Hj; [|done].
  destruct (a <? b); [|done]. by apply Permutation_insert_swap.
Qed.

(** The entry at [a] is at least the entry at [b]. *)
Definition above (l : list Z) (a b : nat) : Prop :=
  forall x y, l !! a = Some x -> l !! b = Some y -> y <= x.
(** The first [i] entries are in their final place. *)
Definition placed (i : nat) (l : list Z) : Prop := forall a b, (a < i)%nat -> (a < b)%nat -> above l a b.

Lemma exchange_above i j l : i <> j -> above (exchange i j l) i j.
Proof.
  unfold exchange, above. intros Hne x y. destruct (l !! i) as [a|] eqn:Hi; [|congruence].
  destruct (l !! j) as [b|] eqn:Hj; [|congruence]. pose proof (lookup_lt_Some _ _ _ Hi).
  pose proof (lookup_lt_Some _ _ _ Hj). destruct (Z.ltb_spec a b); [|rewrite Hi, Hj; by intros [= <-] [= <-]].
  rewrite list_lookup_insert_ne, list_lookup_insert_eq, list_lookup_insert_eq by (rewrite ?length_insert; done).
  intros [= <-] [= <-]. lia.
Qed.
(** An entry below the exchanged positions stays; the others come from there. *)
Lemma exchange_low i j l a : (a < i)%nat -> (i < j)%nat -> exchange i j l !! a = l !! a.
Proof.
  intros. unfold exchange. destruct (l !! i), (l !! j); try done. destruct (_ <? _); [|done].
  by rewrite !list_lookup_insert_ne by lia.
Qed.
Lemma exchange_from i j l b y :
  (i < j)%nat -> exchange i j l !! b = Some y ->
  exists b', l !! b' = Some y /\ (b' = b \/ (i <= b' /\ i <= b)%nat).
Proof.
  intros Hij. unfold exchange. destruct (l !! i) as [x|] eqn:Hi; [|by eauto].
  destruct (l !! j) as [z|] eqn:Hj; [|by eauto]. destruct (_ <? _); [|by eauto].
  destruct (decide (b = j)) as [->|]; [|rewrite list_lookup_insert_ne by done].
  - rewrite list_lookup_insert_eq by (rewrite length_insert; by eapply lookup_lt_Some).
    intros [= <-]. exists i. split; [done|]. right. lia.
  - destruct (decide (b = i)) as [->|]; [|rewrite list_lookup_insert_ne by done; by eauto].
    rewrite list_lookup_insert_eq by by eapply lookup_lt_Some.
    intros [= <-]. exists j. split; [done|]. right. lia.
Qed.
Lemma exchange_placed i j l : (i < j)%nat -> placed i l -> placed i (exchange i j l).
Proof.
  intros Hij Hp a b Ha Hab x y Hx Hy. rewrite exchange_low in Hx by done.
  apply exchange_from in Hy as (b' & Hy & [->|[? ?]]); [..|done].
  - by apply (Hp a b).
  - apply (Hp a b'); [done|lia|done..].
Qed.
(** The largest entry seen so far stays at [i]. *)
Lemma exchange_max i j l k : (i < j)%nat -> (i < k < j)%nat -> above l i k -> above (exchange i j l) i k.
Proof.
  intros Hij Hk Ha x y. unfold exchange. destruct (l !! i) as [a|] eqn:Hi; [|congruence].
  destruct (l !! j) as [b|] eqn:Hj; [|intros; apply (Ha x y); congruence]. pose proof (lookup_lt_Some _ _ _ Hi).
  destruct (Z.ltb_spec a b); [|intros; apply (Ha x y); congruence].
  rewrite list_lookup_insert_ne, list_lookup_insert_eq by lia.
  rewrite !list_lookup_insert_ne by lia. intros [= <-] Hy. specialize (Ha a y Hi Hy). lia.
Qed.

Lemma pass_placed i m s l :
  (i < s)%nat -> placed i l -> (forall k, (i < k < s)%nat -> above l i k) ->
  let l' := fold_left (fun l j => exchange i j l) (seq s m) l in
  placed i l' /\ l' ≡ₚ l /\ forall k, (i < k < s + m)%nat -> above l' i k.
Proof.
  revert s l. induction m as [|m IH]; intros s l Hs Hp Hmax; cbn.
  - split_and!; [done|done|]. intros k Hk. apply Hmax. lia.
  - destruct (IH (S s) (exchange i s l)) as (? & Hperm & Hm).
    + lia.
    + by apply exchange_placed.
    + intros k Hk. destruct (decide (k = s)) as [->|]; [apply exchange_above; lia|].
      apply exchange_max; [done|lia|apply Hmax; lia].
    + split_and!; [done|by rewrite Hperm, exchange_perm|]. intros k Hk. apply Hm. lia.
Qed.
Lemma sort_pass_spec i l :
  placed i l -> placed (S i) (sort_pass (length l) i l) /\ sort_pass (length l) i l ≡ₚ l.
Proof.
  intros Hp. unfold sort_pass. destruct (pass_placed i (length l - S i) (S i) l) as (Hp' & Hperm & Hm);
    [lia|done|intros; lia|]. split; [|done].
  intros a b Ha Hab. destruct (decide (a = i)) as [->|]; [|apply Hp'; lia].
  destruct (decide (b < length l)%nat); [apply Hm; lia|].
  intros x y _ Hy%lookup_lt_Some. apply Permutation_length in Hperm. lia.
Qed.
Lemma passes_spec m s l :
  placed s l ->
  let l' := fold_left (fun l i => sort_pass (length l) i l) (seq s m) l in placed (s + m) l' /\ l' ≡ₚ l.
Proof.
  revert s l. induction m as [|m IH]; intros s l Hp; cbn; [by rewrite Nat.add_0_r|].
  destruct (sort_pass_spec s l Hp) as [Hp' Hperm]. destruct (IH (S s) (sort_pass (length l) s l)) as [? Hq]; [done|].
  rewrite Nat.add_succ_r. split; [done|by rewrite Hq].
Qed.
Lemma sort_descending_spec l : placed (length l) (sort_descending l) /\ sort_descending l ≡ₚ l.
Proof. apply (passes_spec (length l) 0 l). intros a b Ha. lia. Qed.
(** With distinct entries every entry is larger than all the later ones. *)
Lemma sort_descending_strict l x l' :
  NoDup l -> forall pre, sort_descending l = pre ++ x :: l' -> Forall (fun y => y < x) l'.
Proof.
  intros Hnd pre Hs. destruct (sort_descending_spec l) as [Hp Hperm]. rewrite Hs in Hp, Hperm.
  assert (NoDup (pre ++ x :: l')) as Hnd' by by rewrite Hperm.
  apply NoDup_app in Hnd' as (_ & _ & Hnd'). apply NoDup_cons in Hnd' as [Hx _].
  apply Forall_lookup. intros k y Hk.
  assert (y <= x).
  { apply (Hp (length pre) (length pre + S k)%nat); [|lia|by rewrite lookup_app_r, Nat.sub_diag|].
    - rewrite <-Hperm, length_app. cbn. lia.
    - rewrite lookup_app_r by lia. by replace (length pre + S k - length pre)%nat with (S k) by lia. }
  assert (y <> x); [|lia]. intros ->. apply Hx. by eapply list_elem_of_lookup_2.
Qed.

(** * The removals *)

Lemma swap_remove_length {A} (l : list A) i x :
  l !! i = Some x -> length l = S (length (swap_remove i l)).
Proof. by intros Hp%swap_remove_perm%Permutation_length. Qed.
(** What lies below the removed position is not touched. *)
Lemma swap_remove_below {A} (l : list A) i j : (j < i < length l)%nat -> swap_remove i l !! j = l !! j.
Proof.
  intros Hj. unfold swap_remove. destruct l as [|x l _] using rev_ind; [cbn in Hj; lia|].
  rewrite last_snoc. rewrite length_app in Hj. cbn in Hj. destruct (decide (i < length l)%nat).
  - rewrite insert_app_l, removelast_last by done. rewrite list_lookup_insert_ne by lia.
    by rewrite lookup_app_l by lia.
  - rewrite insert_app_r_alt by lia. replace (i - length l)%nat with 0%nat by lia. cbn.
    rewrite removelast_last. by rewrite lookup_app_l by lia.
Qed.

(** The entries at some positions, and the entries left by a request. *)
Definition entries_at (bs : list Beneficiary) (js : list nat) : list Beneficiary := omap (fun j => bs !! j) js.
Definition survivors (indices : list Z) (bs : list Beneficiary) : list Beneficiary :=
  entries_at bs (filter (fun j => Z.of_nat j ∉ indices) (seq 0 (length bs))).

Lemma entries_at_all bs : entries_at bs (seq 0 (length bs)) = bs.
Proof.
  unfold entries_at. induction bs as [|b bs IH] using rev_ind; [done|].
  rewrite length_app, seq_app, omap_app. cbn. rewrite lookup_app_r, Nat.sub_diag by lia. cbn. f_equal.
  rewrite <-IH at 2. apply list_omap_ext, Forall2_same_length_lookup_2; [done|].
  intros k x y Hx Hy. rewrite Hx in Hy. injection Hy as <-. apply lookup_seq in Hx as [-> Hk].
  by rewrite lookup_app_l by lia.
Qed.

(** Removing descending positions [js] from [bs], an earlier stage of which was [all]. *)
Lemma removals_spec all js bs total n :
  (forall pre i js', js = pre ++ i :: js' -> Forall (fun j => j < i) js') ->
  Forall (fun i => 0 <= i < len bs) js ->
  (forall i, i ∈ js -> bs !! Z.to_nat i = all !! Z.to_nat i) ->
  exists bs' total', fold_left batch_remove_one js (bs, total, n) = (bs', total', n + len js) /\
    bs ≡ₚ entries_at all (map Z.to_nat js) ++ bs' /\
    (total = sum_bp bs -> Forall (fun b => 0 <= allocation_bp b) bs -> total' = sum_bp bs').
Proof.
  revert bs total n. induction js as [|i js IH]; intros bs total n Hsort Hin Hall.
  - exists bs, total. unfold len. rewrite Z.add_0_r. done.
  - apply Forall_cons in Hin as [Hi Hin]. pose proof (Hsort [] i js eq_refl) as Hlt. unfold len in Hi.
    destruct (lookup_lt_is_Some_2 bs (Z.to_nat i)) as [b Hb]; [lia|].
    pose proof (swap_remove_perm _ _ _ Hb) as Hp. pose proof (swap_remove_length _ _ _ Hb) as Hlen.
    destruct (IH (swap_remove (Z.to_nat i) bs) (saturating_sub total (allocation_bp b)) (n + 1))
      as (bs' & t' & Hf & Hperm & Ht).
    + intros pre j js' ->. by apply (Hsort (i :: pre)).
    + apply Forall_forall. intros j Hj. rewrite Forall_forall in Hin, Hlt. specialize (Hin j Hj).
      specialize (Hlt j Hj). cbn in *. unfold len. lia.
    + intros j Hj. rewrite Forall_forall in Hin, Hlt. specialize (Hin j Hj). specialize (Hlt j Hj). cbn in *.
      rewrite swap_remove_below by lia. apply Hall. by right.
    + exists bs', t'. cbn [fold_left batch_remove_one]. unfold vget. rewrite Hb, Hf. split_and!.
      * f_equal. unfold len. cbn. lia.
      * unfold entries_at in *. cbn. rewrite <-Hall, Hb by by left. cbn. by rewrite Hp, Hperm at 1.
      * intros -> Hbs. assert (sum_bp bs = allocation_bp b + sum_bp (swap_remove (Z.to_nat i) bs)) as Hs.
        { unfold sum_bp. clear -Hp. revert Hp. generalize (swap_remove (Z.to_nat i) bs). intros l Hp.
          change (allocation_bp b + foldr (fun b acc => allocation_bp b + acc) 0 l)
            with (foldr (fun b acc => allocation_bp b + acc) 0 (b :: l)).
          induction Hp; cbn in *; lia. }
        rewrite Hp, Forall_cons in Hbs. destruct Hbs as [_ Hbs].
        apply Ht; [|done]. rewrite Hs. assert (0 <= sum_bp (swap_remove (Z.to_nat i) bs)); [|ulia].
        clear -Hbs. unfold sum_bp. induction Hbs; cbn; lia.
Qed.

(** Removing the sorted distinct positions leaves the survivors. *)
Lemma batch_remove_fold indices bs total :
  Forall (fun i => 0 <= i) indices ->
  let js := sort_descending (valid_indices (len bs) indices) in
  exists bs' total', fold_left batch_remove_one js (bs, total, 0) = (bs', total', len bs - len bs') /\
    len js = len bs - len bs' /\ len js <= len indices /\ bs' ≡ₚ survivors indices bs /\
    (total = sum_bp bs -> Forall (fun b => 0 <= allocation_bp b) bs -> total' = sum_bp bs').
Proof.
  intros Hpos js. destruct (valid_indices_spec (len bs) indices) as [Hnd Hin].
  destruct (sort_descending_spec (valid_indices (len bs) indices)) as [_ Hperm]. fold js in Hperm.
  assert (forall i, i ∈ js <-> i ∈ indices /\ i < len bs) as Hjs by (intros i; by rewrite Hperm, Hin).
  rewrite Forall_forall in Hpos.
  destruct (removals_spec bs js bs total 0) as (bs' & t & Hf & Hsplit & Ht).
  { intros pre i js'. by apply sort_descending_strict. }
  { apply Forall_forall. intros i [Hi ?]%Hjs. split; [by apply Hpos|done]. }
  { done. }
  assert (map Z.to_nat js ≡ₚ filter (fun j => Z.of_nat j ∈ indices) (seq 0 (length bs))) as Hsame.
  { apply NoDup_Permutation.
    - apply NoDup_fmap_2_strong; [|by rewrite Hperm]. intros i j [Hi _]%Hjs [Hj _]%Hjs He.
      apply Hpos in Hi, Hj. cbn in *. lia.
    - apply NoDup_filter, NoDup_seq.
    - intros k. rewrite list_elem_of_filter, elem_of_seq, list_elem_of_fmap. unfold len in *. split.
      + intros (i & -> & Hi). pose proof Hi as [Hi' Hl]%Hjs. pose proof (Hpos i Hi') as Hp. cbn in Hp.
        rewrite Z2Nat.id by done. split; [done|lia].
      + intros [Hk ?]. exists (Z.of_nat k). split; [by rewrite Nat2Z.id|]. apply Hjs. split; [done|lia]. }
  assert (bs' ≡ₚ survivors indices bs) as Hs.
  { eapply (app_Permutation_inj_r (entries_at bs (map Z.to_nat js))). rewrite <-Hsplit.
    unfold survivors. rewrite <-(entries_at_all bs) at 1. unfold entries_at. rewrite <-omap_app, Hsame.
    apply omap_Permutation. symmetry. apply filter_app_complement. }
  assert (len js = len bs - len bs') as Hlen.
  { apply Permutation_length in Hsplit. rewrite length_app in Hsplit.
    assert (length (entries_at bs (map Z.to_nat js)) = length js) as Hk; [|unfold len; lia].
    unfold entries_at. assert (Forall (fun i => 0 <= i < len bs) js) as Hr.
    { apply Forall_forall. intros i [Hi ?]%Hjs. split; [by apply Hpos|done]. }
    clear -Hr. unfold len in Hr. induction Hr as [|i js Hi _ IH]; [done|]. cbn.
    destruct (lookup_lt_is_Some_2 bs (Z.to_nat i)) as [b ->]; [lia|]. cbn. by rewrite IH. }
  exists bs', t. rewrite Hf, Hlen. split_and!; [done|lia| |done|done].
  rewrite <-Hlen. unfold len. rewrite Hperm. apply inj_le, submseteq_length, NoDup_submseteq; [done|].
  intros i Hi. by apply Hin in Hi as [? _].
Qed.

(** The entry that takes the place of the one removed at [i]. *)
Definition relocated (i : Z) (bs : list Beneficiary) : option Beneficiary :=
  if i + 1 <? len bs then last bs else None.
Lemma swap_remove_relocated i b bs :
  0 <= i -> vget bs i = Some b -> forall x, relocated i bs = Some x -> vget (swap_remove (Z.to_nat i) bs) i = Some x.
Proof.
  unfold relocated, vget, len, swap_remove. intros Hi Hb x. destruct (Z.ltb_spec (i + 1) (Z.of_nat (length bs))) as [Hl|]; [|done].
  intros Hx. rewrite Hx. destruct bs as [|y bs _] using rev_ind; [done|]. rewrite last_snoc in Hx. injection Hx as ->.
  rewrite length_app in Hl. cbn in Hl. rewrite insert_app_l, removelast_last by lia.
  apply list_lookup_insert_eq. lia.
Qed.

Section properties.
Context {T L : Type} `{TokenOps T} `{HostFns}.
Implicit Types (w : world T L).

(** C23: Batched removal, which makes the positions distinct, sorts them by exchanges and
    removes them from the highest down by swapping the last entry in, is filtering the
    requested positions out, up to order; the total stays the sum of the shares and the
    two counters add up to the number of requests. *)
Theorem batch_remove_survivors env owner id indices r w w' :
  Forall u32 indices -> batch_remove_beneficiaries env owner id indices w = Ok r w' ->
  exists plan bs total, owner ∈ auths env /\ P (plans w) !! id = Some plan /\
    InheritanceTypes.owner plan = owner /\
    P (plans w') = <[id := plan <| beneficiaries := bs |> <| total_allocation_bp := total |>]> (P (plans w)) /\
    bs ≡ₚ survivors indices (beneficiaries plan) /\
    r = (len (beneficiaries plan) - len bs, len indices - (len (beneficiaries plan) - len bs)) /\
    (total_allocation_bp plan = sum_bp (beneficiaries plan) ->
     Forall (fun b => 0 <= allocation_bp b) (beneficiaries plan) -> total = sum_bp bs).
Proof.
  intros Hu Hr. unfold batch_remove_beneficiaries in Hr. do 4 run_bind Hr.
  match goal with Hp : require_plan _ _ = Ok ?p _ |- _ => rename p into plan end.
  destruct (batch_remove_fold indices (beneficiaries plan) (total_allocation_bp plan))
    as (bs & total & Hf & Hlen & Hle & Hs & Ht); [eapply Forall_impl; [exact Hu|by intros ? [? _]]|].
  cbn in Hf. rewrite Hf in Hr. run_inv. bool_hyps. eexists plan, bs, total. split_and!; try done.
  f_equal. rewrite Hlen in *. unfold saturating_sub. lia.
Qed.

(** Removing a beneficiary takes exactly its entry and share out and moves the last entry
    into its place, but the stored salts stay where they were: the moved beneficiary's
    claim code is then checked against the removed one's salt. *)
Theorem removal_relocates env owner id i w w' :
  u32 i -> remove_beneficiary env owner id i w = Ok tt w' ->
  exists plan b bs, owner ∈ auths env /\ P (plans w) !! id = Some plan /\ InheritanceTypes.owner plan = owner /\
    vget (beneficiaries plan) i = Some b /\
    P (plans w') = <[id := plan <| beneficiaries := bs |>
      <| total_allocation_bp := total_allocation_bp plan - allocation_bp b |>]> (P (plans w)) /\
    beneficiaries plan ≡ₚ b :: bs /\
    forall x code email, relocated i (beneficiaries plan) = Some x ->
      vget bs i = Some x /\
      (matches w' id code email i x <-> hashed_email x = email /\ code <= 999999 /\
         hashed_claim_code x = sha256 (salt_of (claims w) id i ++ code_digits code)).
Proof.
  intros [Hi _] Hr. unfold remove_beneficiary in Hr. run_inv. bool_hyps.
  match goal with Hc : checked _ _ = Some _ |- _ => apply checked_Some in Hc as [-> _] end.
  match goal with Hb : _ = Some ?b |- context [allocation_bp ?b] => rename Hb into Hb; rename b into gone end.
  eexists _, gone, _. do 5 (split; [done|]). split; [by apply swap_remove_perm|].
  intros y code email Hy. split; [by eapply swap_remove_relocated|done].
Qed.

End properties.

(** * Concrete runs *)

Import InheritanceExample.

(** Positions 0 and 7 are requested, 0 twice: Bob goes, Carol stays. *)
Definition requested : list Z := [0; 7; 0].
Lemma batch_remove_survivors_witness :
  exists bs, survivors requested (beneficiaries (default (mkPlan [] [] 1 "" 0 LumpSum [] 0 1 0 false false 0 false 0 false)
      (P (plans funded) !! 1))) ≡ₚ bs /\ len bs = 1 /\
    (invoke (batch_remove_beneficiaries (env_at 50 [alice]) alice 1 requested) funded).1 = Returned (1, 2).
Proof.
  destruct (batch_remove_beneficiaries (env_at 50 [alice]) alice 1 requested funded) as [r w'|e w'|] eqn:Hr;
    [|by vm_compute in Hr..].
  destruct (batch_remove_survivors (env_at 50 [alice]) alice 1 requested r funded w')
    as (plan & bs & total & _ & Hp & _ & _ & Hs & Hres & _); [by repeat constructor|done|].
  exists bs. rewrite Hp. cbn [default from_option]. split; [by rewrite Hs|].
  assert (r = (1, 2)) as Heq by (vm_compute in Hr; by injection Hr as <- _).
  rewrite Heq in *. vm_compute in Hp. injection Hp as <-. cbn in Hres. unfold len in *. cbn in Hres.
  injection Hres as Hlen _. split; [lia|by vm_compute].
Defined.

(** Once Bob is removed, Carol's own claim code no longer opens her share. *)
Lemma removal_relocates_witness :
  exists w', remove_beneficiary (env_at 50 [alice]) alice 1 0 funded = Ok tt w' /\
    (invoke (claim_inheritance_plan (env_at 100 [carol]) 1 carol [99] 222222) funded).1 = Returned tt /\
    (invoke (claim_inheritance_plan (env_at 100 [carol]) 1 carol [99] 222222) w').1 = Errored BeneficiaryNotFound.
Proof.
  destruct (remove_beneficiary (env_at 50 [alice]) alice 1 0 funded) as [[] w'|e w'|] eqn:Hr; [|by vm_compute in Hr..].
  destruct (removal_relocates (env_at 50 [alice]) alice 1 0 funded w') as (plan & b & bs & _); [by split|exact Hr|].
  exists w'. split; [done|]. vm_compute in Hr. injection Hr as <-. split; by vm_compute.
Defined.

End InheritanceBatch.
