(* ===== verification/InheritanceWills.v ===== *)
(** Wills of the inheritance contract ([contracts/inheritance-contract/src/lib.rs]):
    document hashes, versions, signatures, witnesses and finalisation. *)
From S2P Require Import Prelude Host AccessControl Token PlanVault InheritanceTypes.
From S2P Require Import InheritanceCore InheritanceEmergency.
Import InheritanceTypes InheritanceCore InheritanceEmergency.

Module InheritanceWills.

Section wills.
Context {T L : Type} `{TokenOps T} `{HostFns}.
Abbreviation W := (world T L).
Abbreviation X A := (M W InheritanceError A).
Implicit Types (env : Env) (w : W).

(** * Document hashes *)

Definition store_will_hash env (owner : address) (plan_id : Z) (will_hash : hash) : X unit :=
  let! _plan := owned_plan env owner plan_id in
  let! stored := load (fun s => Wh s !! plan_id) in
  do! reject_if (bool_decide (is_Some stored)) WillHashAlreadyStored;
  do! save (fun s => s <| Wh := <[plan_id := will_hash]> (Wh s) |>);
  emit (WillHashStoredEvent plan_id will_hash).
Definition get_will_hash (plan_id : Z) : X (option hash) := load (fun s => Wh s !! plan_id).

Definition link_will_to_vault env (owner : address) (plan_id : Z) (will_hash : hash) : X unit :=
  do! require_auth env owner;
  let! p := get_plan plan_id in
  let! plan := ok_or p VaultNotFound in
  do! reject_if (negb (bool_decide (InheritanceTypes.owner plan = owner))) Unauthorized;
  let! linked := load (fun s => Vw s !! plan_id) in
  do! reject_if (bool_decide (is_Some linked)) WillAlreadyLinked;
  do! save (fun s => s <| Vw := <[plan_id := will_hash]> (Vw s) |>);
  emit (WillLinkedToVaultEvent plan_id will_hash).
Definition get_vault_will (plan_id : Z) : X (option hash) := load (fun s => Vw s !! plan_id).

(** Every entry of the will has a beneficiary with its email hash and share, and
    there are as many. *)
Definition beneficiaries_match (will : list (hash * Z)) (bs : list Beneficiary) : bool :=
  (len will =? len bs) &&
  forallb (fun e => existsb (fun b => bool_decide (hashed_email b = e.1) && (allocation_bp b =? e.2)) bs)
    will.
Definition verify_beneficiaries (plan_id : Z) (will : list (hash * Z)) : X bool :=
  let! plan := require_plan plan_id in
  let status := beneficiaries_match will (beneficiaries plan) in
  do! save (fun s => s <| Bv := <[plan_id := status]> (Bv s) |>);
  do! emit (BeneficiariesVerifiedEvent plan_id status);
  ret status.
Definition get_verification_status (plan_id : Z) : X (option bool) := load (fun s => Bv s !! plan_id).

(** * Versions *)

Definition version_count (s : will_store) (plan_id : Z) : Z := default 0 (Wvc s !! plan_id).
Definition finalized (s : will_store) (plan_id version : Z) : bool :=
  default false (Wf s !! (plan_id, version)).

(** The active version is finalised. *)
Definition active_finalized (s : will_store) (plan_id : Z) : bool :=
  match Awv s !! plan_id with
  | Some v => finalized s plan_id v
  | None => false
  end.

(** Clear the flag of the active version, when there is one. *)
Definition deactivate_active (plan_id : Z) : X unit :=
  let! active := load (fun s => Awv s !! plan_id) in
  match active with
  | Some v =>
    let! prev := load (fun s => Wv s !! (plan_id, v)) in
    match prev with
    | Some prev_ver =>
      save (fun s => s <| Wv := <[(plan_id, v) := prev_ver <| wv_is_active := false |>]> (Wv s) |>)
    | None => ret tt
    end
  | None => ret tt
  end.

Definition create_will_version env (owner : address) (plan_id : Z) (will_hash : hash) : X Z :=
  let! _plan := owned_plan env owner plan_id in
  let! fin := load (fun s => active_finalized s plan_id) in
  do! reject_if fin WillAlreadyFinalized;
  let! current_count := load (fun s => version_count s plan_id) in
  let! new_version := add32 current_count 1 in
  do! save (fun s => s <| Wvc := <[plan_id := new_version]> (Wvc s) |>);
  do! deactivate_active plan_id;
  do! save (fun s => s <| Wv := <[(plan_id, new_version) :=
                                   mkWillVersion new_version will_hash (timestamp env) true]> (Wv s) |>);
  do! save (fun s => s <| Awv := <[plan_id := new_version]> (Awv s) |>);
  do! save (fun s => s <| Vw := <[plan_id := will_hash]> (Vw s) |>);
  do! emit (WillVersionCreatedEvent plan_id new_version);
  do! emit (WillVersionActivatedEvent plan_id new_version);
  ret new_version.

Definition get_will_version (plan_id version : Z) : X (option WillVersionInfo) :=
  load (fun s => Wv s !! (plan_id, version)).
Definition get_active_will_version (plan_id : Z) : X (option WillVersionInfo) :=
  let! active := load (fun s => Awv s !! plan_id) in
  match active with
  | Some v => load (fun s => Wv s !! (plan_id, v))
  | None => ret None
  end.
Definition get_will_version_count (plan_id : Z) : X Z := load (fun s => version_count s plan_id).

(** * Signatures and witnesses *)

Definition signature_used (s : will_store) (h : hash) : bool := default false (Su s !! h).

Definition sign_will env (owner : address) (vault_id : Z) (will_hash : hash) (signature : bytes)
    (expires_at : Z) : X unit :=
  let! _plan := owned_plan env owner vault_id in
  do! reject_if (expires_at <? timestamp env) Unauthorized;
  let sig_hash := sha256 signature in
  let! used := load (fun s => signature_used s sig_hash) in
  do! reject_if used WillAlreadyFinalized;
  do! save (fun s => s <| Su := <[sig_hash := true]> (Su s) |>);
  do! save (fun s => s <| Ws := <[vault_id := mkProof vault_id will_hash owner sig_hash (timestamp env)]>
                                  (Ws s) |>);
  emit (WillSignedEvent vault_id owner).
Definition get_will_signature (vault_id : Z) : X (option WillSignatureProof) :=
  load (fun s => Ws s !! vault_id).

Definition witnesses_of (s : will_store) (vault_id : Z) : list address := default [] (Ww s !! vault_id).

Definition add_witness env (owner : address) (vault_id : Z) (witness : address) : X unit :=
  let! _plan := owned_plan env owner vault_id in
  let! witnesses := load (fun s => witnesses_of s vault_id) in
  do! reject_if (bool_decide (witness ∈ witnesses)) EmergencyContactAlreadyExists;
  do! save (fun s => s <| Ww := <[vault_id := witnesses ++ [witness]]> (Ww s) |>);
  emit (WitnessAddedEvent vault_id witness).

Definition sign_as_witness env (witness : address) (vault_id : Z) (signature : bytes)
    (expires_at : Z) : X unit :=
  do! require_auth env witness;
  let! _plan := require_plan vault_id in
  let! witnesses := load (fun s => witnesses_of s vault_id) in
  do! reject_if (negb (bool_decide (witness ∈ witnesses))) EmergencyContactNotFound;
  do! reject_if (expires_at <? timestamp env) Unauthorized;
  let sig_hash := sha256 signature in
  let! used := load (fun s => signature_used s sig_hash) in
  do! reject_if used AlreadyApproved;
  let! signed := load (fun s => Wsig s !! (vault_id, witness)) in
  do! reject_if (bool_decide (is_Some signed)) AlreadyApproved;
  do! save (fun s => s <| Su := <[sig_hash := true]> (Su s) |>);
  do! save (fun s => s <| Wsig := <[(vault_id, witness) := timestamp env]> (Wsig s) |>);
  emit (WitnessSignedEvent vault_id witness).

Definition get_witnesses (vault_id : Z) : X (list address) := load (fun s => witnesses_of s vault_id).
Definition get_witness_signature (vault_id : Z) (witness : address) : X (option Z) :=
  load (fun s => Wsig s !! (vault_id, witness)).

(** * Finalisation *)

(** The loop over the witnesses. *)
Definition all_witnessed (s : will_store) (vault_id : Z) : bool :=
  forallb (fun x => bool_decide (is_Some (Wsig s !! (vault_id, x)))) (witnesses_of s vault_id).

Definition clear_final (vault_id version : Z) : X unit :=
  save (fun s => s <| Wf := delete (vault_id, version) (Wf s) |>).

Definition finalize_will env (owner : address) (vault_id version : Z) : X unit :=
  let! _plan := owned_plan env owner vault_id in
  let! v := load (fun s => Wv s !! (vault_id, version)) in
  let! _info := ok_or v WillVersionNotFound in
  let! fin := load (fun s => finalized s vault_id version) in
  do! reject_if fin WillAlreadyFinalized;
  do! save (fun s => s <| Wf := <[(vault_id, version) := true]> (Wf s) |>);
  let! proof := load (fun s => Ws s !! vault_id) in
  do! when (bool_decide (proof = None)) (do! clear_final vault_id version; fail WillVersionNotFound);
  let! ok := load (fun s => all_witnessed s vault_id) in
  do! when (negb ok) (do! clear_final vault_id version; fail MissingRequiredField);
  do! save (fun s => s <| Wfa := <[(vault_id, version) := timestamp env]> (Wfa s) |>);
  emit (WillFinalizedEvent vault_id version (timestamp env)).

Definition is_will_finalized (vault_id version : Z) : X bool :=
  load (fun s => finalized s vault_id version).
Definition get_will_finalized_at (vault_id version : Z) : X (option Z) :=
  load (fun s => Wfa s !! (vault_id, version)).

(** * Calls *)

Inductive will_call :=
  | StoreWill (owner : address) (plan_id : Z) (h : hash)
  | LinkWill (owner : address) (plan_id : Z) (h : hash)
  | VerifyBeneficiaries (plan_id : Z) (will : list (hash * Z))
  | CreateVersion (owner : address) (plan_id : Z) (h : hash)
  | SignWill (owner : address) (vault : Z) (h : hash) (signature : bytes) (expires : Z)
  | AddWitness (owner : address) (vault : Z) (witness : address)
  | SignWitness (witness : address) (vault : Z) (signature : bytes) (expires : Z)
  | FinalizeWill (owner : address) (vault version : Z).
Definition run_will env (c : will_call) : X unit :=
  match c with
  | StoreWill o id h => store_will_hash env o id h
  | LinkWill o id h => link_will_to_vault env o id h
  | VerifyBeneficiaries id l => discard (verify_beneficiaries id l)
  | CreateVersion o id h => discard (create_will_version env o id h)
  | SignWill o v h s e => sign_will env o v h s e
  | AddWitness o v x => add_witness env o v x
  | SignWitness x v s e => sign_as_witness env x v s e
  | FinalizeWill o v n => finalize_will env o v n
  end.
End wills.

End InheritanceWills.
