(* ===== verification/InheritanceMessages.v ===== *)
(** Legacy messages and message keys of the inheritance contract
    ([contracts/inheritance-contract/src/lib.rs]). *)
From S2P Require Import Prelude Host AccessControl Token PlanVault InheritanceTypes.
From S2P Require Import InheritanceCore InheritanceEmergency InheritanceTriggers.
Import InheritanceTypes InheritanceCore InheritanceEmergency InheritanceTriggers.

Module InheritanceMessages.

Section messages.
Context {T L : Type} `{TokenOps T} `{HostFns}.
Abbreviation W := (world T L).
Abbreviation X A := (M W InheritanceError A).
Implicit Types (env : Env) (w : W).

(** * Keys *)

Definition current_key_version (s : message_store) (vault : Z) : Z := default 0 (vk_cur s !! vault).

Definition rotate_vault_message_key env (owner : address) (vault : Z) (new_key : bytes) : X Z :=
  let! _plan := owned_plan env owner vault in
  do! reject_if (len new_key =? 0) MissingRequiredField;
  let! current := load (fun s => default 0 (vk_ver s !! vault)) in
  let next := saturating_add32 current 1 in
  do! save (fun s => s <| vk_ref := <[(vault, next) := new_key]> (vk_ref s) |>);
  do! save (fun s => s <| vk_ver := <[vault := next]> (vk_ver s) |>);
  do! save (fun s => s <| vk_cur := <[vault := next]> (vk_cur s) |>);
  do! emit (KeyRotatedEvent vault next);
  ret next.
Definition get_vault_message_key (vault : Z) : X (option bytes) :=
  load (fun s => vk_ref s !! (vault, current_key_version s vault)).
Definition get_vault_message_key_version (vault : Z) : X Z :=
  load (fun s => current_key_version s vault).

(** * Messages *)

Definition next_message_id (s : message_store) : Z := default 0 (Nmi s).
Definition vault_messages (s : message_store) (vault : Z) : list Z := default [] (Vm s !! vault).
Definition set_message (m : LegacyMessageMetadata) : X unit :=
  save (fun s => s <| Lm := <[message_id m := m]> (Lm s) |>).

(** Number a new message, store it and list it under its vault. *)
Definition append_message env (creator : address) (params : CreateLegacyMessageParams)
    (key_ref : bytes) : X Z :=
  let vault := mp_vault_id params in
  let! id := load next_message_id in
  do! set_message (mkMessage vault id (mp_message_hash params) creator key_ref
                     (mp_unlock_timestamp params) false false (timestamp env));
  let! listed := load (fun s => vault_messages s vault) in
  do! save (fun s => s <| Vm := <[vault := listed ++ [id]]> (Vm s) |>);
  let! next := add64 id 1 in
  do! save (fun s => s <| Nmi := Some next |>);
  do! emit (MessageCreatedEvent vault id (timestamp env));
  ret id.

(** An empty key reference means the vault's current key. *)
Definition resolve_key (params : CreateLegacyMessageParams) : X bytes :=
  if len (mp_key_reference params) =? 0
  then load (fun s => default []
         (vk_ref s !! (mp_vault_id params, current_key_version s (mp_vault_id params))))
  else ret (mp_key_reference params).

(** The creator's signature is not asked for. *)
Definition create_legacy_message env (creator : address) (params : CreateLegacyMessageParams) : X Z :=
  let! plan := require_plan (mp_vault_id params) in
  do! reject_if (negb (bool_decide (owner plan = creator))) Unauthorized;
  do! reject_if (mp_unlock_timestamp params <=? timestamp env) InvalidClaimCode;
  let! key_ref := resolve_key params in
  append_message env creator params key_ref.

Definition require_message (id : Z) : X LegacyMessageMetadata :=
  let! m := load (fun s => Lm s !! id) in ok_or m PlanNotFound.

(** A message its signing creator may still change. *)
Definition open_message env (who : address) (id : Z) : X LegacyMessageMetadata :=
  do! require_auth env who;
  let! m := require_message id in
  do! reject_if (negb (bool_decide (creator m = who))) Unauthorized;
  do! reject_if (is_finalized m) WillAlreadyFinalized;
  ret m.

Definition update_legacy_message env (who : address) (id : Z) (params : CreateLegacyMessageParams)
  : X unit :=
  let! m := open_message env who id in
  do! reject_if (is_unlocked m) AlreadyClaimed;
  do! save (fun s => s <| Lm := <[id := m <| message_hash := mp_message_hash params |>
                                          <| unlock_timestamp := mp_unlock_timestamp params |>
                                          <| key_reference := mp_key_reference params |>]> (Lm s) |>);
  emit (MessageUpdatedEvent (vault_id m) id (timestamp env)).

Definition finalize_legacy_message env (who : address) (id : Z) : X unit :=
  let! m := open_message env who id in
  do! save (fun s => s <| Lm := <[id := m <| is_finalized := true |>]> (Lm s) |>);
  emit (MessageFinalizedEvent (vault_id m) id (timestamp env)).

Definition delete_legacy_message env (who : address) (id : Z) : X unit :=
  let! m := open_message env who id in
  do! save (fun s => s <| Lm := delete id (Lm s) |>);
  let! listed := load (fun s => vault_messages s (vault_id m)) in
  do! save (fun s => s <| Vm := <[vault_id m := filter (fun i => i <> id) listed]> (Vm s) |>);
  emit (MessageDeletedEvent (vault_id m) id (timestamp env)).

Definition get_legacy_message (id : Z) : X (option LegacyMessageMetadata) := load (fun s => Lm s !! id).
Definition get_vault_messages (vault : Z) : X (list Z) := load (fun s => vault_messages s vault).

(** * Unlocking *)

(** [It(vault)] holds a trigger with a positive time. *)
Definition inheritance_triggered (s : trigger_store) (vault : Z) : bool :=
  match It s !! vault with Some info => 0 <? triggered_at info | None => false end.

Definition mark_unlocked env (id : Z) (m : LegacyMessageMetadata) (vault : Z) : X unit :=
  do! save (fun s => s <| Lm := <[id := m <| is_unlocked := true |>]> (Lm s) |>);
  emit (MessageUnlockedEvent vault id (timestamp env)).

(** The caller is identified by the hash of its address only; its signature is
    not asked for. *)
Definition access_legacy_message env (caller : address) (id : Z) : X LegacyMessageMetadata :=
  let! m := require_message id in
  let! m' :=
    if is_unlocked m then ret m
    else if unlock_timestamp m <=? timestamp env then
      do! mark_unlocked env id m (vault_id m); ret (m <| is_unlocked := true |>)
    else
      let! triggered := load (fun s => inheritance_triggered s (vault_id m)) in
      if triggered : bool then do! mark_unlocked env id m (vault_id m); ret (m <| is_unlocked := true |>)
      else fail ClaimNotAllowedYet in
  let! plan := require_plan (vault_id m') in
  let! caller_bytes := unwrap (address_bytes caller) in
  let caller_hash := sha256 caller_bytes in
  do! reject_if (negb (existsb (fun b => bool_decide (hashed_email b = caller_hash)) (beneficiaries plan)))
        Unauthorized;
  do! emit (MessageAccessedEvent (vault_id m') id (timestamp env));
  ret m'.

(** One message of the sweep; a missing one is skipped. *)
Definition unlock_one env (vault id : Z) : X unit :=
  let! stored := load (fun s => Lm s !! id) in
  match stored with
  | Some m => when (negb (is_unlocked m)) (mark_unlocked env id m vault)
  | None => ret tt
  end.
Definition unlock_messages_on_inheritance env (vault : Z) : X unit :=
  let! info := get_trigger_info vault in
  let! trigger_info := ok_or info InheritanceNotTriggered in
  do! reject_if (triggered_at trigger_info =? 0) InheritanceNotTriggered;
  let! ids := get_vault_messages vault in
  iterM (unlock_one env vault) ids.

(** * Batched creation *)

(** One message of [batch_create_messages]: [(ids, failures, first vault)]. *)
Definition batch_message env (creator : address) (acc : list Z * Z * Z)
    (params : CreateLegacyMessageParams) : X (list Z * Z * Z) :=
  let '(ids, failures, vault) := acc in
  let! p := get_plan (mp_vault_id params) in
  match p with
  | None => ret (ids, failures + 1, vault)
  | Some plan =>
    if negb (bool_decide (owner plan = creator)) then ret (ids, failures + 1, vault)
    else if mp_unlock_timestamp params <=? timestamp env then ret (ids, failures + 1, vault)
    else
      let! id := append_message env creator params (mp_key_reference params) in
      ret (ids ++ [id], failures, if vault =? 0 then mp_vault_id params else vault)
  end.
Definition batch_create_messages env (creator : address) (params_list : list CreateLegacyMessageParams)
  : X (list Z * Z) :=
  do! require_auth env creator;
  do! reject_if (BATCH_MESSAGE_LIMIT <? len params_list) TooManyBeneficiaries;
  let! r := foldM (batch_message env creator) params_list ([], 0, 0) in
  let '(ids, failures, vault) := r in
  do! emit (BatchMessagesCreatedEvent vault (len ids) failures);
  ret (ids, failures).

(** * Calls *)

Inductive message_call :=
  | RotateKey (owner : address) (vault : Z) (key : bytes)
  | CreateMessage (creator : address) (params : CreateLegacyMessageParams)
  | UpdateMessage (creator : address) (id : Z) (params : CreateLegacyMessageParams)
  | FinalizeMessage (creator : address) (id : Z)
  | DeleteMessage (owner : address) (id : Z)
  | AccessMessage (caller : address) (id : Z)
  | UnlockMessages (vault : Z)
  | BatchMessages (creator : address) (params_list : list CreateLegacyMessageParams).
Definition run_message env (c : message_call) : X unit :=
  match c with
  | RotateKey o v k => discard (rotate_vault_message_key env o v k)
  | CreateMessage a p => discard (create_legacy_message env a p)
  | UpdateMessage a id p => update_legacy_message env a id p
  | FinalizeMessage a id => finalize_legacy_message env a id
  | DeleteMessage a id => delete_legacy_message env a id
  | AccessMessage a id => discard (access_legacy_message env a id)
  | UnlockMessages v => unlock_messages_on_inheritance env v
  | BatchMessages a ps => discard (batch_create_messages env a ps)
  end.
End messages.

End InheritanceMessages.
