(* ===== verification/InheritanceDisputes.v ===== *)
(** Disputes, plan freezes, and beneficiary notices of the inheritance contract
    ([contracts/inheritance-contract/src/lib.rs], [src/disputes.rs]). *)
From S2P Require Import Prelude Host AccessControl Token PlanVault InheritanceTypes.
From S2P Require Import InheritanceCore InheritanceEmergency.
Import InheritanceTypes InheritanceCore InheritanceEmergency.

Module InheritanceDisputes.

(** [String::from_str]: the bytes of the fixed texts. *)
Definition dispute_raised_text : bytes :=
  [100; 105; 115; 112; 117; 116; 101; 32; 114; 97; 105; 115; 101; 100].
Definition resolved_text : bytes := [114; 101; 115; 111; 108; 118; 101; 100].
Definition rejected_text : bytes := [114; 101; 106; 101; 99; 116; 101; 100].

(** A dispute that can still be decided. *)
Definition is_open (s : DisputeStatus) : bool :=
  match s with Filed | UnderReview => true | Resolved | Rejected => false end.
Definition is_final (s : DisputeStatus) : bool := negb (is_open s).

Section disputes.
Context {T L : Type}.
Abbreviation W := (world T L).
Abbreviation X A := (M W InheritanceError A).
Implicit Types (env : Env) (w : W).

(** * Arbitrators *)

Definition arbitrators (s : dispute_store) : list address := default [] (Arb s).
Definition is_arbitrator (who : address) : X bool :=
  load (fun s => bool_decide (who ∈ arbitrators s)).

Definition add_arbitrator env (admin arbitrator : address) : X unit :=
  do! require_admin env admin;
  let! list := load arbitrators in
  when (negb (bool_decide (arbitrator ∈ list)))
    (save (fun s => s <| Arb := Some (list ++ [arbitrator]) |>)).
Definition remove_arbitrator env (admin arbitrator : address) : X unit :=
  do! require_admin env admin;
  let! list := load arbitrators in
  save (fun s => s <| Arb := Some (filter (fun a => a <> arbitrator) list) |>).
Definition get_arbitrators : X (list address) := load arbitrators.

(** The first arbitrator, or the administrator when there is none. *)
Definition chief_arbitrator : X address :=
  let! a := get_admin in
  let! admin := ok_or a AdminNotSet in
  let! list := load arbitrators in
  ret (match list with [] => admin | first :: _ => first end).

(** * Filing *)

Definition next_dispute_id (s : dispute_store) : Z := default 0 (Ndi s).
Definition plan_disputes (s : dispute_store) (plan_id : Z) : list Z := default [] (Pd s !! plan_id).

(** Number a new dispute, store it and list it under its plan. *)
Definition record_dispute env (who : address) (plan_id : Z) (reason : bytes) : X Z :=
  let! id := load next_dispute_id in
  let! arb := chief_arbitrator in
  do! save (fun s => s <| Ds := <[id := mkDispute id plan_id who reason Filed (timestamp env) 0 [] arb]>
                                  (Ds s) |>);
  let! listed := load (fun s => plan_disputes s plan_id) in
  do! save (fun s => s <| Pd := <[plan_id := listed ++ [id]]> (Pd s) |>);
  let! next := add64 id 1 in
  do! save (fun s => s <| Ndi := Some next |>);
  ret id.

Definition file_dispute env (disputer : address) (plan_id : Z) (reason : bytes) : X Z :=
  do! require_auth env disputer;
  do! check_not_paused;
  let! _plan := require_plan plan_id in
  let! id := record_dispute env disputer plan_id reason in
  do! emit (DisputeFiledEvent id plan_id disputer reason (timestamp env));
  ret id.

Definition freeze env (plan_id : Z) (by_ : address) : X unit :=
  save (fun s => s <| Fz := <[plan_id := mkFreeze plan_id (timestamp env) "dispute"%string by_]> (Fz s) |>).

Definition raise_dispute env (plan_id : Z) (challenger : address) (_proof_hash : hash) : X Z :=
  do! require_auth env challenger;
  do! check_not_paused;
  let! _plan := require_plan plan_id in
  let! id := record_dispute env challenger plan_id dispute_raised_text in
  do! freeze env plan_id challenger;
  do! emit (DisputeRaisedEvent id plan_id challenger (timestamp env));
  do! emit (DisputeFrozenEvent plan_id id (timestamp env));
  ret id.

Definition get_dispute (id : Z) : X (option DisputeRecord) := load (fun s => Ds s !! id).
Definition get_plan_disputes (plan_id : Z) : X (list Z) := load (fun s => plan_disputes s plan_id).

(** * Deciding *)

(** The record after a review at [now]. *)
Definition reviewed (r : DisputeRecord) (new_status : DisputeStatus) (notes : bytes) (now : Z)
  : DisputeRecord :=
  let r := r <| status := new_status |> <| resolution_notes := notes |> in
  if is_final new_status then r <| resolved_at := now |> else r.

Definition review_dispute env (arb : address) (id : Z) (new_status : DisputeStatus)
    (notes : bytes) (freeze_plan : bool) : X unit :=
  do! require_auth env arb;
  do! check_not_paused;
  let! stored := get_dispute id in
  let! record := ok_or stored PlanNotFound in
  let! b := is_arbitrator arb in
  do! reject_if (negb b) Unauthorized;
  do! reject_if (is_final (status record)) AlreadyApproved;
  let record := reviewed record new_status notes (timestamp env) in
  do! save (fun s => s <| Ds := <[id := record]> (Ds s) |>);
  do! when freeze_plan
    (do! freeze env (ds_plan_id record) arb;
     emit (PlanFrozenEvent (ds_plan_id record) arb (timestamp env) "dispute"));
  when (is_final (status record))
    (emit (DisputeResolvedEvent id (ds_plan_id record) (status record) arb (resolved_at record))).

Definition unfreeze_plan env (admin : address) (plan_id : Z) : X unit :=
  do! require_admin env admin;
  do! save (fun s => s <| Fz := delete plan_id (Fz s) |>);
  emit (PlanUnfrozenEvent plan_id admin (timestamp env)).

(** One dispute of the sweep of [resolve_dispute]. *)
Definition resolve_one env (plan_id : Z) (approve : bool) (arb : address) (id : Z) : X unit :=
  let new_status := if approve then Resolved else Rejected in
  let! stored := get_dispute id in
  match stored with
  | Some record =>
    when (is_open (status record))
      (do! save (fun s => s <| Ds := <[id := record
            <| status := new_status |> <| resolved_at := timestamp env |>
            <| resolution_notes := if approve then resolved_text else rejected_text |>]> (Ds s) |>);
       emit (DisputeResolvedEvent id plan_id new_status arb (timestamp env)))
  | None => ret tt
  end.

Definition resolve_dispute env (plan_id : Z) (approve : bool) : X unit :=
  do! check_not_paused;
  let! arb := chief_arbitrator in
  do! require_auth env arb;
  let! ids := get_plan_disputes plan_id in
  do! reject_if (bool_decide (ids = [])) PlanNotFound;
  do! foldM (fun _ id => resolve_one env plan_id approve arb id) ids tt;
  do! save (fun s => s <| Fz := delete plan_id (Fz s) |>);
  emit (DisputeUnfrozenEvent plan_id 0 (timestamp env)).

(** * Notices to beneficiaries *)

(** The plan's owner, or an administrator. *)
Definition owner_or_admin env (caller : address) (plan_id : Z) : X InheritancePlan :=
  do! require_auth env caller;
  let! plan := require_plan plan_id in
  do! (if bool_decide (caller = owner plan) then ret tt else require_admin env caller);
  ret plan.

Definition notify_beneficiary env (caller : address) (plan_id index : Z) : X unit :=
  let! plan := owner_or_admin env caller plan_id in
  do! reject_if (len (beneficiaries plan) <=? index) InvalidBeneficiaryIndex;
  let! notified := load (fun s => Bn s !! (plan_id, index)) in
  do! reject_if (bool_decide (is_Some notified)) AlreadyApproved;
  do! save (fun s => s <| Bn := <[(plan_id, index) := timestamp env]> (Bn s) |>);
  emit (BeneficiaryNotifiedEvent plan_id index (timestamp env)).

(** Whoever signs acknowledges: the caller is not compared with the beneficiary. *)
Definition acknowledge_beneficiary_status env (caller : address) (plan_id index : Z) : X unit :=
  do! require_auth env caller;
  let! plan := require_plan plan_id in
  do! reject_if (len (beneficiaries plan) <=? index) InvalidBeneficiaryIndex;
  let! notified := load (fun s => Bn s !! (plan_id, index)) in
  do! reject_if (bool_decide (notified = None)) ClaimNotAllowedYet;
  let! acked := load (fun s => Ba s !! (plan_id, index)) in
  do! reject_if (bool_decide (is_Some acked)) AlreadyApproved;
  do! save (fun s => s <| Ba := <[(plan_id, index) := timestamp env]> (Ba s) |>);
  emit (BeneficiaryAcknowledgedEvent plan_id index (timestamp env)).

Definition get_beneficiary_acknowledgment (plan_id index : Z) : X (option BeneficiaryAcknowledgment) :=
  load (fun s =>
    match Bn s !! (plan_id, index) with
    | Some sent => Some (mkAck plan_id index sent (default 0 (Ba s !! (plan_id, index))))
    | None => None
    end).

Definition require_acknowledgment env (caller : address) (plan_id : Z) (required : bool) : X unit :=
  let! _plan := owner_or_admin env caller plan_id in
  save (fun s => s <| Ra := <[plan_id := required]> (Ra s) |>).

Definition get_unacknowledged_beneficiaries (plan_id : Z) : X (list Z) :=
  let! plan := require_plan plan_id in
  load (fun s => filter (fun i => is_Some (Bn s !! (plan_id, i)) /\ Ba s !! (plan_id, i) = None)
                   (seqZ 0 (len (beneficiaries plan)))).

(** * Calls *)

Inductive dispute_call :=
  | AddArbitrator (admin arb : address)
  | RemoveArbitrator (admin arb : address)
  | FileDispute (disputer : address) (plan_id : Z) (reason : bytes)
  | RaiseDispute (plan_id : Z) (challenger : address) (proof : hash)
  | ReviewDispute (arb : address) (id : Z) (s : DisputeStatus) (notes : bytes) (freeze_plan : bool)
  | UnfreezePlan (admin : address) (plan_id : Z)
  | ResolveDispute (plan_id : Z) (approve : bool)
  | Notify (caller : address) (plan_id index : Z)
  | Acknowledge (caller : address) (plan_id index : Z)
  | RequireAck (caller : address) (plan_id : Z) (required : bool).
Definition run_dispute env (c : dispute_call) : X unit :=
  match c with
  | AddArbitrator a x => add_arbitrator env a x
  | RemoveArbitrator a x => remove_arbitrator env a x
  | FileDispute a id r => discard (file_dispute env a id r)
  | RaiseDispute id a h => discard (raise_dispute env id a h)
  | ReviewDispute a id s n f => review_dispute env a id s n f
  | UnfreezePlan a id => unfreeze_plan env a id
  | ResolveDispute id b => resolve_dispute env id b
  | Notify a id i => notify_beneficiary env a id i
  | Acknowledge a id i => acknowledge_beneficiary_status env a id i
  | RequireAck a id b => require_acknowledgment env a id b
  end.
End disputes.

End InheritanceDisputes.
