(* ===== verification/InheritanceYield.v ===== *)
(** Automated yield of the inheritance contract
    ([contracts/inheritance-contract/src/lib.rs]): relayers, positions with the
    linked lending contract, configuration, views, projections and harvests. *)
From S2P Require Import Prelude Host AccessControl Token PlanVault InheritanceTypes.
From S2P Require Import YieldMath InheritanceCore InheritanceEmergency.
Import InheritanceTypes InheritanceCore InheritanceEmergency.

Module InheritanceYield.

Section yields.
Context {T L : Type} `{LendingPeer L}.
Abbreviation W := (world T L).
Abbreviation X A := (M W InheritanceError A).
Implicit Types (env : Env) (w : W).

(** * Calls to the lending contract *)

(** [invoke_lending_contract]: a missing link is [AdminNotSet], any failure of
    the callee is [FeeTransferFailed]. *)
Definition invoke_lending_contract {A} (m : address -> L -> option (A * L)) : X A :=
  let! contract := require_lending_contract in
  let! l := gets lend in
  match m contract l with
  | Some (a, l') => do! modify (fun w => w <| lend := l' |>); ret a
  | None => fail FeeTransferFailed
  end.

Definition lending_register env (plan_id : Z) (asset : address) (principal : Z) : X unit :=
  invoke_lending_contract (fun c l =>
    l' ← lp_register l env c (current_contract env) plan_id asset principal; Some (tt, l')).
Definition lending_unregister env (plan_id : Z) : X unit :=
  invoke_lending_contract (fun c l =>
    l' ← lp_unregister l env c (current_contract env) plan_id; Some (tt, l')).
Definition lending_accrued env (plan_id : Z) : X Z :=
  invoke_lending_contract (fun c l => v ← lp_accrued l env c plan_id; Some (v, l)).
Definition lending_claim env (plan_id : Z) : X Z :=
  invoke_lending_contract (fun c l => lp_claim l env c (current_contract env) plan_id).

(** * Authority *)

Definition relayers (s : yield_store) : list address := default [] (Yr s).
Definition get_relayers : X (list address) := load relayers.

Definition check_harvest_authority (caller : address) (plan : InheritancePlan) : X unit :=
  if bool_decide (caller = owner plan) then ret tt
  else
    let! admin := zoom (AccessControl.has_role caller AccessControl.Admin) in
    if admin : bool then ret tt
    else
      let! rs := get_relayers in
      reject_if (negb (bool_decide (caller ∈ rs))) Unauthorized.
Definition require_harvest_authority env (caller : address) (plan : InheritancePlan) : X unit :=
  do! require_auth env caller;
  check_harvest_authority caller plan.

Definition require_yield_config_authority env (caller : address) (plan : InheritancePlan) : X unit :=
  do! require_auth env caller;
  if bool_decide (caller = owner plan) then ret tt
  else
    let! admin := zoom (AccessControl.has_role caller AccessControl.Admin) in
    reject_if (negb admin) Unauthorized.

Definition add_yield_relayer env (admin relayer : address) : X unit :=
  do! require_admin env admin;
  let! rs := get_relayers in
  if bool_decide (relayer ∈ rs) then ret tt
  else
    do! reject_if (MAX_YIELD_RELAYERS <=? len rs) TooManyBeneficiaries;
    do! save (fun s => s <| Yr := Some (rs ++ [relayer]) |>);
    emit (YieldRelayerUpdatedEvent relayer true).
Definition remove_yield_relayer env (admin relayer : address) : X unit :=
  do! require_admin env admin;
  let! rs := get_relayers in
  let! found := ok_or (list_find (fun a => a = relayer) rs) Unauthorized in
  do! save (fun s => s <| Yr := Some (delete found.1 rs) |>);
  emit (YieldRelayerUpdatedEvent relayer false).
Definition get_yield_relayers : X (list address) := get_relayers.
Definition is_yield_relayer (a : address) : X bool :=
  load (fun s => bool_decide (a ∈ relayers s)).

(** * Positions *)

Definition get_yield_state (plan_id : Z) : X (option PlanYieldState) := load (fun s => Ys s !! plan_id).
Definition set_yield_state (plan_id : Z) (st : PlanYieldState) : X unit :=
  save (fun s => s <| Ys := <[plan_id := st]> (Ys s) |>).
Definition require_yield_state (plan_id : Z) : X PlanYieldState :=
  let! s := get_yield_state plan_id in ok_or s PlanNotFound.

(** The history holds the last [MAX_YIELD_HISTORY] records. *)
Definition push_history (st : PlanYieldState) (record : YieldHarvestRecord) : PlanYieldState :=
  let h := if MAX_YIELD_HISTORY <=? len (history st) then delete 0%nat (history st) else history st in
  st <| history := h ++ [record] |>.

(** The state a (re-)registration writes. *)
Definition registered_state (existing : option PlanYieldState) (asset : address) (principal now : Z)
  : PlanYieldState :=
  match existing with
  | Some e => e <| ys_asset := asset |> <| registered_principal := principal |>
                <| last_harvest_at := now |>
  | None => mkYield asset now 0 0 0 0 principal 0 false default_config []
  end.

Definition register_yield_position env (caller : address) (plan_id : Z) (asset : address) : X unit :=
  do! check_not_paused;
  let! plan := require_plan plan_id in
  do! require_harvest_authority env caller plan;
  do! reject_if (negb (is_active plan) || negb (earn_yield plan)) PlanNotActive;
  let principal := saturating_sub (total_amount plan) (total_loaned plan) in
  do! lending_register env plan_id asset principal;
  let! existing := get_yield_state plan_id in
  do! set_yield_state plan_id (registered_state existing asset principal (timestamp env));
  emit (YieldPositionRegisteredEvent plan_id asset principal).

Definition sync_yield_principal env (caller : address) (plan_id : Z) : X Z :=
  let! st := require_yield_state plan_id in
  do! register_yield_position env caller plan_id (ys_asset st);
  let! st' := require_yield_state plan_id in
  ret (registered_principal st').

Definition unregister_yield_position env (caller : address) (plan_id : Z) : X unit :=
  do! check_not_paused;
  let! plan := require_plan plan_id in
  do! require_yield_config_authority env caller plan;
  let! st := require_yield_state plan_id in
  do! when (0 <? pending_credit st)
    (let! total := of_result (YieldMath.safe_add (total_amount plan) (pending_credit st)) in
     store_plan plan_id (plan <| total_amount := total |>));
  do! lending_unregister env plan_id;
  save (fun s => s <| Ys := delete plan_id (Ys s) |>).

(** * Configuration *)

(** The plan's yield state, for its owner or an administrator; [check] is the
    validation between the two reads. *)
Definition yield_settings env (caller : address) (plan_id : Z) (check : result InheritanceError unit)
  : X PlanYieldState :=
  do! check_not_paused;
  let! plan := require_plan plan_id in
  do! require_yield_config_authority env caller plan;
  do! of_result check;
  require_yield_state plan_id.

Definition set_yield_config env (caller : address) (plan_id : Z) (auto : bool)
    (minimum interval fee : Z) : X unit :=
  let! st := yield_settings env caller plan_id (YieldMath.validate_performance_fee fee) in
  let c := mkYieldConfig auto minimum interval fee in
  do! set_yield_state plan_id (st <| config := c |>);
  emit (YieldConfigUpdatedEvent plan_id c).
Definition set_plan_yield_paused env (caller : address) (plan_id : Z) (paused : bool) : X unit :=
  let! st := yield_settings env caller plan_id (ROk tt) in
  do! set_yield_state plan_id (st <| ys_paused := paused |>);
  emit (YieldPausedEvent plan_id paused).
Definition pause_plan_yield env caller plan_id := set_plan_yield_paused env caller plan_id true.
Definition resume_plan_yield env caller plan_id := set_plan_yield_paused env caller plan_id false.

(** * Views *)

(** [get_yield_state(..).map(f).unwrap_or(d)]. *)
Definition view {A} (f : PlanYieldState -> A) (d : A) (plan_id : Z) : X A :=
  let! s := get_yield_state plan_id in
  ret (match s with Some st => f st | None => d end).
Definition get_yield_config (plan_id : Z) : X (option YieldConfig) :=
  view (fun st => Some (config st)) None plan_id.
Definition is_plan_yield_paused : Z -> X bool := view ys_paused false.
Definition get_yield_state_of : Z -> X (option PlanYieldState) := get_yield_state.
Definition get_pending_yield env (plan_id : Z) : X Z := lending_accrued env plan_id.
Definition get_total_yield_harvested : Z -> X Z := view total_harvested 0.
Definition get_total_yield_fees : Z -> X Z := view total_fees_paid 0.
Definition get_last_yield_harvest : Z -> X Z := view last_harvest_at 0.
Definition get_yield_asset (plan_id : Z) : X (option address) :=
  view (fun st => Some (ys_asset st)) None plan_id.
Definition get_pending_credit : Z -> X Z := view pending_credit 0.
Definition get_yield_history : Z -> X (list YieldHarvestRecord) := view history [].
Definition get_yield_harvest_count : Z -> X Z := view harvest_count 0.
Definition next_harvest (st : PlanYieldState) : Z :=
  YieldMath.next_harvest_at (last_harvest_at st) (harvest_interval (config st)).
Definition get_next_harvest_at : Z -> X Z := view next_harvest 0.

Definition is_harvest_due env (plan_id : Z) : X bool :=
  let! s := get_yield_state plan_id in
  match s with
  | None => ret false
  | Some st =>
    if ys_paused st then ret false
    else
      let! pending := attempt (get_pending_yield env plan_id) in
      match pending with
      | ROk amount =>
        ret (YieldMath.is_harvest_due (timestamp env) (last_harvest_at st)
               (harvest_interval (config st)) amount (min_harvest_amount (config st)))
      | RErr _ => ret false
      end
  end.

Definition get_yield_summary (plan_id : Z) : X YieldSummary :=
  let! st := require_yield_state plan_id in
  ret (mkSummary plan_id (ys_asset st) (registered_principal st) (total_harvested st)
         (total_fees_paid st) (pending_credit st) (harvest_count st) (last_harvest_at st)
         (last_harvest_amount st) (next_harvest st) (ys_paused st) (auto_compound (config st))).

(** * Projections *)

Definition plan_principal (plan_id : Z) : X Z :=
  let! plan := require_plan plan_id in
  ret (saturating_sub (total_amount plan) (total_loaned plan)).
Definition project_plan_balance (plan_id rate days : Z) : X Z :=
  let! principal := plan_principal plan_id in
  of_result (YieldMath.project_daily_compound principal rate days).
Definition project_plan_interest (plan_id rate days : Z) : X Z :=
  let! principal := plan_principal plan_id in
  of_result (YieldMath.project_daily_interest principal rate days).
Definition effective_apy (rate : Z) : X Z := of_result (YieldMath.effective_apy_bps rate).
Definition estimate_next_harvest_amount (plan_id rate elapsed : Z) : X Z :=
  let! st := require_yield_state plan_id in
  of_result (YieldMath.simple_interest (registered_principal st) rate elapsed).
Definition compute_compound_amount (principal rate periods : Z) : X Z :=
  of_result (YieldMath.compound_amount principal rate periods).
Definition compute_compound_interest (principal rate periods : Z) : X Z :=
  of_result (YieldMath.compound_interest principal rate periods).
Definition compute_daily_rate_bps (rate : Z) : X Z := of_result (YieldMath.daily_rate_bps rate).
Definition compute_periods_elapsed (elapsed : Z) : X Z :=
  of_result (YieldMath.periods_elapsed elapsed YieldMath.SECONDS_PER_DAY).
Definition days_since_last_harvest env (plan_id : Z) : X Z :=
  let! st := require_yield_state plan_id in
  of_result (YieldMath.periods_elapsed (saturating_sub (timestamp env) (last_harvest_at st))
               YieldMath.SECONDS_PER_DAY).
Definition compute_blended_rate (pa ra pb rb : Z) : X Z :=
  of_result (YieldMath.blended_rate_bps pa ra pb rb).

(** [u32::try_from(v).unwrap_or(u32::MAX)]. *)
Definition clamp32 (v : Z) : Z := if v <=? u32_max then v else u32_max.

Definition realized_yield_rate_bps (plan_id : Z) : X Z :=
  let! st := require_yield_state plan_id in
  if (registered_principal st =? 0) || (harvest_count st =? 0) then ret 0
  else
    let first := match history st with [] => last_harvest_at st | r :: _ => harvested_at r end in
    let span := saturating_sub (last_harvest_at st) first in
    if span =? 0 then ret 0
    else
      let! scaled := of_result (YieldMath.mul_div (total_harvested st) YieldMath.BPS_DENOMINATOR
                                  (registered_principal st)) in
      let! annualized := of_result (YieldMath.mul_div scaled YieldMath.SECONDS_PER_YEAR span) in
      ret (clamp32 annualized).

Definition get_total_plan_value (plan_id : Z) : X Z :=
  let! plan := require_plan plan_id in
  let! pending := get_pending_credit plan_id in
  of_result (YieldMath.safe_add (total_amount plan) pending).

Definition compute_plan_pool_share_bps (plan_id pool_total : Z) : X Z :=
  let! st := require_yield_state plan_id in
  if pool_total =? 0 then ret 0
  else
    let! v := of_result (YieldMath.safe_mul (registered_principal st) YieldMath.BPS_DENOMINATOR) in
    let! share := of_result (YieldMath.safe_div v pool_total) in
    ret (clamp32 share).

Definition preview_harvest_split (plan_id gross : Z) : X (Z * Z) :=
  let! st := require_yield_state plan_id in
  of_result (YieldMath.split_performance_fee gross (performance_fee_bp (config st))).

(** * Harvests *)

(** The yield state after a harvest of [gross], [net] of which is credited. *)
Definition harvested_state (st : PlanYieldState) (credit gross net fee now : Z) (caller : address)
  : PlanYieldState :=
  push_history
    (st <| pending_credit := credit |> <| last_harvest_at := now |>
        <| last_harvest_amount := gross |>
        <| total_harvested := saturating_add64 (total_harvested st) gross |>
        <| total_fees_paid := saturating_add64 (total_fees_paid st) fee |>
        <| harvest_count := saturating_add32 (harvest_count st) 1 |>)
    (mkHarvest gross net fee now caller (auto_compound (config st))).

Definition harvest_yield_inner env (caller : address) (plan_id : Z) : X Z :=
  let! plan := require_plan plan_id in
  do! check_harvest_authority caller plan;
  do! reject_if (negb (is_active plan) || negb (earn_yield plan)) PlanNotActive;
  let! st := require_yield_state plan_id in
  do! reject_if (ys_paused st) PlanNotActive;
  let now := timestamp env in
  do! reject_if ((0 <? harvest_interval (config st)) && (now <? next_harvest st))
        EmergencyCooldownActive;
  let! pending := lending_accrued env plan_id in
  do! reject_if ((pending =? 0) || (pending <? min_harvest_amount (config st))) NothingToClaim;
  let! gross := lending_claim env plan_id in
  do! reject_if (gross =? 0) NothingToClaim;
  let! split := of_result (YieldMath.split_performance_fee gross (performance_fee_bp (config st))) in
  let '(net, fee) := split in
  let! total :=
    if auto_compound (config st) then
      let! total := of_result (YieldMath.safe_add (total_amount plan) net) in
      do! store_plan plan_id (plan <| total_amount := total |>);
      ret total
    else ret (total_amount plan) in
  let! credit :=
    if auto_compound (config st) then ret (pending_credit st)
    else of_result (YieldMath.safe_add (pending_credit st) net) in
  do! set_yield_state plan_id (harvested_state st credit gross net fee now caller);
  do! when (0 <? fee)
        (emit (YieldFeeCollectedEvent plan_id gross fee (performance_fee_bp (config st))));
  do! emit (YieldHarvestedEvent plan_id gross total now);
  ret gross.

Definition harvest_yield env (caller : address) (plan_id : Z) : X Z :=
  do! check_not_paused;
  do! require_auth env caller;
  do! enter_guard;
  let! result := attempt (harvest_yield_inner env caller plan_id) in
  do! exit_guard;
  of_result result.

Definition compound_pending_yield env (caller : address) (plan_id : Z) : X Z :=
  do! check_not_paused;
  let! plan := require_plan plan_id in
  do! require_yield_config_authority env caller plan;
  let! st := require_yield_state plan_id in
  do! reject_if (pending_credit st =? 0) NothingToClaim;
  let amount := pending_credit st in
  let! total := of_result (YieldMath.safe_add (total_amount plan) amount) in
  do! store_plan plan_id (plan <| total_amount := total |>);
  do! set_yield_state plan_id (st <| pending_credit := 0 |>);
  do! emit (YieldCompoundedEvent plan_id amount total (timestamp env));
  ret amount.

(** One plan of a batch: [(success, fail, total)]; an [Err] is counted and its
    effects stay. *)
Definition harvest_one env (caller : address) (acc : Z * Z * Z) (plan_id : Z) : X (Z * Z * Z) :=
  let '(success, fail_count, total) := acc in
  let! r := attempt (harvest_yield_inner env caller plan_id) in
  ret (match r with
       | ROk amount => (success + 1, fail_count, saturating_add64 total amount)
       | RErr _ => (success, fail_count + 1, total)
       end).
Definition harvest_yield_batch env (caller : address) (plan_ids : list Z) : X (Z * Z * Z) :=
  do! check_not_paused;
  do! require_auth env caller;
  do! reject_if (MAX_YIELD_BATCH <? len plan_ids) TooManyBeneficiaries;
  do! enter_guard;
  let! r := foldM (harvest_one env caller) plan_ids (0, 0, 0) in
  do! exit_guard;
  do! emit (YieldBatchHarvestEvent r.1.1 r.1.2 r.2);
  ret r.

(** * Calls *)

Inductive yield_call :=
  | AddRelayer (admin relayer : address)
  | RemoveRelayer (admin relayer : address)
  | RegisterPosition (caller : address) (plan_id : Z) (asset : address)
  | SyncPrincipal (caller : address) (plan_id : Z)
  | UnregisterPosition (caller : address) (plan_id : Z)
  | SetYieldConfig (caller : address) (plan_id : Z) (auto : bool) (minimum interval fee : Z)
  | SetYieldPaused (caller : address) (plan_id : Z) (paused : bool)
  | Harvest (caller : address) (plan_id : Z)
  | Compound (caller : address) (plan_id : Z)
  | HarvestBatch (caller : address) (plan_ids : list Z).
Definition run_yield env (c : yield_call) : X unit :=
  match c with
  | AddRelayer a x => add_yield_relayer env a x
  | RemoveRelayer a x => remove_yield_relayer env a x
  | RegisterPosition a id x => register_yield_position env a id x
  | SyncPrincipal a id => discard (sync_yield_principal env a id)
  | UnregisterPosition a id => unregister_yield_position env a id
  | SetYieldConfig a id b m i f => set_yield_config env a id b m i f
  | SetYieldPaused a id b => set_plan_yield_paused env a id b
  | Harvest a id => discard (harvest_yield env a id)
  | Compound a id => discard (compound_pending_yield env a id)
  | HarvestBatch a ids => discard (harvest_yield_batch env a ids)
  end.
End yields.

End InheritanceYield.
