(* ===== verification/InheritanceLedger.v ===== *)
(** The money of the plans ([contracts/inheritance-contract/src/lib.rs]): what
    every entry point can do to a plan's booked amount and to the tokens of its
    vault, as an abstract ledger that the contract refines. *)
From S2P Require Import Prelude Host AccessControl Token PlanVault InheritanceTypes.
From S2P Require Import YieldMath InheritanceCore InheritanceEmergency InheritanceTriggers InheritancePlans.
From S2P Require Import InheritanceClaims InheritanceWills InheritanceMessages InheritanceDisputes.
From S2P Require Import InheritanceYield.
Import InheritanceTypes InheritanceCore InheritanceEmergency InheritanceTriggers.
Import InheritancePlans InheritanceClaims InheritanceWills InheritanceMessages.
Import InheritanceDisputes InheritanceYield.

Module InheritanceLedger.

(** What an invocation posts to the books of plan [id]: nothing, tokens paid into
    or out of its vault, booked money written down without tokens, yield booked
    without tokens, or a new account. *)
Inductive posting :=
  | Rest | PayIn (id n : Z) | PayOut (id n : Z) | WriteDown (id n : Z) | Credit (id n : Z) | Open (id n : Z).

Section ledger.
Context {T L : Type} `{TokenOps T} `{LendingPeer L} `{HostFns}.
Abbreviation W := (world T L).
Abbreviation X A := (M W InheritanceError A).
Implicit Types (env : Env) (w : W).
(** The postings an invocation may make. *)
Context (may : posting -> Prop).

(** * Framing *)

(** The part of the world the plans' money lives in. *)
Definition money w := (P (plans w), pvault (plans w), toks w, vaults w, Npi (plans w)).

Lemma admin_money env c : keeps money (run_admin env c).
Proof. destruct c; ih_keeps. Qed.
Lemma emergency_money env c : keeps money (run_emergency env c).
Proof. destruct c; ih_keeps. Qed.
Lemma will_money env c : keeps money (run_will env c).
Proof. destruct c; ih_keeps. Qed.
Lemma message_money env c : keeps money (run_message env c).
Proof. destruct c; ih_keeps. Qed.
Lemma dispute_money env c : keeps money (run_dispute env c).
Proof. destruct c; ih_keeps. Qed.

(** * Well-formed plans *)

(** A beneficiary book: at most ten entries, every share positive, and the
    recorded total their sum, at most the whole. *)
Definition wf_book (bs : list Beneficiary) (total : Z) : Prop :=
  len bs <= MAX_BENEFICIARIES /\ Forall (fun b => 0 < allocation_bp b) bs /\
  total = sum_bp bs /\ total <= 10000.
Definition wf_shares (p : InheritancePlan) : Prop := wf_book (beneficiaries p) (total_allocation_bp p).
Record wf_plan (p : InheritancePlan) : Prop := {
  wf_bp : wf_shares p;
  wf_amount : u64 (total_amount p);
  wf_loaned : total_loaned p = 0
}.
Definition wf_plans w : Prop := map_Forall (fun _ p => wf_plan p) (P (plans w)).

Lemma sum_bp_perm bs bs' : bs ≡ₚ bs' -> sum_bp bs = sum_bp bs'.
Proof. unfold sum_bp. induction 1; cbn; lia. Qed.
Lemma book_share bs total i b : wf_book bs total -> bs !! i = Some b -> 0 <= allocation_bp b <= 10000.
Proof.
  intros (_ & Hf & -> & Hm) Hb. revert i Hb Hm. induction Hf as [|x bs Hx Hf IH]; intros i Hb Hm; [done|].
  assert (0 <= sum_bp bs) by (clear -Hf; unfold sum_bp; induction Hf; cbn; lia).
  cbn in Hm. fold (sum_bp bs) in Hm. destruct i as [|i]; [injection Hb as ->; lia|]. apply (IH i Hb). lia.
Qed.
Lemma book_empty : wf_book [] 0.
Proof. by split_and!; cbn. Qed.
Lemma book_snoc bs total b :
  len bs < MAX_BENEFICIARIES -> 0 < allocation_bp b -> total + allocation_bp b <= 10000 ->
  wf_book bs total -> wf_book (bs ++ [b]) (total + allocation_bp b).
Proof.
  unfold len. intros ? ? ? (? & ? & -> & ?). split_and!; [unfold len; rewrite length_app; cbn; lia| | |done].
  - by apply Forall_app; split; [|constructor].
  - rewrite sum_bp_app. cbn. lia.
Qed.
Lemma book_remove bs total i b :
  bs !! i = Some b -> wf_book bs total -> wf_book (swap_remove i bs) (total - allocation_bp b).
Proof.
  intros Hi (Hl & Hf & -> & ?). pose proof (swap_remove_perm _ _ _ Hi) as Hp.
  rewrite Hp in Hf. apply Forall_cons in Hf as [? ?]. pose proof (sum_bp_perm _ _ Hp) as Hs. cbn in Hs.
  apply Permutation_length in Hp. cbn in Hp. unfold len in *.
  split_and!; [unfold len; lia|done|unfold sum_bp in *; lia|unfold sum_bp in *; lia].
Qed.
Lemma book_set bs total i b b' :
  bs !! i = Some b -> allocation_bp b' = allocation_bp b -> wf_book bs total ->
  wf_book (<[i := b']> bs) total.
Proof.
  intros Hi Hb (Hl & Hf & -> & ?).
  assert (map allocation_bp (<[i := b']> bs) = map allocation_bp bs) as Hm.
  { change (allocation_bp <$> <[i := b']> bs = allocation_bp <$> bs).
    rewrite list_fmap_insert, Hb. apply list_insert_id. by rewrite list_lookup_fmap, Hi. }
  assert (sum_bp (<[i := b']> bs) = sum_bp bs) as Hs.
  { unfold sum_bp. revert Hm. generalize (<[i := b']> bs). clear. induction bs as [|x bs IH];
      intros [|y l]; try done; cbn. intros [= -> Hl]. by rewrite (IH l). }
  split_and!; [unfold len in *; by rewrite length_insert| |lia|lia].
  apply Forall_insert; [done|]. rewrite Hb. by eapply Forall_lookup_1 in Hf.
Qed.

Lemma book_built es (r : list Beneficiary * Z) new :
  Forall typed_entry es -> validate_beneficiaries es = ROk tt -> Forall2 built_from es new ->
  r.1 = [] ++ new -> r.2 = 0 + sum_bp new -> wf_book r.1 r.2.
Proof.
  intros Hty Hv%validate_ROk Hf -> ->; [|done]. pose proof (built_sum _ _ Hf) as Hs.
  rewrite (ve_total _ Hv) in Hs. pose proof (ve_count _ Hv) as Hc. cbn.
  split_and!; [|..]; [|..|lia|lia].
  - unfold len, MAX_BENEFICIARIES in *. rewrite <-(Forall2_length _ _ _ Hf). lia.
  - clear -Hf Hty. induction Hf as [|[[[[[? ?] ?] ?] bp] ?] b es bs Hb _ IH]; [constructor|].
    apply Forall_cons in Hty as [(_ & ? & _) ?]. destruct Hb as (Hb & ? & _). unfold u32 in *.
    constructor; [rewrite Hb; lia|auto].
Qed.

(** [p'] keeps the commitments of [p]: token, owed loans, and the beneficiary
    book; an inactive plan stays inactive. *)
Definition kept (p p' : InheritancePlan) : Prop :=
  token p' = token p /\ total_loaned p' = total_loaned p /\ created_at p' = created_at p /\
  (is_active p' = true -> is_active p = true) /\ (wf_shares p -> wf_shares p').

(** What the effects are about: the plans, their vaults' addresses and stores,
    the tokens, and, read only, the plan counter and the administrator. *)
Record view := mkView {
  vP : gmap Z InheritancePlan; vpv : gmap Z address; vtoks : T;
  vvaults : gmap address PlanVault.store; vNpi : option Z; vAd : option address
}.
Definition view_of w : view :=
  mkView (P (plans w)) (pvault (plans w)) (toks w) (vaults w) (Npi (plans w)) (Ad (plans w)).

(** One plan is rewritten and no vault is deployed. *)
Definition rewrites (id : Z) (p p' : InheritancePlan) (s s' : view) : Prop :=
  vP s !! id = Some p /\ vP s' = <[id := p']> (vP s) /\ kept p p' /\
  vpv s' = vpv s /\ vvaults s' = vvaults s /\ vNpi s' = vNpi s.

(** * Effects *)

Inductive effect env (s s' : view) : Prop :=
  | Quiet : may Rest -> vP s' = vP s -> vpv s' = vpv s -> vtoks s' = vtoks s -> vvaults s' = vvaults s ->
      vNpi s' = vNpi s -> effect env s s'
  | Edited id p p' : may Rest -> rewrites id p p' s s' -> total_amount p' = total_amount p ->
      vtoks s' = vtoks s -> effect env s s'
  | PaidIn id p p' v from n : may (PayIn id n) -> rewrites id p p' s s' -> vpv s !! id = Some v ->
      from ∈ auths env -> 0 < n -> total_amount p' = total_amount p + n -> u64 (total_amount p + n) ->
      tk_transfer (vtoks s) (auths (sub_env env (token p))) (token p) from v n = Some (vtoks s') ->
      effect env s s'
  | PaidOut id p p' v to n : may (PayOut id n) -> rewrites id p p' s s' -> vpv s !! id = Some v ->
      to ∈ auths env -> 0 < n <= total_amount p -> total_amount p' = total_amount p - n ->
      tk_transfer (vtoks s) (auths (sub_env (sub_env env v) (token p))) (token p) v to n = Some (vtoks s') ->
      effect env s s'
  | WrittenDown id p p' n : may (WriteDown id n) -> rewrites id p p' s s' -> 0 <= n <= total_amount p ->
      total_amount p' = total_amount p - n -> vtoks s' = vtoks s -> effect env s s'
  | Credited id p p' n : may (Credit id n) -> rewrites id p p' s s' -> 0 <= n -> total_amount p' = total_amount p + n ->
      u64 (total_amount p + n) -> vtoks s' = vtoks s -> effect env s s'
  | Opened id p v adm fee t : may (Open id (total_amount p)) -> id = default 1 (vNpi s) -> vNpi s' = Some (id + 1) ->
      vP s' = <[id := p]> (vP s) -> wf_plan p -> 0 < total_amount p -> is_active p = true ->
      v = deployed_address (current_contract env) (plan_vault_salt id) -> vvaults s !! v = None ->
      vpv s' = <[id := v]> (vpv s) ->
      vvaults s' = <[v := PlanVault.mkStore (Some true) (Some (current_contract env)) (Some (owner p))
                            (Some id)]> (vvaults s) ->
      owner p ∈ auths env -> vAd s = Some adm -> 0 <= fee ->
      (t = vtoks s \/ tk_transfer (vtoks s) (auths (sub_env env (token p))) (token p) (owner p) adm fee = Some t) ->
      tk_transfer t (auths (sub_env env (token p))) (token p) (owner p) v (total_amount p) = Some (vtoks s') ->
      effect env s s'.
Definition has_effect env w w' : Prop := effect env (view_of w) (view_of w').

Lemma quiet_effect env w w' : may Rest -> money w' = money w -> has_effect env w w'.
Proof. intros ? [= ? ? ? ? ?]. by apply Quiet. Qed.

#[export] Instance kept_preorder : PreOrder kept.
Proof.
  split; [intros p; by split_and!|]. intros p q r (? & ? & ? & ? & ?) (? & ? & ? & ? & ?).
  split_and!; [congruence..|by auto|by auto].
Qed.

(** A rewrite of fields outside the books. *)
Ltac kept_tac := split_and!; cbn; try done; unfold wf_shares; cbn; try done; try (intros Hbook).

(** Emergency access does not enter the view. *)
Lemma view_expire env id w : view_of (expire env id w) = view_of w.
Proof. unfold view_of. by autorewrite with expire. Qed.
Lemma view_of_keeps {B} (m : X B) w b w' : keeps view_of m -> m w = Ok b w' -> view_of w' = view_of w.
Proof. apply keeps_Ok. Qed.
Lemma may_trigger_view env a id : keeps view_of (may_trigger env a id).
Proof. ih_keeps. Qed.
Lemma collect_view env cfg signers l : keeps view_of (foldM (collect_guardian env cfg) signers l).
Proof. ih_keeps. Qed.

Lemma triggered_effect env w id plan w' :
  may Rest -> vP (view_of w) !! id = Some plan -> view_of w' = view_of (triggered_now env id plan w) ->
  has_effect env w w'.
Proof.
  unfold has_effect. intros ? Hp ->. eapply (Edited _ _ _ id plan (plan <| is_lendable := false |>)); [done| |done..].
  split_and!; [done|done|kept_tac|done..].
Qed.
(** Read an equation of views field by field. *)
Ltac view_eqs :=
  repeat match goal with
  | Hv : view_of _ = view_of _ |- _ => injection Hv; clear Hv; cbn; intros
  end.
Ltac by_trigger :=
  match goal with Hp : P (plans _) !! ?id = Some ?p |- _ =>
    apply (triggered_effect _ _ id p); [done| |unfold view_of, triggered_now]; cbn; congruence end.

(** No plan has loans outstanding. *)
Ltac no_loans :=
  match goal with Hwf : wf_plans _, Hp : P _ !! _ = Some _ |- _ => by destruct (wf_loaned _ (Hwf _ _ Hp)) end.
Lemma trigger_effect env c w w' :
  may Rest -> wf_plans w -> run_trigger env c w = Ok tt w' -> has_effect env w w'.
Proof.
  intros Hm Hwf Hr. destruct c; cbn in Hr.
  all: try (unfold set_trigger_conditions, add_time_trigger, add_inactivity_trigger, add_oracle_trigger,
    add_health_trigger, record_activity, submit_oracle_trigger, submit_health_trigger, config_with,
    oracle_config in Hr; run_inv; by apply quiet_effect).
  - apply auto_trigger_Ok in Hr as [->|(plan & es & Hp & _ & _ & ->)]; [by apply quiet_effect|].
    by eapply triggered_effect.
  - unfold trigger_inheritance in Hr. run_inv.
    match goal with Hm : may_trigger _ _ _ _ = _ |- _ =>
      apply (view_of_keeps _ _ _ _ (may_trigger_view _ _ _)) in Hm end.
    view_eqs. by_trigger.
  - unfold guardian_emergency_trigger in Hr. run_inv.
    match goal with Hm : foldM _ _ _ _ = _ |- _ =>
      apply (view_of_keeps _ _ _ _ (collect_view _ _ _ _)) in Hm end.
    view_eqs. by_trigger.
  - unfold freeze_loans in Hr. run_inv. by eapply triggered_effect.
  - unfold recall_loan in Hr. run_inv. bool_hyps. no_loans.
  - unfold liquidation_fallback in Hr. run_inv. bool_hyps. no_loans.
Qed.

(** ** Plans *)

Ltac to_views := unfold has_effect, view_of in *; autorewrite with expire in *; cbn in *.
Ltac kept_rewrite := split_and!; [cbn; eassumption|cbn; reflexivity|kept_tac|done..].

(** What each call on plans posts. *)
Definition plan_posts (c : plan_call) : posting -> Prop :=
  match c with
  | CreatePlan q => fun x => exists id, x = Open id (cp_total_amount q - creation_fee (cp_total_amount q))
  | PlanDeposit _ _ id n => eq (PayIn id n)
  | PlanWithdraw _ _ id n => eq (PayOut id n)
  | _ => eq Rest
  end.
Section resting.
Hypothesis may_rest : may Rest.

(** Close an edit of one plan; what the books owe is left. *)
Ltac edited :=
  unfold has_effect;
  match goal with Hp : P (plans _) !! ?id = Some ?p |- effect _ _ _ =>
    eapply (Edited _ _ _ id p);
    [exact may_rest|split_and!; [exact Hp|cbn; reflexivity|kept_tac|reflexivity..]|reflexivity|reflexivity]
  end.

Lemma add_effect env o id i w w' :
  typed_input i -> run_plan env (AddBeneficiary o id i) w = Ok tt w' -> has_effect env w w'.
Proof.
  intros (_ & Hbp & _) Hr. cbn in Hr. unfold add_beneficiary, create_from_input in Hr. run_inv. bool_hyps.
  edited. apply (book_snoc _ _ (mkBeneficiary _ _ _ _ _ _ _)); cbn in *; try done; unfold u32 in *; lia.
Qed.
Lemma remove_effect env o id i w w' :
  run_plan env (RemoveBeneficiary o id i) w = Ok tt w' -> has_effect env w w'.
Proof.
  intros Hr. cbn in Hr. unfold remove_beneficiary in Hr. run_inv. bool_hyps. edited.
  match goal with Hc : checked _ _ = Some _ |- _ => apply checked_Some in Hc as [-> _] end.
  by apply book_remove.
Qed.
Lemma priority_effect env o id i p w w' :
  run_plan env (SetPriority o id i p) w = Ok tt w' -> has_effect env w w'.
Proof.
  intros Hr. cbn in Hr. unfold set_beneficiary_priority in Hr. run_inv. bool_hyps. edited.
  by eapply book_set.
Qed.
Lemma flags_effect env c w w' :
  match c with SetLendable _ _ _ | UpdateGrace _ _ | EnableWaterfall _ _ => True | _ => False end ->
  run_plan env c w = Ok tt w' -> has_effect env w w'.
Proof.
  intros Hc Hr. destruct c; try done; cbn in Hr;
    unfold set_lendable, update_grace_period, enable_waterfall_distribution in Hr; run_inv; bool_hyps; edited.
Qed.
Lemma update_effect env o id es g e w w' :
  Forall typed_entry es -> run_plan env (UpdatePlan o id es g e) w = Ok tt w' -> has_effect env w w'.
Proof.
  intros Hty Hr. cbn in Hr. unfold update_plan in Hr. run_inv. bool_hyps. edited.
  match goal with Hb : Forall2 built_from _ _ |- _ => by eapply book_built end.
Qed.
Lemma deposit_effect env a t id n w w' :
  may (PayIn id n) -> u64 n -> run_plan env (PlanDeposit a t id n) w = Ok tt w' -> has_effect env w w'.
Proof.
  intros Hm Hn Hr. cbn in Hr. unfold deposit in Hr. run_inv; bool_hyps; [|done].
  match goal with Ht : tk_transfer _ _ _ ?from ?v _ = _, Hp : P (plans _) !! _ = Some ?p |- _ =>
    eapply (PaidIn _ _ _ id p _ v from n) end;
    [done|kept_rewrite|done|done|unfold u64 in *; lia|done|done|cbn; by subst t].
Qed.
Lemma withdraw_effect env a t id n w w' :
  may (PayOut id n) -> u64 n -> run_plan env (PlanWithdraw a t id n) w = Ok tt w' -> has_effect env w w'.
Proof.
  intros Hm Hn Hr. cbn in Hr. unfold withdraw in Hr. run_inv. bool_hyps. to_views.
  match goal with Ht : tk_transfer _ _ _ ?v ?to _ = _, Hp : P (plans _) !! _ = Some ?p |- _ =>
    eapply (PaidOut _ _ _ id p _ v to n) end;
    [done|kept_rewrite|done|done|unfold u64 in *; lia|done|cbn; by subst t].
Qed.
Lemma owner_effect env c w w' :
  match c with Deactivate _ _ | TransferOwnership _ _ _ => True | _ => False end ->
  run_plan env c w = Ok tt w' -> has_effect env w w'.
Proof.
  intros Hc Hr. destruct c; try done; cbn in Hr;
    unfold deactivate_inheritance_plan, transfer_plan_ownership,
      remove_plan_from_user in Hr; run_inv; bool_hyps; to_views.
  all: edited.
Qed.
(** The batched edits. *)
Lemma fold_add32_Ok bps acc r w w' :
  foldM (W := W) (E := InheritanceError) add32 bps acc w = Ok r w' -> w' = w /\ r = foldr Z.add acc bps.
Proof.
  revert acc w. induction bps as [|bp bps IH]; intros acc w Hr; cbn in Hr.
  - by apply ret_Ok in Hr as [-> ->].
  - run_bind Hr. match goal with Ha : add32 _ _ _ = _ |- _ => apply add32_Ok in Ha as (-> & _ & ->) end.
    apply IH in Hr as [-> ->]. split; [done|]. cbn. clear. induction bps as [|b bps IH]; cbn; lia.
Qed.
Lemma book_allocate bs bps :
  len bs <= MAX_BENEFICIARIES -> len bps = len bs -> Forall u32 bps ->
  existsb (fun bp => bp =? 0) bps = false -> foldr Z.add 0 bps = 10000 ->
  wf_book (set_allocations bs bps) 10000.
Proof.
  unfold set_allocations, len. intros Hl Hlen Hty Hz Hs.
  assert (length bs = length bps) as Hle by lia.
  assert (sum_bp (zip_with (fun b bp => b <| allocation_bp := bp |>) bs bps) = foldr Z.add 0 bps) as Hsum.
  { clear -Hle. revert bps Hle. induction bs as [|b bs IH]; intros [|bp bps] Hle; try done. cbn in *.
    unfold sum_bp in IH. rewrite IH by lia. done. }
  split_and!; [unfold len; rewrite length_zip_with; lia| |lia|lia].
  clear -Hle Hty Hz. revert bps Hle Hty Hz. induction bs as [|b bs IH]; intros [|bp bps] Hle Hty Hz; try done.
  cbn in *. apply orb_false_iff in Hz as [?%Z.eqb_neq ?]. apply Forall_cons in Hty as [? ?].
  constructor; [cbn; unfold u32 in *; lia|]. apply IH; [lia|done..].
Qed.
Lemma batch_allocate_effect env o id bps w w' :
  Forall u32 bps -> run_plan env (BatchAllocate o id bps) w = Ok tt w' -> has_effect env w w'.
Proof.
  intros Hty Hr. cbn in Hr. unfold batch_update_allocations in Hr. run_inv. bool_hyps. to_views.
  match goal with Hf : foldM add32 _ _ _ = _ |- _ => apply fold_add32_Ok in Hf as [-> ?] end.
  edited. destruct Hbook as [Hl _]. apply book_allocate; try done. congruence.
Qed.

(** An edit of a plan that leaves its amount. *)
Definition edit (p p' : InheritancePlan) : Prop := kept p p' /\ total_amount p' = total_amount p.
Lemma edit_effect env id p p' w w' :
  P (plans w) !! id = Some p -> edit p p' ->
  view_of w' = view_of (w <| plans := (plans w) <| P := <[id := p']> (P (plans w)) |> |>) ->
  has_effect env w w'.
Proof.
  intros Hp [Hk Ha] Hv. unfold has_effect. rewrite Hv.
  eapply (Edited _ _ _ id p p'); [done| |done|done]. by split_and!.
Qed.

#[export] Instance edit_preorder : PreOrder edit.
Proof.
  split; [by split|]. intros p q r [? ?] [? ?]. split; [by etrans|congruence].
Qed.

Lemma batch_add_one_edit id i p n m r w w' :
  typed_input i -> batch_add_one id (p, n, m) i w = Ok r w' -> salting w w' /\ edit p r.1.1.
Proof.
  intros (_ & Hbp & _) Hr. unfold batch_add_one in Hr.
  destruct (Z.leb_spec 10 (len (beneficiaries p))); [by apply ret_Ok in Hr as [-> ->]|].
  destruct (bi_allocation_bp i =? 0); [by apply ret_Ok in Hr as [-> ->]|].
  run_bind Hr. match goal with Ha : add32 _ _ _ = _ |- _ => apply add32_Ok in Ha as (-> & _ & ->) end.
  destruct (Z.ltb_spec 10000 (total_allocation_bp p + bi_allocation_bp i)); [by apply ret_Ok in Hr as [-> ->]|].
  run_bind Hr. match goal with Ha : attempt _ _ = _ |- _ =>
    pose proof (moves_Ok _ _ _ _ _ (moves_attempt _ _ (create_moves _ _ _ _ _ _ _ _)) Ha) as Hm;
    apply attempt_Ok in Ha; rename Ha into Hc end.
  destruct x as [b|e]; apply ret_Ok in Hr as [-> ->]; (split; [done|]); [|done].
  apply create_beneficiary_Ok in Hc as (? & _ & _ & _ & _ & -> & _). split; [kept_tac|done].
  apply (book_snoc _ _ (mkBeneficiary _ _ _ _ _ _ _)); cbn; unfold u32, MAX_BENEFICIARIES in *; try lia; done.
Qed.
Lemma batch_add_edit id ins acc r w w' :
  Forall typed_input ins -> foldM (batch_add_one id) ins acc w = Ok r w' ->
  salting w w' /\ edit acc.1.1 r.1.1.
Proof.
  intros Hty. revert acc w. induction Hty as [|i ins Hi _ IH]; intros acc w Hr; cbn in Hr.
  - by apply ret_Ok in Hr as [-> ->].
  - run_bind Hr. apply IH in Hr as [Hs He]. destruct acc as [[p n] m].
    match goal with Ha : batch_add_one _ _ _ _ = _ |- _ => apply batch_add_one_edit in Ha as [??]; [|done] end.
    split; by etrans.
Qed.
Lemma batch_add_effect env o id ins w w' :
  Forall typed_input ins -> run_plan env (BatchAdd o id ins) w = Ok tt w' -> has_effect env w w'.
Proof.
  intros Hty Hr. cbn in Hr. unfold batch_add_beneficiaries, discard in Hr. run_inv. bool_hyps.
  match goal with Ha : foldM _ _ _ _ = _ |- _ => apply batch_add_edit in Ha as [(? & ? & ->) ?]; [|done] end.
  destruct_and?. run_inv. eapply edit_effect; done.
Qed.

Lemma batch_remove_book is_ acc :
  wf_book acc.1.1 acc.1.2 -> wf_book (fold_left batch_remove_one is_ acc).1.1 (fold_left batch_remove_one is_ acc).1.2.
Proof.
  revert acc. induction is_ as [|i is_ IH]; intros [[bs total] n] Hb; [done|]. apply IH. cbn in *.
  unfold vget. destruct (bs !! Z.to_nat i) as [b|] eqn:Hi; [|done]. cbn.
  pose proof (book_remove _ _ _ _ Hi Hb) as Hb'. pose proof Hb' as (_ & Hf & Hs & _).
  unfold saturating_sub. rewrite Z.max_r; [done|]. rewrite Hs. clear -Hf.
  unfold sum_bp. induction Hf; cbn; lia.
Qed.
Lemma batch_remove_effect env o id js w w' :
  run_plan env (BatchRemove o id js) w = Ok tt w' -> has_effect env w w'.
Proof.
  intros Hr. cbn in Hr. unfold batch_remove_beneficiaries, discard in Hr. run_inv. bool_hyps.
  destruct (fold_left _ _ _) as [[bs total] k] eqn:Hf. run_inv. edited.
  pose proof (batch_remove_book (sort_descending (valid_indices (len (beneficiaries x1)) js)) (_, _, 0) Hbook) as Hb.
  by rewrite Hf in Hb.
Qed.

End resting.

Lemma register_view id gs n : keeps view_of (register_guardians id gs n).
Proof. ih_keeps. Qed.
Lemma assign_role_view a r :
  keeps view_of (zoom (AccessControl.assign_role a r) : X unit).
Proof. ih_keeps. Qed.
Lemma fee_Ok env tok from to n u w w' :
  when (0 <? n) (let! _ := try_transfer env tok from to n in ret tt) w = Ok u w' ->
  exists t, w' = w <| toks := t |> /\
    (t = toks w \/ tk_transfer (toks w) (auths (sub_env env tok)) tok from to n = Some t).
Proof.
  unfold when. destruct (0 <? n); intros Hr.
  - run_inv; [eexists; split; [done|by right]|exists (toks w); split; [by destruct w|by left]].
  - apply ret_Ok in Hr as [_ ->]. exists (toks w). split; [by destruct w|by left].
Qed.
Lemma creation_fee_nonneg n : 0 <= n -> 0 <= creation_fee n.
Proof.
  intros Hn. unfold creation_fee, checked_mul64, checked_div. destruct (checked _ _) as [v|] eqn:Hc; cbn; [|done].
  apply checked_Some in Hc as [-> Hc]. apply Z.div_pos; lia.
Qed.
Lemma create_effect env p w w' :
  (forall id, may (Open id (cp_total_amount p - creation_fee (cp_total_amount p)))) ->
  typed_plan_call (CreatePlan p) -> run_plan env (CreatePlan p) w = Ok tt w' -> has_effect env w w'.
Proof.
  intros Hmay (Hty1 & Hty2 & _) Hr. cbn in Hr. unfold create_inheritance_plan, discard in Hr.
  run_inv; [|done]. bool_hyps.
  match goal with Hf : when _ _ _ = _ |- _ => apply fee_Ok in Hf as (? & -> & Hfee) end.
  match goal with Hm : register_guardians _ _ _ _ = _ |- _ =>
    apply (view_of_keeps _ _ _ _ (register_view _ _ _)) in Hm end.
  match goal with Hm : zoom (AccessControl.assign_role _ _) _ = _ |- _ =>
    apply (view_of_keeps _ _ _ _ (assign_role_view _ _)) in Hm end.
  match goal with Hc : checked_sub64 _ _ = _ |- _ => apply checked_Some in Hc as [-> Hnet] end.
  unfold has_effect, view_of in *. norm_ih.
  match goal with H1 : mkView _ _ _ _ _ _ = ?v, H2 : ?v = _ |- _ => rewrite H1, H2 end.
  pose proof (creation_fee_nonneg (cp_total_amount p) (proj1 Hty1)).
  eapply (Opened _ _ _ _ (mkPlan _ _ _ _ _ _ _ _ _ _ _ _ _ _ _ _) _ _ _ _); try done; cbn; [apply Hmay| |lia].
  split; [by eapply book_built|unfold u64; cbn; lia|done].
Qed.

Lemma plan_effect env c w w' :
  (forall x, plan_posts c x -> may x) -> typed_plan_call c -> run_plan env c w = Ok tt w' -> has_effect env w w'.
Proof.
  destruct c; cbn [typed_plan_call plan_posts]; intros Hm Hty Hr.
  1: eapply create_effect; [intros i; apply Hm; by exists i|done..].
  all: specialize (Hm _ eq_refl).
  - by eapply add_effect.
  - by eapply remove_effect.
  - by eapply flags_effect in Hr.
  - by eapply flags_effect in Hr.
  - destruct Hty. by eapply update_effect.
  - by eapply deposit_effect.
  - by eapply withdraw_effect.
  - by eapply priority_effect.
  - by eapply flags_effect in Hr.
  - by eapply owner_effect in Hr.
  - by eapply owner_effect in Hr.
  - by eapply batch_add_effect.
  - by eapply batch_remove_effect.
  - by eapply batch_allocate_effect.
Qed.
(** * Runs of effects *)

Definition wf_view (s : view) : Prop := map_Forall (fun _ p => wf_plan p) (vP s).
Lemma rewrites_wf id p p' s s' :
  rewrites id p p' s s' -> wf_view s -> u64 (total_amount p') -> wf_view s'.
Proof.
  intros (Hp & HP & (_ & Hl & _ & _ & Hs) & _) Hwf Ha. unfold wf_view. rewrite HP.
  pose proof (Hwf _ _ Hp) as [Hb _ Hl0]. apply map_Forall_insert_2; [|done].
  split; [by apply Hs|done|congruence].
Qed.
Lemma effect_wf env s s' : effect env s s' -> wf_view s -> wf_view s'.
Proof.
  intros He Hwf.
  assert (forall id p p' s s', rewrites id p p' s s' -> wf_view s -> u64 (total_amount p)) as Ha.
  { intros ? ? ? ? ? (Hp & _) Hw. by destruct (Hw _ _ Hp). }
  destruct He.
  - unfold wf_view. match goal with Hq : vP s' = _ |- _ => by rewrite Hq end.
  - eapply rewrites_wf; [done..|]. match goal with Hq : total_amount _ = _ |- _ => rewrite Hq end. by eapply Ha.
  - eapply rewrites_wf; [done..|]. congruence.
  - eapply rewrites_wf; [done..|]. match goal with Hq : rewrites _ _ _ _ _ |- _ => apply Ha in Hq; [|done] end.
    unfold u64 in *. lia.
  - eapply rewrites_wf; [done..|]. match goal with Hq : rewrites _ _ _ _ _ |- _ => apply Ha in Hq; [|done] end.
    unfold u64 in *. lia.
  - eapply rewrites_wf; [done..|]. congruence.
  - unfold wf_view. match goal with Hq : vP s' = _ |- _ => rewrite Hq end. by apply map_Forall_insert_2.
Qed.

Definition effects env : view -> view -> Prop := rtc (effect env).
Lemma effects_wf env s s' : effects env s s' -> wf_view s -> wf_view s'.
Proof. induction 1; eauto using effect_wf. Qed.

(** A well-formed contract: plans, and no yield position owes a negative credit. *)
Definition wf_world w : Prop :=
  wf_plans w /\ map_Forall (fun _ st => 0 <= pending_credit st) (Ys (yields w)).
(** What an invocation may do to a well-formed contract. *)
Definition evolves env w w' : Prop :=
  wf_world w -> wf_world w' /\ effects env (view_of w) (view_of w').
#[export] Instance evolves_preorder env : PreOrder (evolves env).
Proof.
  split; [by split; [|apply rtc_refl]|]. intros w1 w2 w3 H12 H23 Hwf.
  destruct (H12 Hwf) as [Hwf2 He2]. destruct (H23 Hwf2) as [Hwf3 He3]. split; [done|]. by etrans.
Qed.

Lemma effect_evolves env w w' :
  has_effect env w w' -> Ys (yields w') = Ys (yields w) -> evolves env w w'.
Proof.
  intros He Hy [Hp Hys]. split; [|by apply rtc_once]. split; [|by rewrite Hy].
  by apply (effect_wf _ _ _ He).
Qed.
(** The parts an invocation's effects are read from. *)
Definition sight w := (view_of w, Ys (yields w)).
Lemma sight_evolves env w w' : sight w' = sight w -> evolves env w w'.
Proof.
  intros Hs. assert (view_of w' = view_of w /\ Ys (yields w') = Ys (yields w)) as [Hv Hy].
  { unfold sight in Hs. by split; congruence. }
  intros [Hp Hys]. rewrite Hv. split; [|apply rtc_refl]. split; [|by rewrite Hy].
  unfold wf_plans. change (wf_view (view_of w')). by rewrite Hv.
Qed.
Lemma keeps_evolves {B} env (m : X B) : keeps sight m -> moves (evolves env) m.
Proof. intros Hk. eapply keeps_moves; [done|]. intros w w'. apply sight_evolves. Qed.

(** * Claims *)

Lemma share_of_nonneg n bp : 0 <= share_of n bp.
Proof. unfold share_of. apply as_u64_range. Qed.
Lemma payout_due_range w id i plan b :
  0 <= total_amount plan -> payout_due w id i plan b <> 0 ->
  0 < payout_due w id i plan b <= total_amount plan.
Proof.
  intros Ha Hnz. unfold payout_due, waterfall_payout in *.
  pose proof (share_of_nonneg (total_amount plan) (allocation_bp b)).
  destruct (_ && _); destruct (Z.ltb_spec 0 (settlement w id i)); lia.
Qed.
Lemma kept_paid plan i b f n :
  vget (beneficiaries plan) i = Some b -> kept plan (paid_plan plan i b f n).
Proof. intros Hb. kept_tac. by apply (book_set _ _ _ b); [|destruct f|]. Qed.
Lemma claim_yields env c : keeps (@yields T L) (run_claim env c).
Proof. destruct c; ih_keeps. Qed.
Lemma claim_effect env id a email code w w' :
  (forall n, may (PayOut id n)) -> wf_plans w ->
  claim_inheritance_plan env id a email code w = Ok tt w' -> has_effect env w w'.
Proof.
  intros Hmay Hp Hr. apply claim_Ok in Hr as (plan & i & b & v & Hc).
  destruct Hc as [[Ha _] _ _ [Hpl _] _ _ _ (_ & Hb & _) _ _ _ Hpay _ _ Hv Hm HP _ _ _ _ _ _ _ _ Hrest].
  pose proof (payout_due_range _ _ _ _ _ (proj1 (wf_amount _ (Hp _ _ Hpl))) Hpay) as Hr.
  eapply (PaidOut _ _ _ id plan _ v a); [apply Hmay| |done|done|done| |done].
  - split_and!; [done|done|by apply kept_paid|cbn; by rewrite Hrest..].
  - cbn. unfold saturating_sub. lia.
Qed.
Lemma claim_evolves env id a email code w w' :
  (forall n, may (PayOut id n)) ->
  claim_inheritance_plan env id a email code w = Ok tt w' -> evolves env w w'.
Proof.
  intros Hm Hr Hwf. pose proof (keeps_Ok _ _ _ _ _ (claim_yields env (Claim id a email code)) Hr) as Hy.
  apply effect_evolves; [|by rewrite Hy|done]. eapply claim_effect; [done|apply Hwf|done].
Qed.

(** Rewriting one plan. *)
Lemma store_lands env id p p' w :
  P (plans w) !! id = Some p ->
  (wf_world w -> has_effect env w (w <| plans := (plans w) <| P := <[id := p']> (P (plans w)) |> |>)) ->
  lands (evolves env) w (store_plan id p' w).
Proof.
  intros Hp He. assert (store_plan id p' w = Ok tt (w <| plans := (plans w) <| P := <[id := p']> (P (plans w)) |> |>))
    as -> by by apply store_plan_Ok.
  intros Hwf. exact (effect_evolves _ _ _ (He Hwf) eq_refl Hwf).
Qed.
(** A batch writes down. *)
Section writing.
Context (id : Z) (may_write : forall n, may (WriteDown id n)).
Lemma settle_lands env i p key h n w :
  P (plans w) !! id = Some p -> 0 <= n -> lands (evolves env) w (batch_settle env id i p key h n w).
Proof.
  intros Hp Hn. unfold batch_settle. apply lands_then; [exact _|apply keeps_evolves; ih_keeps|].
  intros [] w1 Hs. apply ih_save_Ok in Hs as [_ ->].
  apply lands_bind; [exact _| |].
  - apply (store_lands _ _ p); [done|]. intros [Hpl _]. destruct (Hpl id p Hp) as [_ [Hge _] _].
    apply (WrittenDown _ _ _ id p (p <| total_amount := saturating_sub (total_amount p) n |>)
      (Z.min n (total_amount p))); [apply may_write| |lia|cbn; unfold saturating_sub; lia|done].
    kept_rewrite.
  - intros ? ? _. apply lands_moves, keeps_evolves. ih_keeps.
Qed.
Lemma batch_entry_moves env email code : moves (evolves env) (batch_claim_entry env id email code).
Proof.
  intros w. unfold batch_claim_entry.
  apply lands_then; [exact _|apply keeps_evolves; ih_keeps|]. intros h w1 _.
  apply lands_then; [exact _|apply keeps_evolves; ih_keeps|]. intros c w2 _.
  destruct (bool_decide _); [done|].
  apply lands_then; [exact _|apply keeps_evolves; ih_keeps|]. intros [plan|] w3 Hp; [|done].
  apply get_plan_Ok in Hp as [Hp ->].
  apply lands_then; [exact _|apply keeps_evolves; ih_keeps|]. intros [i|n] w4 Hf; [|done].
  assert (w4 = w2) as ->.
  { unfold batch_find in Hf. run_bind Hf. apply ret_Ok in Hf as [_ ->].
    match goal with Ha : attempt _ _ = _ |- _ => by apply (keeps_Ok (fun w => w)) in Ha; [|ih_keeps] end. }
  apply lands_then; [exact _|apply keeps_evolves; ih_keeps|]. intros b w5 Hb. apply unwrap_Ok in Hb as [Hb ->].
  apply lands_then; [exact _|apply keeps_evolves; ih_keeps|]. intros active w5 Hact.
  apply is_emergency_active_Ok in Hact as [-> _]. destruct (_ && _); [done|].
  apply lands_bind; [exact _| |by intros].
  apply settle_lands; [by autorewrite with expire|apply share_of_nonneg].
Qed.
Lemma batch_claim_one_moves env acc x : moves (evolves env) (batch_claim_one env id acc x).
Proof.
  unfold batch_claim_one. destruct acc, x as [[]]. apply moves_bind; [exact _|apply keeps_evolves; ih_keeps|].
  intros _. apply moves_bind; [exact _|apply keeps_evolves; ih_keeps|]. intros ok.
  destruct (negb ok); [apply moves_ret; exact _|].
  apply moves_bind; [exact _|apply batch_entry_moves|]. intros. apply moves_ret; exact _.
Qed.
End writing.
Lemma auto_moves env id : may Rest -> moves (evolves env) (auto_trigger_check env id).
Proof.
  intros Hm w. destruct (auto_trigger_check env id w) as [u w'|e w'|] eqn:Hr; [| |done].
  - apply auto_trigger_Ok in Hr as [->|(plan & es & Hp & _ & _ & ->)]; [done|].
    apply effect_evolves; [|done]. by eapply triggered_effect.
  - by apply auto_trigger_Fail in Hr as ->.
Qed.
(** What each claim posts. *)
Definition claim_posts (c : claim_call) : posting -> Prop :=
  match c with
  | Claim id _ _ _ => fun x => exists n, x = PayOut id n
  | BatchClaim id _ => fun x => x = Rest \/ exists n, x = WriteDown id n
  end.
Lemma claim_call_evolves env c w w' :
  (forall x, claim_posts c x -> may x) -> run_claim env c w = Ok tt w' -> evolves env w w'.
Proof.
  destruct c; cbn; intros Hm; [apply claim_evolves; eauto|]. apply moves_Ok.
  unfold discard, batch_claim. repeat first
    [ apply auto_moves; by eauto | apply batch_claim_one_moves; by eauto | moves_step
    | apply keeps_evolves; solve [ih_keeps] ].
Qed.

(** * Yield *)

Lemma lands_quiet {A B} env (m : X A) (k : A -> X B) w :
  keeps sight m ->
  (forall a w1, m w = Ok a w1 -> sight w1 = sight w -> lands (evolves env) w1 (k a w1)) ->
  lands (evolves env) w (bind m k w).
Proof.
  intros Hm Hk. apply lands_then; [exact _|by apply keeps_evolves|]. intros a w1 Hr. apply Hk; [done|].
  by eapply keeps_Ok.
Qed.
Lemma sight_P w w' : sight w' = sight w -> P (plans w') = P (plans w) /\ Ys (yields w') = Ys (yields w).
Proof. unfold sight, view_of. by intros [=]. Qed.
(** Writing a yield state whose credit is not negative. *)
Lemma state_lands env id st w :
  (wf_world w -> 0 <= pending_credit st) -> lands (evolves env) w (set_yield_state id st w).
Proof.
  intros Hst. cbn. intros Hwf. pose proof (Hst Hwf). destruct Hwf as [Hp Hy].
  split; [|apply rtc_refl]. split; [done|]. cbn. by apply map_Forall_insert_2.
Qed.
Section credit.
Hypothesis credits : forall id n, may (Credit id n).
Lemma credit_lands env id p n w :
  P (plans w) !! id = Some p -> (wf_world w -> 0 <= n) -> u64 (total_amount p + n) ->
  lands (evolves env) w (store_plan id (p <| total_amount := total_amount p + n |>) w).
Proof.
  intros Hp Hn Hu. apply (store_lands env id p); [done|]. intros Hwf. eapply (Credited _ _ _ id p (p <| total_amount := total_amount p + n |>) n); [apply credits| |by apply Hn|done..].
  kept_rewrite.
Qed.
Lemma safe_add_ROk a b r : YieldMath.safe_add a b = ROk r <-> r = a + b /\ u64 (a + b).
Proof. unfold YieldMath.safe_add. rewrite rok_or_ROk. apply checked_Some. Qed.

Ltac quiet := apply lands_quiet; [ih_keeps|].
Ltac sights :=
  repeat match goal with
  | Hs : sight ?w1 = sight ?w2 |- _ => apply sight_P in Hs as [? ?]
  end.
Lemma lending_claim_u64 `{!LendingPeerTyped L} env id g w w' : lending_claim env id w = Ok g w' -> u64 g.
Proof.
  unfold lending_claim, invoke_lending_contract. intros Hr. run_bind Hr. run_bind Hr.
  destruct (lp_claim _ _ _ _ _) as [[g' l']|] eqn:Hc; [|done]. apply lp_claim_u64 in Hc.
  run_bind Hr. by apply ret_Ok in Hr as [-> _].
Qed.
(** The credit and the state written after a harvest of which [net] is kept. *)
Lemma harvest_lands {B} env id plan st f g (k : Z -> X B) net w :
  P (plans w) !! id = Some plan -> Ys (yields w) !! id = Some st -> 0 <= net ->
  (forall c, pending_credit (f c) = c) -> (forall total, keeps sight (k total)) ->
  (forall total credit, g total credit = (do! set_yield_state id (f credit); k total)) ->
  lands (evolves env) w
    ((let! total := if auto_compound (config st) then
        let! total := of_result (YieldMath.safe_add (total_amount plan) net) in
        do! store_plan id (plan <| total_amount := total |>); ret total
      else ret (total_amount plan) in
      let! credit := if auto_compound (config st) then ret (pending_credit st)
        else of_result (YieldMath.safe_add (pending_credit st) net) in
      g total credit) w).
Proof.
  intros Hp Hst Hn Hf Hk Hg. destruct (auto_compound (config st)).
  - apply lands_bind; [exact _| |].
    + quiet. intros t w1 Ht S1. apply of_result_Ok in Ht as [[-> Hu]%safe_add_ROk ->].
      apply lands_bind; [exact _|by apply credit_lands|by intros].
    + intros total w1 Hr. apply lands_then; [exact _|apply moves_ret; exact _|]. intros c w2 [-> ->]%ret_Ok.
      rewrite Hg. apply lands_bind; [exact _| |intros; by apply lands_moves, keeps_evolves].
      apply state_lands. rewrite Hf. run_inv. intros [_ Hy]. by apply (Hy id).
  - apply lands_then; [exact _|apply moves_ret; exact _|]. intros c w2 [-> ->]%ret_Ok.
    quiet. intros credit w1 Ht S1. apply of_result_Ok in Ht as [[-> Hu]%safe_add_ROk ->].
    rewrite Hg. apply lands_bind; [exact _| |intros; by apply lands_moves, keeps_evolves].
    apply state_lands. rewrite Hf. intros _. apply Hu.
Qed.
Lemma harvest_inner_moves `{!LendingPeerTyped L} env a id : moves (evolves env) (harvest_yield_inner env a id).
Proof.
  intros w. unfold harvest_yield_inner.
  quiet. intros plan w1 Hp S1. apply require_plan_Ok in Hp as [Hp ->].
  quiet. intros _ w2 _ S2. quiet. intros _ w3 _ S3.
  quiet. intros st w4 Hst S4. unfold require_yield_state, get_yield_state in Hst. run_inv.
  quiet. intros _ w5 _ S5. quiet. intros _ w6 _ S6. quiet. intros pending w7 _ S7.
  quiet. intros _ w8 _ S8. quiet. intros gross w9 Hg S9. apply lending_claim_u64 in Hg.
  quiet. intros _ w10 _ S10. quiet. intros [net fee] w11 Hs S11.
  apply of_result_Ok in Hs as [(_ & Hn & _)%YieldMath.split_ROk ->]; [|apply Hg].
  sights. assert (P (plans w10) !! id = Some plan /\ Ys (yields w10) !! id = Some st) as [? ?] by by split; congruence.
  eapply (harvest_lands env id plan st (fun c => harvested_state st c gross net fee (timestamp env) a) _ (fun total => _) net);
    [done..| | |]; cycle 2; [reflexivity|done|intros; ih_keeps].
Qed.
(** Reading the yield state. *)
Lemma require_state_Ok id st w w' :
  require_yield_state id w = Ok st w' <-> Ys (yields w) !! id = Some st /\ w' = w.
Proof.
  unfold require_yield_state, get_yield_state. rewrite bind_Ok. setoid_rewrite ok_or_Ok. split.
  - intros (? & ? & Hl & -> & ->). by apply ih_load_Ok in Hl as [-> ->].
  - intros [Hs ->]. eexists _, w. split; [by apply ih_load_Ok|done].
Qed.
Lemma register_moves env a id x : moves (evolves env) (register_yield_position env a id x).
Proof.
  intros w. unfold register_yield_position. quiet. intros _ w1 _ _. quiet. intros plan w2 _ _.
  quiet. intros _ w3 _ _. quiet. intros _ w4 _ _. quiet. intros _ w5 _ _.
  quiet. intros e w6 He _. unfold get_yield_state in He. apply ih_load_Ok in He as [-> ->].
  apply lands_bind; [exact _| |intros; apply lands_moves, keeps_evolves; ih_keeps].
  apply state_lands. intros [_ Hy]. unfold registered_state. destruct (Ys _ !! id) as [st|] eqn:Hst; [|done].
  exact (Hy id st Hst).
Qed.
(** A setting leaves the credit. *)
Lemma setting_moves env a id chk f e :
  (forall st, pending_credit (f st) = pending_credit st) ->
  moves (evolves env) (let! st := yield_settings env a id chk in do! set_yield_state id (f st); emit e).
Proof.
  intros Hf w. quiet. intros st w1 Hst _. unfold yield_settings in Hst. do 4 run_bind Hst.
  apply require_state_Ok in Hst as [Hst ->].
  apply lands_bind; [exact _| |intros; apply lands_moves, keeps_evolves; ih_keeps].
  apply state_lands. rewrite Hf. intros [_ Hy]. by apply (Hy id).
Qed.
Lemma unregister_moves env a id : moves (evolves env) (unregister_yield_position env a id).
Proof.
  intros w. unfold unregister_yield_position. quiet. intros _ w1 _ _.
  quiet. intros plan w2 Hp _. apply require_plan_Ok in Hp as [Hp ->].
  quiet. intros _ w3 _ S3. quiet. intros st w4 Hst S4. apply require_state_Ok in Hst as [Hst ->].
  sights. apply lands_bind; [exact _| |].
  - unfold when. destruct (Z.ltb_spec 0 (pending_credit st)); [|by apply lands_moves, moves_ret; exact _].
    quiet. intros t w5 Ht S5. apply of_result_Ok in Ht as [[-> Hu]%safe_add_ROk ->]. sights.
    apply credit_lands; [congruence|lia|done].
  - intros _ w5 _. apply lands_moves. apply moves_bind; [exact _|apply keeps_evolves; ih_keeps|]. intros _ w6.
    intros [Hp6 Hy6]. split; [|apply rtc_refl]. split; [done|]. cbn. by apply map_Forall_delete.
Qed.
Lemma compound_moves env a id : moves (evolves env) (compound_pending_yield env a id).
Proof.
  intros w. unfold compound_pending_yield. quiet. intros _ w1 _ _.
  quiet. intros plan w2 Hp _. apply require_plan_Ok in Hp as [Hp ->].
  quiet. intros _ w3 _ S3. quiet. intros st w4 Hst S4. apply require_state_Ok in Hst as [Hst ->].
  quiet. intros _ w5 _ S5. quiet. intros t w6 Ht S6. apply of_result_Ok in Ht as [[-> Hu]%safe_add_ROk ->]. sights.
  apply lands_bind; [exact _| |].
  - apply credit_lands; [congruence| |done]. intros [_ Hy]. apply (Hy id). congruence.
  - intros _ w7 _. apply lands_bind; [exact _|by apply state_lands|].
    intros. apply lands_moves, keeps_evolves. ih_keeps.
Qed.
Lemma yield_call_moves `{!LendingPeerTyped L} env c : moves (evolves env) (run_yield env c).
Proof.
  destruct c; cbn [run_yield]; try (apply keeps_evolves; ih_keeps; fail).
  - apply register_moves.
  - unfold discard, sync_yield_principal.
    repeat first [apply register_moves|moves_step|apply keeps_evolves; solve [ih_keeps]].
  - apply unregister_moves.
  - by apply (setting_moves env caller plan_id _ (fun st => st <| config := _ |>)).
  - by apply (setting_moves env caller plan_id _ (fun st => st <| ys_paused := _ |>)).
  - unfold discard, harvest_yield.
    repeat first [apply harvest_inner_moves|moves_step|apply keeps_evolves; solve [ih_keeps]].
  - unfold discard. repeat first [apply compound_moves|moves_step].
  - unfold discard, harvest_yield_batch, harvest_one.
    repeat first [apply harvest_inner_moves|moves_step|apply keeps_evolves; solve [ih_keeps]].
Qed.
End credit.
End ledger.
End InheritanceLedger.
