(* ===== verification/InheritanceSystem.v ===== *)
(** The inheritance contract as a whole
    ([contracts/inheritance-contract/src/lib.rs], [src/disputes.rs]): every
    entry point as one call, the steps of the network, an abstract ledger of the
    plans' money that the steps refine, and what holds of every reachable state. *)
From S2P Require Import Prelude Host AccessControl Token MockToken PlanVault InheritanceTypes.
From S2P Require Import YieldMath InheritanceCore InheritanceEmergency InheritanceTriggers InheritancePlans.
From S2P Require Import InheritanceClaims InheritanceWills InheritanceMessages InheritanceDisputes.
From S2P Require Import InheritanceYield InheritanceLedger InheritanceExample.
Import InheritanceTypes InheritanceCore InheritanceEmergency InheritanceTriggers.
Import InheritancePlans InheritanceClaims InheritanceWills InheritanceMessages.
Import InheritanceDisputes InheritanceYield InheritanceLedger.

Module InheritanceSystem.

(** * The abstract ledger *)

(** What the contract owes a plan and what the plan's vault holds of its token. *)
Record account := mkAccount { booked : Z; held : Z }.
Abbreviation ledger := (gmap Z account).

(** One posting on the books: nothing; tokens in, or booked tokens out, on both sides;
    booked money forgone; yield booked; or a new account whose vault holds at least
    what is booked, while others may be given tokens. *)
Definition gains (a a' : account) : Prop := booked a' = booked a /\ held a <= held a'.
Inductive lstep (l : ledger) : posting -> ledger -> Prop :=
  | Rests : lstep l Rest l
  | Deposits id n a : l !! id = Some a -> 0 < n ->
      lstep l (PayIn id n) (<[id := mkAccount (booked a + n) (held a + n)]> l)
  | Pays id n a : l !! id = Some a -> 0 < n <= booked a -> n <= held a ->
      lstep l (PayOut id n) (<[id := mkAccount (booked a - n) (held a - n)]> l)
  | Forgoes id n a : l !! id = Some a -> 0 <= n <= booked a ->
      lstep l (WriteDown id n) (<[id := mkAccount (booked a - n) (held a)]> l)
  | Books id n a : l !! id = Some a -> 0 <= n ->
      lstep l (Credit id n) (<[id := mkAccount (booked a + n) (held a)]> l)
  | Opens id n h l' : l !! id = None -> 0 < n <= h -> l' !! id = Some (mkAccount n h) ->
      (forall j, j <> id -> option_Forall2 gains (l !! j) (l' !! j)) -> lstep l (Open id n) l'.
(** A posting among those allowed. *)
Definition posted (may : posting -> Prop) (l l' : ledger) : Prop := exists x, may x /\ lstep l x l'.
(** The rest of the network can only give tokens. *)
Definition given (l l' : ledger) : Prop := forall j, option_Forall2 gains (l !! j) (l' !! j).

(** Every account's vault covers what is booked. *)
Definition backed (l : ledger) : Prop := map_Forall (fun _ a => booked a <= held a) l.

Lemma gains_refl a : gains a a.
Proof. by split. Qed.
Lemma gains_backed (l l' : ledger) j : option_Forall2 gains (l !! j) (l' !! j) -> backed l ->
  forall a', l' !! j = Some a' -> booked a' <= held a'.
Proof.
  intros Hg Hb a' Ha'. rewrite Ha' in Hg. inversion Hg as [a ? [Hk Hh] Ha|]; subst.
  symmetry in Ha. specialize (Hb _ _ Ha). cbn in Hb. lia.
Qed.
Lemma given_backed (l l' : ledger) : given l l' -> backed l -> backed l'.
Proof. intros Hg Hb j a' Ha'. by eapply gains_backed. Qed.
(** Only booking yield can leave an account uncovered. *)
Definition no_credit (x : posting) : Prop := match x with Credit _ _ => False | _ => True end.
Lemma posted_backed may (l l' : ledger) :
  (forall x, may x -> no_credit x) -> posted may l l' -> backed l -> backed l'.
Proof.
  intros Hm (x & Hx & Hl) Hb. specialize (Hm _ Hx). destruct Hl as [|id n a Ha ?|id n a Ha ? ?|id n a Ha ?|id n a Ha ?|id n h l' _ ? Ha Hj];
    [done|..|done|]; try (specialize (Hb _ _ Ha) as Hc; apply map_Forall_insert_2; [cbn in *; lia|done]).
  intros j b Hb'. destruct (decide (j = id)) as [->|Hne]; [|by eapply gains_backed; [apply Hj|..]].
  rewrite Ha in Hb'. injection Hb' as <-. cbn. lia.
Qed.

(** * The network *)

Section system.
Context {T L : Type} `{TokenLaws T} `{LendingPeerTyped L} `{HostFns}.
Abbreviation W := (world T L).
Abbreviation X A := (M W InheritanceError A).
Implicit Types (env : Env) (w : W).
(** The contract's own address. *)
Context (self : address).

(** Every entry point that can change state. *)
Inductive call :=
  | CAdmin (c : admin_call) | CEmergency (c : emergency_call) | CTrigger (c : trigger_call)
  | CPlan (c : plan_call) | CClaim (c : claim_call) | CWill (c : will_call)
  | CMessage (c : message_call) | CDispute (c : dispute_call) | CYield (c : yield_call).
Definition run_call env (c : call) : X unit :=
  match c with
  | CAdmin c => run_admin env c
  | CEmergency c => run_emergency env c
  | CTrigger c => run_trigger env c
  | CPlan c => run_plan env c
  | CClaim c => run_claim env c
  | CWill c => run_will env c
  | CMessage c => run_message env c
  | CDispute c => run_dispute env c
  | CYield c => run_yield env c
  end.
Definition typed_call (c : call) : Prop := match c with CPlan c => typed_plan_call c | _ => True end.
(** The calls that may book yield. *)
Definition credits (c : call) : bool := match c with CYield _ => true | _ => false end.

(** What each call posts: one posting, or, for batches and yield, several. *)
Definition posts (c : call) : posting -> Prop :=
  match c with
  | CPlan c => plan_posts c
  | CClaim c => claim_posts c
  | CYield _ => fun x => exists id n, x = Credit id n
  | _ => eq Rest
  end.
Definition once (c : call) : bool :=
  match c with CYield _ | CClaim (BatchClaim _ _) => false | _ => true end.
Lemma posts_credit c x : credits c = false -> posts c x -> no_credit x.
Proof. intros Hc Hx. destruct c as [| | |[]|[]| | | |]; cbn in *; naive_solver. Qed.

(** Calls that leave the money and the yield positions alone. *)
Lemma quiet_call {A} env (m : X A) w a w' :
  keeps (fun w => (money w, Ys (yields w))) m -> m w = Ok a w' ->
  has_effect (eq Rest) env w w' /\ Ys (yields w') = Ys (yields w).
Proof.
  intros Hk Hr. apply (keeps_Ok _ _ _ _ _ Hk) in Hr. assert (money w' = money w) by congruence.
  split; [by apply quiet_effect|congruence].
Qed.
Lemma trigger_Ys env c : keeps (fun w => Ys (yields w)) (run_trigger env c).
Proof. destruct c; ih_keeps. Qed.
Lemma plan_Ys env c : keeps (fun w => Ys (yields w)) (run_plan env c).
Proof. destruct c; ih_keeps. Qed.
Lemma call_effect env c w w' :
  once c = true -> typed_call c -> wf_plans w -> run_call env c w = Ok tt w' ->
  has_effect (posts c) env w w' /\ Ys (yields w') = Ys (yields w).
Proof.
  intros Ho Hty Hp Hr. destruct c as [c|c|c|c|c|c|c|c|c]; cbn in Hr; cbn [posts].
  - refine (quiet_call _ _ _ _ _ _ Hr). clear. destruct c; ih_keeps.
  - refine (quiet_call _ _ _ _ _ _ Hr). clear. destruct c; ih_keeps.
  - split; [by eapply trigger_effect|by apply (keeps_Ok _ _ _ _ _ (trigger_Ys env c) Hr)].
  - split; [by eapply plan_effect|by apply (keeps_Ok _ _ _ _ _ (plan_Ys env c) Hr)].
  - destruct c; [|done]. split; [eapply claim_effect; [|done..]; intros n; by exists n|].
    by rewrite (keeps_Ok _ _ _ _ _ (claim_yields env (Claim plan_id claimer email claim_code)) Hr).
  - refine (quiet_call _ _ _ _ _ _ Hr). clear. destruct c; ih_keeps.
  - refine (quiet_call _ _ _ _ _ _ Hr). clear. destruct c; ih_keeps.
  - refine (quiet_call _ _ _ _ _ _ Hr). clear. destruct c; ih_keeps.
  - done.
Qed.
Lemma call_evolves env c w w' :
  typed_call c -> run_call env c w = Ok tt w' -> evolves (posts c) env w w'.
Proof.
  intros Hty Hr Hwf. destruct (once c) eqn:Ho.
  - destruct (call_effect env c w w' Ho Hty (proj1 Hwf) Hr). by eapply effect_evolves.
  - revert Hwf. destruct c as [| | | |c| | | |c]; try done; cbn in Hr.
    + by eapply claim_call_evolves.
    + eapply (moves_Ok (evolves _ env)); [|exact Hr]. apply yield_call_moves; [|exact _]. intros id n. by exists id, n.
Qed.

(** ** Steps *)

(** The address of a plan's vault.  A vault's code calls nothing but the token,
    so it signs no invocation of this contract and its tokens leave it only by a
    release. *)
Definition vault_addr (id : Z) : address := deployed_address self (plan_vault_salt id).
Definition honest env : Prop := current_contract env = self /\ forall id, vault_addr id ∉ auths env.

(** An invocation of the contract, or the rest of the network moving tokens
    between other accounts and into the vaults. *)
Inductive step (may_credit : bool) : W -> W -> Prop :=
  | Invokes env c w : honest env -> typed_call c -> (credits c = true -> may_credit = true) ->
      step may_credit w (invoke (run_call env c) w).2
  | Elsewhere w t l :
      (forall tok id, tk_balance (toks w) tok (vault_addr id) <= tk_balance t tok (vault_addr id)) ->
      step may_credit w (w <| toks := t |> <| lend := l |>).

(** A contract deployed in a network whose future vault addresses owe nothing. *)
Definition starts w : Prop :=
  exists t l, w = deployed t l /\ forall tok id, 0 <= tk_balance t tok (vault_addr id).
Definition reachable (may_credit : bool) w : Prop := exists w0, starts w0 /\ rtc (step may_credit) w0 w.

(** ** The vaults *)

(** Every plan has its own vault, deployed at its address. *)
Record sound (s : view) : Prop := {
  so_vault : forall id, is_Some (vP s !! id) -> vpv s !! id = Some (vault_addr id) /\
    exists st, vvaults s !! vault_addr id = Some st /\ PlanVault.Ctl st = Some self /\ PlanVault.Pid st = Some id;
  so_own : forall i j, is_Some (vP s !! i) -> is_Some (vP s !! j) -> vault_addr i = vault_addr j -> i = j;
  so_next : forall id, is_Some (vP s !! id) -> id < default 1 (vNpi s);
  so_held : forall tok id, 0 <= tk_balance (vtoks s) tok (vault_addr id)
}.

Definition account_of (s : view) (id : Z) (p : InheritancePlan) : account :=
  mkAccount (total_amount p) (tk_balance (vtoks s) (token p) (vault_addr id)).
Definition abs (s : view) : ledger := map_imap (fun id p => Some (account_of s id p)) (vP s).
Lemma abs_lookup s id : abs s !! id = account_of s id <$> vP s !! id.
Proof. unfold abs. rewrite map_lookup_imap. by destruct (vP s !! id). Qed.

(** Tokens that reach a vault, leave it, or pass it by. *)
Lemma transfer_in (t t' : T) au tok from id n tok' j :
  from <> vault_addr id -> from <> vault_addr j ->
  tk_transfer t au tok from (vault_addr id) n = Some t' ->
  tk_balance t' tok' (vault_addr j) = tk_balance t tok' (vault_addr j) +
    (if decide (tok' = tok /\ vault_addr j = vault_addr id) then n else 0).
Proof.
  intros Hn Hj Ht. apply tk_transfer_spec in Ht as (_ & _ & ->); [|done]. f_equal. unfold moved.
  repeat case_decide; naive_solver lia.
Qed.
Lemma transfer_out (t t' : T) au tok to id n tok' j :
  to <> vault_addr id -> to <> vault_addr j ->
  tk_transfer t au tok (vault_addr id) to n = Some t' ->
  n <= tk_balance t tok (vault_addr id) /\
  tk_balance t' tok' (vault_addr j) = tk_balance t tok' (vault_addr j) -
    (if decide (tok' = tok /\ vault_addr j = vault_addr id) then n else 0).
Proof.
  intros Hn Hj Ht. apply tk_transfer_spec in Ht as (_ & Hle & ->); [|done]. split; [lia|].
  unfold moved. repeat case_decide; naive_solver lia.
Qed.
Lemma transfer_past (t t' : T) au tok from to n tok' j :
  from <> vault_addr j -> tk_transfer t au tok from to n = Some t' -> 0 <= n ->
  tk_balance t tok' (vault_addr j) <= tk_balance t' tok' (vault_addr j).
Proof.
  intros Hf Ht Hn. destruct (decide (from = to)) as [->|Hne].
  - by rewrite (tk_transfer_frame _ _ _ _ _ _ _ tok' (vault_addr j) Ht) by by right.
  - apply tk_transfer_spec in Ht as (_ & _ & ->); [|done]. unfold moved. repeat case_decide; naive_solver lia.
Qed.

(** The accounts the invocation does not act on. *)
Lemma others_gain s s' id p :
  vP s' = <[id := p]> (vP s) ->
  (forall tok j, j <> id -> is_Some (vP s !! j) ->
    tk_balance (vtoks s) tok (vault_addr j) <= tk_balance (vtoks s') tok (vault_addr j)) ->
  forall j, j <> id -> option_Forall2 gains (abs s !! j) (abs s' !! j).
Proof.
  intros HP Hb j Hj. rewrite !abs_lookup, HP, lookup_insert_ne by done.
  destruct (vP s !! j) as [q|] eqn:Hq; cbn; constructor. split; [done|]. apply Hb; [done|by eexists].
Qed.
Lemma all_gain s s' :
  vP s' = vP s ->
  (forall tok j, tk_balance (vtoks s) tok (vault_addr j) <= tk_balance (vtoks s') tok (vault_addr j)) ->
  forall j, option_Forall2 gains (abs s !! j) (abs s' !! j).
Proof.
  intros HP Hb j. rewrite !abs_lookup, HP. destruct (vP s !! j) as [q|]; cbn; constructor. split; [done|apply Hb].
Qed.
(** A rewrite of one plan keeps the vaults sound when no vault goes below zero. *)
Lemma rewrites_sound id p p' s s' :
  rewrites id p p' s s' -> sound s ->
  (forall tok j, 0 <= tk_balance (vtoks s') tok (vault_addr j)) -> sound s'.
Proof.
  intros (Hp & HP & _ & Hv & Hs & Hn) [Hso1 Hso2 Hso3 _] Hb.
  assert (forall j, is_Some (vP s' !! j) -> is_Some (vP s !! j)) as Hd.
  { intros j. rewrite HP, lookup_insert_is_Some'. intros [<-|?]; [by eexists|done]. }
  split; [..|done].
  - intros j Hj%Hd. rewrite Hv, Hs. by apply Hso1.
  - intros i j ?%Hd ?%Hd. by apply Hso2.
  - intros j Hj%Hd. rewrite Hn. by apply Hso3.
Qed.
(** One rewritten plan is one changed account. *)
Lemma rewrites_abs id p p' s s' :
  rewrites id p p' s s' ->
  (forall tok j, j <> id -> is_Some (vP s !! j) ->
    tk_balance (vtoks s') tok (vault_addr j) = tk_balance (vtoks s) tok (vault_addr j)) ->
  abs s !! id = Some (account_of s id p) /\ abs s' = <[id := account_of s' id p']> (abs s).
Proof.
  intros (Hp & HP & _) Hb. split; [by rewrite abs_lookup, Hp|]. apply map_eq. intros j. rewrite abs_lookup, HP.
  destruct (decide (j = id)) as [->|Hj]; [by rewrite !lookup_insert_eq|].
  rewrite !lookup_insert_ne, abs_lookup by done. destruct (vP s !! j) as [q|] eqn:Hq; [|done]. cbn.
  f_equal. unfold account_of. f_equal. apply Hb; [done|by eexists].
Qed.
Lemma booked_abs id p p' s s' :
  rewrites id p p' s s' -> sound s -> vtoks s' = vtoks s ->
  sound s' /\ abs s !! id = Some (account_of s id p) /\
  abs s' = <[id := mkAccount (total_amount p') (held (account_of s id p))]> (abs s).
Proof.
  intros Hr Hso Ht. pose proof Hr as (_ & _ & (Htok & _) & _). split.
  - eapply rewrites_sound; [done..|]. intros. rewrite Ht. by apply so_held.
  - destruct (rewrites_abs _ _ _ _ _ Hr) as [? ->]; [by rewrite Ht|]. split; [done|]. unfold account_of. cbn.
    by rewrite Ht, Htok.
Qed.
Lemma paid_in_refines env id p p' v from n s s' :
  honest env -> sound s -> rewrites id p p' s s' -> vpv s !! id = Some v -> from ∈ auths env -> 0 < n ->
  total_amount p' = total_amount p + n ->
  tk_transfer (vtoks s) (auths (sub_env env (token p))) (token p) from v n = Some (vtoks s') ->
  sound s' /\ lstep (abs s) (PayIn id n) (abs s').
Proof.
  intros [_ Hh] Hso Hr Hv Hf Hn Ha Ht. pose proof Hr as (Hp & _ & (Htok & _) & _).
  destruct (so_vault _ Hso id) as [Hv' _]; [by eexists|]. rewrite Hv' in Hv. injection Hv as <-.
  assert (forall j, from <> vault_addr j) as Hne by (intros j ->; by eapply Hh).
  pose proof (fun tok j => transfer_in _ _ _ _ _ _ _ tok j (Hne id) (Hne j) Ht) as Hb. split.
  - eapply rewrites_sound; [done..|]. intros. rewrite Hb. pose proof (so_held _ Hso tok j). case_decide; lia.
  - destruct (rewrites_abs _ _ _ _ _ Hr) as [Hl ->].
    { intros tok j Hj Hs. rewrite Hb, decide_False; [lia|]. intros [_ He]. apply Hj. eapply (so_own _ Hso); [done|by eexists|done]. }
    unfold account_of at 1. rewrite Ha, Htok, Hb, decide_True by done. by apply (Deposits _ id n _ Hl).
Qed.
Lemma paid_out_refines env id p p' v to n s s' :
  honest env -> sound s -> rewrites id p p' s s' -> vpv s !! id = Some v -> to ∈ auths env ->
  0 < n <= total_amount p -> total_amount p' = total_amount p - n ->
  tk_transfer (vtoks s) (auths (sub_env (sub_env env v) (token p))) (token p) v to n = Some (vtoks s') ->
  sound s' /\ lstep (abs s) (PayOut id n) (abs s').
Proof.
  intros [_ Hh] Hso Hr Hv Hf Hn Ha Ht. pose proof Hr as (Hp & _ & (Htok & _) & _).
  destruct (so_vault _ Hso id) as [Hv' _]; [by eexists|]. rewrite Hv' in Hv. injection Hv as <-.
  assert (forall j, to <> vault_addr j) as Hne by (intros j ->; by eapply Hh).
  pose proof (fun tok j => transfer_out _ _ _ _ _ _ _ tok j (Hne id) (Hne j) Ht) as Hb. split.
  - eapply rewrites_sound; [done..|]. intros. destruct (Hb tok j) as [Hle ->].
    pose proof (so_held _ Hso tok j). case_decide as Hd; [|lia]. destruct Hd as [-> ->]. lia.
  - destruct (rewrites_abs _ _ _ _ _ Hr) as [Hl ->].
    { intros tok j Hj Hs. destruct (Hb tok j) as [_ ->]. rewrite decide_False; [lia|].
      intros [_ He]. apply Hj. eapply (so_own _ Hso); [done|by eexists|done]. }
    destruct (Hb (token p) id) as [Hle Hbal]. rewrite decide_True in Hbal by done.
    unfold account_of at 1. rewrite Ha, Htok, Hbal. by apply (Pays _ id n _ Hl).
Qed.
(** A new plan gets a fresh account, paid for in full. *)
Lemma opened_refines env p adm fee t s s' :
  let id := default 1 (vNpi s) in
  honest env -> sound s -> vNpi s' = Some (id + 1) -> vP s' = <[id := p]> (vP s) -> 0 < total_amount p ->
  vvaults s !! vault_addr id = None -> vpv s' = <[id := vault_addr id]> (vpv s) ->
  (exists o, vvaults s' = <[vault_addr id := PlanVault.mkStore (Some true) (Some self) (Some o) (Some id)]> (vvaults s)) -> owner p ∈ auths env -> 0 <= fee ->
  (t = vtoks s \/ tk_transfer (vtoks s) (auths (sub_env env (token p))) (token p) (owner p) adm fee = Some t) ->
  tk_transfer t (auths (sub_env env (token p))) (token p) (owner p) (vault_addr id) (total_amount p) =
    Some (vtoks s') ->
  sound s' /\ lstep (abs s) (Open id (total_amount p)) (abs s').
Proof.
  intros id [_ Hh] Hso Hn HP Hpos Hfree Hpv [v Hvv] Ho Hfee Hft Ht.
  assert (forall j, owner p <> vault_addr j) as Hne by (intros j Hj; eapply Hh; by rewrite <-Hj).
  assert (forall tok j, tk_balance (vtoks s) tok (vault_addr j) <= tk_balance t tok (vault_addr j)) as Hf.
  { intros tok j. destruct Hft as [->|Hft]; [done|]. by eapply transfer_past. }
  pose proof (fun tok j => transfer_in _ _ _ _ _ _ _ tok j (Hne id) (Hne j) Ht) as Hb.
  assert (vP s !! id = None) as Hnew.
  { apply eq_None_not_Some. intros Hs. apply (so_next _ Hso) in Hs. unfold id in Hs. lia. }
  assert (forall j, is_Some (vP s !! j) -> vault_addr j <> vault_addr id) as Hdiff.
  { intros j Hj He. destruct (so_vault _ Hso j Hj) as (_ & st & Hs & _). by rewrite He, Hfree in Hs. }
  split; [split|].
  - intros j. rewrite HP, Hpv, Hvv. destruct (decide (j = id)) as [->|Hj].
    + rewrite !lookup_insert_eq. intros _. split; [done|]. by eexists.
    + rewrite !lookup_insert_ne by done. intros Hs. rewrite lookup_insert_ne by (intros He; by eapply Hdiff).
      by apply so_vault.
  - intros i j. rewrite HP, !lookup_insert_is_Some'. intros [<-|Hi] [<-|Hj] He; [done|..].
    + by destruct (Hdiff j Hj).
    + by destruct (Hdiff i Hi).
    + by apply (so_own _ Hso).
  - intros j. rewrite HP, Hn, lookup_insert_is_Some'. cbn. intros [<-|Hj]; [lia|].
    apply (so_next _ Hso) in Hj. fold id in Hj. lia.
  - intros tok j. rewrite Hb. pose proof (so_held _ Hso tok j). pose proof (Hf tok j). case_decide; lia.
  - eapply (Opens _ id _ (tk_balance (vtoks s') (token p) (vault_addr id)));
      [by rewrite abs_lookup, Hnew| |by rewrite abs_lookup, HP, lookup_insert_eq|].
    + rewrite Hb, decide_True by done. pose proof (so_held _ Hso (token p) id).
      pose proof (Hf (token p) id). lia.
    + eapply others_gain; [done|]. intros tok j Hj Hs. rewrite Hb. pose proof (Hf tok j). case_decide; lia.
Qed.

Lemma effect_refines may env s s' :
  honest env -> sound s -> effect may env s s' -> sound s' /\ posted may (abs s) (abs s').
Proof.
  intros Hh Hso [Hm HP Hv Ht Hvv Hn|id p p' Hm Hr Ha Ht|id p p' v from n Hm Hr Hv Hf Hn Ha _ Ht
    |id p p' v to n Hm Hr Hv Hf Hn Ha Ht|id p p' n Hm Hr Hn Ha Ht|id p p' n Hm Hr Hn Ha _ Ht
    |id p v adm fee t Hm -> Hn HP _ Hpos _ -> Hfree Hpv Hvv Ho _ Hfee Hft Ht].
  - split; [destruct Hso as [H1' H2' H3' H4']; split; rewrite ?HP, ?Hv, ?Ht, ?Hvv, ?Hn; done|].
    exists Rest. split; [done|]. assert (abs s' = abs s) as -> by (apply map_eq; intros j; rewrite !abs_lookup; unfold account_of; by rewrite HP, Ht).
    constructor.
  - destruct (booked_abs _ _ _ _ _ Hr Hso Ht) as (? & Hl & Hl'). split; [done|]. exists Rest. split; [done|].
    rewrite Ha in Hl'. rewrite Hl', (insert_id _ _ _ Hl). constructor.
  - edestruct paid_in_refines; [done..|]. split; [done|]. by eexists.
  - edestruct paid_out_refines; [done..|]. split; [done|]. by eexists.
  - destruct (booked_abs _ _ _ _ _ Hr Hso Ht) as (? & Hl & Hl'). split; [done|]. exists (WriteDown id n). split; [done|].
    rewrite Hl', Ha. by apply (Forgoes _ id n _ Hl).
  - destruct (booked_abs _ _ _ _ _ Hr Hso Ht) as (? & Hl & Hl'). split; [done|]. exists (Credit id n). split; [done|].
    rewrite Hl', Ha. by apply (Books _ id n _ Hl).
  - destruct Hh as [Hself Hh]. rewrite Hself in *. edestruct opened_refines; eauto; [done|]. split; [done|]. by eexists.
Qed.
Lemma effects_refine may env s s' :
  honest env -> sound s -> effects may env s s' -> sound s' /\ rtc (posted may) (abs s) (abs s').
Proof.
  intros Hh Hso He. induction He as [s|s1 s2 s3 He _ IH]; [done|].
  destruct (effect_refines _ _ _ _ Hh Hso He) as [Hso2 Hl]. destruct (IH Hso2) as [? ?].
  split; [done|]. by eapply rtc_l.
Qed.

(** ** Reachable states *)

Record good w : Prop := { good_wf : wf_world w; good_sound : sound (view_of w) }.
Lemma call_good env c w w' :
  honest env -> typed_call c -> run_call env c w = Ok tt w' -> good w ->
  good w' /\ rtc (posted (posts c)) (abs (view_of w)) (abs (view_of w')).
Proof.
  intros Hh Hty Hr [Hwf Hso]. destruct (call_evolves env c w w' Hty Hr Hwf) as [Hwf1 He].
  by destruct (effects_refine _ _ _ _ Hh Hso He) as [Hso1 Hl].
Qed.
Lemma elsewhere_good w t l :
  (forall tok id, tk_balance (toks w) tok (vault_addr id) <= tk_balance t tok (vault_addr id)) ->
  good w -> let w' := w <| toks := t |> <| lend := l |> in
  good w' /\ given (abs (view_of w)) (abs (view_of w')).
Proof.
  intros Hb [Hwf [H1' H2' H3' H4']]. split; [split; [done|split; [done..|]]|intros j; by apply all_gain].
  intros tok id. cbn. specialize (H4' tok id). specialize (Hb tok id). cbn in H4'. lia.
Qed.
Lemma step_good y w w' : step y w w' -> good w -> good w'.
Proof.
  intros [env c w0 Hh Hty _|w0 t l Hb] Hg; [|by apply elsewhere_good].
  unfold invoke. destruct (run_call env c w0) as [[] w1|e w1|] eqn:Hr; [|done|done]. by eapply call_good.
Qed.
(** Without yield, what is booked stays covered. *)
Lemma step_backed w w' : step false w w' -> good w -> backed (abs (view_of w)) -> backed (abs (view_of w')).
Proof.
  intros [env c w0 Hh Hty Hc|w0 t l Hb] Hg; [|apply given_backed; by apply elsewhere_good].
  unfold invoke. destruct (run_call env c w0) as [[] w1|e w1|] eqn:Hr; [|done|done]. cbn.
  destruct (call_good _ _ _ _ Hh Hty Hr Hg) as [_ Hl]. induction Hl; [done|]. intros ?. apply IHHl.
  eapply posted_backed; [|done..]. intros ?. apply posts_credit. destruct (credits c); [by discriminate Hc|done].
Qed.
Lemma starts_good w : starts w -> good w /\ abs (view_of w) = ∅.
Proof.
  intros (t & l & -> & Hb). split; [split; [by split|split]|done].
  - by intros id [].
  - by intros i j [].
  - by intros id [].
  - done.
Qed.
Lemma steps_good y w w' : rtc (step y) w w' -> good w -> good w'.
Proof. induction 1; eauto using step_good. Qed.
Lemma reachable_good y w : reachable y w -> good w.
Proof. intros (w0 & Hs & Hr). apply starts_good in Hs as [Hg _]. by eapply steps_good. Qed.
Lemma reachable_backed w : reachable false w -> backed (abs (view_of w)).
Proof.
  intros (w0 & Hs & Hr). apply starts_good in Hs as [Hg Ha]. assert (backed (abs (view_of w0))) as Hb by by rewrite Ha.
  clear Ha. induction Hr as [|w0 w1 w2 H01 _ IH]; [done|]. apply IH; [by eapply step_good|by eapply step_backed].
Qed.
(** A booked plan is covered by its vault. *)
Lemma reachable_covered w id p :
  reachable false w -> P (plans w) !! id = Some p ->
  total_amount p <= tk_balance (toks w) (token p) (vault_addr id).
Proof.
  intros Hb%reachable_backed Hp. apply (Hb id (account_of (view_of w) id p)). by rewrite abs_lookup; cbn; rewrite Hp.
Qed.
(** A run of invocations. *)
Definition runs w (ecs : list (Env * call)) : W :=
  fold_left (fun w ec => (invoke (run_call ec.1 ec.2) w).2) ecs w.
Lemma runs_steps y w ecs :
  Forall (fun ec => honest ec.1 /\ typed_call ec.2 /\ (credits ec.2 = true -> y = true)) ecs ->
  rtc (step y) w (runs w ecs).
Proof.
  revert w. induction ecs as [|[env c] ecs IH]; intros w Hf; [done|].
  apply Forall_cons in Hf as [(? & ? & ?) ?]. eapply rtc_l; [by apply Invokes|]. by apply IH.
Qed.

(** * Properties *)

(** C2: Call by call the inheritance contract implements a small ledger with one account
    per plan, what is booked and what its vault holds. From any reachable state a call
    that succeeds makes exactly its posting: a creation opens an account for the amount
    less the fee, paid in full; a deposit adds its amount to both sides; a withdrawal
    takes its amount off both sides; a claim takes a positive amount of at most what is
    booked off both sides; every other call leaves the ledger as it was, except that a
    batched claim may write down booked money of its plan without paying, and a call on
    yield may book money without tokens, any number of times. *)
Theorem network_refines_ledger y w env c w' :
  reachable y w -> honest env -> typed_call c -> run_call env c w = Ok tt w' ->
  (if once c then posted (posts c) else rtc (posted (posts c))) (abs (view_of w)) (abs (view_of w')).
Proof.
  intros Hg%reachable_good Hh Hty Hr. destruct (once c) eqn:Ho; [|by eapply call_good].
  destruct Hg as [[Hwf _] Hso]. eapply effect_refines; [done..|]. by eapply call_effect.
Qed.

(** C3: In every state reached from a fresh deployment by any calls except those of the
    yield component, every plan has its own vault, controlled by this contract, which
    holds at least the amount the plan books, in the plan's token. *)
Theorem plans_backed w id p :
  reachable false w -> P (plans w) !! id = Some p ->
  exists v st, pvault (plans w) !! id = Some v /\ vaults w !! v = Some st /\
    PlanVault.Ctl st = Some self /\ total_amount p <= tk_balance (toks w) (token p) v.
Proof.
  intros Hre Hp. pose proof (reachable_covered _ _ _ Hre Hp). apply reachable_good in Hre as [_ Hso].
  destruct (so_vault _ Hso id) as (Hv & st & Hst & Hc & _); [by eexists|]. by exists (vault_addr id), st.
Qed.

(** C13: In every reachable state every plan has at most ten beneficiaries, all shares are
    positive, the recorded total is their sum and at most the whole, the amount is a
    64-bit number, no loan is outstanding, and the plan's number is below the counter. *)
Theorem plans_well_formed y w id p :
  reachable y w -> P (plans w) !! id = Some p ->
  len (beneficiaries p) <= MAX_BENEFICIARIES /\ Forall (fun b => 0 < allocation_bp b) (beneficiaries p) /\
  total_allocation_bp p = sum_bp (beneficiaries p) /\ total_allocation_bp p <= 10000 /\
  u64 (total_amount p) /\ total_loaned p = 0 /\ id < default 1 (Npi (plans w)).
Proof.
  intros [[Hwf _] Hso]%reachable_good Hp. destruct (Hwf _ _ Hp) as [(? & ? & ? & ?) ? ?].
  split_and!; try done. by apply (so_next _ Hso); eexists.
Qed.

(** In every reachable state no loan is booked on any plan, so recalling a loan and
    writing loans off never succeed; for an administrator on a triggered plan they return
    NoOutstandingLoans without effect. *)
Theorem loans_unrecoverable y w env adm id n p info :
  reachable y w ->
  (forall w', recall_loan env adm id n w <> Ok tt w' /\ liquidation_fallback env adm id w <> Ok tt w') /\
  (adm ∈ auths env -> default false (AccessControl.Blacklisted (acl w) !! adm) = false ->
   AccessControl.Admin ∈ AccessControl.roles_of (acl w) adm -> P (plans w) !! id = Some p ->
   It (triggers w) !! id = Some info ->
   recall_loan env adm id n w = Fail NoOutstandingLoans w /\
   liquidation_fallback env adm id w = Fail NoOutstandingLoans w).
Proof.
  intros [[Hwf _] _]%reachable_good. unfold recall_loan, liquidation_fallback. split.
  - intros w'. split; intros Hr; run_inv; bool_hyps.
    all: match goal with Hp : P _ !! _ = Some _, Hl : total_loaned _ <> 0 |- _ => by apply Hl, (wf_loaned _ (Hwf _ _ Hp)) end.
  - intros ? ? ? Hp Hi. pose proof (wf_loaned _ (Hwf _ _ Hp)) as Hz.
    assert (triggered_plan env adm id w = Ok (p, info) w) as Ht by by apply triggered_plan_Ok.
    unfold bind. by rewrite Ht, Hz.
Qed.
End system.

(** * A run of the example network *)

Import InheritanceExample.

Lemma vault_high id : (100 < vault_addr self id)%positive.
Proof.
  unfold vault_addr, plan_vault_salt. cbn [deployed_address host].
  destruct (last _) as [z|]; cbn; lia.
Qed.
Lemma env_honest t signers : Forall (fun a => (a <= 100)%positive) signers -> honest self (env_at t signers).
Proof.
  intros Hf. split; [done|]. intros id Hin. unfold env_at in Hin. cbn [auths] in Hin. apply elem_of_list_to_set in Hin.
  rewrite Forall_forall in Hf. apply Hf in Hin. pose proof (vault_high id). lia.
Qed.
Lemma high_nothing tok a : (100 < a)%positive -> tk_balance network0 tok a = 0.
Proof.
  intros Ha. change (MockToken.net_balance network0 tok a = 0). unfold MockToken.net_balance, network0.
  destruct (decide (tok = usd)) as [->|]; [rewrite lookup_singleton_eq|by rewrite lookup_singleton_ne].
  cbn. unfold MockToken.balance_of. cbn.
  by rewrite !lookup_insert_ne, lookup_empty by (intros <-; vm_compute in Ha; done).
Qed.
Lemma fresh_starts : starts self fresh.
Proof.
  eexists _, _. split; [done|]. intros tok id. by rewrite high_nothing by apply vault_high.
Qed.

(** Setting up, funding the plan, and Bob's claim. *)
Definition demo : list (Env * call) :=
  map (fun ec => (ec.1, CAdmin ec.2)) setup ++
  [ (env_at 10 [alice], CPlan create); (env_at 100 [bob], CClaim (Claim 1 bob [98] 111111)) ].
Lemma demo_steps y : rtc (step self y) fresh (runs fresh demo).
Proof.
  apply runs_steps. repeat constructor; try done; try (apply env_honest; repeat constructor; done).
Qed.
Lemma demo_reachable y : reachable self y (runs fresh demo).
Proof. exists fresh. split; [apply fresh_starts|apply demo_steps]. Qed.
Definition final : W := runs fresh demo.

(** Bob's claim of 5880 is one payout on the books of plan 1. *)
Definition unclaimed : W := runs fresh (take 7 demo).
Lemma unclaimed_reachable y : reachable self y unclaimed.
Proof.
  exists fresh. split; [apply fresh_starts|]. apply runs_steps.
  repeat constructor; try done; try (apply env_honest; repeat constructor; done).
Qed.
Lemma network_refines_ledger_witness :
  exists n, lstep (abs self (view_of unclaimed)) (PayOut 1 n) (abs self (view_of final)) /\
    abs self (view_of unclaimed) !! 1 = Some (mkAccount 9800 9800) /\
    abs self (view_of final) !! 1 = Some (mkAccount 3920 3920).
Proof.
  assert (run_call (env_at 100 [bob]) (CClaim (Claim 1 bob [98] 111111)) unclaimed = Ok tt final) as Hr by by vm_compute.
  destruct (network_refines_ledger self false unclaimed (env_at 100 [bob]) (CClaim (Claim 1 bob [98] 111111)) final
    (unclaimed_reachable false)) as (x & [n ->] & Hl); [apply env_honest; by repeat constructor|done|exact Hr|].
  exists n. split; [exact Hl|split; by vm_compute].
Defined.

Lemma plans_backed_witness :
  exists p v st, P (plans final) !! 1 = Some p /\ total_amount p = 3920 /\
    pvault (plans final) !! 1 = Some v /\ vaults final !! v = Some st /\
    PlanVault.Ctl st = Some self /\ total_amount p <= tk_balance (toks final) (token p) v.
Proof.
  destruct (P (plans final) !! 1) as [p|] eqn:Hp; [|by vm_compute in Hp].
  destruct (plans_backed self final 1 p (demo_reachable false) Hp) as (v & st & ? & ? & ? & ?).
  exists p, v, st. split_and!; [done| |done..]. vm_compute in Hp. by injection Hp as <-.
Defined.

Lemma plans_well_formed_witness :
  exists p, P (plans final) !! 1 = Some p /\ len (beneficiaries p) = 2 /\
    total_allocation_bp p = sum_bp (beneficiaries p) /\ 1 < default 1 (Npi (plans final)).
Proof.
  destruct (P (plans final) !! 1) as [p|] eqn:Hp; [|by vm_compute in Hp].
  destruct (plans_well_formed self true final 1 p (demo_reachable true) Hp) as (_ & _ & ? & _ & _ & _ & ?).
  exists p. split_and!; [done| |done..]. vm_compute in Hp. by injection Hp as <-.
Defined.

(** The administrator cannot recall or write off anything once Alice has
    triggered her plan. *)
Definition triggered : W := runs final [(env_at 200 [alice], CTrigger (Trigger alice 1))].
Lemma triggered_reachable : reachable self false triggered.
Proof.
  exists fresh. split; [apply fresh_starts|]. etrans; [apply demo_steps|]. apply runs_steps.
  repeat constructor; try done. apply env_honest. by repeat constructor.
Qed.
Lemma loans_unrecoverable_witness :
  recall_loan (env_at 300 [admin]) admin 1 5 triggered = Fail NoOutstandingLoans triggered.
Proof.
  destruct (P (plans triggered) !! 1) as [p|] eqn:Hp; [|exfalso; by vm_compute in Hp].
  destruct (It (triggers triggered) !! 1) as [i|] eqn:Hi; [|exfalso; by vm_compute in Hi].
  refine (proj1 (proj2 (loans_unrecoverable self false triggered (env_at 300 [admin]) admin 1 5 p i
    triggered_reachable) _ _ _ Hp Hi)).
  - by apply (bool_decide_eq_true_1 _); vm_compute.
  - by vm_compute.
  - vm_compute. by constructor.
Defined.

End InheritanceSystem.
