(* ===== verification/InheritanceHistory.v ===== *)
(** What the inheritance contract never takes back
    ([contracts/inheritance-contract/src/lib.rs], [src/disputes.rs]): claims,
    triggers, will hashes, signatures, finalised wills and decided disputes, over
    every step of the network; at most one claim per plan and email. *)
From S2P Require Import Prelude Host AccessControl Token MockToken PlanVault InheritanceTypes.
From S2P Require Import YieldMath InheritanceCore InheritanceEmergency InheritanceTriggers InheritancePlans.
From S2P Require Import InheritanceClaims InheritanceWills InheritanceMessages InheritanceDisputes.
From S2P Require Import InheritanceYield InheritanceLedger InheritanceExample InheritanceSystem.
Import InheritanceTypes InheritanceCore InheritanceEmergency InheritanceTriggers.
Import InheritancePlans InheritanceClaims InheritanceWills InheritanceMessages.
Import InheritanceDisputes InheritanceYield InheritanceLedger InheritanceSystem.

Module InheritanceHistory.

(** * The relation *)

(** Later trigger records only add to earlier ones. *)
Definition trigger_lasts (its its' : gmap Z InheritanceTriggerInfo) : Prop :=
  forall id i, its !! id = Some i -> exists i', its' !! id = Some i' /\
    triggered_at i' = triggered_at i /\
    (loan_freeze_active i = true -> loan_freeze_active i' = true).
(** Flags that are set stay set. *)
Definition flags_last {K} `{Countable K} (m m' : gmap K bool) : Prop :=
  forall k, m !! k = Some true -> m' !! k = Some true.
(** The disputes are numbered below the counter. *)
Definition numbered (s : dispute_store) : Prop := forall id, is_Some (Ds s !! id) -> id < next_dispute_id s.
Definition decided_lasts (s s' : dispute_store) : Prop :=
  numbered s -> numbered s' /\
    forall id d, Ds s !! id = Some d -> is_final (status d) = true -> Ds s' !! id = Some d.

(** Legal holds and frozen beneficiaries are never written, a vesting settlement
    is never added. *)
Definition never_set {T L} (w w' : world T L) : Prop :=
  Lh (disputes w') = Lh (disputes w) /\ Fb (claims w') = Fb (claims w) /\
  (Ves (claims w) = ∅ -> Ves (claims w') = ∅).

Record lasting {T L} (w w' : world T L) : Prop := {
  la_claims : C (claims w) ⊆ C (claims w');
  la_triggers : trigger_lasts (It (triggers w)) (It (triggers w'));
  la_hashes : Wh (wills w) ⊆ Wh (wills w');
  la_final : flags_last (Wf (wills w)) (Wf (wills w'));
  la_used : flags_last (Su (wills w)) (Su (wills w'));
  la_witnessed : Wsig (wills w) ⊆ Wsig (wills w');
  la_decided : decided_lasts (disputes w) (disputes w');
  la_never : never_set w w'
}.

#[export] Instance lasting_preorder {T L} : PreOrder (@lasting T L).
Proof.
  split.
  - intros w. split; try done; try (by intros ? ?). by intros id i Hi; exists i.
  - intros w1 w2 w3 [] []. split; try (by etrans).
    + intros id i Hi. destruct (la_triggers0 id i Hi) as (i2 & Hi2 & ? & ?).
      destruct (la_triggers1 id i2 Hi2) as (i3 & ? & ? & ?). exists i3. split_and!; [done|congruence|auto].
    + intros k Hk. auto.
    + intros k Hk. auto.
    + intros Hn. destruct (la_decided0 Hn) as [Hn2 ?]. destruct (la_decided1 Hn2) as [? ?]. split; auto.
    + destruct la_never0 as (? & ? & ?), la_never1 as (? & ? & ?). split_and!; [congruence..|auto].
Qed.

Section history.
Context {T L : Type} `{TokenLaws T} `{LendingPeerTyped L} `{HostFns}.
Abbreviation W := (world T L).
Abbreviation X A := (M W InheritanceError A).
Implicit Types (env : Env) (w : W).

(** The records the relation is about. *)
Definition docket w := (Ds (disputes w), Ndi (disputes w), Lh (disputes w)).
Definition claimed w := (C (claims w), Ves (claims w), Fb (claims w)).
Definition records w := (claimed w, It (triggers w), wills w, docket w).
Lemma docket_decided w w' : docket w' = docket w -> decided_lasts (disputes w) (disputes w').
Proof. unfold decided_lasts, numbered, next_dispute_id. intros [= HD HN _]. by rewrite HD, HN. Qed.
Lemma unwritten_never w w' : claimed w' = claimed w -> docket w' = docket w -> never_set w w'.
Proof. unfold never_set. intros [= _ HV HF] [= _ _ HL]. by rewrite HV, HF, HL. Qed.
Lemma records_lasting w w' : records w' = records w -> lasting w w'.
Proof.
  unfold records. intros [= HC HV HF HI HW HD HN HL]. split; rewrite ?HC, ?HI, ?HW; try done; try (by intros ? ?).
  - by intros id i Hi; exists i.
  - apply docket_decided. unfold docket. congruence.
  - apply unwritten_never; unfold claimed, docket; congruence.
Qed.
Lemma keeps_lasting {A} (m : X A) : keeps records m -> moves lasting m.
Proof. intros Hk. eapply keeps_moves; [exact Hk|apply records_lasting]. Qed.

Lemma admin_records env c : keeps records (run_admin env c).
Proof. destruct c; ih_keeps. Qed.
Lemma emergency_records env c : keeps records (run_emergency env c).
Proof. destruct c; ih_keeps. Qed.
Lemma plan_records env c : keeps records (run_plan env c).
Proof. destruct c; ih_keeps. Qed.
Lemma message_records env c : keeps records (run_message env c).
Proof. destruct c; ih_keeps. Qed.
Lemma yield_records env c : keeps records (run_yield env c).
Proof. destruct c; ih_keeps. Qed.

(** ** Triggers *)

Lemma trigger_lasts_insert its id i :
  (forall j, its !! id = Some j -> triggered_at i = triggered_at j /\
     (loan_freeze_active j = true -> loan_freeze_active i = true)) ->
  trigger_lasts its (<[id := i]> its).
Proof.
  intros Hi j x Hx. destruct (decide (j = id)) as [->|].
  - exists i. rewrite lookup_insert_eq. split; [done|]. by apply Hi.
  - exists x. by rewrite lookup_insert_ne.
Qed.
(** Only the trigger records differ. *)
Lemma triggers_lasting w w' :
  claimed w' = claimed w -> wills w' = wills w -> docket w' = docket w ->
  trigger_lasts (It (triggers w)) (It (triggers w')) -> lasting w w'.
Proof.
  intros Hc HW HD HI. pose proof Hc as [= HC _ _]. split; rewrite ?HC, ?HW; try done; try (by intros ? ?).
  - by apply docket_decided.
  - by apply unwritten_never.
Qed.
Lemma triggered_lasting env id plan w :
  It (triggers w) !! id = None -> lasting w (triggered_now env id plan w).
Proof. intros Hn. apply triggers_lasting; [done..|]. apply trigger_lasts_insert. intros j. cbn. congruence. Qed.
Lemma may_trigger_records env a id : keeps records (may_trigger env a id).
Proof. ih_keeps. Qed.
Lemma collect_records env cfg signers l : keeps records (foldM (collect_guardian env cfg) signers l).
Proof. ih_keeps. Qed.
Lemma auto_lasting env id : moves lasting (auto_trigger_check env id : X unit).
Proof.
  intros w. destruct (auto_trigger_check env id w) as [u w'|e w'|] eqn:Hr; [| |done].
  - apply auto_trigger_Ok in Hr as [->|(plan & es & _ & _ & Hn & ->)]; [done|].
    etrans; [by apply (triggered_lasting env id plan)|by apply records_lasting].
  - by apply auto_trigger_Fail in Hr as ->.
Qed.
Lemma triggering_lasting env id plan w v w' :
  records v = records w -> It (triggers v) !! id = None -> records w' = records (triggered_now env id plan v) ->
  lasting w w'.
Proof.
  intros Hv Hn Hw. etrans; [by apply (records_lasting w v)|].
  etrans; [by apply (triggered_lasting env id plan)|by apply records_lasting].
Qed.
Lemma trigger_lasting env c w w' : run_trigger env c w = Ok tt w' -> lasting w w'.
Proof.
  intros Hr. destruct c; cbn in Hr.
  all: try (unfold set_trigger_conditions, add_time_trigger, add_inactivity_trigger, add_oracle_trigger,
    add_health_trigger, record_activity, submit_oracle_trigger, submit_health_trigger, config_with,
    oracle_config in Hr; run_inv; by apply records_lasting).
  - by apply (moves_Ok _ _ _ _ _ (auto_lasting _ _) Hr).
  - unfold trigger_inheritance in Hr. run_inv.
    match goal with Hm : may_trigger _ _ _ _ = Ok _ ?v, Hn : It (triggers ?v) !! _ = None |- _ =>
      apply (keeps_Ok _ _ _ _ _ (may_trigger_records _ _ _)) in Hm; by eapply (triggering_lasting env plan_id _ _ v) end.
  - unfold guardian_emergency_trigger in Hr. run_inv.
    match goal with Hm : foldM _ _ _ _ = Ok _ ?v, Hn : It (triggers ?v) !! _ = None |- _ =>
      apply (keeps_Ok _ _ _ _ _ (collect_records _ _ _ _)) in Hm; by eapply (triggering_lasting env plan_id _ _ v) end.
  - unfold freeze_loans in Hr. run_inv. apply triggers_lasting; [done..|]. apply trigger_lasts_insert.
    cbn. intros j Hj. by simplify_eq.
  - unfold recall_loan in Hr. run_inv. apply triggers_lasting; [done..|]. apply trigger_lasts_insert.
    cbn. intros j Hj. by simplify_eq.
  - unfold liquidation_fallback in Hr. run_inv. apply triggers_lasting; [done..|]. apply trigger_lasts_insert.
    cbn. intros j Hj. by simplify_eq.
Qed.

(** ** Claims *)

Lemma claim_lasting env id a email code w w' :
  claim_inheritance_plan env id a email code w = Ok tt w' -> lasting w w'.
Proof.
  intros Hr. assert (keeps (fun w => (wills w, disputes w)) (claim_inheritance_plan env id a email code)) as Hk by ih_keeps.
  apply (keeps_Ok _ _ _ _ _ Hk) in Hr as Hw. injection Hw as HW HD.
  apply claim_Ok in Hr as (plan & i & b & v & []). split; rewrite ?HW; try done; try (by intros ? ?).
  - rewrite cl_recorded0. destruct (settles _ _); [|done]. by apply insert_subseteq.
  - destruct cl_trigger0 as [->|[Hn ->]]; [by intros j x Hx; exists x|].
    apply trigger_lasts_insert. intros j. congruence.
  - apply docket_decided. unfold docket. by rewrite HD.
  - unfold never_set, settlement in *. rewrite HD. split_and!; [done|by rewrite cl_rest0|].
    intros Hves. rewrite cl_vesting0, Hves. by rewrite lookup_empty.
Qed.
Lemma batch_settle_lasting env id i plan key email n w :
  C (claims w) !! key = None -> lands lasting w (batch_settle env id i plan key email n w : outcome W InheritanceError unit).
Proof.
  intros Hn. unfold batch_settle. apply lands_bind; [exact _| |].
  - cbn. split; cbn; try done; try (by intros ? ?); [by apply insert_subseteq|by intros j x Hx; exists x].
  - intros _ w1 _. apply lands_moves, keeps_lasting. ih_keeps.
Qed.
Lemma batch_entry_lasting env id email code : moves lasting (batch_claim_entry env id email code : X Z).
Proof.
  intros w. unfold batch_claim_entry.
  apply lands_then; [exact _|apply keeps_lasting; ih_keeps|]. intros h w1 _.
  apply lands_then; [exact _|apply keeps_lasting; ih_keeps|]. intros c w2 Hc. apply ih_load_Ok in Hc as [-> ->].
  case_bool_decide as Hn; [apply lands_moves, moves_ret; exact _|]. apply eq_None_not_Some in Hn.
  apply lands_then; [exact _|apply keeps_lasting; ih_keeps|]. intros [plan|] w3 Hp; [|by apply lands_moves, moves_ret; exact _].
  apply get_plan_Ok in Hp as [Hp ->].
  apply lands_then; [exact _|apply keeps_lasting; ih_keeps|]. intros [i|n] w4 Hf; [|by apply lands_moves, moves_ret; exact _].
  assert (w4 = w1) as ->.
  { unfold batch_find in Hf. run_bind Hf. apply ret_Ok in Hf as [_ ->].
    match goal with Ha : attempt _ _ = _ |- _ => by apply (keeps_Ok (fun w => w)) in Ha; [|ih_keeps] end. }
  apply lands_then; [exact _|apply keeps_lasting; ih_keeps|]. intros b w5 Hb. apply unwrap_Ok in Hb as [Hb ->].
  apply lands_then; [exact _|apply keeps_lasting; ih_keeps|]. intros active w5 Hact.
  apply is_emergency_active_Ok in Hact as [-> _]. destruct (_ && _); [by apply lands_moves, moves_ret; exact _|].
  apply lands_bind; [exact _| |intros; by apply lands_moves, moves_ret; exact _]. apply batch_settle_lasting. by autorewrite with expire.
Qed.
Lemma batch_one_lasting env id acc x : moves lasting (batch_claim_one env id acc x : X (Z * Z)).
Proof.
  unfold batch_claim_one. destruct acc, x as [[]]. apply moves_bind; [exact _|apply keeps_lasting; ih_keeps|].
  intros _. apply moves_bind; [exact _|apply keeps_lasting; ih_keeps|]. intros ok.
  destruct (negb ok); [apply moves_ret; exact _|].
  apply moves_bind; [exact _|apply batch_entry_lasting|]. intros. apply moves_ret; exact _.
Qed.
Lemma claim_call_lasting env c w w' : run_claim env c w = Ok tt w' -> lasting w w'.
Proof.
  destruct c; cbn; [apply claim_lasting|]. apply moves_Ok.
  unfold discard, batch_claim. repeat first
    [ apply auto_lasting | apply batch_one_lasting | moves_step
    | apply keeps_lasting; solve [ih_keeps] ].
Qed.

(** ** Wills *)

Lemma flags_insert {K} `{Countable K} (m : gmap K bool) k : flags_last m (<[k := true]> m).
Proof. intros j Hj. destruct (decide (j = k)) as [->|]; [by rewrite lookup_insert_eq|by rewrite lookup_insert_ne]. Qed.
(** A call of the will component touches its own store only. *)
Lemma will_store_lasting w w' :
  claimed w' = claimed w -> It (triggers w') = It (triggers w) -> docket w' = docket w ->
  Wh (wills w) ⊆ Wh (wills w') -> flags_last (Wf (wills w)) (Wf (wills w')) ->
  flags_last (Su (wills w)) (Su (wills w')) -> Wsig (wills w) ⊆ Wsig (wills w') -> lasting w w'.
Proof.
  intros Hc HI HD ? ? ? ?. pose proof Hc as [= HC _ _]. split; rewrite ?HC, ?HI; try done.
  - by intros id i Hi; exists i.
  - by apply docket_decided.
  - by apply unwritten_never.
Qed.
Ltac will_step :=
  apply will_store_lasting; cbn; try done; try (by intros ? ?);
  try apply flags_insert; try (apply insert_subseteq; by apply eq_None_not_Some).
Lemma will_lasting env c w w' : run_will env c w = Ok tt w' -> lasting w w'.
Proof.
  intros Hr. destruct c; cbn in Hr.
  - unfold store_will_hash in Hr. run_inv. bool_hyps. will_step.
  - unfold link_will_to_vault in Hr. run_inv. will_step.
  - unfold discard, verify_beneficiaries in Hr. run_inv. will_step.
  - unfold discard, create_will_version, deactivate_active in Hr. run_inv.
    repeat (case_match; run_inv); will_step.
  - unfold sign_will in Hr. run_inv. will_step.
  - unfold add_witness in Hr. run_inv. will_step.
  - unfold sign_as_witness in Hr. run_inv. bool_hyps. will_step.
  - unfold finalize_will in Hr. run_inv. unfold when in *. repeat (case_match; run_inv); will_step.
Qed.

(** ** Disputes *)

(** An undecided dispute is rewritten. *)
Lemma decided_rewrite s id d d0 :
  Ds s !! id = Some d0 -> is_final (status d0) = false -> decided_lasts s (s <| Ds := <[id := d]> (Ds s) |>).
Proof.
  intros Hd Hf Hn. split.
  - intros j Hj. cbn in Hj. apply lookup_insert_is_Some' in Hj as [<-|Hj]; [apply Hn; by eexists|by apply Hn].
  - intros j x Hx Hfx. cbn. destruct (decide (j = id)) as [->|]; [congruence|by rewrite lookup_insert_ne].
Qed.
(** Only the disputes differ. *)
Lemma disputes_lasting w w' :
  claimed w' = claimed w -> It (triggers w') = It (triggers w) -> wills w' = wills w ->
  Lh (disputes w') = Lh (disputes w) -> decided_lasts (disputes w) (disputes w') -> lasting w w'.
Proof.
  intros [= HC HV HF] HI HW HL HD. split; rewrite ?HC, ?HI, ?HW; try done; try (by intros ? ?).
  - by intros id i Hi; exists i.
  - unfold never_set. by rewrite HL, HF, HV.
Qed.
Lemma chief_records : keeps (fun w => w) (chief_arbitrator : X address).
Proof. ih_keeps. Qed.
Lemma record_lasting env who id reason n w w' :
  record_dispute env who id reason w = Ok n w' -> lasting w w'.
Proof.
  unfold record_dispute. intros Hr. run_bind Hr. run_bind Hr.
  match goal with Hc : chief_arbitrator _ = _ |- _ => apply (keeps_Ok _ _ _ _ _ chief_records) in Hc as -> end.
  run_inv. apply disputes_lasting; [done..|]. intros Hn. cbn. split.
  - intros j Hj. cbn in *. apply lookup_insert_is_Some' in Hj as [<-|Hj]; [lia|]. apply Hn in Hj.
    unfold next_dispute_id in *. lia.
  - intros j x Hx _. cbn. rewrite lookup_insert_ne; [done|]. intros <-.
    pose proof (Hn _ ltac:(by eexists)). lia.
Qed.
Lemma resolve_one_lasting env id b arb n : moves lasting (resolve_one env id b arb n : X unit).
Proof.
  intros w. unfold resolve_one. apply lands_then; [exact _|apply keeps_lasting; ih_keeps|].
  intros [d|] w1 Hd; [|apply lands_moves, moves_ret; exact _]. apply ih_load_Ok in Hd as [Hd ->].
  unfold when. destruct (is_open (status d)) eqn:Ho; [|apply lands_moves, moves_ret; exact _].
  apply lands_bind; [exact _| |intros; apply lands_moves, keeps_lasting; ih_keeps].
  apply disputes_lasting; [done..|]. eapply decided_rewrite; [done|]. unfold is_final. by rewrite Ho.
Qed.
Lemma dispute_lasting env c w w' : run_dispute env c w = Ok tt w' -> lasting w w'.
Proof.
  intros Hr. destruct c; cbn in Hr.
  all: try (by eapply (moves_Ok lasting); [|exact Hr]; apply keeps_lasting; ih_keeps).
  - unfold discard in Hr. run_bind Hr. match goal with Hd : file_dispute _ _ _ _ _ = _ |- _ =>
      unfold file_dispute in Hd; do 4 run_bind Hd end.
    match goal with Hd : record_dispute _ _ _ _ _ = _ |- _ => apply record_lasting in Hd end.
    run_inv. etrans; [done|by apply records_lasting].
  - unfold discard in Hr. run_bind Hr. match goal with Hd : raise_dispute _ _ _ _ _ = _ |- _ =>
      unfold raise_dispute, freeze in Hd; do 4 run_bind Hd end.
    match goal with Hd : record_dispute _ _ _ _ _ = _ |- _ => apply record_lasting in Hd end.
    run_inv. etrans; [done|by apply records_lasting].
  - unfold review_dispute, freeze, is_arbitrator, get_dispute in Hr. run_inv. unfold when in *.
    repeat (case_match; run_inv); (apply disputes_lasting; [done..|]); bool_hyps.
    all: match goal with Hf : is_final _ = false |- _ => by apply (decided_rewrite _ _ _ _ ltac:(done) Hf) end.
  - unfold resolve_dispute in Hr. revert Hr. apply moves_Ok.
    repeat first [apply resolve_one_lasting|moves_step|apply keeps_lasting; solve [ih_keeps]].
Qed.

(** ** Steps *)

Lemma call_lasting env c w w' : run_call env c w = Ok tt w' -> lasting w w'.
Proof.
  destruct c; cbn; intros Hr.
  - by apply (moves_Ok _ _ _ _ _ (keeps_lasting _ (admin_records env c)) Hr).
  - by apply (moves_Ok _ _ _ _ _ (keeps_lasting _ (emergency_records env c)) Hr).
  - by eapply trigger_lasting.
  - by apply (moves_Ok _ _ _ _ _ (keeps_lasting _ (plan_records env c)) Hr).
  - by eapply claim_call_lasting.
  - by eapply will_lasting.
  - by apply (moves_Ok _ _ _ _ _ (keeps_lasting _ (message_records env c)) Hr).
  - by eapply dispute_lasting.
  - by apply (moves_Ok _ _ _ _ _ (keeps_lasting _ (yield_records env c)) Hr).
Qed.
Lemma step_lasting self y w w' : step self y w w' -> lasting w w'.
Proof.
  intros [env c w0 _ _ _|w0 t l _]; [|by apply records_lasting]. unfold invoke.
  destruct (run_call env c w0) as [[] w1|e w1|] eqn:Hr; cbn; [by eapply call_lasting|done..].
Qed.
Lemma steps_lasting self y w w' : rtc (step self y) w w' -> lasting w w'.
Proof. induction 1; [done|]. etrans; [by eapply step_lasting|done]. Qed.

(** Nothing is set in the beginning, so what is never written stays empty. *)
Definition unset w : Prop := numbered (disputes w) /\ Lh (disputes w) = ∅ /\ Fb (claims w) = ∅ /\ Ves (claims w) = ∅.
Lemma reachable_unset self y w : reachable self y w -> unset w.
Proof.
  intros (w0 & (t & l & -> & _) & Hr). apply steps_lasting in Hr as [_ _ _ _ _ _ Hd (HL & HF & HV)].
  split_and!; [apply Hd|exact HL|exact HF|by apply HV]. intros id [d Hi]. by cbn in Hi.
Qed.

(** ** Plans *)

(** Nothing changed but the attempt window of [a] on plan [id]. *)
Definition only_window (id : Z) (a : address) w w' : Prop :=
  w' = w <| claims := (claims w) <| Ca := Ca (claims w') |> |> /\
  forall k, k <> (id, a) -> Ca (claims w') !! k = Ca (claims w) !! k.
#[export] Instance only_window_preorder id a : PreOrder (only_window id a).
Proof.
  split; [intros w; split; [by destruct w as [? ? []]|done]|]. intros w1 w2 w3 [-> Ha] [-> Hb]. split; [done|].
  intros k Hk. cbn in *. by rewrite Hb, Ha.
Qed.
Lemma blacklist_keeps (a : address) : keeps (fun w => w) (require_not_blacklisted a : X unit).
Proof.
  intros w. unfold require_not_blacklisted, zoom. cbn. unfold AccessControl.require_not_blacklisted, AccessControl.is_blacklisted.
  cbv [bind gets ret reject_if fail]. by destruct w, (default _ _).
Qed.
Lemma claimer_only_window env id a : moves (only_window id a) (batch_claimer_ok env id a : X bool).
Proof.
  unfold batch_claimer_ok. repeat first
    [ progress cbn
    | moves_step
    | apply moves_modify; intros w; split; [done|]; intros k Hk; cbn; by rewrite lookup_insert_ne
    | apply moves_no_state; [exact _|solve [apply blacklist_keeps|ih_keeps]]
    | progress unfold check_and_record_claim_attempt, save, load ].
Qed.

(** The claim of [email] against plan [id] is spent: a direct claim does not succeed; an entry of
    a batch that returns counts one failure and changes at most the claimer's attempt window;
    and a whole batch counts no success for it. *)
Definition spent (id : Z) (email : list Z) (w : W) : Prop :=
  forall env,
    (forall a code w', claim_inheritance_plan env id a email code w <> Ok tt w') /\
    (forall a code s f n w', batch_claim_one env id (s, f) (a, email, code) w = Ok n w' ->
       n = (s, f + 1) /\ only_window id a w w') /\
    (forall xs n w', batch_claim env id xs w = Ok n w' ->
       n.1 <= len (filter (fun x => x.1.2 <> email) xs)).
Definition recorded (id : Z) (email : list Z) w : Prop := is_Some (C (claims w) !! claim_key id (sha256 email)).
Lemma recorded_lasts id email w w' : recorded id email w -> lasting w w' -> recorded id email w'.
Proof. intros [r Hr] Hl. exists r. by eapply lookup_weaken; [|apply (la_claims _ _ Hl)]. Qed.
Lemma entry_recorded env id email code n w w' :
  recorded id email w -> batch_claim_entry env id email code w = Ok n w' -> n = 1 /\ w' = w.
Proof.
  intros Hrec Hr. unfold batch_claim_entry in Hr. do 2 run_bind Hr.
  match goal with Hh : hash_string _ _ = _ |- _ => apply hash_string_Ok in Hh as (_ & -> & ->) end.
  match goal with Hl : load _ _ = _ |- _ => apply ih_load_Ok in Hl as [-> ->] end. cbn in Hr.
  rewrite bool_decide_true in Hr by done. by apply ret_Ok in Hr.
Qed.
Lemma one_recorded env id a email code s f n w w' :
  recorded id email w -> batch_claim_one env id (s, f) (a, email, code) w = Ok n w' ->
  n = (s, f + 1) /\ only_window id a w w'.
Proof.
  intros Hrec Hr. unfold batch_claim_one in Hr. do 2 run_bind Hr.
  match goal with Ha : require_auth _ _ _ = _ |- _ => apply require_auth_Ok in Ha as [_ ->] end.
  match goal with Hc : batch_claimer_ok _ _ _ _ = _ |- _ =>
    pose proof (moves_Ok _ _ _ _ _ (claimer_only_window _ _ _) Hc) as Hw end.
  destruct (negb _); [by apply ret_Ok in Hr as [-> ->]|].
  run_bind Hr. match goal with He : batch_claim_entry _ _ _ _ _ = _ |- _ => apply entry_recorded in He as [-> ->] end.
  - by apply ret_Ok in Hr as [-> ->].
  - unfold recorded. by rewrite (proj1 Hw).
Qed.
Lemma one_counts env id x n n' w w' : batch_claim_one env id n x w = Ok n' w' -> n'.1 <= n.1 + 1.
Proof.
  destruct n as [s f], x as [[a email] code]. intros Hr. unfold batch_claim_one in Hr. do 2 run_bind Hr.
  destruct (negb _); [by apply ret_Ok in Hr as [-> _]; cbn; lia|]. run_bind Hr. apply ret_Ok in Hr as [-> _].
  case_match; cbn; lia.
Qed.
Lemma fold_recorded env id email xs n n' w w' :
  recorded id email w -> foldM (batch_claim_one env id) xs n w = Ok n' w' ->
  n'.1 <= n.1 + len (filter (fun x => x.1.2 <> email) xs).
Proof.
  revert n w. induction xs as [|[[a e] code] xs IH]; intros n w Hrec Hr; cbn [foldM] in Hr.
  - apply ret_Ok in Hr as [-> _]. rewrite filter_nil. change (len []) with 0. lia.
  - run_bind Hr. match goal with Ho : batch_claim_one _ _ _ _ _ = _ |- _ => rename Ho into Hone end.
    pose proof (moves_Ok _ _ _ _ _ (batch_one_lasting _ _ _ _) Hone) as Hl.
    apply IH in Hr; [|by eapply recorded_lasts]. rewrite filter_cons. case_decide as He; cbn in He.
    + pose proof (one_counts _ _ _ _ _ _ _ Hone). unfold len in *. cbn. lia.
    + assert (e = email) as -> by (destruct (decide (e = email)); [done|by destruct He]). destruct n as [s f].
      apply one_recorded in Hone as [-> _]; [done|done].
Qed.
Lemma bind_recorded {A B} id email (m : X A) (k : A -> X B) w r w' :
  moves lasting m -> recorded id email w -> bind m k w = Ok r w' ->
  exists a w1, recorded id email w1 /\ k a w1 = Ok r w'.
Proof.
  intros Hm Hrec Hr. run_bind Hr. eexists _, _. split; [|exact Hr].
  eapply recorded_lasts; [exact Hrec|]. by eapply moves_Ok.
Qed.
Lemma recorded_spent id email w : recorded id email w -> spent id email w.
Proof.
  intros Hrec env. split_and!.
  - intros a code w' (? & ? & ? & ? & Hc)%claim_Ok. pose proof (cl_new _ _ _ _ _ _ _ _ _ _ _ Hc) as Hn.
    unfold recorded in Hrec. rewrite Hn in Hrec. by destruct Hrec.
  - intros a code s f n w'. by apply one_recorded.
  - intros xs n w' Hr. unfold batch_claim in Hr.
    do 9 (apply (bind_recorded id email) in Hr as (? & ? & Hv & Hr);
      [clear Hrec; rename Hv into Hrec|solve [repeat first [apply auto_lasting|moves_step|apply keeps_lasting; solve [ih_keeps]]]|done]).
    do 3 run_bind Hr. apply ret_Ok in Hr as [-> _].
    match goal with Hf : foldM _ _ _ _ = _ |- _ => by apply (fold_recorded _ _ email) in Hf end.
Qed.
(** A plan stays, with its token and date, and once inactive stays inactive. *)
Definition plans_last (ps ps' : gmap Z InheritancePlan) : Prop :=
  forall id p, ps !! id = Some p -> exists p', ps' !! id = Some p' /\ kept p p'.
#[export] Instance plans_last_preorder : PreOrder plans_last.
Proof.
  split; [by intros ps id p Hp; exists p|]. intros ps1 ps2 ps3 H12 H23 id p Hp.
  destruct (H12 id p Hp) as (p2 & Hp2 & ?). destruct (H23 id p2 Hp2) as (p3 & ? & ?). exists p3. split; [done|by etrans].
Qed.
Lemma rewrites_last id p p' (s s' : view (T := T)) : rewrites id p p' s s' -> plans_last (vP s) (vP s').
Proof.
  intros (Hp & -> & Hk & _) j q Hq. destruct (decide (j = id)) as [->|].
  - exists p'. rewrite lookup_insert_eq. by simplify_eq.
  - exists q. by rewrite lookup_insert_ne.
Qed.
Lemma effect_last self may env (s s' : view (T := T)) : sound self s -> effect may env s s' -> plans_last (vP s) (vP s').
Proof.
  intros Hso He. destruct He as [_ ->| | | | | |id p v adm fee t _ -> _ -> _]; try (by eapply rewrites_last); [done|].
  intros j q Hq. exists q. rewrite lookup_insert_ne; [done|]. intros <-.
  pose proof (so_next _ _ Hso _ ltac:(by eexists)). lia.
Qed.
Lemma effects_last self may env (s s' : view (T := T)) :
  honest self env -> sound self s -> effects may env s s' -> plans_last (vP s) (vP s').
Proof.
  intros Hh Hso He. induction He as [s|s1 s2 s3 He _ IH]; [done|].
  destruct (effect_refines _ _ _ _ _ Hh Hso He) as [Hso2 _]. etrans; [by eapply effect_last|by apply IH].
Qed.
Lemma step_last self y w w' :
  step self y w w' -> good self w -> plans_last (P (plans w)) (P (plans w')).
Proof.
  intros [env c w0 Hh Hty Hc|w0 t l _] [Hwf Hso]; [|done]. unfold invoke.
  destruct (run_call env c w0) as [[] w1|e w1|] eqn:Hr; [|done..]. cbn.
  destruct (call_evolves env c w0 w1 Hty Hr Hwf) as [_ He]. by apply (effects_last _ _ _ _ _ Hh Hso He).
Qed.
Lemma steps_last self y w w' :
  rtc (step self y) w w' -> good self w -> plans_last (P (plans w)) (P (plans w')).
Proof.
  induction 1 as [w|w1 w2 w3 Hs _ IH]; intros Hg; [done|].
  pose proof (step_last _ _ _ _ Hs Hg). pose proof (step_good _ _ _ _ Hs Hg) as Hg2.
  etrans; [done|by apply IH].
Qed.

(** * Properties *)

(** C9: No call takes back what was settled: claim records, triggers with their time and
    loan freeze, will hashes, used and witness signatures, finalised versions, decided
    disputes and inactive plans stay, in every continuation of every reachable state;
    legal holds and frozen beneficiaries are never written at all. *)
Theorem settled_forever self y w w' :
  reachable self y w -> rtc (step self y) w w' ->
  lasting w w' /\
  (forall id d, Ds (disputes w) !! id = Some d -> is_final (status d) = true -> Ds (disputes w') !! id = Some d) /\
  (forall id p, P (plans w) !! id = Some p -> exists p', P (plans w') !! id = Some p' /\
     token p' = token p /\ created_at p' = created_at p /\ (is_active p = false -> is_active p' = false)).
Proof.
  intros Hre Hs. pose proof (steps_lasting _ _ _ _ Hs) as Hl. split_and!; [done| |].
  - by apply (la_decided _ _ Hl), (reachable_unset self y).
  - intros id p Hp. destruct (steps_last _ _ _ _ Hs (reachable_good _ _ _ Hre) id p Hp) as (p' & Hp' & Ht & _ & Hc & Ha & _).
    exists p'. split_and!; [done..|]. intros Hi. destruct (is_active p'); [|done]. by rewrite Ha in Hi.
Qed.

(** C5: After a successful claim on a reachable state, whatever happened in between, the
    claim of the same plan and email is spent, whoever presents it with whatever code: a
    direct claim does not succeed; an entry of a batch that returns counts as one failure
    and changes nothing but, possibly, the attempt window of its claimer on this plan; and
    a whole batch that returns counts at most as many successes as it has entries with
    other emails. *)
Theorem claimed_once self y env id a email code w w1 w2 :
  reachable self y w -> claim_inheritance_plan env id a email code w = Ok tt w1 -> rtc (step self y) w1 w2 ->
  spent id email w2.
Proof.
  intros (_ & _ & _ & Hves)%reachable_unset (plan & i & b & v & Hc)%claim_Ok Hs%steps_lasting.
  pose proof (cl_recorded _ _ _ _ _ _ _ _ _ _ _ Hc) as HC. unfold settlement in HC. rewrite Hves, lookup_empty in HC.
  apply recorded_spent, (recorded_lasts _ _ w1); [|done]. unfold recorded. cbn in HC. by rewrite HC, lookup_insert_eq.
Qed.

End history.

(** * Concrete runs *)

Import InheritanceExample.

(** Alice triggers her plan after Bob's claim, which stays recorded. *)
Lemma settled_forever_witness :
  lasting final triggered /\ is_Some (C (claims final) !! claim_key 1 (sha256 [98])) /\
  It (triggers final) !! 1 = None /\ is_Some (It (triggers triggered) !! 1).
Proof.
  assert (rtc (step self false) final triggered) as Hs.
  { apply runs_steps. repeat constructor; try done. apply env_honest. by repeat constructor. }
  split; [exact (proj1 (settled_forever self false final triggered (demo_reachable false) Hs))|].
  apply (bool_decide_eq_true_1 _). by vm_compute.
Defined.

(** Bob's claim cannot be repeated, directly or in a batch, even once Alice has
    triggered the plan. *)
Definition triggering : list (Env * call) := [(env_at 200 [alice], CTrigger (Trigger alice 1))].
Lemma triggering_steps w : rtc (step self false) w (runs w triggering).
Proof. apply runs_steps. repeat constructor; try done. apply env_honest. by repeat constructor. Qed.
Definition again : Env := env_at 300 [bob].
Lemma claimed_once_witness :
  exists w1, claim_inheritance_plan (env_at 100 [bob]) 1 bob [98] 111111 unclaimed = Ok tt w1 /\
    (forall w3, claim_inheritance_plan again 1 bob [98] 111111 (runs w1 triggering) <> Ok tt w3) /\
    (exists w3, batch_claim again 1 [(bob, [98], 111111)] (runs w1 triggering) = Ok (0, 1) w3) /\
    (forall n w3, batch_claim again 1 [(bob, [98], 111111)] (runs w1 triggering) = Ok n w3 -> n.1 <= 0).
Proof.
  destruct (claim_inheritance_plan (env_at 100 [bob]) 1 bob [98] 111111 unclaimed) as [[] w1|e w1|] eqn:Hr;
    [|exfalso; by vm_compute in Hr..].
  exists w1. split; [reflexivity|].
  destruct (claimed_once self false (env_at 100 [bob]) 1 bob [98] 111111 unclaimed w1 _ (unclaimed_reachable false) Hr (triggering_steps w1)
    again) as (Hd & _ & Hb).
  split; [exact (Hd bob 111111)|]. split; [|exact (Hb [(bob, [98], 111111)])].
  vm_compute in Hr. injection Hr as <-. eexists. vm_compute. reflexivity.
Defined.

End InheritanceHistory.
