(* ===== verification/InheritanceProgress.v ===== *)
(** Claims that must go through, and claims that must not
    ([contracts/inheritance-contract/src/lib.rs], [claim_inheritance_plan]): the
    forward runs of its steps, the conditions under which a beneficiary is paid,
    and the error of every failing guard. *)
From S2P Require Import Prelude Host AccessControl Token MockToken PlanVault InheritanceTypes.
From S2P Require Import YieldMath InheritanceCore InheritanceEmergency InheritanceTriggers InheritancePlans.
From S2P Require Import InheritanceClaims InheritanceLedger InheritanceExample InheritanceSystem.
From S2P Require Import InheritanceHistory.
Import InheritanceTypes InheritanceCore InheritanceEmergency InheritanceTriggers.
Import InheritancePlans InheritanceClaims InheritanceLedger InheritanceSystem InheritanceHistory.

Module InheritanceProgress.

(** One step forward: the first command's run is shown, the rest is left. *)
Lemma runs_bind {W E A B} (m : M W E A) (k : A -> M W E B) w a w1 :
  m w = Ok a w1 -> (exists x w', k a w1 = Ok x w') -> exists x w', bind m k w = Ok x w'.
Proof. intros Hm Hk. unfold bind. by rewrite Hm. Qed.
Lemma fails_bind {W E A B} (m : M W E A) (k : A -> M W E B) e w a w1 :
  m w = Ok a w1 -> (exists w', k a w1 = Fail e w') -> exists w', bind m k w = Fail e w'.
Proof. intros Hm Hk. unfold bind. by rewrite Hm. Qed.
Ltac fwd t :=
  lazymatch goal with
  | |- exists w', bind _ _ _ = Fail _ w' => eapply fails_bind; [solve [t]|]
  | |- exists _, _ => eapply runs_bind; [solve [t]|]
  | |- _ => apply bind_Ok; do 2 eexists; split; [solve [t]|]
  end; cbv beta.
(** The same inside an equation. *)
Ltac skip t := erewrite bind_step; [|solve [t]]; cbv beta.

Section forward.
Context {T L : Type} `{TokenOps T} `{HostFns}.
Abbreviation W := (world T L).
Abbreviation X A := (M W InheritanceError A).
Implicit Types (env : Env) (w : W).

(** * The automatic trigger *)

(** No deadline of the plan's conditions overflows. *)
Definition conditions_fit w (id : Z) : Prop :=
  forall c, Tc (triggers w) !! id = Some c -> u64 (last_activity c + inactivity_period c).
Lemma any_condition_runs now c cs w :
  u64 (last_activity c + inactivity_period c) -> exists b, any_condition_met now c cs w = Ok b w.
Proof.
  intros Hu. induction cs as [|x cs [b IH]]; cbn; [by eexists|].
  assert (exists b, condition_met now c x w = Ok b w) as [b' Hb].
  { destruct x; cbn; try (by eexists). destruct (_ && _); [|by eexists]. eexists.
    fwd ltac:(by apply add64_Ok). done. }
  destruct b'; [exists true|exists b]; (fwd ltac:(exact Hb)); done.
Qed.
Lemma auto_runs env id w :
  conditions_fit w id -> exists r w', attempt (auto_trigger_check env id) w = Ok r w'.
Proof.
  intros Hc. unfold attempt. destruct (auto_trigger_check env id w) as [u w'|e w'|] eqn:Hr; [by eauto..|].
  exfalso. revert Hr. unfold auto_trigger_check, check_trigger_conditions, get_trigger_config, bind, load, gets. cbn.
  assert (exists b, (match Tc (triggers w) !! id with
    | Some c => any_condition_met (timestamp env) c (conditions c) | None => ret false end : X bool) w = Ok b w) as [b Hb].
  { destruct (Tc (triggers w) !! id) as [c|] eqn:Ht; [|by eexists]. by apply any_condition_runs, Hc. }
  rewrite Hb. destruct (negb b); [done|]. cbn. case_bool_decide; [done|].
  unfold require_plan, bind, get_plan, load, gets. cbn. destruct (P (plans w) !! id) as [p|] eqn:Hp; [|done]. cbn.
  destruct (negb (is_active p)); [done|]. cbn. unfold record_trigger, bind.
  rewrite (proj2 (store_plan_Ok _ _ _ _ _) (conj eq_refl eq_refl)). done.
Qed.

(** * Emergency access *)

Definition access_fits w (id : Z) : Prop :=
  forall r, Eac (triggers w) !! id = Some r -> u64 (activated_at r + EMERGENCY_EXPIRATION_PERIOD).
Lemma check_and_expire_runs env id w :
  access_fits w id -> exists b, check_and_expire_emergency_access env id w = Ok b (expire env id w).
Proof.
  intros Hf. unfold check_and_expire_emergency_access, expire, access_expired, bind, load, gets. cbn.
  destruct (Eac (triggers w) !! id) as [r|] eqn:Hr; [|by eexists].
  unfold add64, checked_add64. rewrite checked_in by by apply Hf. cbn. by destruct (_ <? _); eexists.
Qed.
Lemma emergency_cap_runs env id plan n w :
  access_fits w id ->
  (cooling env (expire env id w) id = true -> n <= share_of (total_amount plan) EMERGENCY_TRANSFER_LIMIT_BP) ->
  emergency_cap env id plan n w = Ok tt (expire env id w).
Proof.
  intros Hf Hc. destruct (check_and_expire_runs env id w Hf) as [b Hb].
  assert (is_emergency_active env id w = Ok (cooling env (expire env id w) id) (expire env id w)) as Ha.
  { destruct (is_emergency_active env id w) as [b' w'|e w'|] eqn:Hr.
    - by apply is_emergency_active_Ok in Hr as [-> ->].
    - exfalso. revert Hr. unfold is_emergency_active, bind. rewrite Hb. destruct (negb b); [done|].
      unfold load, gets, ret. cbn. by destruct (Eac _ !! id).
    - exfalso. revert Hr. unfold is_emergency_active, bind. rewrite Hb. destruct (negb b); [done|].
      unfold load, gets, ret. cbn. by destruct (Eac _ !! id). }
  fwd ltac:(exact Ha). apply reject_if_Ok. split; [|done].
  destruct (cooling env (expire env id w) id); [|done]. cbn. apply Z.ltb_ge. by apply Hc.
Qed.

(** * The search *)

Lemma find_claimant_runs id code email bs k i b w :
  code <= 999999 -> bs !! i = Some b -> matches w id code email (k + Z.of_nat i) b ->
  (forall j c, (j < i)%nat -> bs !! j = Some c -> ~ matches w id code email (k + Z.of_nat j) c) ->
  find_claimant id code email k bs w = Ok (Some (k + Z.of_nat i)) w.
Proof.
  intros Hc. revert k i. induction bs as [|x bs IH]; intros k i Hi Hm Hfirst; [done|]. cbn [find_claimant].
  destruct i as [|i].
  - injection Hi as ->. destruct Hm as (He & _ & Hh). rewrite bool_decide_true by done. cbn.
    change (Z.of_nat 0) with 0 in *. rewrite Z.add_0_r in *. fwd ltac:(apply hash_claim_code_with_salt_Ok; by split_and!).
    by rewrite bool_decide_true.
  - assert (find_claimant id code email (k + 1) bs w = Ok (Some (k + Z.of_nat (S i))) w) as Hrec.
    { replace (k + Z.of_nat (S i)) with (k + 1 + Z.of_nat i) by lia. apply IH; [done| |].
      - by replace (k + 1 + Z.of_nat i) with (k + Z.of_nat (S i)) by lia.
      - intros j c Hj Hcj. replace (k + 1 + Z.of_nat j) with (k + Z.of_nat (S j)) by lia. apply (Hfirst (S j)); [lia|done]. }
    pose proof (Hfirst 0%nat x ltac:(lia) eq_refl) as Hx. change (Z.of_nat 0) with 0 in Hx. rewrite Z.add_0_r in Hx. unfold matches in Hx.
    case_bool_decide as He; cbn; [|done]. fwd ltac:(apply hash_claim_code_with_salt_Ok; by split_and!).
    rewrite bool_decide_false; [done|]. intros Hh. by apply Hx.
Qed.

Lemma find_claimant_fails id code email bs k w :
  code <= 999999 -> unmatched w id code email k bs -> find_claimant id code email k bs w = Ok None w.
Proof.
  intros Hc. revert k. induction bs as [|x bs IH]; intros k Hu; [done|]. cbn [find_claimant].
  assert (find_claimant id code email (k + 1) bs w = Ok None w) as Hrec.
  { apply IH. intros m c Hm. replace (k + 1 + Z.of_nat m) with (k + Z.of_nat (S m)) by lia. by apply Hu. }
  pose proof (Hu 0%nat x eq_refl) as Hx. change (Z.of_nat 0) with 0 in Hx. rewrite Z.add_0_r in Hx. unfold matches in Hx.
  case_bool_decide as He; cbn; [|done]. fwd ltac:(apply hash_claim_code_with_salt_Ok; by split_and!).
  rewrite bool_decide_false; [done|]. intros Hh. by apply Hx.
Qed.

(** * The payout *)

Lemma release_runs env id tok to n v s c t w :
  pvault (plans w) !! id = Some v -> vaults w !! v = Some s -> PlanVault.Ctl s = Some c ->
  c ∈ auths (sub_env env v) -> n <> 0 ->
  tk_transfer (toks w) (auths (sub_env (sub_env env v) tok)) tok v to n = Some t ->
  release_from_plan_vault env id tok to n w = Ok tt (w <| toks := t |>).
Proof.
  intros Hv Hs Hc Hau Hn Ht. unfold release_from_plan_vault, require_plan_vault, get_plan_vault.
  fwd ltac:(fwd ltac:(by apply ih_load_Ok); apply ok_or_Ok; by split).
  apply call_vault_Ok. exists s, (PlanVault.mkWorld s t). split_and!; [done| |].
  - unfold PlanVault.release, require_auth, bind, gets. apply Z.eqb_neq in Hn. cbn. rewrite Hn. cbn. rewrite Hc. cbn.
    cbn in Hau, Ht. rewrite bool_decide_true by done. cbn. by rewrite Ht.
  - cbn. rewrite insert_id by done. by destruct w.
Qed.

(** * The claim *)

(** Position [i] holds the first beneficiary the email and the code open. *)
Definition first_match w (id code : Z) (email : hash) (i : nat) (plan : InheritancePlan) (b : Beneficiary) : Prop :=
  (i < Z.to_nat MAX_BENEFICIARIES)%nat /\ beneficiaries plan !! i = Some b /\ matches w id code email (Z.of_nat i) b /\
  forall j c, (j < i)%nat -> beneficiaries plan !! j = Some c -> ~ matches w id code email (Z.of_nat j) c.

(** The claimer may call the contract. *)
Definition admitted env (a : address) w : Prop :=
  a ∈ auths env /\ default false (AccessControl.Blacklisted (acl w) !! a) = false /\
  AccessControl.is_contract_paused (acl w) = false /\ AccessControl.pause_lock (acl w) = false /\
  AccessControl.ReentrancyLock (acl w) = None.
(** Everything a claim asks of the claimer, the plan and the moment. *)
Record entitled env (id : Z) (a : address) (email : bytes) (code : Z) w (plan : InheritancePlan)
    (i : nat) (b : Beneficiary) : Prop := {
  en_kyc : exists k, Ky (plans w) !! a = Some k /\ approved k = true;
  en_plan : P (plans w) !! id = Some plan /\ is_active plan = true;
  en_frozen : Fz (disputes w) !! id = None;
  en_attempts : attempts (rolled (timestamp env) (Ca (claims w) !! (id, a))) < CLAIM_MAX_ATTEMPTS_PER_WINDOW;
  en_fits : conditions_fit w id /\ access_fits w id;
  en_time : is_Some (It (triggers w) !! id) \/
    (method_allows (distribution_method plan) (timestamp env - created_at plan) = true /\
     u64 (timestamp env - created_at plan));
  en_email : len email <= 256;
  en_new : C (claims w) !! claim_key id (sha256 email) = None;
  en_match : first_match w id code (sha256 email) i plan b;
  en_turn : waterfall_enabled plan = true -> blocked_by b (beneficiaries plan) = false;
  en_share : share_of (total_amount plan) (allocation_bp b) <> 0;
  en_cooling : cooling env (expire env id w) id = true ->
    waterfall_payout plan b <= share_of (total_amount plan) EMERGENCY_TRANSFER_LIMIT_BP
}.

Lemma attempt_runs env id a w :
  attempts (rolled (timestamp env) (Ca (claims w) !! (id, a))) < CLAIM_MAX_ATTEMPTS_PER_WINDOW ->
  exists ca w', check_and_record_claim_attempt env id a w = Ok tt w' /\
    w' = w <| claims := (claims w) <| Ca := ca |> |>.
Proof.
  intros Ha. unfold check_and_record_claim_attempt, bind, load, gets. cbn.
  change (if _ <=? _ then _ else _) with (rolled (timestamp env) (Ca (claims w) !! (id, a))).
  destruct (Z.leb_spec CLAIM_MAX_ATTEMPTS_PER_WINDOW (attempts (rolled (timestamp env) (Ca (claims w) !! (id, a))))); [lia|].
  cbn. by eexists _, _.
Qed.
(** [total m]: [m] returns from every state. *)
Definition total {A} (m : X A) : Prop := forall w, exists x w', m w = Ok x w'.
Lemma total_bind {A B} (m : X A) (k : A -> X B) : total m -> (forall a, total (k a)) -> total (bind m k).
Proof. intros Hm Hk w. destruct (Hm w) as (a & w1 & Hr). unfold bind. rewrite Hr. apply Hk. Qed.
Lemma total_ret {A} (a : A) : total (ret a).
Proof. intros w. by eexists _, w. Qed.
Lemma total_modify f : total (modify f).
Proof. intros w. by eexists _, (f w). Qed.
Lemma total_gets {A} (f : W -> A) : total (gets f).
Proof. intros w. by exists (f w), w. Qed.
Lemma total_when b m : total m -> total (when b m).
Proof. destruct b; [done|]. intros _. apply total_ret. Qed.
Lemma total_store id p : total (store_plan id p).
Proof. intros w. eexists tt, _. by apply store_plan_Ok. Qed.
Lemma total_assign a r : total (zoom (AccessControl.assign_role a r) : X unit).
Proof.
  intros w. unfold zoom, AccessControl.assign_role, bind, gets. destruct (AccessControl.holds r _); by eexists _, _.
Qed.
Lemma total_exit : total exit_guard.
Proof. intros w. eexists tt, _. by apply exit_guard_Ok. Qed.
Ltac total_tac :=
  repeat first
  [ apply total_ret | apply total_modify | apply total_gets | apply total_store | apply total_assign | apply total_exit
  | apply total_bind; [|intros ?] | apply total_when
  | match goal with |- total (match ?x with _ => _ end) => destruct x end ].
Lemma settle_runs env id i plan key ex pay b w :
  vget (beneficiaries plan) i = Some b -> exists x w', settle_claim env id i plan key ex pay w = Ok x w'.
Proof.
  intros Hb.
  enough (total (settle_claim env id i plan key ex pay)) as Ht by apply Ht.
  unfold settle_claim, add_plan_to_claimed. rewrite Hb. unfold unwrap. total_tac.
Qed.

(** What the contract and the network owe the claim. *)
Record payable env (id : Z) (a : address) w (plan : InheritancePlan) (i : nat) (b : Beneficiary) : Prop := {
  pa_hold : Lh (disputes w) !! id = None;
  pa_vesting : Ves (claims w) = ∅ /\ Fb (claims w) = ∅;
  pa_plan : u64 (total_amount plan) /\ total_loaned plan = 0 /\ len (beneficiaries plan) <= MAX_BENEFICIARIES /\
    0 <= allocation_bp b <= 10000;
  pa_vault : exists v s t, pvault (plans w) !! id = Some v /\ vaults w !! v = Some s /\
    PlanVault.Ctl s = Some (current_contract env) /\
    tk_transfer (toks w) (auths (sub_env (sub_env env v) (token plan))) (token plan) v a (waterfall_payout plan b) = Some t
}.
Lemma entitled_ext env id a email code w w' plan i b :
  plans w' = plans w -> claims w' = claims w -> disputes w' = disputes w -> triggers w' = triggers w ->
  entitled env id a email code w plan i b -> entitled env id a email code w' plan i b.
Proof.
  intros HP HC HD HT []. split; rewrite ?HP, ?HC, ?HD, ?HT; try done.
  - unfold conditions_fit, access_fits. by rewrite HT.
  - unfold first_match, matches. by rewrite HC.
  - intros Hc. apply en_cooling0. rewrite <-Hc. apply cooling_ext. by rewrite HT.
Qed.
Lemma payable_ext env id a w w' plan i b :
  plans w' = plans w -> claims w' = claims w -> disputes w' = disputes w -> toks w' = toks w -> vaults w' = vaults w ->
  payable env id a w plan i b -> payable env id a w' plan i b.
Proof. intros HP HC HD HT HV []. by split; rewrite ?HP, ?HC, ?HD, ?HT, ?HV. Qed.

Lemma auto_triggers_some env id w ps its :
  auto_triggers env id w ps its -> is_Some (It (triggers w) !! id) -> is_Some (its !! id).
Proof. intros [[_ ->]|(p & _ & _ & Hn & _)]; [done|]. rewrite Hn. by intros []. Qed.
Lemma waterfall_share plan b :
  u64 (total_amount plan) -> 0 <= allocation_bp b <= 10000 ->
  (waterfall_enabled plan = true -> blocked_by b (beneficiaries plan) = false) ->
  waterfall_payout plan b = share_of (total_amount plan) (allocation_bp b).
Proof.
  intros Hu Hbp Ht. unfold waterfall_payout. destruct (share_of_exact _ _ Hu Hbp) as [_ ?].
  destruct (waterfall_enabled plan); [rewrite Ht by done|]; cbn; lia.
Qed.
(** The first guards hold. *)
Record presentable env (id : Z) (a : address) w (plan : InheritancePlan) : Prop := {
  pr_kyc : exists k, Ky (plans w) !! a = Some k /\ approved k = true;
  pr_plan : P (plans w) !! id = Some plan /\ is_active plan = true;
  pr_held : Fz (disputes w) !! id = None /\ Lh (disputes w) !! id = None
}.
(** ... and so do those on the moment. *)
Record timely env (id : Z) (a : address) (email : bytes) w (plan : InheritancePlan) : Prop := {
  ti_attempts : attempts (rolled (timestamp env) (Ca (claims w) !! (id, a))) < CLAIM_MAX_ATTEMPTS_PER_WINDOW;
  ti_fits : conditions_fit w id;
  ti_time : is_Some (It (triggers w) !! id) \/
    (method_allows (distribution_method plan) (timestamp env - created_at plan) = true /\
     u64 (timestamp env - created_at plan));
  ti_email : len email <= 256
}.
Lemma body_prefix env id a email code w p :
  presentable env id a w p -> timely env id a email w p ->
  exists tr w2, claim_body env id a email code w = pay_claim env id a email code p tr w2 /\
    C (claims w2) = C (claims w) /\ Cs (claims w2) = Cs (claims w) /\ Ves (claims w2) = Ves (claims w) /\
    Fb (claims w2) = Fb (claims w) /\ pvault (plans w2) = pvault (plans w) /\
    Eac (triggers w2) = Eac (triggers w) /\ toks w2 = toks w /\ vaults w2 = vaults w.
Proof.
  intros [Hky [Hp Hact] Hheld] [Hat Hfc Htime _].
  destruct (attempt_runs env id a w Hat) as (ca & w1 & Hca & Hw1).
  destruct (auto_runs env id w1) as (r & w2 & Hauto); [by rewrite Hw1|].
  apply attempt_auto_Ok in Hauto as Hw2. destruct Hw2 as (ps & its & es & Hw2 & Hat2).
  assert (It (triggers w1) = It (triggers w)) as HI by by rewrite Hw1.
  exists (bool_decide (is_Some (its !! id))), w2. split; [|by rewrite Hw2, Hw1].
  unfold claim_body. skip ltac:(by apply check_kyc_approved_Ok). skip ltac:(by apply require_plan_Ok).
  skip ltac:(apply reject_if_Ok; split; [by rewrite Hact|done]). skip ltac:(by apply require_not_held_Ok).
  skip ltac:(exact Hca). skip ltac:(exact Hauto). skip ltac:(by apply ih_load_Ok). cbn [sget sub_triggers].
  replace (It (triggers w2)) with its by by rewrite Hw2.
  skip ltac:(apply require_claim_time_Ok; split; [|done]; destruct Htime as [Htr|Htm]; [left|by right];
    apply bool_decide_eq_true; by eapply auto_triggers_some; [|rewrite HI]).
  done.
  Unshelve. all: exact tt.
Qed.
Lemma body_runs env id a email code w plan i b :
  entitled env id a email code w plan i b -> payable env id a w plan i b ->
  exists w', claim_body env id a email code w = Ok tt w'.
Proof.
  intros [Hky Hplan Hfz Hat [Hfc Hfa] Htime Hem Hnew (Hi & Hb & Hm & Hfirst) Hturn Hsh Hcool]
    [Hlh [Hves Hfb] (Hu & Hln & Hlen & Hbp) (v & s & t & Hv & Hs & Hctl & Ht)].
  destruct (body_prefix env id a email code w plan) as (tr & w2 & Hpre & HC & HS & HV & HF & HP & HE & HT & HVa); [done..|].
  rewrite Hpre. enough (exists x w', pay_claim env id a email code plan tr w2 = Ok x w') as ([] & w' & Hr) by by exists w'.
  assert (take (Z.to_nat MAX_BENEFICIARIES) (beneficiaries plan) = beneficiaries plan) as Htake.
  { apply take_ge. unfold len in Hlen. lia. }
  pose proof (waterfall_share plan b Hu Hbp Hturn) as Hpay.
  rewrite Hpay in Hcool, Ht. destruct (share_of_exact (total_amount plan) (allocation_bp b) Hu Hbp) as [_ Hle].
  assert (vget (beneficiaries plan) (0 + Z.of_nat i) = Some b) as Hget by by rewrite Z.add_0_l; unfold vget; rewrite Nat2Z.id.
  unfold pay_claim. fwd ltac:(by apply hash_string_Ok). fwd ltac:(by apply ih_load_Ok).
  fwd ltac:(apply reject_if_Ok; split; [|done]; apply bool_decide_eq_false, eq_None_not_Some; cbn; by rewrite HC).
  fwd ltac:(rewrite Htake; apply (find_claimant_runs _ _ _ _ 0 i b); [apply Hm|done|..];
    unfold matches, salt_of in *; rewrite HS; [exact Hm|exact Hfirst]).
  fwd ltac:(by apply ok_or_Ok). fwd ltac:(by apply ih_load_Ok).
  fwd ltac:(apply reject_if_Ok; split; [|done]; cbn; by rewrite HF, Hfb).
  fwd ltac:(by apply reject_if_Ok). fwd ltac:(by apply unwrap_Ok).
  fwd ltac:(apply reject_if_Ok; split; [|done]; rewrite Htake; by destruct (waterfall_enabled plan); [apply Hturn|]).
  fwd ltac:(fwd ltac:(by apply unwrap_Ok); apply ret_Ok; by rewrite Hpay). fwd ltac:(by apply ih_load_Ok).
  assert (default 0 (Ves (claims w2) !! (id, 0 + Z.of_nat i)) = 0) as Hex by by rewrite HV, Hves.
  cbn [sget sub_claims]. rewrite Hex. change (0 <? 0) with false. cbv iota. rewrite ?Hpay.
  fwd ltac:(apply emergency_cap_runs; [unfold access_fits; by rewrite HE|
    rewrite (cooling_ext env id w2 w) by done; exact Hcool]).
  fwd ltac:(apply reject_if_Ok; split; [|done]; apply andb_false_intro2, Z.ltb_ge; rewrite Hln; ulia).
  fwd ltac:(apply reject_if_Ok; split; [|done]; by apply Z.eqb_neq).
  fwd ltac:(eapply release_runs; autorewrite with expire; rewrite ?HP, ?HVa, ?HT; [exact Hv|exact Hs|exact Hctl| | |exact Ht];
    [cbn; set_solver|done]).
  match goal with |- exists x w', bind _ _ ?w3 = _ => destruct (settle_runs env id (0 + Z.of_nat i) plan (claim_key id (sha256 email)) 0
    (share_of (total_amount plan) (allocation_bp b)) b w3 Hget) as ([] & w4 & Hset) end.
  fwd ltac:(exact Hset).
  match goal with |- exists x w', ?m w4 = _ => assert (total m) as Htot by total_tac; apply Htot end.
  Unshelve. all: exact tt.
Qed.

Lemma enter_runs w :
  AccessControl.ReentrancyLock (acl w) = None -> exists w', enter_guard w = Ok tt w' /\
    plans w' = plans w /\ claims w' = claims w /\ disputes w' = disputes w /\ triggers w' = triggers w /\
    toks w' = toks w /\ vaults w' = vaults w.
Proof. intros Hl. eexists. split; [by apply enter_guard_Ok|done]. Qed.
Lemma claim_terminates env id a email code w plan i b :
  admitted env a w -> entitled env id a email code w plan i b -> payable env id a w plan i b ->
  exists w', claim_inheritance_plan env id a email code w = Ok tt w'.
Proof.
  intros (Hau & Hbl & Hpa & Hpl & Hlk) He Hp.
  destruct (enter_runs w Hlk) as (w1 & He1 & HP & HC & HD & HI & HT & HV).
  destruct (body_runs env id a email code w1 plan i b) as [w' Hbody];
    [by apply (entitled_ext _ _ _ _ _ w)|by apply (payable_ext _ _ _ w)|].
  eexists. unfold claim_inheritance_plan. fwd ltac:(by apply require_auth_Ok).
  fwd ltac:(by apply require_not_blacklisted_Ok). fwd ltac:(by apply check_not_paused_Ok).
  fwd ltac:(exact He1). apply finally_Ok. exists w', tt. split; [exact Hbody|]. by apply exit_guard_Ok.
  Unshelve. all: exact tt.
Qed.

(** * Refusals *)

(** A guard that fails ends the claim. *)
Lemma fails_reject {B} (b : bool) e (k : unit -> X B) w :
  b = true -> exists w', bind (reject_if b e) k w = Fail e w'.
Proof. intros ->. by eexists. Qed.
(** What is wrong with a claim, and its error. *)
Inductive refusal env (id : Z) (a : address) (email : bytes) (code : Z) w : InheritanceError -> Prop :=
  | NoKyc : (forall k, Ky (plans w) !! a = Some k -> approved k = false) ->
      refusal env id a email code w KycNotSubmitted
  | NoPlan k : Ky (plans w) !! a = Some k -> approved k = true -> P (plans w) !! id = None ->
      refusal env id a email code w PlanNotFound
  | Inactive k p : Ky (plans w) !! a = Some k -> approved k = true -> P (plans w) !! id = Some p ->
      is_active p = false -> refusal env id a email code w PlanNotActive
  | Frozen k p : Ky (plans w) !! a = Some k -> approved k = true -> P (plans w) !! id = Some p ->
      is_active p = true -> is_Some (Fz (disputes w) !! id) -> refusal env id a email code w PlanNotActive
  | TooOften p : presentable env id a w p ->
      CLAIM_MAX_ATTEMPTS_PER_WINDOW <= attempts (rolled (timestamp env) (Ca (claims w) !! (id, a))) ->
      refusal env id a email code w Unauthorized
  | Repeated p : presentable env id a w p -> timely env id a email w p ->
      is_Some (C (claims w) !! claim_key id (sha256 email)) -> refusal env id a email code w AlreadyClaimed
  | Unknown p : presentable env id a w p -> timely env id a email w p ->
      C (claims w) !! claim_key id (sha256 email) = None -> code <= 999999 ->
      unmatched w id code (sha256 email) 0 (take (Z.to_nat MAX_BENEFICIARIES) (beneficiaries p)) ->
      refusal env id a email code w BeneficiaryNotFound.

Lemma refusal_ext env id a email code w w' e :
  plans w' = plans w -> claims w' = claims w -> disputes w' = disputes w -> triggers w' = triggers w ->
  refusal env id a email code w e -> refusal env id a email code w' e.
Proof.
  intros HP HC HD HT Hr.
  assert (forall p, presentable env id a w p -> presentable env id a w' p) as Hpr.
  { intros p []. by split; rewrite ?HP, ?HD. }
  assert (forall p, timely env id a email w p -> timely env id a email w' p) as Hti.
  { intros p []. split; unfold conditions_fit; by rewrite ?HC, ?HT. }
  destruct Hr as [|k|k p|k p|p|p|p].
  - apply NoKyc. by rewrite HP.
  - by apply (NoPlan _ _ _ _ _ _ k); rewrite ?HP.
  - by apply (Inactive _ _ _ _ _ _ k p); rewrite ?HP.
  - by apply (Frozen _ _ _ _ _ _ k p); rewrite ?HP, ?HD.
  - apply (TooOften _ _ _ _ _ _ p); [by apply Hpr|by rewrite HC].
  - apply (Repeated _ _ _ _ _ _ p); [by apply Hpr|by apply Hti|by rewrite HC].
  - apply (Unknown _ _ _ _ _ _ p); [by apply Hpr|by apply Hti|by rewrite HC|done|].
    unfold unmatched, matches, salt_of. by rewrite HC.
Qed.
Lemma body_refuses env id a email code w e :
  refusal env id a email code w e -> exists w', claim_body env id a email code w = Fail e w'.
Proof.
  intros Hr. destruct Hr as [Hk|k Hk Ha Hp|k p Hk Ha Hp Hi|k p Hk Ha Hp Hi Hf|p Hpr Hat|p Hpr Hti Hc|p Hpr Hti Hc Hcode Hun].
  - unfold claim_body. eexists. unfold check_kyc_approved, bind, load, gets. cbn. destruct (Ky (plans w) !! a) as [k|] eqn:HK; [|done]. cbn.
    by rewrite (Hk k eq_refl).
  - unfold claim_body. fwd ltac:(by apply check_kyc_approved_Ok; eauto). eexists. unfold require_plan, bind, get_plan, load, gets. cbn. by rewrite Hp.
  - unfold claim_body. fwd ltac:(by apply check_kyc_approved_Ok; eauto). fwd ltac:(by apply require_plan_Ok).
    apply fails_reject. by rewrite Hi.
  - unfold claim_body. fwd ltac:(by apply check_kyc_approved_Ok; eauto). fwd ltac:(by apply require_plan_Ok).
    fwd ltac:(apply reject_if_Ok; split; [by rewrite Hi|done]).
    eexists. unfold require_not_held, bind, load, gets. cbn. rewrite bool_decide_true by done. done.
  - unfold claim_body. destruct Hpr as [Hky [Hp Ha] Hh]. fwd ltac:(by apply check_kyc_approved_Ok). fwd ltac:(by apply require_plan_Ok).
    fwd ltac:(apply reject_if_Ok; split; [by rewrite Ha|done]). fwd ltac:(by apply require_not_held_Ok).
    eexists. unfold check_and_record_claim_attempt, bind, load, gets. cbn.
    change (if _ <=? _ then _ else _) with (rolled (timestamp env) (Ca (claims w) !! (id, a))).
    destruct (Z.leb_spec CLAIM_MAX_ATTEMPTS_PER_WINDOW (attempts (rolled (timestamp env) (Ca (claims w) !! (id, a))))); [done|lia].
  - destruct (body_prefix env id a email code w p Hpr Hti) as (tr & w2 & -> & HC & _).
    unfold pay_claim. fwd ltac:(by apply hash_string_Ok; destruct Hti). fwd ltac:(by apply ih_load_Ok).
    apply fails_reject, bool_decide_eq_true. cbn. by rewrite HC.
  - destruct (body_prefix env id a email code w p Hpr Hti) as (tr & w2 & -> & HC & HS & _).
    unfold pay_claim. fwd ltac:(by apply hash_string_Ok; destruct Hti). fwd ltac:(by apply ih_load_Ok).
    fwd ltac:(apply reject_if_Ok; split; [|done]; apply bool_decide_eq_false, eq_None_not_Some; cbn; by rewrite HC).
    fwd ltac:(apply find_claimant_fails; [done|]; unfold unmatched, matches, salt_of in *; rewrite HS; exact Hun).
    by eexists.
  Unshelve. all: exact tt.
Qed.
Lemma claim_refuses env id a email code w e :
  admitted env a w -> refusal env id a email code w e ->
  exists w', claim_inheritance_plan env id a email code w = Fail e w'.
Proof.
  intros (Hau & Hbl & Hpa & Hpl & Hlk) Hr. destruct (enter_runs w Hlk) as (w1 & He1 & HP & HC & HD & HI & HT & HV).
  destruct (body_refuses env id a email code w1 e) as [w' Hbody]; [by apply (refusal_ext _ _ _ _ _ w)|].
  unfold claim_inheritance_plan. fwd ltac:(by apply require_auth_Ok).
  fwd ltac:(by apply require_not_blacklisted_Ok). fwd ltac:(by apply check_not_paused_Ok).
  fwd ltac:(exact He1). unfold finally, attempt, bind. rewrite Hbody.
  destruct (total_exit w') as ([] & w2 & ->). by eexists.
  Unshelve. all: exact tt.
Qed.
End forward.

Section progress.
Context {T L : Type} `{TokenLaws T} `{LendingPeerTyped L} `{HostFns}.
Implicit Types (env : Env) (w : world T L).
Context (self : address).

(** The token honours transfers signed by the vault and covered by its balance. *)
Definition token_pays w (tok vault to : address) : Prop :=
  forall au n, vault ∈ au -> 0 < n <= tk_balance (toks w) tok vault ->
    is_Some (tk_transfer (toks w) au tok vault to n).

(** Two first matches are the same. *)
Lemma first_claimant env id a email code w w' plan i b :
  entitled env id a email code w plan i b -> forall plan' i' b' v,
  claim_run env id a email code w w' plan' i' b' v -> plan' = plan /\ i' = Z.of_nat i /\ b' = b.
Proof.
  intros [_ [Hp _] _ _ _ _ _ _ (_ & Hb & Hm & Hfirst) _ _ _] plan' i' b' v Hc.
  destruct (cl_plan _ _ _ _ _ _ _ _ _ _ _ Hc) as [Hp' _]. rewrite Hp in Hp'. injection Hp' as <-.
  destruct (cl_found _ _ _ _ _ _ _ _ _ _ _ Hc) as ([? _] & Hb' & Hm').
  pose proof (cl_first _ _ _ _ _ _ _ _ _ _ _ Hc) as Hu. unfold vget in Hb'.
  destruct (lt_eq_lt_dec (Z.to_nat i') i) as [[Hlt|He]|Hgt].
  - exfalso. eapply Hfirst; [done|done|]. by rewrite Z2Nat.id.
  - subst i. rewrite Hb in Hb'. injection Hb' as <-. by rewrite Z2Nat.id.
  - exfalso. apply (Hu i b); [by rewrite lookup_take_lt|done].
Qed.

(** C12: A claim that fails a guard returns that guard's error and leaves no trace:
    missing approval, unknown, inactive or frozen plan, too many attempts, an email
    already claimed, no matching beneficiary; in particular a failed attempt is rolled
    back with everything else and is not counted. *)
Theorem claim_refused env id a email code w e :
  admitted env a w -> refusal env id a email code w e ->
  invoke (claim_inheritance_plan env id a email code) w = (Errored e, w).
Proof. intros Ha Hr. destruct (claim_refuses env id a email code w e Ha Hr) as [w' Hf]. unfold invoke. by rewrite Hf. Qed.

(** C4: In every such state a beneficiary who meets the contract's conditions (approval,
    active unfrozen plan, attempts left, time or trigger, matching email and code, turn in
    the waterfall, cap on emergency transfers) is paid: the claim returns, the claimer's
    balance grows by exactly its basis points of the plan's amount, the plan books that
    much less, and the claim is recorded; all that is asked of the token is that it
    honours a covered transfer signed by the vault. *)
Theorem entitled_claims_are_paid env id a email code w plan i b :
  reachable self false w -> honest self env -> admitted env a w ->
  entitled env id a email code w plan i b -> token_pays w (token plan) (vault_addr self id) a ->
  let payout := total_amount plan * allocation_bp b / 10000 in
  exists w', claim_inheritance_plan env id a email code w = Ok tt w' /\
    tk_balance (toks w') (token plan) a = tk_balance (toks w) (token plan) a + payout /\
    (total_amount <$> P (plans w') !! id) = Some (total_amount plan - payout) /\
    is_Some (C (claims w') !! claim_key id (sha256 email)).
Proof.
  intros Hre [Hself Hh] Had Hen Htok payout.
  pose proof Hen as [_ [Hp Hact] _ _ _ _ _ _ (_ & Hb & _) Hturn Hsh _].
  destruct (reachable_good _ _ _ Hre) as [[Hwf _] Hso]. destruct (Hwf _ _ Hp) as [(Hlen & Hpos & Hsum & Hmax) Hu Hln].
  destruct (so_vault _ _ Hso id) as (Hv & s & Hs & Hctl & _); [by eexists|].
  destruct (reachable_unset _ _ _ Hre) as (_ & Hlh & Hfb & Hves).
  assert (0 <= allocation_bp b <= 10000) as Hbp by by eapply book_share; [split_and!|].
  pose proof (waterfall_share plan b Hu Hbp Hturn) as Hpay.
  destruct (share_of_exact (total_amount plan) (allocation_bp b) Hu Hbp) as [Hex Hle]. fold payout in Hex.
  assert (total_amount plan <= tk_balance (toks w) (token plan) (vault_addr self id)) as Hcov by by eapply reachable_covered.
  destruct (Htok (auths (sub_env (sub_env env (vault_addr self id)) (token plan))) payout) as [t Ht]; [cbn; set_solver|lia|].
  assert (payable env id a w plan i b) as Hpayable.
  { split; [by rewrite Hlh|done|done|]. exists (vault_addr self id), s, t. rewrite Hself, Hpay, Hex. done. }
  destruct (claim_terminates env id a email code w plan i b Had Hen Hpayable) as [w' Hr]. exists w'. split; [done|].
  apply claim_Ok in Hr as (plan' & i' & b' & v' & Hc).
  destruct (first_claimant env id a email code w w' plan i b Hen _ _ _ _ Hc) as (-> & -> & ->).
  assert (settlement w id (Z.of_nat i) = 0) as Hset by by unfold settlement; rewrite Hves.
  assert (payout_due w id (Z.of_nat i) plan b = payout) as Hdue by by unfold payout_due; rewrite Hset, Hpay, Hex.
  destruct Hc. rewrite Hset, Hdue in cl_stored0, cl_recorded0. rewrite Hdue in cl_moved0. rewrite Hex in Hle.
  cbn in Hv. rewrite Hv in cl_vault0. injection cl_vault0 as <-. split_and!.
  - apply tk_transfer_spec in cl_moved0 as (_ & _ & ->); [by rewrite moved_to by (intros Ha; by apply (Hh id); rewrite Ha; apply Had)|].
    intros Ha. apply (Hh id). rewrite Ha. apply Had.
  - rewrite cl_stored0, lookup_insert_eq. cbn. f_equal. ulia.
  - rewrite cl_recorded0. change (settles 0 payout) with true. cbv iota. rewrite lookup_insert_eq. by eexists.
Qed.

End progress.
(** * Concrete runs *)

Import InheritanceExample.

(** Before Bob's claim he is admitted, and the first guards hold for him. *)
Lemma bob_admitted : admitted (env_at 100 [bob]) bob unclaimed.
Proof. apply (bool_decide_eq_true_1 _). by vm_compute. Qed.
Lemma fits : conditions_fit unclaimed 1 /\ access_fits unclaimed 1.
Proof. split; intros c Hc; exfalso; by vm_compute in Hc. Qed.
Lemma stored_plan :
  exists p b, P (plans unclaimed) !! 1 = Some p /\ beneficiaries p !! 0%nat = Some b /\
    is_active p = true /\ method_allows (distribution_method p) (100 - created_at p) = true /\
    u64 (100 - created_at p) /\ waterfall_enabled p = false /\ total_amount p = 9800 /\ token p = usd /\
    allocation_bp b = 6000 /\ matches unclaimed 1 111111 (sha256 [98]) 0 b /\
    unmatched unclaimed 1 5 (sha256 [98]) 0 (take (Z.to_nat MAX_BENEFICIARIES) (beneficiaries p)).
Proof.
  destruct (P (plans unclaimed) !! 1) as [p|] eqn:Hp; [|exfalso; by vm_compute in Hp].
  destruct (beneficiaries p !! 0%nat) as [b|] eqn:Hb; [|exfalso; vm_compute in Hp; by injection Hp as <-].
  exists p, b. vm_compute in Hp. injection Hp as <-. vm_compute in Hb. injection Hb as <-.
  do 9 (split; [by vm_compute|]). split; [by vm_compute|].
  intros [|[|m]] c Hc (He & _ & Hh); cbn in Hc; [injection Hc as <-..|discriminate Hc]; vm_compute in He, Hh; discriminate.
Qed.
Lemma bob_presentable p :
  P (plans unclaimed) !! 1 = Some p -> is_active p = true -> presentable (env_at 100 [bob]) 1 bob unclaimed p.
Proof.
  intros Hp Ha. split; [|exact (conj Hp Ha)|split; vm_compute; reflexivity].
  destruct (Ky (plans unclaimed) !! bob) as [k|] eqn:Hk; [|exfalso; by vm_compute in Hk].
  exists k. split; [done|]. vm_compute in Hk. by injection Hk as <-.
Qed.

(** A wrong code leaves no trace, not even a counted attempt. *)
Lemma claim_refused_witness :
  invoke (claim_inheritance_plan (env_at 100 [bob]) 1 bob [98] 5) unclaimed =
    (Errored BeneficiaryNotFound, unclaimed).
Proof.
  destruct stored_plan as (p & b & Hp & _ & Ha & Hm & Hu & _ & _ & _ & _ & _ & Hun).
  apply (claim_refused (env_at 100 [bob]) 1 bob [98] 5 unclaimed BeneficiaryNotFound bob_admitted).
  apply (Unknown _ _ _ _ _ _ p); [by apply bob_presentable| |by vm_compute|by vm_compute|exact Hun].
  split; [vm_compute; reflexivity|apply fits|right; exact (conj Hm Hu)|by vm_compute].
Defined.

Lemma entitled_claims_are_paid_witness :
  exists w', claim_inheritance_plan (env_at 100 [bob]) 1 bob [98] 111111 unclaimed = Ok tt w' /\
    tk_balance (toks w') usd bob = tk_balance (toks unclaimed) usd bob + 5880.
Proof.
  destruct stored_plan as (p & b & Hp & Hb & Ha & Hm & Hu & Hw & Htot & Hus & Hbp & Hma & _).
  destruct (entitled_claims_are_paid self (env_at 100 [bob]) 1 bob [98] 111111 unclaimed p 0 b
    (unclaimed_reachable false)) as (w' & Hr & Hbal & _).
  - apply env_honest. by repeat constructor.
  - apply bob_admitted.
  - destruct (bob_presentable p Hp Ha). split; [exact pr_kyc0|exact pr_plan0|exact (proj1 pr_held0)|vm_compute; reflexivity|apply fits|
      right; exact (conj Hm Hu)|by vm_compute|vm_compute; reflexivity| | | |].
    + split; [apply (bool_decide_eq_true_1 _); by vm_compute|split; [exact Hb|split; [exact Hma|intros j c Hj; lia]]].
    + rewrite Hw. discriminate.
    + rewrite Htot, Hbp. by vm_compute.
    + intros Hc. exfalso. by vm_compute in Hc.
  - intros au n Hau Hn. rewrite Hus in *. cbn [tk_transfer MockToken.network_ops] in *.
    destruct (toks unclaimed !! usd) as [st|] eqn:Hst; [|exfalso; by vm_compute in Hst].
    assert (MockToken.balance_of st (vault_addr self 1) = 9800 /\ MockToken.balance_of st bob = 500) as [Hv Hbob].
    { vm_compute in Hst. injection Hst as <-. split; by vm_compute. }
    assert (tk_balance (toks unclaimed) usd (vault_addr self 1) = 9800) as Hbal by by vm_compute.
    rewrite Hbal in Hn. apply (MockToken.net_transfer_runs _ _ _ st); rewrite ?Hv, ?Hbob; clear - Hau Hn Hst;
      [exact Hst|exact Hau|lia|ulia|lia|ulia].
  - exists w'. split; [exact Hr|]. rewrite Hus, Htot, Hbp in Hbal. exact Hbal.
Defined.

End InheritanceProgress.
