(* ===== verification/LendingTypes.v ===== *)
(** Data model of the lending contract
    ([contracts/lending-contract/src/lib.rs], [src/reserves.rs]): constants,
    errors, records, storage keys, events and the world an entry point runs in. *)
From S2P Require Import Prelude Host AccessControl Token LoanNft.

Module LendingTypes.

(** * Constants *)
Definition MINIMUM_LIQUIDITY : Z := 1000.
Definition PROTOCOL_INTEREST_BPS : Z := 1000.
Definition BAD_DEBT_RESERVE_BPS : Z := 5000.
Definition DEFAULT_GRACE_PERIOD_SECONDS : Z := 259200.
Definition DEFAULT_LATE_FEE_RATE_BPS : Z := 500.
Definition REFINANCING_FEE_BPS : Z := 50.
Definition DEFAULT_REWARD_RATE : Z := 1000000000.
Definition REWARD_PRECISION : Z := 1000000000.
Definition LIQUIDATION_THRESHOLD_BPS : Z := 15000.
Definition DEFAULT_INSURANCE_PREMIUM_RATE_BPS : Z := 200.
Definition CONTRACT_VERSION : Z := 1.
Definition MAX_YIELD_BOOST_BPS : Z := 2000.
Definition MAX_PLAN_YIELD_POSITIONS : Z := 200.
Definition MAX_YIELD_CLAIM_BATCH : Z := 25.
Definition SECONDS_IN_YEAR : Z := 31536000.

(** * Errors *)
Inductive LendingError :=
  | NotInitialized | AlreadyInitialized | NotAdmin | InsufficientLiquidity
  | InsufficientShares | NoOpenLoan | LoanAlreadyExists | InvalidAmount | TransferFailed
  | Unauthorized | InsufficientCollateral | CollateralNotWhitelisted
  | UtilizationCapExceeded | ReentrantCall | FlashLoanNotRepaid | CannotRefinance
  | InvalidRefinanceTerms | LoanNotFound | TooManyLoans | InvalidSplitAmounts
  | InsufficientStake | NoRewardsToClaim | InvalidRewardRate | PoolPaused
  | AssetNotSupported | InsuranceAlreadyPurchased | InsuranceNotFound | InsuranceExpired
  | InsuranceAlreadyClaimed | InsufficientInsuranceFund | InvalidInsuranceAmount
  | InvalidRateModel | ContractPaused | PlanYieldNotRegistered | NoYieldAccrued
  | PlanYieldInactive | InvalidYieldBoost | TooManyYieldPositions | FlashLoanDefense
  | ReserveAlreadyExists | ReserveNotFound.
#[global] Instance LendingError_eq_dec : EqDecision LendingError.
Proof. solve_decision. Defined.

(** [e as u32]. *)
Definition error_code (e : LendingError) : Z :=
  match e with
  | NotInitialized => 1 | AlreadyInitialized => 2 | NotAdmin => 3
  | InsufficientLiquidity => 4 | InsufficientShares => 5 | NoOpenLoan => 6
  | LoanAlreadyExists => 7 | InvalidAmount => 8 | TransferFailed => 9
  | Unauthorized => 10 | InsufficientCollateral => 11 | CollateralNotWhitelisted => 12
  | UtilizationCapExceeded => 13 | ReentrantCall => 14 | FlashLoanNotRepaid => 15
  | CannotRefinance => 16 | InvalidRefinanceTerms => 17 | LoanNotFound => 18
  | TooManyLoans => 19 | InvalidSplitAmounts => 20 | InsufficientStake => 21
  | NoRewardsToClaim => 22 | InvalidRewardRate => 23 | PoolPaused => 24
  | AssetNotSupported => 25 | InsuranceAlreadyPurchased => 26 | InsuranceNotFound => 27
  | InsuranceExpired => 28 | InsuranceAlreadyClaimed => 29
  | InsufficientInsuranceFund => 30 | InvalidInsuranceAmount => 31
  | InvalidRateModel => 32 | ContractPaused => 33 | PlanYieldNotRegistered => 34
  | NoYieldAccrued => 35 | PlanYieldInactive => 36 | InvalidYieldBoost => 37
  | TooManyYieldPositions => 38 | FlashLoanDefense => 39 | ReserveAlreadyExists => 40
  | ReserveNotFound => 41
  end.

(** [TryFrom<soroban_sdk::Error>]: decode a contract error code. *)
Definition try_from (code : Z) : option LendingError :=
  match code with
  | 1 => Some NotInitialized | 2 => Some AlreadyInitialized | 3 => Some NotAdmin
  | 4 => Some InsufficientLiquidity | 5 => Some InsufficientShares
  | 6 => Some NoOpenLoan | 7 => Some LoanAlreadyExists | 8 => Some InvalidAmount
  | 9 => Some TransferFailed | 10 => Some Unauthorized
  | 11 => Some InsufficientCollateral | 12 => Some CollateralNotWhitelisted
  | 13 => Some UtilizationCapExceeded | 14 => Some ReentrantCall
  | 15 => Some FlashLoanNotRepaid | 16 => Some CannotRefinance
  | 17 => Some InvalidRefinanceTerms | 18 => Some LoanNotFound | 19 => Some TooManyLoans
  | 20 => Some InvalidSplitAmounts | 21 => Some InsufficientStake
  | 22 => Some NoRewardsToClaim | 23 => Some InvalidRewardRate | 24 => Some PoolPaused
  | 25 => Some AssetNotSupported | 26 => Some InsuranceAlreadyPurchased
  | 27 => Some InsuranceNotFound | 28 => Some InsuranceExpired
  | 29 => Some InsuranceAlreadyClaimed | 30 => Some InsufficientInsuranceFund
  | 31 => Some InvalidInsuranceAmount | 32 => Some InvalidRateModel
  | 33 => Some ContractPaused | 34 => Some PlanYieldNotRegistered
  | 35 => Some NoYieldAccrued | 36 => Some PlanYieldInactive
  | 37 => Some InvalidYieldBoost | 38 => Some TooManyYieldPositions
  | 39 => Some FlashLoanDefense
  | _ => None
  end.

(** * Records *)
Record PoolState := mkPool {
  total_deposits : Z; total_shares : Z; total_borrowed : Z;
  base_rate_bps : Z; multiplier_bps : Z; utilization_cap_bps : Z;
  retained_yield : Z; bad_debt_reserve : Z;
  grace_period_seconds : Z; late_fee_rate_bps : Z; reserve_factor_bps : Z;
  total_protocol_revenue : Z; is_paused : bool
}.
#[global] Instance eta_pool : Eta PoolState := fun p =>
  mkPool (total_deposits p) (total_shares p) (total_borrowed p) (base_rate_bps p)
    (multiplier_bps p) (utilization_cap_bps p) (retained_yield p) (bad_debt_reserve p)
    (grace_period_seconds p) (late_fee_rate_bps p) (reserve_factor_bps p)
    (total_protocol_revenue p) (is_paused p).

Record PlanYieldPosition := mkPosition {
  py_plan_id : Z; py_asset : address; py_principal : Z; py_last_harvest_at : Z;
  py_total_harvested : Z; py_last_harvest_amount : Z; py_harvest_count : Z;
  py_registered_at : Z; py_boost_bps : Z; py_active : bool
}.
#[global] Instance eta_position : Eta PlanYieldPosition := fun p =>
  mkPosition (py_plan_id p) (py_asset p) (py_principal p) (py_last_harvest_at p)
    (py_total_harvested p) (py_last_harvest_amount p) (py_harvest_count p)
    (py_registered_at p) (py_boost_bps p) (py_active p).

Record PlanYieldStats := mkStats {
  ps_asset : address; ps_position_count : Z; ps_active_count : Z;
  ps_total_principal : Z; ps_total_harvested : Z; ps_available_yield : Z
}.

Record LoanRecord := mkLoan {
  loan_id : Z; borrower : address; asset : address; principal : Z;
  collateral_amount : Z; collateral_token : address; borrow_time : Z;
  due_date : Z; interest_rate_bps : Z
}.

Record RefinanceTerms := mkTerms {
  rt_outstanding_balance : Z; rt_new_principal : Z; rt_refinancing_fee : Z;
  rt_total_required : Z; rt_new_interest_rate_bps : Z; rt_new_duration_seconds : Z;
  rt_new_due_date : Z
}.

Record LoanInsurance := mkInsurance {
  ins_loan_id : Z; ins_borrower : address; ins_coverage_amount : Z;
  ins_premium_paid : Z; ins_premium_rate_bps : Z; ins_purchase_time : Z;
  ins_expires_at : Z; ins_claimed : bool
}.
#[global] Instance eta_insurance : Eta LoanInsurance := fun i =>
  mkInsurance (ins_loan_id i) (ins_borrower i) (ins_coverage_amount i)
    (ins_premium_paid i) (ins_premium_rate_bps i) (ins_purchase_time i)
    (ins_expires_at i) (ins_claimed i).

Record InsuranceFund := mkFund {
  if_total_premiums_collected : Z; if_total_claims_paid : Z; if_available_balance : Z
}.
#[global] Instance eta_fund : Eta InsuranceFund := fun f =>
  mkFund (if_total_premiums_collected f) (if_total_claims_paid f) (if_available_balance f).

Record RewardPool := mkRewardPool {
  rp_total_staked : Z; rp_reward_rate : Z; rp_last_update_time : Z;
  rp_reward_per_token_stored : Z; rp_total_rewards_distributed : Z
}.
#[global] Instance eta_reward_pool : Eta RewardPool := fun r =>
  mkRewardPool (rp_total_staked r) (rp_reward_rate r) (rp_last_update_time r)
    (rp_reward_per_token_stored r) (rp_total_rewards_distributed r).

Record UserStake := mkStake {
  us_amount : Z; us_reward_per_token_paid : Z; us_rewards : Z; us_stake_time : Z
}.
#[global] Instance eta_stake : Eta UserStake := fun u =>
  mkStake (us_amount u) (us_reward_per_token_paid u) (us_rewards u) (us_stake_time u).

Record RateModel := mkRateModel {
  rm_base_rate_bps : Z; rm_optimal_utilization_bps : Z; rm_slope1_bps : Z;
  rm_slope2_bps : Z; rm_reserve_factor_bps : Z
}.

Record ReserveConfig := mkReserve {
  rs_token : address; rs_ltv_bps : Z; rs_liquidation_threshold_bps : Z;
  rs_total_borrowed : Z; rs_total_collateral : Z; rs_enabled : bool
}.
#[global] Instance eta_reserve : Eta ReserveConfig := fun r =>
  mkReserve (rs_token r) (rs_ltv_bps r) (rs_liquidation_threshold_bps r)
    (rs_total_borrowed r) (rs_total_collateral r) (rs_enabled r).

(** * Events *)
Inductive link := LinkInherit | LinkGov.
Inductive event :=
  | ContractLinkedEvent (contract_type : link) (a : address)
  | DepositEvent (depositor asset : address) (amount shares_minted : Z)
  | WithdrawEvent (depositor asset : address) (shares_burned amount : Z)
  | PriorityWithdrawEvent (caller asset : address) (amount : Z)
  | BorrowEvent (id : Z) (borrower asset : address) (amount collateral due : Z)
  | RepayEvent (id : Z) (borrower asset : address) (principal interest total returned : Z)
  | CollateralDepositEvent (id : Z) (borrower token : address) (amount : Z)
  | LiquidationEvent (id : Z) (borrower liquidator asset : address) (repaid seized health : Z)
  | InterestAccrualEvent (id : Z) (borrower asset : address)
      (principal interest rate elapsed timestamp : Z)
  | LateFeeChargedEvent (id : Z) (borrower asset : address)
      (late_fee days_overdue total timestamp : Z)
  | BadDebtLiquidationEvent (id : Z) (borrower asset : address)
      (outstanding seized shortfall : Z)
  | BadDebtReserveReplenishedEvent (asset : address) (amount new_balance : Z)
  | FlashLoanEvent (receiver asset : address) (amount fee : Z)
  | LoanRefinancedEvent (old_id new_id : Z) (borrower asset : address)
      (old_principal new_principal fee old_rate new_rate old_due new_due timestamp : Z)
  | LoansConsolidatedEvent (old_ids : list Z) (new_id : Z) (borrower asset : address)
      (total_old new_principal fee new_due timestamp : Z)
  | LoanSplitEvent (old_id : Z) (new_ids : list Z) (borrower asset : address)
      (old_principal : Z) (new_principals : list Z) (fee timestamp : Z)
  | StakedEvent (user asset : address) (amount timestamp : Z)
  | UnstakedEvent (user asset : address) (amount rewards timestamp : Z)
  | RewardsClaimedEvent (user asset : address) (rewards timestamp : Z)
  | PlanYieldRegisteredEvent (plan_id : Z) (asset : address) (principal timestamp : Z)
  | PlanYieldUnregisteredEvent (plan_id : Z) (asset : address) (harvested timestamp : Z)
  | PlanYieldBoostSetEvent (plan_id old_boost new_boost : Z)
  | RetainedYieldFundedEvent (asset funder : address) (amount new_balance : Z)
  | PlanYieldClaimedEvent (plan_id : Z) (asset : address) (amount harvested timestamp : Z)
  | RewardRateUpdatedEvent (asset : address) (old_rate new_rate timestamp : Z)
  | InsurancePurchasedEvent (id : Z) (borrower : address)
      (coverage premium rate expires timestamp : Z)
  | InsuranceClaimedEvent (id : Z) (borrower : address) (claim coverage timestamp : Z)
  | InsuranceCancelledEvent (id : Z) (borrower : address) (refund timestamp : Z)
  | RateModelUpdatedEvent (base optimal slope1 slope2 reserve : Z) (by_ : address)
      (timestamp : Z)
  | ContractUpgradedEvent (old_version new_version : Z) (admin : address) (at_ : Z)
  | ReserveAddedEvent (token : address) (ltv threshold : Z)
  | WrappedTokenEvent (add : bool) (token : address).

(** * Storage: one field per [DataKey] constructor *)
Record store := mkStore {
  k_Admin : option address;
  k_SupportedAssets : option (list address);
  k_PoolState : gmap address PoolState;
  k_Shares : gmap (address * address) Z;
  k_Loan : gmap address LoanRecord;
  k_NextLoanId : option Z;
  k_LoanById : gmap Z LoanRecord;
  k_CollateralRatio : option Z;
  k_WhitelistedCollateral : gmap address bool;
  k_Reserve : gmap address ReserveConfig;
  k_NFTToken : option address;
  k_LateFeesAccrued : gmap Z Z;
  k_FlashLoanFeeBps : option Z;
  k_UserLoans : gmap address (list Z);
  k_RewardPool : gmap address RewardPool;
  k_UserStake : gmap (address * address) UserStake;
  k_Insurance : gmap Z LoanInsurance;
  k_InsuranceFund : option InsuranceFund;
  k_InsurancePremiumRate : option Z;
  k_InheritanceContract : option address;
  k_GovernanceContract : option address;
  k_RateModel : option RateModel;
  k_Token : option address;
  k_WhitelistedFlashReceiver : gmap address bool;
  k_Version : option Z;
  k_PlanYield : gmap Z PlanYieldPosition;
  k_PlanYieldIndex : option (list Z);
  k_DepositLedger : gmap (address * address) Z;
  k_supp_wrp : option (list address)
}.
#[global] Instance eta_store : Eta store := fun s =>
  mkStore (k_Admin s) (k_SupportedAssets s) (k_PoolState s) (k_Shares s) (k_Loan s)
    (k_NextLoanId s) (k_LoanById s) (k_CollateralRatio s) (k_WhitelistedCollateral s)
    (k_Reserve s) (k_NFTToken s) (k_LateFeesAccrued s) (k_FlashLoanFeeBps s)
    (k_UserLoans s) (k_RewardPool s) (k_UserStake s) (k_Insurance s) (k_InsuranceFund s)
    (k_InsurancePremiumRate s) (k_InheritanceContract s) (k_GovernanceContract s)
    (k_RateModel s) (k_Token s) (k_WhitelistedFlashReceiver s) (k_Version s)
    (k_PlanYield s) (k_PlanYieldIndex s) (k_DepositLedger s) (k_supp_wrp s).

Definition empty_store : store :=
  mkStore None None ∅ ∅ ∅ None ∅ None ∅ ∅ None ∅ None ∅ ∅ ∅ ∅ None None None None None None
    ∅ None ∅ None ∅ None.

Abbreviation nft_network := (gmap address LoanNft.state).

(** The contract's own storage, its access-control state and published events,
    and the two kinds of contracts it calls: the tokens and the loan NFTs. *)
Record world {T : Type} := mkWorld {
  st : store;
  acl : AccessControl.state;
  evs : list event;
  toks : T;
  nfts : nft_network
}.
Arguments world T : clear implicits.
#[global] Instance eta_world {T} : Eta (world T) := fun w =>
  mkWorld _ (st w) (acl w) (evs w) (toks w) (nfts w).

#[global] Instance world_acl {T} : Sub (world T) AccessControl.state :=
  { sget := acl; sput s w := w <| acl := s |> }.
#[global] Instance world_acl_laws {T} : SubLaws (world T) AccessControl.state.
Proof. by split; [|intros []]. Qed.

(** * Error codes *)

(** Error codes are distinct and decode to the error they encode, except that the two
    reserve errors (40 and 41) are not decoded. *)
Theorem error_code_roundtrip e :
  try_from (error_code e) =
    (if decide (e = ReserveAlreadyExists \/ e = ReserveNotFound) then None else Some e) /\
  (forall e', error_code e = error_code e' -> e = e').
Proof.
  split.
  - destruct e; case_decide as Hd; try reflexivity;
      (destruct Hd as [?|?]; discriminate) || (exfalso; apply Hd; auto).
  - destruct e, e'; (reflexivity || discriminate).
Qed.

End LendingTypes.
