(* ===== verification/LendingMath.v ===== *)
(** Pure arithmetic of the lending contract
    ([contracts/lending-contract/src/lib.rs]): share conversion, interest,
    utilisation, rate curves, LTV and the decimal printer of the NFT metadata. *)
From S2P Require Import Prelude Host LendingTypes.
From Stdlib Require Import String Ascii.
Import LendingTypes.

Module LendingMath.

(** [(a as u128).checked_mul(b).and_then(|v| v.checked_div(d)).unwrap_or(0)]. *)
Definition muldiv128 (a b d : Z) : Z :=
  default 0 (checked_mul128 a b ≫= fun v => checked_div v d).

(** * Definitions *)
Definition shares_for_deposit (pool : PoolState) (amount : Z) : Z :=
  if (total_shares pool =? 0) || (total_deposits pool =? 0) then amount
  else as_u64 (muldiv128 amount (total_shares pool) (total_deposits pool)).

Definition assets_for_shares (pool : PoolState) (shares : Z) : Z :=
  if total_shares pool =? 0 then 0
  else as_u64 (muldiv128 shares (total_deposits pool) (total_shares pool)).

Definition calculate_interest (principal rate_bps elapsed_seconds : Z) : Z :=
  if (elapsed_seconds =? 0) || (rate_bps =? 0) then 0
  else
    let numerator := default 0
      (checked_mul128 principal rate_bps ≫= fun v => checked_mul128 v elapsed_seconds) in
    let denominator := 10000 * SECONDS_IN_YEAR in
    as_u64 (default 0 (checked_add128 numerator (denominator / 2) ≫=
                       fun v => checked_div v denominator)).

Definition get_utilization_bps (total_borrowed total_deposits : Z) : Z :=
  let cash := saturating_sub total_deposits total_borrowed in
  let denominator := saturating_add128 cash total_borrowed in
  if denominator =? 0 then 0
  else as_u32 (Z.min (default 0 (checked_div (saturating_mul128 total_borrowed 10000)
                                   denominator)) 10000).

Definition calculate_dynamic_rate (base_rate_bps multiplier_bps utilization_bps : Z) : Z :=
  let variable_rate := saturating_mul64 utilization_bps multiplier_bps / 10000 in
  saturating_add32 base_rate_bps (as_u32 variable_rate).

Definition two_slope_rate (model : RateModel) (utilization_bps : Z) : Z :=
  let optimal := Z.min (rm_optimal_utilization_bps model) 10000 in
  let utilization_bps := Z.min utilization_bps 10000 in
  if optimal =? 0 then saturating_add32 (rm_base_rate_bps model) (rm_slope2_bps model)
  else if utilization_bps <=? optimal then
    let variable := default 0 (checked_mul64 utilization_bps (rm_slope1_bps model)) / optimal in
    saturating_add32 (rm_base_rate_bps model) (as_u32 variable)
  else
    let excess := saturating_sub utilization_bps optimal in
    let max_excess := saturating_sub 10000 optimal in
    let steep :=
      if max_excess =? 0 then rm_slope2_bps model
      else default 0 (checked_mul64 excess (rm_slope2_bps model)) / max_excess in
    saturating_add32
      (saturating_add32 (rm_base_rate_bps model) (rm_slope1_bps model)) (as_u32 steep).

(** The rate a loan taken at the given utilisation gets: the configured model
    when there is one, else the pool's own linear rate. *)
Definition rate_for (model : option RateModel) (pool : PoolState) (utilization_bps : Z) : Z :=
  match model with
  | Some m => two_slope_rate m utilization_bps
  | None => calculate_dynamic_rate (base_rate_bps pool) (multiplier_bps pool) utilization_bps
  end.

Definition calc_ltv_ratio_bps (principal collateral_amount : Z) : Z :=
  if collateral_amount =? 0 then 0
  else Z.min (principal * 10000 / collateral_amount) u32_max.

Definition calculate_interest_split (total_interest reserve_factor_bps : Z) : Z * Z :=
  let protocol_share := as_u64 (muldiv128 total_interest reserve_factor_bps 10000) in
  (saturating_sub total_interest protocol_share, protocol_share).

Definition simulate_plan_yield (principal rate_bps elapsed_secs : Z) : Z :=
  let accrued := default 0
    (checked_mul128 principal rate_bps ≫= fun v => checked_mul128 v elapsed_secs ≫=
       fun v => checked_div v (10000 * SECONDS_IN_YEAR)) in
  default u64_max (checked u64_max accrued).

(** ** Decimal printing of [u64] into a 20-byte buffer filled from the end *)
Definition digit (d : Z) : ascii := ascii_of_nat (48 + Z.to_nat d).

Fixpoint fill_digits (idx : nat) (remaining : Z) (buf : string) : option string :=
  if remaining =? 0 then Some buf
  else match idx with
       | O => None (* the index would underflow *)
       | S idx => fill_digits idx (remaining / 10) (String (digit (remaining mod 10)) buf)
       end.

Definition append_u64_to_bytes (data : string) (n : Z) : option string :=
  if n =? 0 then Some (data ++ "0")%string
  else option_map (append data) (fill_digits 20 n EmptyString).

Definition build_loan_nft_uri
    (loan_id principal collateral_amount ltv_ratio_bps due_date : Z) : option string :=
  let q := String (ascii_of_nat 34) EmptyString in
  let key k := (q ++ k ++ q ++ ":")%string in
  d ← append_u64_to_bytes ("{" ++ key "name" ++ q ++ "XourceX Loan NFT #")%string loan_id;
  d ← append_u64_to_bytes (d ++ q ++ "," ++ key "loan_id")%string loan_id;
  d ← append_u64_to_bytes (d ++ "," ++ key "principal")%string principal;
  d ← append_u64_to_bytes (d ++ "," ++ key "collateral_amount")%string collateral_amount;
  d ← append_u64_to_bytes (d ++ "," ++ key "ltv_ratio_bps")%string ltv_ratio_bps;
  d ← append_u64_to_bytes (d ++ "," ++ key "plan_id" ++ "0" ++ "," ++ key "due_date")%string due_date;
  Some (d ++ "}")%string.

(** * Lemmas *)

Lemma as_u64_le z : 0 <= z -> as_u64 z <= z.
Proof. intros. apply Z.mod_le; ulia. Qed.

Lemma muldiv128_eq a b d : 0 <= a -> 0 <= b -> 0 < d -> a * b <= u128_max ->
  muldiv128 a b d = a * b / d.
Proof.
  intros. unfold muldiv128, checked_mul128. rewrite checked_in by nia. simpl.
  unfold checked_div. destruct (Z.eqb_spec d 0); [lia|done].
Qed.

Lemma u64_mul_u128 a b : u64 a -> u64 b -> 0 <= a * b <= u128_max.
Proof. unfold u64, u64_max, u128_max. nia. Qed.

(** Minting shares never dilutes: [shares/total_shares <= amount/total_deposits]. *)
Lemma shares_for_deposit_le p amount :
  u64 amount -> u64 (total_shares p) -> u64 (total_deposits p) ->
  total_shares p <> 0 -> total_deposits p <> 0 ->
  0 <= shares_for_deposit p amount /\
  shares_for_deposit p amount * total_deposits p <= amount * total_shares p.
Proof.
  intros Ha Hs Hd Hs0 Hd0. unfold shares_for_deposit.
  destruct (Z.eqb_spec (total_shares p) 0); [done|].
  destruct (Z.eqb_spec (total_deposits p) 0); [done|]. simpl.
  pose proof (u64_mul_u128 _ _ Ha Hs).
  rewrite muldiv128_eq by ulia.
  set (z := amount * total_shares p / total_deposits p).
  assert (0 <= z) by (apply Z.div_pos; ulia).
  pose proof (as_u64_range z). pose proof (as_u64_le z).
  pose proof (Z.mul_div_le (amount * total_shares p) (total_deposits p)) as Hz. fold z in Hz.
  clearbody z. split; [ulia|]. unfold u64 in *; nia.
Qed.

(** Redeeming shares never pays more than their part of the pool. *)
Lemma assets_for_shares_le p shares :
  u64 shares -> u64 (total_shares p) -> u64 (total_deposits p) ->
  0 <= assets_for_shares p shares /\
  assets_for_shares p shares * total_shares p <= shares * total_deposits p.
Proof.
  intros Ha Hs Hd. unfold assets_for_shares.
  destruct (Z.eqb_spec (total_shares p) 0); [unfold u64 in *; nia|].
  pose proof (u64_mul_u128 _ _ Ha Hd).
  rewrite muldiv128_eq by ulia.
  set (z := shares * total_deposits p / total_shares p).
  assert (0 <= z) by (apply Z.div_pos; ulia).
  pose proof (as_u64_range z). pose proof (as_u64_le z).
  pose proof (Z.mul_div_le (shares * total_deposits p) (total_shares p)) as Hz. fold z in Hz.
  clearbody z. split; [ulia|]. unfold u64 in *; nia.
Qed.

Definition INTEREST_DEN : Z := 10000 * SECONDS_IN_YEAR.

Lemma calculate_interest_eq p r t :
  0 <= p -> 0 <= r -> 0 <= t ->
  p * r * t + INTEREST_DEN / 2 < (u64_max + 1) * INTEREST_DEN ->
  calculate_interest p r t = (p * r * t + INTEREST_DEN / 2) / INTEREST_DEN.
Proof.
  intros Hp Hr Ht Hb. unfold calculate_interest. fold INTEREST_DEN.
  destruct ((t =? 0) || (r =? 0)) eqn:Hz.
  { apply orb_true_iff in Hz as [->%Z.eqb_eq| ->%Z.eqb_eq]; [|rewrite Z.mul_0_r];
      rewrite ?Z.mul_0_r, ?Z.mul_0_l; reflexivity. }
  apply orb_false_iff in Hz as [Ht0%Z.eqb_neq Hr0%Z.eqb_neq].
  assert ((u64_max + 1) * INTEREST_DEN <= u128_max) as Hw by (by vm_compute).
  assert (0 <= INTEREST_DEN / 2) as Hh by (by vm_compute).
  assert (0 < INTEREST_DEN) as Hd by (by vm_compute).
  assert (0 <= p * r) as Hpr by nia.
  unfold checked_mul128 at 2. rewrite checked_in by nia. simpl.
  unfold checked_mul128. rewrite checked_in by nia. simpl.
  unfold checked_add128. rewrite checked_in by nia. simpl.
  unfold checked_div. destruct (Z.eqb_spec INTEREST_DEN 0); [lia|]. simpl.
  apply as_u64_small. unfold u64. split; [apply Z.div_pos; nia|].
  apply div_le_mul; nia.
Qed.

Lemma calculate_interest_range p r t : u64 (calculate_interest p r t).
Proof. unfold calculate_interest. destruct (_ || _); [ulia|apply as_u64_range]. Qed.

(** A part of [d] parts of [a] is a part of [a]. *)
Lemma muldiv128_part a b d : u64 a -> 0 <= b <= d -> 0 < d <= u64_max ->
  0 <= as_u64 (muldiv128 a b d) <= a.
Proof.
  intros Ha Hb Hd. rewrite muldiv128_eq; [|ulia..|unia].
  destruct (mul_frac_le a b d) as [? ?]; [ulia..|].
  rewrite as_u64_small by ulia. done.
Qed.

(** The protocol's tenth of an interest and the reserve's half of it. *)
Lemma interest_parts i : u64 i ->
  as_u64 (muldiv128 i PROTOCOL_INTEREST_BPS 10000) = i * 1000 / 10000 /\
  as_u64 (muldiv128 (i * 1000 / 10000) BAD_DEBT_RESERVE_BPS 10000) = i * 1000 / 10000 * 5000 / 10000 /\
  0 <= i * 1000 / 10000 <= i /\
  0 <= i * 1000 / 10000 * 5000 / 10000 <= i * 1000 / 10000.
Proof.
  intros Hi. unfold PROTOCOL_INTEREST_BPS, BAD_DEBT_RESERVE_BPS.
  pose proof (mul_frac_le i 1000 10000 ltac:(ulia) ltac:(lia) ltac:(lia)) as Hp.
  pose proof (mul_frac_le (i * 1000 / 10000) 5000 10000 ltac:(lia) ltac:(lia) ltac:(lia)) as Hr.
  rewrite !muldiv128_eq by ulia. rewrite !as_u64_small by ulia. done.
Qed.

(** * Properties *)

(** Interest is the exact simple interest rounded to the nearest unit, fits its width, and
    grows with the elapsed time. *)
Theorem calculate_interest_nearest p r t :
  u64 p -> u32 r -> u64 t ->
  p * r * t + INTEREST_DEN / 2 < (u64_max + 1) * INTEREST_DEN ->
  let i := calculate_interest p r t in
  u64 i /\ 2 * Z.abs (i * INTEREST_DEN - p * r * t) <= INTEREST_DEN /\
  forall t', 0 <= t' <= t -> 0 <= calculate_interest p r t' <= i.
Proof.
  intros Hp Hr Ht Hb. cbv zeta. assert (0 < INTEREST_DEN) as Hd by (by vm_compute).
  assert (2 * (INTEREST_DEN / 2) = INTEREST_DEN) as Hh by (by vm_compute).
  assert (0 <= p * r) as Hpr by unia.
  rewrite calculate_interest_eq by (done || ulia).
  pose proof (div_floor (p * r * t + INTEREST_DEN / 2) INTEREST_DEN Hd) as Hf.
  split_and!.
  - unfold u64 in *. split; [apply Z.div_pos; nia|]. apply div_le_mul; nia.
  - lia.
  - intros t' Ht'. rewrite calculate_interest_eq by (unfold u64, u32 in *; nia).
    split; [apply Z.div_pos; unfold u64 in *; nia|]. apply Z.div_le_mono; [done|]. nia.
Qed.

Lemma calculate_interest_nearest_witness :
  calculate_interest 1000000 500 SECONDS_IN_YEAR = 50000 /\
  2 * Z.abs (50000 * INTEREST_DEN - 1000000 * 500 * SECONDS_IN_YEAR) <= INTEREST_DEN.
Proof.
  split; [reflexivity|].
  apply (calculate_interest_nearest 1000000 500 SECONDS_IN_YEAR); by vm_compute.
Defined.

(** Utilisation is between 0 and 10000 basis points, is the borrowed share of the deposits
    rounded down, and does not fall as more is borrowed. *)
Theorem utilization_bounds B D :
  u64 B -> u64 D ->
  0 <= get_utilization_bps B D <= 10000 /\
  (B <= D -> 0 < D -> get_utilization_bps B D = B * 10000 / D) /\
  (D < B -> get_utilization_bps B D = 10000) /\
  (forall B', u64 B' -> B <= B' <= D -> get_utilization_bps B D <= get_utilization_bps B' D).
Proof.
  intros HB HD.
  assert (Heq : forall B, u64 B -> get_utilization_bps B D =
    if Z.max B D =? 0 then 0 else Z.min (B * 10000 / Z.max B D) 10000).
  { clear B HB. intros B HB. unfold get_utilization_bps.
    replace (saturating_add128 (saturating_sub D B) B) with (Z.max B D) by ulia.
    destruct (Z.eqb_spec (Z.max B D) 0); [done|].
    replace (saturating_mul128 B 10000) with (B * 10000) by ulia.
    unfold checked_div. destruct (Z.eqb_spec (Z.max B D) 0); [done|]. simpl.
    assert (0 <= B * 10000 / Z.max B D) by (apply Z.div_pos; ulia).
    apply as_u32_small. ulia. }
  assert (Hin : B <= D -> 0 < D -> B * 10000 / D <= 10000).
  { intros. apply div_le_mul; [done|]. ulia. }
  assert (Hmono : forall B1 B2, u64 B1 -> u64 B2 -> B1 <= B2 <= D ->
    get_utilization_bps B1 D <= get_utilization_bps B2 D).
  { intros B1 B2 H1 H2 Hle. rewrite !Heq by done. rewrite !Z.max_r by lia.
    destruct (D =? 0) eqn:Hz; [done|]. apply Z.eqb_neq in Hz.
    apply Z.min_le_compat_r, Z.div_le_mono; unfold u64 in *; lia. }
  split_and!; [| | | |by intros; apply Hmono].
  - rewrite Heq by done. destruct (Z.max B D =? 0); [done|].
    assert (0 <= B * 10000 / Z.max B D); [|lia].
    destruct (Z.eq_dec (Z.max B D) 0) as [->|]; [by rewrite Z.div_0_r|].
    apply Z.div_pos; ulia.
  - rewrite Heq by done. destruct (Z.max B D =? 0); lia.
  - intros. rewrite Heq, Z.max_r by done. destruct (Z.eqb_spec D 0); [lia|].
    specialize (Hin ltac:(done) ltac:(done)). lia.
  - intros. rewrite Heq, Z.max_l by (done || lia). destruct (Z.eqb_spec B 0); [ulia|].
    rewrite Z.mul_comm, Z.div_mul by done. done.
Qed.

Lemma utilization_bounds_witness : 0 <= get_utilization_bps 800 1000 <= 10000.
Proof. apply (utilization_bounds 800 1000); unfold u64, u64_max; lia. Defined.

(** ** Two-slope rate curve *)

(** What [set_rate_model] accepts. *)
Definition wf_model (m : RateModel) : Prop :=
  u32 (rm_base_rate_bps m) /\ 0 < rm_optimal_utilization_bps m < 10000 /\
  u32 (rm_slope1_bps m) /\ u32 (rm_slope2_bps m) /\ 0 <= rm_reserve_factor_bps m < 10000.

Lemma two_slope_rate_eq m u :
  wf_model m -> 0 <= u ->
  two_slope_rate m u =
    let o := rm_optimal_utilization_bps m in
    let u := Z.min u 10000 in
    if u <=? o then Z.min u32_max (rm_base_rate_bps m + u * rm_slope1_bps m / o)
    else Z.min u32_max (rm_base_rate_bps m + rm_slope1_bps m +
                        (u - o) * rm_slope2_bps m / (10000 - o)).
Proof.
  intros (Hb & Ho & H1 & H2 & _) Hu. unfold two_slope_rate. cbv zeta.
  rewrite (Z.min_l (rm_optimal_utilization_bps m)) by lia.
  set (o := rm_optimal_utilization_bps m) in *. destruct (Z.eqb_spec o 0); [lia|].
  destruct (Z.leb_spec (Z.min u 10000) o).
  - unfold checked_mul64. rewrite checked_in by unia. simpl.
    assert (0 <= Z.min u 10000 * rm_slope1_bps m / o <= rm_slope1_bps m).
    { split; [apply Z.div_pos; unia|apply div_le_mul; unia]. }
    rewrite as_u32_small by ulia. done.
  - replace (saturating_sub (Z.min u 10000) o) with (Z.min u 10000 - o) by ulia.
    replace (saturating_sub 10000 o) with (10000 - o) by ulia.
    destruct (Z.eqb_spec (10000 - o) 0); [lia|].
    unfold checked_mul64. rewrite checked_in by unia. simpl.
    assert (0 <= (Z.min u 10000 - o) * rm_slope2_bps m / (10000 - o) <= rm_slope2_bps m).
    { split; [apply Z.div_pos; unia|apply div_le_mul; unia]. }
    rewrite as_u32_small by ulia. ulia.
Qed.

(** The two-slope rate curve is the base rate at no utilisation, base plus the first slope
    at the optimum, base plus both slopes at full utilisation, and does not fall in
    between. *)
Theorem two_slope_rate_curve m :
  wf_model m ->
  let o := rm_optimal_utilization_bps m in
  two_slope_rate m 0 = rm_base_rate_bps m /\
  two_slope_rate m o = Z.min u32_max (rm_base_rate_bps m + rm_slope1_bps m) /\
  two_slope_rate m 10000 =
    Z.min u32_max (rm_base_rate_bps m + rm_slope1_bps m + rm_slope2_bps m) /\
  (forall u, 10000 <= u -> two_slope_rate m u = two_slope_rate m 10000) /\
  (forall u u', 0 <= u <= u' -> 0 <= two_slope_rate m u <= two_slope_rate m u') /\
  (forall u, 0 <= u -> two_slope_rate m u <= u32_max).
Proof.
  intros Hwf. cbv zeta. pose proof Hwf as (Hb & Ho & H1 & H2 & _).
  set (o := rm_optimal_utilization_bps m) in *. split_and!.
  - rewrite two_slope_rate_eq by (done || lia). cbv zeta. rewrite Z.min_l by lia. fold o.
    destruct (Z.leb_spec 0 o); [|lia]. rewrite Z.mul_0_l, Z.div_0_l by lia. ulia.
  - rewrite two_slope_rate_eq by (done || lia). cbv zeta. rewrite Z.min_l by lia. fold o.
    rewrite Z.leb_refl, Z.mul_comm, Z.div_mul by lia. done.
  - rewrite two_slope_rate_eq by (done || lia). cbv zeta. rewrite Z.min_l by lia. fold o.
    destruct (Z.leb_spec 10000 o); [lia|]. rewrite Z.mul_comm, Z.div_mul by lia. done.
  - intros u Hu. rewrite !two_slope_rate_eq by (done || lia). by rewrite !Z.min_r by lia.
  - intros u u' Hu. rewrite !two_slope_rate_eq by (done || lia). cbv zeta. fold o.
    set (v := Z.min u 10000). set (v' := Z.min u' 10000).
    assert (0 <= v <= v' /\ v' <= 10000) as [Hv Hv'] by lia. clearbody v v'.
    assert (0 <= v * rm_slope1_bps m / o) by (apply Z.div_pos; unia).
    destruct (Z.leb_spec v o), (Z.leb_spec v' o); try lia.
    + assert (v * rm_slope1_bps m / o <= v' * rm_slope1_bps m / o)
        by (apply Z.div_le_mono; unia). ulia.
    + assert (v * rm_slope1_bps m / o <= rm_slope1_bps m) by (apply div_le_mul; unia).
      assert (0 <= (v' - o) * rm_slope2_bps m / (10000 - o)) by (apply Z.div_pos; unia).
      ulia.
    + assert (0 <= (v - o) * rm_slope2_bps m / (10000 - o)) by (apply Z.div_pos; unia).
      assert ((v - o) * rm_slope2_bps m / (10000 - o) <= (v' - o) * rm_slope2_bps m / (10000 - o))
        by (apply Z.div_le_mono; unia). ulia.
  - intros u Hu. rewrite two_slope_rate_eq by (done || lia). cbv zeta.
    destruct (_ <=? _); lia.
Qed.

Lemma two_slope_rate_curve_witness :
  two_slope_rate (mkRateModel 200 8000 400 6000 1000) 8000 = 600 /\
  two_slope_rate (mkRateModel 200 8000 400 6000 1000) 10000 = 6600.
Proof.
  destruct (two_slope_rate_curve (mkRateModel 200 8000 400 6000 1000)) as (_ & H1 & H2 & _).
  - unfold wf_model, u32, u32_max; cbn; lia.
  - by split.
Defined.

(** ** Decimal printing *)

(** Read a decimal number back. *)
Fixpoint parse (s : string) (acc : Z) : Z :=
  match s with
  | EmptyString => acc
  | String c s => parse s (acc * 10 + (Z.of_nat (nat_of_ascii c) - 48))
  end.

Lemma digit_value d : 0 <= d < 10 -> Z.of_nat (nat_of_ascii (digit d)) - 48 = d.
Proof. intros. unfold digit. rewrite nat_ascii_embedding by lia. lia. Qed.

(** Enough room: a number below [10^idx] prints without running off the buffer,
    and reading the digits gives it back. *)
Lemma fill_digits_parse idx n buf :
  0 <= n < 10 ^ Z.of_nat idx ->
  exists s, fill_digits idx n buf = Some s /\ parse s 0 = parse buf n.
Proof.
  revert n buf. induction idx as [|idx IH]; intros n buf Hn; cbn [fill_digits].
  - assert (n = 0) as -> by (simpl in Hn; lia). by eexists.
  - destruct (Z.eqb_spec n 0) as [->|]; [by eexists|].
    rewrite Nat2Z.inj_succ, Z.pow_succ_r in Hn by lia.
    pose proof (Z.div_mod n 10 ltac:(lia)). pose proof (Z.mod_pos_bound n 10 ltac:(lia)).
    destruct (IH (n / 10) (String (digit (n mod 10)) buf)) as (s & -> & Hs); [lia|].
    eexists. split; [done|]. rewrite Hs. cbn [parse]. rewrite digit_value by lia.
    f_equal. lia.
Qed.

Lemma append_u64_spec data n :
  u64 n -> exists s, append_u64_to_bytes data n = Some (data ++ s)%string /\ parse s 0 = n.
Proof.
  intros Hn. unfold append_u64_to_bytes. destruct (Z.eqb_spec n 0) as [->|].
  - by exists "0"%string.
  - destruct (fill_digits_parse 20 n EmptyString) as (s & -> & Hs).
    { change (10 ^ Z.of_nat 20) with 100000000000000000000. ulia. }
    exists s. split; [done|]. by rewrite Hs.
Qed.

(** The decimal printer of the NFT metadata fits its 20-byte buffer for every 64-bit
    number, and reading the digits back gives the number. *)
Theorem append_u64_roundtrip data n :
  u64 n -> exists s, append_u64_to_bytes data n = Some (data ++ s)%string /\ parse s 0 = n.
Proof. apply append_u64_spec. Qed.

Lemma append_u64_roundtrip_witness :
  exists s, append_u64_to_bytes "id=" 18446744073709551615 = Some ("id=" ++ s)%string /\
    parse s 0 = 18446744073709551615.
Proof. apply append_u64_roundtrip. unfold u64, u64_max. lia. Defined.

(** C-URI: the metadata string of a loan NFT can always be built. *)
Lemma append_u64_total data n : u64 n -> is_Some (append_u64_to_bytes data n).
Proof. intros Hn. destruct (append_u64_spec data n Hn) as (s & -> & _). eauto. Qed.

Lemma build_uri_total id p c l d :
  u64 id -> u64 p -> u64 c -> u64 l -> u64 d -> is_Some (build_loan_nft_uri id p c l d).
Proof.
  intros. unfold build_loan_nft_uri.
  repeat match goal with
  | |- context [append_u64_to_bytes ?s ?n ≫= _] =>
    destruct (append_u64_total s n ltac:(done)) as [? ->]; cbn [mbind option_bind]
  end. eauto.
Qed.

(** C-SPLIT *)
Lemma interest_split_exact i f :
  u64 i -> 0 <= f <= 10000 ->
  let '(dep, prot) := calculate_interest_split i f in
  dep + prot = i /\ prot = i * f / 10000 /\ 0 <= dep.
Proof.
  intros Hi Hf. unfold calculate_interest_split.
  pose proof (mul_frac_le i f 10000 ltac:(ulia) ltac:(lia) ltac:(done)).
  rewrite muldiv128_eq by unia. rewrite as_u64_small by ulia. split_and!; ulia.
Qed.

End LendingMath.
