(* ===== verification/LendingCore.v ===== *)
(** Storage accessors and shared helpers of the lending contract
    ([contracts/lending-contract/src/lib.rs]), with their inversion and framing
    lemmas. *)
From S2P Require Import Prelude Host AccessControl Token LoanNft LendingTypes LendingMath.
From Stdlib Require Import String.
Import LendingTypes LendingMath.

Module LendingCore.
Import AccessControl.

Section core.
Context {T : Type} `{TokenOps T}.
Abbreviation X A := (M (world T) LendingError A).
Implicit Types (env : Env) (w : world T).

(** Read and write the contract's storage. *)
Definition load {A} (f : store -> A) : X A := gets (fun w => f (st w)).
Definition save (f : store -> store) : X unit := modify (fun w => w <| st := f (st w) |>).
Definition emit (e : event) : X unit := modify (fun w => w <| evs := evs w ++ [e] |>).

(** ** Guards *)
Definition require_admin env (caller : address) : X unit :=
  do! require_auth env caller;
  zoom (require_role caller Admin NotAdmin).

Definition require_initialized : X unit :=
  let! a := load k_Admin in
  reject_if (bool_decide (a = None)) NotInitialized.

Definition require_not_paused : X unit := zoom (AccessControl.require_not_paused ContractPaused).
Definition enter_reentrancy_guard : X unit := zoom (reentrancy_enter ReentrantCall).
Definition exit_reentrancy_guard : X unit := zoom reentrancy_exit.

(** ** Pools and shares *)
Definition get_pool (a : address) : X PoolState :=
  let! p := load (fun s => k_PoolState s !! a) in ok_or p AssetNotSupported.
Definition set_pool (a : address) (p : PoolState) : X unit :=
  save (fun s => s <| k_PoolState := <[a := p]> (k_PoolState s) |>).

Definition shares_of (s : store) (a owner : address) : Z := default 0 (k_Shares s !! (owner, a)).
Definition get_shares (a owner : address) : X Z := load (fun s => shares_of s a owner).
Definition set_shares (a owner : address) (v : Z) : X unit :=
  save (fun s => s <| k_Shares := <[(owner, a) := v]> (k_Shares s) |>).

Definition get_user_deposit_ledger (a user : address) : X (option Z) :=
  load (fun s => k_DepositLedger s !! (user, a)).
Definition set_user_deposit_ledger (a user : address) (ledger : Z) : X unit :=
  save (fun s => s <| k_DepositLedger := <[(user, a) := ledger]> (k_DepositLedger s) |>).

(** The flash-loan defence of [withdraw] and [borrow]. *)
Definition flash_defense env (a user : address) : X unit :=
  let! l := get_user_deposit_ledger a user in
  match l with
  | Some deposit_ledger => reject_if (sequence env <=? deposit_ledger) FlashLoanDefense
  | None => ret tt
  end.

(** ** Loans *)
Definition grace_period_end (loan : LoanRecord) : X Z :=
  let! pool := get_pool (asset loan) in
  ok_or (checked_add64 (due_date loan) (grace_period_seconds pool)) InvalidAmount.
Definition is_after_grace_period env (loan : LoanRecord) : X bool :=
  let! e := grace_period_end loan in ret (e <? timestamp env).

Definition get_next_loan_id : X Z := load (fun s => default 1 (k_NextLoanId s)).
Definition increment_loan_id : X Z :=
  let! current := get_next_loan_id in
  let! next := add64 current 1 in
  do! save (fun s => s <| k_NextLoanId := Some next |>);
  ret current.

Definition user_loans (s : store) (user : address) : list Z := default [] (k_UserLoans s !! user).
Definition add_user_loan (user : address) (id : Z) : X unit :=
  let! loans := load (fun s => user_loans s user) in
  save (fun s => s <| k_UserLoans := <[user := loans ++ [id]]> (k_UserLoans s) |>).
Definition remove_user_loan (user : address) (id : Z) : X unit :=
  let! loans := load (fun s => user_loans s user) in
  let new_loans := filter (fun i => i <> id) loans in
  match new_loans with
  | [] => save (fun s => s <| k_UserLoans := delete user (k_UserLoans s) |>)
  | _ => save (fun s => s <| k_UserLoans := <[user := new_loans]> (k_UserLoans s) |>)
  end.

Definition get_collateral_ratio : X Z := load (fun s => default 15000 (k_CollateralRatio s)).
Definition is_collateral_whitelisted (token : address) : X bool :=
  load (fun s => default false (k_WhitelistedCollateral s !! token)).

(** [Loan(borrower)] and [LoanById(id)] written together. *)
Definition put_loan (loan : LoanRecord) : X unit :=
  do! save (fun s => s <| k_Loan := <[borrower loan := loan]> (k_Loan s) |>);
  do! save (fun s => s <| k_LoanById := <[loan_id loan := loan]> (k_LoanById s) |>);
  add_user_loan (borrower loan) (loan_id loan).
Definition remove_loan (who : address) (id : Z) : X unit :=
  do! save (fun s => s <| k_Loan := delete who (k_Loan s) |>);
  do! save (fun s => s <| k_LoanById := delete id (k_LoanById s) |>);
  remove_user_loan who id.

(** ** Reserves *)
Definition get_reserve (token : address) : X ReserveConfig :=
  let! r := load (fun s => k_Reserve s !! token) in ok_or r ReserveNotFound.
Definition set_reserve (token : address) (r : ReserveConfig) : X unit :=
  save (fun s => s <| k_Reserve := <[token := r]> (k_Reserve s) |>).
Definition has_reserve (token : address) : X bool :=
  load (fun s => bool_decide (is_Some (k_Reserve s !! token))).
Definition add_reserve_collateral (token : address) (amount : Z) : X unit :=
  let! r := get_reserve token in
  set_reserve token (r <| rs_total_collateral := saturating_add64 (rs_total_collateral r) amount |>).
Definition sub_reserve_collateral (token : address) (amount : Z) : X unit :=
  let! r := get_reserve token in
  set_reserve token (r <| rs_total_collateral := saturating_sub (rs_total_collateral r) amount |>).
Definition add_reserve_borrowed (token : address) (amount : Z) : X unit :=
  let! r := get_reserve token in
  set_reserve token (r <| rs_total_borrowed := saturating_add64 (rs_total_borrowed r) amount |>).
Definition sub_reserve_borrowed (token : address) (amount : Z) : X unit :=
  let! r := get_reserve token in
  set_reserve token (r <| rs_total_borrowed := saturating_sub (rs_total_borrowed r) amount |>).

(** ** Calls to other contracts *)

(** [Self::transfer]: [try_invoke_contract], any failure is [TransferFailed]. *)
Definition transfer env (token from to : address) (amount : Z) : X unit :=
  let! t := gets toks in
  match tk_transfer t (auths (sub_env env token)) token from to amount with
  | None => fail TransferFailed
  | Some t' => modify (fun w => w <| toks := t' |>)
  end.

(** [token_client.transfer]: a failure traps. *)
Definition client_transfer env (token from to : address) (amount : Z) : X unit :=
  let! t := gets toks in
  let! t' := unwrap (tk_transfer t (auths (sub_env env token)) token from to amount) in
  modify (fun w => w <| toks := t' |>).

(** Run an entry point of the NFT contract at [nft]; a failure traps. *)
Definition call_nft env (nft : address) (m : Env -> M LoanNft.state Empty_set unit) : X unit :=
  let! ns := gets nfts in
  let! n := unwrap (ns !! nft) in
  match m (sub_env env nft) n with
  | Ok _ n' => modify (fun w => w <| nfts := <[nft := n']> (nfts w) |>)
  | _ => trap
  end.

(** Mint the position NFT of a loan, when an NFT contract is configured. *)
Definition mint_loan_nft env (loan : LoanRecord) : X unit :=
  let! nft := load k_NFTToken in
  match nft with
  | None => ret tt
  | Some nft_token =>
    let ltv := calc_ltv_ratio_bps (principal loan) (collateral_amount loan) in
    let! uri := unwrap (build_loan_nft_uri (loan_id loan) (principal loan)
                          (collateral_amount loan) ltv (due_date loan)) in
    call_nft env nft_token (fun e => LoanNft.mint e (borrower loan)
      (LoanNft.mkMetadata (loan_id loan) (borrower loan) (principal loan)
         (collateral_amount loan) (collateral_token loan) (due_date loan) ltv 0 uri))
  end.
Definition burn_loan_nft env (id : Z) : X unit :=
  let! nft := load k_NFTToken in
  match nft with
  | None => ret tt
  | Some nft_token => call_nft env nft_token (fun e => LoanNft.burn e id)
  end.

(** * Inversion *)

Lemma load_Ok {A} (f : store -> A) a w w' :
  load f w = Ok a w' <-> a = f (st w) /\ w' = w.
Proof. apply (gets_Ok (fun w => f (st w))). Qed.
Lemma save_Ok f u w w' : save f w = Ok u w' <-> u = tt /\ w' = w <| st := f (st w) |>.
Proof. apply (modify_Ok (fun w => w <| st := f (st w) |>)). Qed.
Lemma emit_Ok e u w w' : emit e w = Ok u w' <-> u = tt /\ w' = w <| evs := evs w ++ [e] |>.
Proof. apply (modify_Ok (fun w => w <| evs := evs w ++ [e] |>)). Qed.

Lemma emit_when_Ok b e u w w' :
  when b (emit e) w = Ok u w' -> exists es, w' = w <| evs := evs w ++ es |>.
Proof.
  rewrite when_Ok. destruct b.
  - intros Hr. apply emit_Ok in Hr as [_ ->]. eauto.
  - intros ->. exists []. destruct w; cbn. by rewrite app_nil_r.
Qed.

Lemma require_initialized_Ok u w w' :
  require_initialized w = Ok u w' <-> is_Some (k_Admin (st w)) /\ w' = w.
Proof.
  unfold require_initialized. rewrite bind_Ok. setoid_rewrite load_Ok.
  setoid_rewrite reject_if_Ok. setoid_rewrite bool_decide_eq_false.
  setoid_rewrite <-not_eq_None_Some. naive_solver.
Qed.

Lemma require_admin_Ok env a u w w' :
  require_admin env a w = Ok u w' <->
  a ∈ auths env /\ Admin ∈ roles_of (acl w) a /\ w' = w.
Proof.
  unfold require_admin. rewrite bind_Ok. setoid_rewrite require_auth_Ok. split.
  - intros (? & ? & [? ->] & Hr).
    apply (AccessControl.require_role_Ok a Admin NotAdmin u w w') in Hr as [? ->]. done.
  - intros (? & ? & ->). exists tt, w. split; [done|].
    by apply (AccessControl.require_role_Ok a Admin NotAdmin u w w).
Qed.

Lemma require_not_paused_Ok' u w w' :
  require_not_paused w = Ok u w' <->
  is_contract_paused (acl w) = false /\ pause_lock (acl w) = false /\ w' = w.
Proof. unfold require_not_paused. exact (AccessControl.require_not_paused_Ok ContractPaused u w w'). Qed.

Lemma enter_Ok u w w' :
  enter_reentrancy_guard w = Ok u w' <->
  ReentrancyLock (acl w) = None /\
  w' = w <| acl := (acl w) <| ReentrancyLock := Some true |> |>.
Proof. unfold enter_reentrancy_guard. exact (AccessControl.reentrancy_enter_Ok ReentrantCall u w w'). Qed.
Lemma exit_Ok u w w' :
  exit_reentrancy_guard w = Ok u w' <->
  w' = w <| acl := (acl w) <| ReentrancyLock := None |> |>.
Proof. unfold exit_reentrancy_guard. exact (AccessControl.reentrancy_exit_Ok (E := LendingError) u w w'). Qed.

Lemma get_pool_Ok a p w w' :
  get_pool a w = Ok p w' <-> k_PoolState (st w) !! a = Some p /\ w' = w.
Proof.
  unfold get_pool. rewrite bind_Ok. setoid_rewrite load_Ok. setoid_rewrite ok_or_Ok.
  naive_solver.
Qed.

Lemma flash_defense_Ok env a user u w w' :
  flash_defense env a user w = Ok u w' <->
  (forall l, k_DepositLedger (st w) !! (user, a) = Some l -> l < sequence env) /\ w' = w.
Proof.
  unfold flash_defense, get_user_deposit_ledger. rewrite bind_Ok. setoid_rewrite load_Ok.
  destruct (k_DepositLedger (st w) !! (user, a)) as [l|] eqn:Hl.
  - split.
    + intros (? & ? & [-> ->] & Hr). cbv beta in Hr.
      apply reject_if_Ok in Hr as [Hs%Z.leb_gt ->]. split; [intros ? [= <-]; done|done].
    + intros [Hs ->]. eexists _, w. split; [done|]. cbv beta. rewrite ?Hl. apply reject_if_Ok.
      split; [apply Z.leb_gt; by apply Hs|done].
  - split.
    + intros (? & ? & [-> ->] & Hr). cbv beta in Hr. by apply ret_Ok in Hr as [_ ->].
    + intros [_ ->]. eexists _, w. split; [done|]. cbv beta. rewrite ?Hl. apply ret_Ok. by destruct u.
Qed.

Lemma grace_period_end_Ok loan e w w' :
  grace_period_end loan w = Ok e w' <->
  exists p, k_PoolState (st w) !! asset loan = Some p /\
    e = due_date loan + grace_period_seconds p /\
    u64 (due_date loan + grace_period_seconds p) /\ w' = w.
Proof.
  unfold grace_period_end. rewrite bind_Ok. setoid_rewrite get_pool_Ok.
  setoid_rewrite ok_or_Ok. unfold checked_add64. setoid_rewrite checked_Some.
  unfold u64. naive_solver.
Qed.

Lemma increment_loan_id_Ok id w w' :
  increment_loan_id w = Ok id w' <->
  id = default 1 (k_NextLoanId (st w)) /\ u64 (id + 1) /\
  w' = w <| st := (st w) <| k_NextLoanId := Some (id + 1) |> |>.
Proof.
  unfold increment_loan_id, get_next_loan_id. split.
  - intros Hr. run_bind Hr. match goal with Hl : load _ _ = _ |- _ => apply load_Ok in Hl as [-> ->] end.
    run_inv. match goal with Hl : save _ _ = _ |- _ => apply save_Ok in Hl as [_ ->] end. done.
  - intros (-> & Hu & ->). apply bind_Ok. eexists _, w. split; [by apply load_Ok|].
    apply bind_Ok. eexists _, w. split; [by apply add64_Ok|].
    apply bind_Ok. eexists tt, _. split; [by apply save_Ok|]. by apply ret_Ok.
Qed.

Lemma add_user_loan_Ok who id u w w' :
  add_user_loan who id w = Ok u w' <->
  u = tt /\ w' = w <| st := (st w)
    <| k_UserLoans := <[who := user_loans (st w) who ++ [id]]> (k_UserLoans (st w)) |> |>.
Proof.
  unfold add_user_loan. rewrite bind_Ok. setoid_rewrite load_Ok. setoid_rewrite save_Ok.
  naive_solver.
Qed.

(** The [UserLoans] map after [remove_user_loan]. *)
Definition drop_user_loan (s : store) (who : address) (id : Z) : gmap address (list Z) :=
  match filter (fun i => i <> id) (user_loans s who) with
  | [] => delete who (k_UserLoans s)
  | l => <[who := l]> (k_UserLoans s)
  end.
Lemma remove_user_loan_Ok who id u w w' :
  remove_user_loan who id w = Ok u w' <->
  u = tt /\ w' = w <| st := (st w) <| k_UserLoans := drop_user_loan (st w) who id |> |>.
Proof.
  unfold remove_user_loan, drop_user_loan. rewrite bind_Ok. setoid_rewrite load_Ok. split.
  - intros (? & ? & [-> ->] & Hr). cbv beta in Hr. destruct (filter _ _); by apply save_Ok in Hr as [-> ->].
  - intros [-> ->]. eexists _, w. split; [done|]. cbv beta. destruct (filter _ _); by apply save_Ok.
Qed.

Lemma put_loan_Ok l u w w' :
  put_loan l w = Ok u w' <->
  u = tt /\ w' = w <| st := (st w)
    <| k_Loan := <[borrower l := l]> (k_Loan (st w)) |>
    <| k_LoanById := <[loan_id l := l]> (k_LoanById (st w)) |>
    <| k_UserLoans := <[borrower l := user_loans (st w) (borrower l) ++ [loan_id l]]>
                        (k_UserLoans (st w)) |> |>.
Proof.
  split; [intros Hr; by injection Hr as <- <-|by intros [-> ->]].
Qed.

Lemma remove_loan_Ok who id u w w' :
  remove_loan who id w = Ok u w' <->
  u = tt /\ w' = w <| st := (st w)
    <| k_Loan := delete who (k_Loan (st w)) |>
    <| k_LoanById := delete id (k_LoanById (st w)) |>
    <| k_UserLoans := drop_user_loan (st w) who id |> |>.
Proof.
  unfold remove_loan. split.
  - intros Hr. run_bind Hr. run_bind Hr. apply remove_user_loan_Ok in Hr as [-> ->].
    repeat match goal with Hs : save _ _ = _ |- _ => apply save_Ok in Hs as [-> ->] end. done.
  - intros [-> ->]. do 2 (apply bind_Ok; eexists tt, _; split; [by apply save_Ok|]).
    by apply remove_user_loan_Ok.
Qed.

Lemma get_reserve_Ok token r w w' :
  get_reserve token w = Ok r w' <-> k_Reserve (st w) !! token = Some r /\ w' = w.
Proof.
  unfold get_reserve. rewrite bind_Ok. setoid_rewrite load_Ok. setoid_rewrite ok_or_Ok.
  naive_solver.
Qed.

(** Every reserve tally rewrites the [Reserve] map and nothing else. *)
Definition only_reserves (w w' : world T) : Prop :=
  exists rs, w' = w <| st := (st w) <| k_Reserve := rs |> |>.
Lemma reserve_update_Ok (m : address -> Z -> X unit) token amount u w w' :
  m = add_reserve_collateral \/ m = sub_reserve_collateral \/
  m = add_reserve_borrowed \/ m = sub_reserve_borrowed ->
  m token amount w = Ok u w' -> only_reserves w w'.
Proof.
  intros [->|[->|[->| ->]]] Hr; run_bind Hr;
    (match goal with Hg : get_reserve _ _ = _ |- _ => apply get_reserve_Ok in Hg as [? ->] end);
    apply save_Ok in Hr as [_ ->]; by eexists.
Qed.

Lemma nfts_refl w : exists ns, w = w <| nfts := ns |>.
Proof. exists (nfts w). by destruct w. Qed.
Lemma call_nft_Ok env nft m u w w' :
  call_nft env nft m w = Ok u w' -> exists ns, w' = w <| nfts := ns |>.
Proof.
  unfold call_nft. intros Hr. run_inv. destruct (m _ _); run_inv; eauto.
Qed.
Lemma mint_loan_nft_Ok env l u w w' :
  mint_loan_nft env l w = Ok u w' -> exists ns, w' = w <| nfts := ns |>.
Proof.
  unfold mint_loan_nft. intros Hr. run_bind Hr.
  match goal with Hl : load _ _ = _ |- _ => apply load_Ok in Hl as [-> ->] end.
  destruct (k_NFTToken (st w)); run_inv.
  - by eapply call_nft_Ok.
  - apply nfts_refl.
Qed.
Lemma burn_loan_nft_Ok env id u w w' :
  burn_loan_nft env id w = Ok u w' -> exists ns, w' = w <| nfts := ns |>.
Proof.
  unfold burn_loan_nft. intros Hr. run_bind Hr.
  match goal with Hl : load _ _ = _ |- _ => apply load_Ok in Hl as [-> ->] end.
  destruct (k_NFTToken (st w)); run_inv.
  - by eapply call_nft_Ok.
  - apply nfts_refl.
Qed.

Lemma transfer_Ok env token from to amount u w w' :
  transfer env token from to amount w = Ok u w' <->
  exists t', tk_transfer (toks w) (auths (sub_env env token)) token from to amount = Some t' /\
    w' = w <| toks := t' |>.
Proof.
  unfold transfer. rewrite bind_Ok. setoid_rewrite gets_Ok. split.
  - intros (t & w1 & [-> ->] & Hr). destruct (tk_transfer _ _ _ _ _ _) as [t'|]; [|done].
    apply modify_Ok in Hr as [_ ->]. eauto.
  - intros (t' & Ht & ->). eexists _, w. split; [done|]. rewrite Ht.
    apply modify_Ok. by destruct u.
Qed.

Lemma client_transfer_Ok env token from to amount u w w' :
  client_transfer env token from to amount w = Ok u w' <->
  exists t', tk_transfer (toks w) (auths (sub_env env token)) token from to amount = Some t' /\
    w' = w <| toks := t' |>.
Proof.
  unfold client_transfer. split.
  - intros Hr. run_inv. eauto.
  - intros (t' & Ht & ->). run_fwd ltac:(done). by destruct u.
Qed.

(** Reading the storage leaves the whole world as it is. *)
Lemma keeps_load {A B} (f : world T -> B) (g : store -> A) : keeps f (load g).
Proof. apply keeps_gets. Qed.
Lemma keeps_get_pool {B} (f : world T -> B) a : keeps f (get_pool a).
Proof. apply keeps_bind; [apply keeps_load|]. intros ?. apply keeps_ok_or. Qed.
Lemma keeps_grace_period_end {B} (f : world T -> B) l : keeps f (grace_period_end l).
Proof. apply keeps_bind; [apply keeps_get_pool|]. intros ?. apply keeps_ok_or. Qed.
Lemma keeps_require_initialized {B} (f : world T -> B) : keeps f require_initialized.
Proof. apply keeps_bind; [apply keeps_load|]. intros ?. apply keeps_reject_if. Qed.
End core.

#[export] Hint Resolve keeps_load keeps_get_pool keeps_grace_period_end
  keeps_require_initialized : keeps.
#[global] Hint Rewrite @load_Ok @save_Ok @emit_Ok @require_initialized_Ok @require_admin_Ok
  @require_not_paused_Ok' @enter_Ok @exit_Ok @get_pool_Ok @flash_defense_Ok
  @grace_period_end_Ok @increment_loan_id_Ok @transfer_Ok @client_transfer_Ok
  @add_user_loan_Ok @remove_user_loan_Ok @put_loan_Ok @remove_loan_Ok @get_reserve_Ok : run.

Ltac lending_extra :=
  match goal with
  | H : load _ _ = Ok _ _ |- _ => apply load_Ok in H
  | H : save _ _ = Ok _ _ |- _ => apply save_Ok in H
  | H : emit _ _ = Ok _ _ |- _ => apply emit_Ok in H
  | H : require_initialized _ = Ok _ _ |- _ => apply require_initialized_Ok in H
  | H : require_admin _ _ _ = Ok _ _ |- _ => apply require_admin_Ok in H
  | H : require_not_paused _ = Ok _ _ |- _ => apply require_not_paused_Ok' in H
  | H : enter_reentrancy_guard _ = Ok _ _ |- _ => apply enter_Ok in H
  | H : exit_reentrancy_guard _ = Ok _ _ |- _ => apply exit_Ok in H
  | H : get_pool _ _ = Ok _ _ |- _ => apply get_pool_Ok in H
  | H : set_pool _ _ _ = Ok _ _ |- _ => unfold set_pool in H
  | H : flash_defense _ _ _ _ = Ok _ _ |- _ => apply flash_defense_Ok in H
  | H : grace_period_end _ _ = Ok _ _ |- _ => apply grace_period_end_Ok in H
  | H : increment_loan_id _ = Ok _ _ |- _ => apply increment_loan_id_Ok in H
  | H : transfer _ _ _ _ _ _ = Ok _ _ |- _ => apply transfer_Ok in H
  | H : client_transfer _ _ _ _ _ _ = Ok _ _ |- _ => apply client_transfer_Ok in H
  | H : add_user_loan _ _ _ = Ok _ _ |- _ => apply add_user_loan_Ok in H
  | H : remove_user_loan _ _ _ = Ok _ _ |- _ => apply remove_user_loan_Ok in H
  | H : put_loan _ _ = Ok _ _ |- _ => apply put_loan_Ok in H
  | H : remove_loan _ _ _ = Ok _ _ |- _ => apply remove_loan_Ok in H
  | H : get_reserve _ _ = Ok _ _ |- _ => apply get_reserve_Ok in H
  | H : when _ (emit _) _ = Ok _ _ |- _ => apply emit_when_Ok in H
  | H : mint_loan_nft _ _ _ = Ok _ _ |- _ => apply mint_loan_nft_Ok in H
  | H : burn_loan_nft _ _ _ = Ok _ _ |- _ => apply burn_loan_nft_Ok in H
  | H : add_reserve_collateral _ _ _ = Ok _ _ |- _ =>
    apply (reserve_update_Ok add_reserve_collateral) in H; [unfold only_reserves in H|by auto]
  | H : sub_reserve_collateral _ _ _ = Ok _ _ |- _ =>
    apply (reserve_update_Ok sub_reserve_collateral) in H; [unfold only_reserves in H|by auto]
  | H : add_reserve_borrowed _ _ _ = Ok _ _ |- _ =>
    apply (reserve_update_Ok add_reserve_borrowed) in H; [unfold only_reserves in H|by auto]
  | H : sub_reserve_borrowed _ _ _ = Ok _ _ |- _ =>
    apply (reserve_update_Ok sub_reserve_borrowed) in H; [unfold only_reserves in H|by auto]
  end.
Ltac run_extra ::= lending_extra.

(** Compute the projections of updated worlds. *)
Ltac norm_all :=
  cbn [upd_field st acl evs toks nfts Roles Blacklisted ReentrancyLock Paused PauseLock
       ActiveOps ContractVersion
       k_Admin k_SupportedAssets k_PoolState k_Shares k_Loan k_NextLoanId k_LoanById
       k_CollateralRatio k_WhitelistedCollateral k_Reserve k_NFTToken k_LateFeesAccrued
       k_FlashLoanFeeBps k_UserLoans k_RewardPool k_UserStake k_Insurance
       k_InsuranceFund k_InsurancePremiumRate k_InheritanceContract
       k_GovernanceContract k_RateModel k_Token k_WhitelistedFlashReceiver k_Version
       k_PlanYield k_PlanYieldIndex k_DepositLedger k_supp_wrp] in *.

(** Eliminate the intermediate worlds from the last to the first, so that a
    fact about one is a small fact about the one before it. *)
Ltac last_world H x :=
  is_var x; lazymatch type of x with world _ => idtac end;
  assert_fails (idtac; match goal with
    | H' : ?y = ?r |- _ =>
      is_var y; lazymatch type of y with world _ => idtac end;
      lazymatch r with context [x] => idtac end
    end).
Ltac lending_final :=
  repeat match goal with
  | H : ?x = _ |- _ => last_world H x; subst x; norm_all
  end; subst.
Ltac run_final ::= lending_final.
Ltac run_fallback ::= fail.

(** Taking and dropping the lock leaves the access-control state as it was:
    equate two worlds that differ by it. *)
Ltac unlock :=
  match goal with Hl : ReentrancyLock (acl ?w0) = None |- _ =>
    destruct w0 as [? [] ? ? ?]; cbn in Hl |- *; by rewrite Hl, <-?app_assoc
  end.

(** Two reads of one entry are one read. *)
Ltac merge_lookup H1 H2 :=
  let He := fresh in pose proof H1 as He; rewrite H2 in He; injection He as He; subst; clear H2.
Ltac merge_lookups :=
  repeat match goal with
  | H1 : k_Loan ?s !! ?k = Some _, H2 : k_Loan ?s !! ?k = Some _ |- _ => merge_lookup H1 H2
  | H1 : k_PoolState ?s !! ?k = Some _, H2 : k_PoolState ?s !! ?k = Some _ |- _ =>
    merge_lookup H1 H2
  end.

End LendingCore.
