(* ===== verification/LendingExample.v ===== *)
(** A small concrete deployment on a network of [MockToken]s, on which the
    theorems of the lending files are instantiated. *)
From S2P Require Import Prelude Host AccessControl Token MockToken LendingTypes LendingMath LendingCore.
Import LendingTypes.

Module LendingExample.

(** Accounts and contracts. *)
Definition admin : address := 1%positive.
Definition alice : address := 2%positive.
Definition bob : address := 3%positive.
Definition carol : address := 4%positive.
Definition usd : address := 10%positive.
Definition gold : address := 11%positive.
Definition pool_contract : address := 20%positive.
Definition receiver : address := 30%positive.

(** Everyone but the contract itself signs. *)
Definition env_at (time seq : Z) : Env :=
  mkEnv time seq pool_contract {[ admin; alice; bob; carol ]}.

Definition token_with (holders : list (address * Z)) : MockToken.state :=
  MockToken.mkState (list_to_map holders) (Some (foldr (fun h acc => snd h + acc) 0 holders)).

Definition network0 : MockToken.network :=
  {[ usd := token_with [(alice, 1000000); (bob, 1000000); (carol, 1000000); (admin, 1000000);
                        (receiver, 1000000)];
     gold := token_with [(alice, 1000000); (bob, 1000000); (carol, 1000000)] ]}.

Definition fresh_pool : PoolState :=
  mkPool 0 0 0 500 2000 8000 0 0 DEFAULT_GRACE_PERIOD_SECONDS DEFAULT_LATE_FEE_RATE_BPS 1000 0 false.

Definition store0 : store :=
  empty_store
    <| k_Admin := Some admin |>
    <| k_SupportedAssets := Some [usd] |>
    <| k_PoolState := {[ usd := fresh_pool ]} |>
    <| k_CollateralRatio := Some 15000 |>
    <| k_WhitelistedCollateral := {[ gold := true ]} |>
    <| k_WhitelistedFlashReceiver := {[ receiver := true ]} |>
    <| k_InheritanceContract := Some admin |>
    <| k_Token := Some usd |>.

Definition world0 : world MockToken.network :=
  mkWorld _ store0
    (AccessControl.mkState {[ admin := [AccessControl.Admin] ]} ∅ None None None None None)
    [] network0 ∅.

End LendingExample.
