(* ===== verification/LendingPool.v ===== *)
(** Liquidity side of the lending contract
    ([contracts/lending-contract/src/lib.rs]): deposits, withdrawals, priority
    withdrawals, flash loans, retained yield and the bad-debt reserve. *)
From S2P Require Import Prelude Host AccessControl Token MockToken.
From S2P Require Import LendingTypes LendingMath LendingCore LendingExample.
Import AccessControl LendingTypes LendingMath LendingCore.

Module LendingPool.

Section pool.
Context {T : Type} `{TokenOps T}.
Abbreviation X A := (M (world T) LendingError A).
Implicit Types (env : Env) (w : world T).

(** ** Deposits and withdrawals *)

(** The shares minted to the depositor and the pool's new share total before
    they are added: the first deposit locks [MINIMUM_LIQUIDITY] forever. *)
Definition mint_shares (pool : PoolState) (amount : Z) : X (Z * Z) :=
  let shares := shares_for_deposit pool amount in
  if total_shares pool =? 0 then
    do! reject_if (shares <=? MINIMUM_LIQUIDITY) InvalidAmount;
    let! shares := sub64 shares MINIMUM_LIQUIDITY in
    let! ts := add64 (total_shares pool) MINIMUM_LIQUIDITY in
    ret (shares, ts)
  else ret (shares, total_shares pool).

Definition deposit env (depositor asset : address) (amount : Z) : X Z :=
  do! require_not_paused;
  do! require_initialized;
  do! enter_reentrancy_guard;
  do! require_auth env depositor;
  do! reject_if (amount =? 0) InvalidAmount;
  let! pool := get_pool asset in
  do! reject_if (is_paused pool) PoolPaused;
  do! transfer env asset depositor (current_contract env) amount;
  let! minted := mint_shares pool amount in
  let shares := fst minted in
  do! reject_if (shares =? 0) InvalidAmount;
  let! deposits := add64 (total_deposits pool) amount in
  let! ts := add64 (snd minted) shares in
  do! set_pool asset (pool <| total_deposits := deposits |> <| total_shares := ts |>);
  let! existing := get_shares asset depositor in
  let! held := add64 existing shares in
  do! set_shares asset depositor held;
  do! set_user_deposit_ledger asset depositor (sequence env);
  do! emit (DepositEvent depositor asset amount shares);
  do! exit_reentrancy_guard;
  ret shares.

Definition withdraw_body env (depositor asset : address) (shares : Z) : X Z :=
  do! require_auth env depositor;
  do! reject_if (shares =? 0) InvalidAmount;
  do! flash_defense env asset depositor;
  let! depositor_shares := get_shares asset depositor in
  do! reject_if (depositor_shares <? shares) InsufficientShares;
  let! pool := get_pool asset in
  do! reject_if (is_paused pool) PoolPaused;
  let amount := assets_for_shares pool shares in
  do! reject_if (amount =? 0) InvalidAmount;
  do! reject_if (saturating_sub (total_deposits pool) (total_borrowed pool) <? amount)
        InsufficientLiquidity;
  let! deposits := sub64 (total_deposits pool) amount in
  let! ts := sub64 (total_shares pool) shares in
  do! set_pool asset (pool <| total_deposits := deposits |> <| total_shares := ts |>);
  let! held := sub64 depositor_shares shares in
  do! set_shares asset depositor held;
  do! transfer env asset (current_contract env) depositor amount;
  do! emit (WithdrawEvent depositor asset shares amount);
  ret amount.

Definition withdraw env (depositor asset : address) (shares : Z) : X Z :=
  do! require_not_paused;
  do! require_initialized;
  with_guard ReentrantCall (withdraw_body env depositor asset shares).

Definition withdraw_priority env (caller asset : address) (amount : Z) : X Z :=
  do! require_not_paused;
  do! require_initialized;
  do! enter_reentrancy_guard;
  do! require_auth env caller;
  do! reject_if (amount =? 0) InvalidAmount;
  let! pool := get_pool asset in
  do! reject_if (retained_yield pool <? amount) InsufficientLiquidity;
  let! ry := sub64 (retained_yield pool) amount in
  do! set_pool asset (pool <| retained_yield := ry |>);
  do! transfer env asset (current_contract env) caller amount;
  do! emit (PriorityWithdrawEvent caller asset amount);
  do! exit_reentrancy_guard;
  ret amount.

(** ** Retained yield and reserves *)
Definition check_plan_yield_caller (caller : address) : X unit :=
  let! linked := load k_InheritanceContract in
  if bool_decide (linked = Some caller) then ret tt
  else zoom (require_role caller Admin Unauthorized).

Definition require_plan_yield_caller env (caller : address) : X unit :=
  do! require_auth env caller;
  check_plan_yield_caller caller.

Definition fund_retained_yield env (funder asset : address) (amount : Z) : X Z :=
  do! require_initialized;
  do! require_not_paused;
  do! require_plan_yield_caller env funder;
  do! reject_if (amount =? 0) InvalidAmount;
  let! pool := get_pool asset in
  do! transfer env asset funder (current_contract env) amount;
  let! ry := ok_or (checked_add64 (retained_yield pool) amount) InvalidAmount in
  do! set_pool asset (pool <| retained_yield := ry |>);
  do! emit (RetainedYieldFundedEvent asset funder amount ry);
  ret ry.

(** The check of the reserve functions: the stored administrator itself. *)
Definition require_stored_admin env (admin : address) : X unit :=
  do! require_auth env admin;
  let! stored := load k_Admin in
  reject_if (negb (bool_decide (stored = Some admin))) Unauthorized.

Definition set_reserve_factor env (admin asset : address) (reserve_factor : Z) : X unit :=
  do! require_stored_admin env admin;
  do! reject_if (10000 <? reserve_factor) InvalidAmount;
  let! pool := get_pool asset in
  set_pool asset (pool <| reserve_factor_bps := reserve_factor |>).

Definition pay_from_reserve env (admin asset to : address) (amount : Z) : X unit :=
  do! require_stored_admin env admin;
  let! pool := get_pool asset in
  do! reject_if (bad_debt_reserve pool <? amount) InsufficientLiquidity;
  do! set_pool asset (pool <| bad_debt_reserve := saturating_sub (bad_debt_reserve pool) amount |>);
  transfer env asset (current_contract env) to amount.

Definition withdraw_reserves env (admin asset : address) (amount : Z) : X unit :=
  pay_from_reserve env admin asset admin amount.
Definition allocate_reserves env (admin asset : address) (amount : Z)
    (insurance_fund : address) : X unit :=
  pay_from_reserve env admin asset insurance_fund amount.

Definition replenish_bad_debt_reserve env (admin asset : address) (amount : Z) : X Z :=
  do! require_not_paused;
  do! require_initialized;
  do! require_admin env admin;
  do! reject_if (amount =? 0) InvalidAmount;
  let! pool := get_pool asset in
  do! transfer env asset admin (current_contract env) amount;
  let bdr := saturating_add64 (bad_debt_reserve pool) amount in
  do! set_pool asset (pool <| bad_debt_reserve := bdr |>);
  do! emit (BadDebtReserveReplenishedEvent asset amount bdr);
  ret bdr.

Definition accrue_interest_with_reserve env (id : Z) : X unit :=
  let! l := load (fun s => k_LoanById s !! id) in
  let! loan := ok_or l LoanNotFound in
  let elapsed := saturating_sub (timestamp env) (borrow_time loan) in
  let total_interest := calculate_interest (principal loan) (interest_rate_bps loan) elapsed in
  let! pool := get_pool (asset loan) in
  let split := calculate_interest_split total_interest (reserve_factor_bps pool) in
  set_pool (asset loan)
    (pool <| retained_yield := saturating_add64 (retained_yield pool) (fst split) |>
          <| bad_debt_reserve := saturating_add64 (bad_debt_reserve pool) (snd split) |>
          <| total_protocol_revenue :=
               saturating_add64 (total_protocol_revenue pool) (snd split) |>).

(** ** Flash loans *)
Definition get_flash_loan_fee : X Z := load (fun s => default 9 (k_FlashLoanFeeBps s)).
Definition set_flash_loan_fee env (admin : address) (fee_bps : Z) : X unit :=
  do! require_admin env admin;
  save (fun s => s <| k_FlashLoanFeeBps := Some fee_bps |>).
Definition whitelist_flash_loan_receiver env (admin receiver : address) : X unit :=
  do! require_admin env admin;
  save (fun s => s <| k_WhitelistedFlashReceiver :=
                       <[receiver := true]> (k_WhitelistedFlashReceiver s) |>).
Definition remove_flash_loan_receiver env (admin receiver : address) : X unit :=
  do! require_admin env admin;
  save (fun s => s <| k_WhitelistedFlashReceiver :=
                       delete receiver (k_WhitelistedFlashReceiver s) |>).
Definition is_flash_receiver_whitelisted (receiver : address) : X bool :=
  load (fun s => default false (k_WhitelistedFlashReceiver s !! receiver)).

(** [execute_operation] of a receiver contract.  It is foreign code: it may
    move tokens and call back into this contract, so it maps worlds to worlds;
    [None] is a trap. *)
Variable execute_operation :
  Env -> address -> Z -> Z -> address -> world T -> option (world T).

Definition flash_fee (amount fee_bps : Z) : Z := as_u64 (muldiv128 amount fee_bps 10000).

Definition token_balance (token a : address) : X Z := gets (fun w => tk_balance (toks w) token a).

Definition flash_loan_inner env (initiator receiver asset : address) (amount : Z) : X unit :=
  do! reject_if (amount =? 0) InvalidAmount;
  let! pool := get_pool asset in
  do! reject_if (is_paused pool) PoolPaused;
  do! reject_if (saturating_sub (total_deposits pool) (total_borrowed pool) <? amount)
        InsufficientLiquidity;
  let! new_borrowed := add64 (total_borrowed pool) amount in
  do! reject_if (utilization_cap_bps pool <? get_utilization_bps new_borrowed (total_deposits pool))
        UtilizationCapExceeded;
  let! fee_bps := get_flash_loan_fee in
  let fee := flash_fee amount fee_bps in
  let contract_id := current_contract env in
  let! balance_before := token_balance asset contract_id in
  do! client_transfer env asset contract_id receiver amount;
  let! w1 := gets id in
  let! w2 := unwrap (execute_operation (sub_env env receiver) receiver amount fee initiator w1) in
  do! modify (fun _ => w2);
  let! balance_after := token_balance asset contract_id in
  let! required_balance := wrap_i128 (balance_before + fee) in
  do! reject_if (balance_after <? required_balance) FlashLoanNotRepaid;
  let! deposits := add64 (total_deposits pool) fee in
  do! set_pool asset (pool <| total_deposits := deposits |>);
  emit (FlashLoanEvent receiver asset amount fee).

Definition flash_loan env (initiator receiver asset : address) (amount : Z) : X unit :=
  do! require_not_paused;
  do! require_initialized;
  do! require_auth env initiator;
  let! ok := is_flash_receiver_whitelisted receiver in
  do! reject_if (negb ok) Unauthorized;
  do! enter_reentrancy_guard;
  finally (flash_loan_inner env initiator receiver asset amount) exit_reentrancy_guard.
(** * Inversion *)

(** What [deposit] mints on a pool: the depositor's shares [sh] and the share
    total [ts] they are added to. *)
Definition mints (p : PoolState) (amount sh ts : Z) : Prop :=
  if total_shares p =? 0
  then sh = amount - MINIMUM_LIQUIDITY /\ ts = MINIMUM_LIQUIDITY /\ 0 < sh
  else sh = shares_for_deposit p amount /\ ts = total_shares p.

Lemma mint_shares_Ok p amount r w w' :
  mint_shares p amount w = Ok r w' -> mints p amount (fst r) (snd r) /\ w' = w.
Proof.
  unfold mint_shares, mints. destruct (Z.eqb_spec (total_shares p) 0) as [Hz|]; intros Hr; run_inv.
  - unfold shares_for_deposit in *. rewrite Hz in *. simpl in *. rewrite Z.leb_gt in *.
    split_and!; [done|done|lia|done].
  - done.
Qed.

Lemma deposit_Ok env d a amount w sh w' :
  deposit env d a amount w = Ok sh w' ->
  exists p ts t', k_PoolState (st w) !! a = Some p /\ is_paused p = false /\
    d ∈ auths env /\ amount <> 0 /\ sh <> 0 /\
    ReentrancyLock (acl w) = None /\
    mints p amount sh ts /\
    u64 (total_deposits p + amount) /\ u64 (ts + sh) /\ u64 (shares_of (st w) a d + sh) /\
    tk_transfer (toks w) (auths (sub_env env a)) a d (current_contract env) amount = Some t' /\
    w' = w
      <| st := (st w)
         <| k_PoolState := <[a := p <| total_deposits := total_deposits p + amount |>
                                    <| total_shares := ts + sh |>]> (k_PoolState (st w)) |>
         <| k_Shares := <[(d, a) := shares_of (st w) a d + sh]> (k_Shares (st w)) |>
         <| k_DepositLedger := <[(d, a) := sequence env]> (k_DepositLedger (st w)) |> |>
      <| evs := evs w ++ [DepositEvent d a amount sh] |>
      <| toks := t' |>.
Proof.
  unfold deposit, get_shares, set_shares, set_pool, set_user_deposit_ledger.
  intros Hr. run_inv.
  match goal with Hm : mint_shares _ _ _ = _ |- _ => apply mint_shares_Ok in Hm as [? ->] end.
  rewrite Z.eqb_neq in *. do 3 eexists. split_and!; try done. unlock.
Qed.

Lemma withdraw_Ok env d a shares w amount w' :
  withdraw env d a shares w = Ok amount w' ->
  exists p t', k_PoolState (st w) !! a = Some p /\ is_paused p = false /\
    d ∈ auths env /\ 0 <> shares /\ shares <= shares_of (st w) a d /\
    ReentrancyLock (acl w) = None /\
    (forall l, k_DepositLedger (st w) !! (d, a) = Some l -> l < sequence env) /\
    amount = assets_for_shares p shares /\ amount <> 0 /\
    amount <= saturating_sub (total_deposits p) (total_borrowed p) /\
    u64 (total_deposits p - amount) /\ u64 (total_shares p - shares) /\
    u64 (shares_of (st w) a d - shares) /\
    tk_transfer (toks w) (auths (sub_env env a)) a (current_contract env) d amount = Some t' /\
    w' = w
      <| st := (st w)
         <| k_PoolState := <[a := p <| total_deposits := total_deposits p - amount |>
                                    <| total_shares := total_shares p - shares |>]>
                             (k_PoolState (st w)) |>
         <| k_Shares := <[(d, a) := shares_of (st w) a d - shares]> (k_Shares (st w)) |> |>
      <| evs := evs w ++ [WithdrawEvent d a shares amount] |>
      <| toks := t' |>.
Proof.
  unfold withdraw, withdraw_body. intros Hr. run_bind Hr. run_bind Hr.
  apply with_guard_Ok in Hr as (Hl & w1 & Hr & ->).
  unfold get_shares, set_shares, set_pool in Hr. run_inv. change (ReentrancyLock (acl w) = None) in Hl.
  rewrite Z.eqb_neq, Z.ltb_ge in *. do 2 eexists. split_and!; try done. unlock.
Qed.

Lemma withdraw_priority_Ok env c a amount w r w' :
  withdraw_priority env c a amount w = Ok r w' ->
  exists p t', k_PoolState (st w) !! a = Some p /\ c ∈ auths env /\ r = amount /\
    amount <= retained_yield p /\ u64 (retained_yield p - amount) /\
    ReentrancyLock (acl w) = None /\
    tk_transfer (toks w) (auths (sub_env env a)) a (current_contract env) c amount = Some t' /\
    w' = w
      <| st := (st w) <| k_PoolState :=
           <[a := p <| retained_yield := retained_yield p - amount |>]> (k_PoolState (st w)) |> |>
      <| evs := evs w ++ [PriorityWithdrawEvent c a amount] |>
      <| toks := t' |>.
Proof.
  unfold withdraw_priority, set_pool. intros Hr. run_inv. rewrite Z.ltb_ge in *.
  do 2 eexists. split_and!; try done. unlock.
Qed.

Lemma check_plan_yield_caller_Ok c u w w' :
  check_plan_yield_caller c w = Ok u w' ->
  (k_InheritanceContract (st w) = Some c \/ Admin ∈ roles_of (acl w) c) /\ w' = w.
Proof.
  unfold check_plan_yield_caller. intros Hr. run_bind Hr. run_inv. case_bool_decide.
  - run_inv. auto.
  - apply (require_role_Ok c Admin Unauthorized) in Hr as [? ->]. auto.
Qed.

Lemma fund_retained_yield_Ok env f a amount w r w' :
  fund_retained_yield env f a amount w = Ok r w' ->
  exists p t', k_PoolState (st w) !! a = Some p /\ f ∈ auths env /\ amount <> 0 /\
    (k_InheritanceContract (st w) = Some f \/ Admin ∈ roles_of (acl w) f) /\
    r = retained_yield p + amount /\ u64 r /\
    tk_transfer (toks w) (auths (sub_env env a)) a f (current_contract env) amount = Some t' /\
    w' = w
      <| st := (st w) <| k_PoolState := <[a := p <| retained_yield := r |>]> (k_PoolState (st w)) |> |>
      <| evs := evs w ++ [RetainedYieldFundedEvent a f amount r] |>
      <| toks := t' |>.
Proof.
  unfold fund_retained_yield, set_pool, require_plan_yield_caller. intros Hr. run_inv.
  match goal with Hc : check_plan_yield_caller _ _ = _ |- _ =>
    apply check_plan_yield_caller_Ok in Hc as [? ->] end.
  unfold checked_add64 in *. match goal with Hc : checked _ _ = Some _ |- _ =>
    apply checked_Some in Hc as [-> ?] end.
  rewrite Z.eqb_neq in *. do 2 eexists. split_and!; try done.
Qed.

Lemma pay_from_reserve_Ok env adm a to amount w u w' :
  pay_from_reserve env adm a to amount w = Ok u w' ->
  exists p t', k_PoolState (st w) !! a = Some p /\ adm ∈ auths env /\ k_Admin (st w) = Some adm /\
    amount <= bad_debt_reserve p /\
    tk_transfer (toks w) (auths (sub_env env a)) a (current_contract env) to amount = Some t' /\
    w' = w
      <| st := (st w) <| k_PoolState :=
           <[a := p <| bad_debt_reserve := saturating_sub (bad_debt_reserve p) amount |>]>
             (k_PoolState (st w)) |> |>
      <| toks := t' |>.
Proof.
  unfold pay_from_reserve, set_pool, require_stored_admin. intros Hr. run_inv.
  rewrite negb_false_iff, bool_decide_eq_true, Z.ltb_ge in *.
  do 2 eexists. split_and!; try done.
Qed.

Lemma set_reserve_factor_Ok env adm a rf w u w' :
  set_reserve_factor env adm a rf w = Ok u w' ->
  exists p, k_PoolState (st w) !! a = Some p /\ adm ∈ auths env /\ k_Admin (st w) = Some adm /\
    rf <= 10000 /\
    w' = w <| st := (st w) <| k_PoolState :=
           <[a := p <| reserve_factor_bps := rf |>]> (k_PoolState (st w)) |> |>.
Proof.
  unfold set_reserve_factor, set_pool, require_stored_admin. intros Hr. run_inv.
  rewrite negb_false_iff, bool_decide_eq_true, Z.ltb_ge in *. eauto 6.
Qed.

Lemma replenish_Ok env adm a amount w r w' :
  replenish_bad_debt_reserve env adm a amount w = Ok r w' ->
  exists p t', k_PoolState (st w) !! a = Some p /\ adm ∈ auths env /\ amount <> 0 /\
    r = saturating_add64 (bad_debt_reserve p) amount /\
    tk_transfer (toks w) (auths (sub_env env a)) a adm (current_contract env) amount = Some t' /\
    w' = w
      <| st := (st w) <| k_PoolState := <[a := p <| bad_debt_reserve := r |>]> (k_PoolState (st w)) |> |>
      <| evs := evs w ++ [BadDebtReserveReplenishedEvent a amount r] |>
      <| toks := t' |>.
Proof.
  unfold replenish_bad_debt_reserve, set_pool. intros Hr. run_inv.
  rewrite Z.eqb_neq in *. do 2 eexists. split_and!; try done.
Qed.

Lemma accrue_Ok env id w u w' :
  accrue_interest_with_reserve env id w = Ok u w' ->
  exists a p ry bdr rev, k_PoolState (st w) !! a = Some p /\
    w' = w <| st := (st w) <| k_PoolState :=
      <[a := p <| retained_yield := ry |> <| bad_debt_reserve := bdr |>
               <| total_protocol_revenue := rev |>]> (k_PoolState (st w)) |> |>.
Proof.
  unfold accrue_interest_with_reserve, set_pool. intros Hr. run_inv. do 5 eexists. split; done.
Qed.

Lemma flash_loan_inner_Ok env i r a amount w u w' :
  flash_loan_inner env i r a amount w = Ok u w' ->
  exists p t1 w2, let fee := flash_fee amount (default 9 (k_FlashLoanFeeBps (st w))) in
    k_PoolState (st w) !! a = Some p /\ is_paused p = false /\ amount <> 0 /\
    amount <= saturating_sub (total_deposits p) (total_borrowed p) /\
    get_utilization_bps (total_borrowed p + amount) (total_deposits p) <= utilization_cap_bps p /\
    tk_transfer (toks w) (auths (sub_env env a)) a (current_contract env) r amount = Some t1 /\
    execute_operation (sub_env env r) r amount fee i (w <| toks := t1 |>) = Some w2 /\
    tk_balance (toks w) a (current_contract env) + fee
      <= tk_balance (toks w2) a (current_contract env) /\
    u64 (total_deposits p + fee) /\
    w' = w2
      <| st := (st w2) <| k_PoolState :=
           <[a := p <| total_deposits := total_deposits p + fee |>]> (k_PoolState (st w2)) |> |>
      <| evs := evs w2 ++ [FlashLoanEvent r a amount fee] |>.
Proof.
  unfold flash_loan_inner, get_flash_loan_fee, token_balance, set_pool. intros Hr. run_inv.
  rewrite Z.eqb_neq, !Z.ltb_ge in *. do 3 eexists. cbv zeta. split_and!; try done.
Qed.

Lemma flash_loan_Ok env i r a amount w u w' :
  flash_loan env i r a amount w = Ok u w' ->
  i ∈ auths env /\ k_WhitelistedFlashReceiver (st w) !! r = Some true /\
  ReentrancyLock (acl w) = None /\
  exists w1, flash_loan_inner env i r a amount
      (w <| acl := (acl w) <| ReentrancyLock := Some true |> |>) = Ok u w1 /\
    w' = w1 <| acl := (acl w1) <| ReentrancyLock := None |> |>.
Proof.
  unfold flash_loan, is_flash_receiver_whitelisted. intros Hr.
  do 6 run_bind Hr. run_inv. apply finally_Ok in Hr as (w1 & v & Hr & Hx). run_inv.
  match goal with Hn : negb ?x = false |- _ => apply negb_false_iff in Hn;
    destruct (k_WhitelistedFlashReceiver (st w) !! r) eqn:Hw; simpl in Hn; subst end; [|done].
  split_and!; eauto.
Qed.

(** * Properties *)

Definition pool_of (w : world T) (a : address) : option PoolState := k_PoolState (st w) !! a.

(** The assets behind one share do not fall from [p] to [p']. *)
Definition price_kept (p p' : PoolState) : Prop :=
  total_deposits p * total_shares p' <= total_deposits p' * total_shares p.

Definition pool_in_range (p : PoolState) : Prop := u64 (total_deposits p) /\ u64 (total_shares p).

Lemma mints_price p amount sh ts :
  pool_in_range p -> u64 amount -> total_shares p <> 0 -> mints p amount sh ts ->
  0 <= sh /\ ts = total_shares p /\ total_deposits p * sh <= amount * total_shares p.
Proof.
  intros [Hd Hs] Ha Hne Hm. unfold mints in Hm.
  destruct (Z.eqb_spec (total_shares p) 0); [done|]. destruct Hm as [-> ->].
  destruct (decide (total_deposits p = 0)) as [Hz|].
  - unfold shares_for_deposit. rewrite Hz, Z.eqb_refl, orb_true_r.
    split_and!; [ulia|done|unfold u64 in *; nia].
  - destruct (shares_for_deposit_le p amount) as [? ?]; [done..|]. split_and!; [done|done|lia].
Qed.

(** C17: Neither a deposit nor a withdrawal lowers the assets behind one share: the
    rounding of minted shares and of redeemed assets is always in favour of the pool. *)
Theorem share_price_never_falls env d a x w r w' p p' :
  pool_of w a = Some p -> pool_in_range p -> total_shares p <> 0 -> u64 x ->
  deposit env d a x w = Ok r w' \/ withdraw env d a x w = Ok r w' ->
  pool_of w' a = Some p' -> price_kept p p'.
Proof.
  intros Hp Hr Hne Hx Hop Hp'. unfold pool_of, price_kept in *. destruct Hop as [Hop|Hop].
  - apply deposit_Ok in Hop as (q & ts & t' & Hq & _ & _ & _ & _ & _ & Hm & _ & _ & _ & _ & ->).
    rewrite Hp in Hq; injection Hq as <-.
    cbn in Hp'. rewrite lookup_insert_eq in Hp'. injection Hp' as <-. cbn.
    destruct (mints_price _ _ _ _ Hr Hx Hne Hm) as (Hsh & -> & Hle). nia.
  - apply withdraw_Ok in Hop
      as (q & t' & Hq & _ & _ & _ & _ & _ & _ & -> & _ & _ & _ & _ & _ & _ & ->).
    rewrite Hp in Hq; injection Hq as <-.
    cbn in Hp'. rewrite lookup_insert_eq in Hp'. injection Hp' as <-. cbn.
    destruct Hr as [Hd Hs]. destruct (assets_for_shares_le p x) as [? ?]; [done..|].
    nia.
Qed.

(** C18: Depositing an amount and then redeeming exactly the shares it minted pays back
    something, and never more than was deposited, also for the first deposit that locks
    the minimum liquidity. *)
Theorem deposit_then_withdraw_no_gain env env' d a x w sh w1 y w2 p :
  pool_of w a = Some p -> pool_in_range p -> (total_shares p = 0 -> total_deposits p = 0) ->
  u64 x -> deposit env d a x w = Ok sh w1 -> withdraw env' d a sh w1 = Ok y w2 -> 0 < y <= x.
Proof.
  intros Hp Hr H0 Hx Hd Hw. unfold pool_of in *.
  apply deposit_Ok in Hd as (q & ts & t' & Hq & _ & _ & _ & Hsh0 & _ & Hm & Hud & Hus & _ & _ & ->).
  apply withdraw_Ok in Hw
      as (q' & t'' & Hq' & _ & _ & _ & _ & _ & _ & -> & Hy0 & _ & _ & Hu & _ & _ & _).
  rewrite Hp in Hq; injection Hq as <-.
  cbn in Hq'. rewrite lookup_insert_eq in Hq'. injection Hq' as <-.
  match goal with |- 0 < assets_for_shares ?q sh <= _ =>
    assert (total_shares q = ts + sh) as HS by done;
    assert (total_deposits q = total_deposits p + x) as HD by done;
    generalize dependent q end.
  intros q' _ Hy0 HS HD.
  assert (0 < sh /\ 0 <= ts /\ (total_deposits p + x) * sh <= x * (ts + sh)) as (Hsh & Hts & Hle).
  { destruct (decide (total_shares p = 0)) as [Hz|Hne].
    - unfold mints in Hm. rewrite Hz, Z.eqb_refl in Hm. destruct Hm as (-> & -> & ?).
      rewrite (H0 Hz). unfold MINIMUM_LIQUIDITY in *. unfold u64 in *. nia.
    - destruct (mints_price _ _ _ _ Hr Hx Hne Hm) as (? & -> & ?).
      destruct Hr as [_ [? _]]. split_and!; [lia|done|nia]. }
  assert (u64 sh) as Hush by (unfold u64 in *; lia).
  destruct (assets_for_shares_le q' sh) as [Hn Hy]; [done|by rewrite HS|by rewrite HD|].
  rewrite HS, HD in Hy. set (y := assets_for_shares q' sh) in *.
  split; [lia|]. apply (Z.mul_le_mono_pos_r _ _ (ts + sh)); lia.
Qed.

(** C28: After a deposit no withdrawal by the same depositor from the same pool succeeds
    in that ledger, whatever the number of shares. *)
Theorem same_ledger_withdraw_refused env env' d a x sh y w w1 r w2 :
  deposit env d a x w = Ok sh w1 -> sequence env' <= sequence env ->
  withdraw env' d a y w1 <> Ok r w2.
Proof.
  intros Hd Hs Hw. apply deposit_Ok in Hd as (q & ts & t' & Hd). destruct_and! Hd. subst w1.
  apply withdraw_Ok in Hw as (q' & t'' & _ & _ & _ & _ & _ & _ & Hl & _). cbn in Hl.
  specialize (Hl (sequence env)). rewrite lookup_insert_eq in Hl. specialize (Hl eq_refl). lia.
Qed.

(** C27: Whatever the receiver contract does, a flash loan that succeeds was signed by its
    initiator, went to a whitelisted receiver, was available in an open pool, left the
    contract at least the fee richer in the asset, credited the fee to the depositors and
    released the reentrancy lock. *)
Theorem flash_loan_repaid env i r a amount w w' :
  flash_loan env i r a amount w = Ok tt w' ->
  exists p, let fee := flash_fee amount (default 9 (k_FlashLoanFeeBps (st w))) in
    pool_of w a = Some p /\ is_paused p = false /\ i ∈ auths env /\
    k_WhitelistedFlashReceiver (st w) !! r = Some true /\
    amount <> 0 /\ amount <= saturating_sub (total_deposits p) (total_borrowed p) /\
    tk_balance (toks w) a (current_contract env) + fee
      <= tk_balance (toks w') a (current_contract env) /\
    pool_of w' a = Some (p <| total_deposits := total_deposits p + fee |>) /\
    ReentrancyLock (acl w) = None /\ ReentrancyLock (acl w') = None.
Proof.
  intros Hr. apply flash_loan_Ok in Hr as (Hi & Hw & Hl & w1 & Hr & ->).
  apply flash_loan_inner_Ok in Hr as (p & t1 & w2 & Hr). cbv zeta in Hr. destruct_and! Hr.
  subst w1. exists p. cbv zeta. split_and!; try done.
  unfold pool_of; cbn. by rewrite lookup_insert_eq.
Qed.

(** Only the stored administrator pays out of the bad-debt reserve, never more than it
    holds; the reserve falls by the amount and exactly that amount moves to the recipient.
    *)
Theorem reserve_payout_exact `{!TokenLaws T} env adm a to amount w w' :
  to <> current_contract env -> u64 amount ->
  pay_from_reserve env adm a to amount w = Ok tt w' ->
  exists p, pool_of w a = Some p /\ adm ∈ auths env /\ k_Admin (st w) = Some adm /\
    amount <= bad_debt_reserve p /\
    pool_of w' a = Some (p <| bad_debt_reserve := bad_debt_reserve p - amount |>) /\
    forall tok b, tk_balance (toks w') tok b =
      tk_balance (toks w) tok b + moved a (current_contract env) to amount tok b.
Proof.
  intros Hne Ha Hr. apply pay_from_reserve_Ok in Hr as (p & t' & Hp & Hau & Hadm & Hle & Ht & ->).
  apply tk_transfer_spec in Ht as (_ & _ & Ht); [|done]. exists p. split_and!; try done.
  unfold pool_of; cbn. rewrite lookup_insert_eq. repeat f_equal. ulia.
Qed.
End pool.

(** * Witnesses *)
Section witnesses.
Import LendingExample.
Abbreviation W := (world MockToken.network).

(** Alice deposits 50000, bob 7001 a ledger later. *)
Definition dep1 : W := after (deposit (env_at 100 5) alice usd 50000) world0.
Definition dep2 : W := after (deposit (env_at 100 6) bob usd 7001) dep1.

(** A receiver that repays what it borrowed and the fee. *)
Definition honest_receiver (_ : Env) (r : address) (amount fee : Z) (_ : address) (w : W)
  : option W :=
  option_map (fun t => w <| toks := t |>)
    (tk_transfer (toks w) {[ r ]} usd r pool_contract (amount + fee)).

Lemma share_price_never_falls_witness :
  exists p p', pool_of dep1 usd = Some p /\ pool_of dep2 usd = Some p' /\ price_kept p p'.
Proof.
  eexists _, _. split; [|split].
  3: apply (share_price_never_falls (env_at 100 6) bob usd 7001 dep1 7001 dep2).
  all: try (vm_compute; reflexivity); try (vm_compute; split; split; congruence).
  - vm_compute. congruence.
  - vm_compute. split; congruence.
  - left. vm_compute. reflexivity.
Defined.

Lemma deposit_then_withdraw_no_gain_witness : 0 < 7001 <= 7001.
Proof.
  apply (deposit_then_withdraw_no_gain (env_at 100 6) (env_at 100 7) bob usd 7001 dep1 7001 dep2
           7001 (after (withdraw (env_at 100 7) bob usd 7001) dep2)
           (fresh_pool <| total_deposits := 50000 |> <| total_shares := 50000 |>)).
  all: try (vm_compute; reflexivity).
  - vm_compute. split; split; congruence.
  - intros Hz. vm_compute in Hz. discriminate Hz.
  - vm_compute. split; congruence.
Defined.

Lemma same_ledger_withdraw_refused_witness :
  withdraw (env_at 100 6) bob usd 10 dep2 <> Ok 10 dep1.
Proof.
  apply (same_ledger_withdraw_refused (env_at 100 6) (env_at 100 6) bob usd 7001 7001 10 dep1).
  - vm_compute. reflexivity.
  - vm_compute. congruence.
Defined.

Lemma flash_loan_repaid_witness :
  exists p, pool_of dep2 usd = Some p /\ flash_fee 20000 9 = 18.
Proof.
  destruct (flash_loan_repaid honest_receiver (env_at 100 8) carol receiver usd 20000 dep2
    (after (flash_loan honest_receiver (env_at 100 8) carol receiver usd 20000) dep2))
    as (p & Hp & _).
  - vm_compute. reflexivity.
  - exists p. split; [exact Hp|]. vm_compute. reflexivity.
Defined.

Definition reserved : W := after (replenish_bad_debt_reserve (env_at 100 8) admin usd 500) dep2.
Lemma reserve_payout_exact_witness :
  exists p, pool_of reserved usd = Some p /\ bad_debt_reserve p = 500.
Proof.
  destruct (reserve_payout_exact (env_at 100 9) admin usd carol 300 reserved
    (after (pay_from_reserve (env_at 100 9) admin usd carol 300) reserved)) as (p & Hp & _).
  - discriminate.
  - vm_compute. split; congruence.
  - vm_compute. reflexivity.
  - exists p. split; [exact Hp|]. vm_compute in Hp. injection Hp as <-. reflexivity.
Defined.
End witnesses.

End LendingPool.
