(* ===== verification/LendingLoans.v ===== *)
(** Loans of the lending contract ([contracts/lending-contract/src/lib.rs]):
    borrowing, repayment, late fees, liquidation, refinancing, consolidation,
    splitting and bad-debt write-off. *)
From S2P Require Import Prelude Host AccessControl Token MockToken LoanNft.
From S2P Require Import LendingTypes LendingMath LendingCore LendingExample LendingPool.
Import AccessControl LendingTypes LendingMath LendingCore LendingPool.

Module LendingLoans.

Definition SECONDS_IN_DAY : Z := 86400.

Section loans.
Context {T : Type} `{TokenOps T}.
Abbreviation X A := (M (world T) LendingError A).
Implicit Types (env : Env) (w : world T).

Definition get_loan_of (who : address) : X LoanRecord :=
  let! l := load (fun s => k_Loan s !! who) in ok_or l NoOpenLoan.

Definition elapsed_of env (loan : LoanRecord) : Z :=
  saturating_sub (timestamp env) (borrow_time loan).
Definition interest_of env (loan : LoanRecord) : Z :=
  calculate_interest (principal loan) (interest_rate_bps loan) (elapsed_of env loan).

(** The rate the pool offers at its present utilisation. *)
Definition pool_rate (pool : PoolState) : X Z :=
  let! model := load k_RateModel in
  ret (rate_for model pool (get_utilization_bps (total_borrowed pool) (total_deposits pool))).

Definition available_liquidity (a : address) : X Z :=
  do! require_initialized;
  let! pool := get_pool a in
  ret (saturating_sub (total_deposits pool) (total_borrowed pool)).
Definition get_current_interest_rate (a : address) : X Z :=
  do! require_initialized;
  let! pool := get_pool a in
  pool_rate pool.

(** ** Grace period and late fees *)
Definition is_in_grace_period env (who : address) : X bool :=
  do! require_initialized;
  let! loan := get_loan_of who in
  let! e := grace_period_end loan in
  ret (timestamp env <=? e).

(** The fee for [days] overdue at [rate] basis points of [principal] a day. *)
Definition late_fee_for (principal rate days : Z) : Z :=
  let daily_fee := as_u64 (muldiv128 principal rate 10000) in
  as_u64 (default 0 (checked_mul128 daily_fee days)).

Definition calculate_late_fee env (who : address) : X Z :=
  do! require_initialized;
  let! loan := get_loan_of who in
  let! pool := get_pool (asset loan) in
  let! e := grace_period_end loan in
  if timestamp env <=? e then ret 0
  else
    let days_overdue := (timestamp env - e) / SECONDS_IN_DAY in
    if days_overdue =? 0 then ret 0
    else
      let! accrued_fees := load (fun s => default 0 (k_LateFeesAccrued s !! loan_id loan)) in
      if 0 <? accrued_fees then ret accrued_fees
      else ret (late_fee_for (principal loan) (late_fee_rate_bps pool) days_overdue).

Definition get_repayment_amount env (who : address) : X Z :=
  let! loan := get_loan_of who in
  let! late_fee := calculate_late_fee env who in
  let! due := add64 (principal loan) (interest_of env loan) in
  add64 due late_fee.

Definition get_total_due_with_late_fees env (who : address) : X Z :=
  do! require_initialized;
  get_repayment_amount env who.

Definition emit_interest_accrual env (who : address) : X Z :=
  do! require_initialized;
  let! loan := get_loan_of who in
  let interest := interest_of env loan in
  do! emit (InterestAccrualEvent (loan_id loan) who (asset loan) (principal loan) interest
              (interest_rate_bps loan) (elapsed_of env loan) (timestamp env));
  ret interest.

(** ** Borrowing *)
Definition required_collateral_for (amount ratio : Z) : Z := as_u64 (muldiv128 amount ratio 10000).

(** Tally [amount] borrowed against [collateral] of a token with a reserve. *)
Definition track_reserve (token : address) (collateral amount : Z) : X unit :=
  let! has := has_reserve token in
  when has (do! add_reserve_collateral token collateral;
            add_reserve_borrowed token amount).
Definition untrack_reserve (token : address) (collateral amount : Z) : X unit :=
  let! has := has_reserve token in
  when has (do! sub_reserve_collateral token collateral;
            sub_reserve_borrowed token amount).

Definition borrow env (who a : address) (amount : Z) (token : address)
    (collateral duration : Z) : X Z :=
  do! require_not_paused;
  do! require_initialized;
  do! enter_reentrancy_guard;
  do! require_auth env who;
  do! reject_if ((amount =? 0) || (collateral =? 0)) InvalidAmount;
  do! flash_defense env token who;
  let! pool := get_pool a in
  do! reject_if (is_paused pool) PoolPaused;
  let! listed := is_collateral_whitelisted token in
  do! reject_if (negb listed) CollateralNotWhitelisted;
  let! existing_loans := load (fun s => user_loans s who) in
  do! reject_if (negb (bool_decide (existing_loans = []))) LoanAlreadyExists;
  let! ratio := get_collateral_ratio in
  do! reject_if (collateral <? required_collateral_for amount ratio) InsufficientCollateral;
  do! reject_if (saturating_sub (total_deposits pool) (total_borrowed pool) <? amount)
        InsufficientLiquidity;
  let! new_borrowed := add64 (total_borrowed pool) amount in
  do! reject_if (utilization_cap_bps pool <? get_utilization_bps new_borrowed (total_deposits pool))
        UtilizationCapExceeded;
  do! transfer env token who (current_contract env) collateral;
  do! track_reserve token collateral amount;
  let pool := pool <| total_borrowed := new_borrowed |> in
  let! rate := pool_rate pool in
  do! set_pool a pool;
  let! id := increment_loan_id in
  let! due := add64 (timestamp env) duration in
  let loan := mkLoan id who a amount collateral token (timestamp env) due rate in
  do! put_loan loan;
  do! mint_loan_nft env loan;
  do! transfer env a (current_contract env) who amount;
  do! emit (BorrowEvent id who a amount collateral due);
  do! emit (CollateralDepositEvent id who token collateral);
  do! exit_reentrancy_guard;
  ret id.

(** ** Repayment *)

(** How the interest of a repaid loan is divided: to the depositors, to the
    retained yield, to the bad-debt reserve. *)
Definition interest_shares (interest : Z) : X (Z * Z * Z) :=
  let protocol_share := as_u64 (muldiv128 interest PROTOCOL_INTEREST_BPS 10000) in
  let reserve_share := as_u64 (muldiv128 protocol_share BAD_DEBT_RESERVE_BPS 10000) in
  let retained_share := saturating_sub protocol_share reserve_share in
  let! pool_share := sub64 interest protocol_share in
  ret (pool_share, retained_share, reserve_share).

Definition clear_late_fees (id : Z) : X unit :=
  save (fun s => s <| k_LateFeesAccrued := delete id (k_LateFeesAccrued s) |>).

(** Credit a repayment to the pool. *)
Definition credit_repayment (pool : PoolState) (principal interest late_fee : Z) : X PoolState :=
  let! borrowed := sub64 (total_borrowed pool) principal in
  let! shares := interest_shares interest in
  let! deposits := add64 (total_deposits pool) (fst (fst shares)) in
  let! protocol := add64 (snd (fst shares)) late_fee in
  let! retained := add64 (retained_yield pool) protocol in
  let! reserve := add64 (bad_debt_reserve pool) (snd shares) in
  ret (pool <| total_borrowed := borrowed |> <| total_deposits := deposits |>
            <| retained_yield := retained |> <| bad_debt_reserve := reserve |>).

Definition repay env (who : address) : X Z :=
  do! require_not_paused;
  do! require_initialized;
  do! enter_reentrancy_guard;
  do! require_auth env who;
  let! loan := get_loan_of who in
  let interest := interest_of env loan in
  let! late_fee := calculate_late_fee env who in
  let! due := add64 (principal loan) interest in
  let! total_repayment := add64 due late_fee in
  let! grace_end := grace_period_end loan in
  do! transfer env (asset loan) who (current_contract env) total_repayment;
  do! transfer env (collateral_token loan) (current_contract env) who (collateral_amount loan);
  do! untrack_reserve (collateral_token loan) (collateral_amount loan) (principal loan);
  let! pool := get_pool (asset loan) in
  let! pool' := credit_repayment pool (principal loan) interest late_fee in
  do! set_pool (asset loan) pool';
  do! remove_loan who (loan_id loan);
  do! clear_late_fees (loan_id loan);
  do! burn_loan_nft env (loan_id loan);
  do! when (0 <? late_fee)
        (emit (LateFeeChargedEvent (loan_id loan) who (asset loan) late_fee
                 (saturating_sub (timestamp env) grace_end / SECONDS_IN_DAY)
                 total_repayment (timestamp env)));
  do! emit (RepayEvent (loan_id loan) who (asset loan) (principal loan) interest
              total_repayment (collateral_amount loan));
  do! exit_reentrancy_guard;
  ret total_repayment.

(** ** Liquidation *)
Definition health_factor_of (loan : LoanRecord) : Z :=
  as_u32 (muldiv128 (collateral_amount loan) 10000 (principal loan)).
Definition collateral_to_seize_for (amount : Z) : Z :=
  as_u64 (default amount (checked_mul128 amount 15000 ≫= fun v => checked_div v 10000)).

Definition liquidate_body env (liquidator who : address) (amount : Z) : X Z :=
  do! require_auth env liquidator;
  let! loan := get_loan_of who in
  do! reject_if ((amount =? 0) || (principal loan <? amount)) InvalidAmount;
  let! after_grace := is_after_grace_period env loan in
  do! reject_if (negb after_grace) InvalidAmount;
  let health_factor := health_factor_of loan in
  do! reject_if (LIQUIDATION_THRESHOLD_BPS <=? health_factor) InvalidAmount;
  let seize := collateral_to_seize_for amount in
  do! reject_if (collateral_amount loan <? seize) InvalidAmount;
  do! transfer env (asset loan) liquidator (current_contract env) amount;
  do! transfer env (collateral_token loan) (current_contract env) liquidator seize;
  let! pool := get_pool (asset loan) in
  let! deposits := add64 (total_deposits pool) amount in
  do! set_pool (asset loan)
        (pool <| total_borrowed := saturating_sub (total_borrowed pool) amount |>
              <| total_deposits := deposits |>);
  do! emit (LiquidationEvent (loan_id loan) who liquidator (asset loan) amount seize health_factor);
  do! exit_reentrancy_guard;
  ret seize.

Definition liquidate env (liquidator who : address) (amount : Z) : X Z :=
  do! require_initialized;
  with_guard ReentrantCall (liquidate_body env liquidator who amount).

Definition liquidate_bad_debt env (admin who : address) : X Z :=
  do! require_not_paused;
  do! require_initialized;
  do! require_admin env admin;
  let! loan := get_loan_of who in
  let! is_in_grace := is_in_grace_period env who in
  do! reject_if is_in_grace InvalidAmount;
  let! outstanding := get_repayment_amount env who in
  let shortfall := saturating_sub outstanding (collateral_amount loan) in
  let! pool := get_pool (asset loan) in
  do! reject_if ((0 <? shortfall) && (bad_debt_reserve pool <? shortfall)) InsufficientLiquidity;
  do! set_pool (asset loan)
        (pool <| bad_debt_reserve := saturating_sub (bad_debt_reserve pool) shortfall |>
              <| total_borrowed := saturating_sub (total_borrowed pool) (principal loan) |>);
  do! remove_loan who (loan_id loan);
  do! clear_late_fees (loan_id loan);
  do! emit (BadDebtLiquidationEvent (loan_id loan) who (asset loan) outstanding
              (collateral_amount loan) shortfall);
  ret shortfall.

(** ** Refinancing *)
Definition calculate_outstanding_balance env (loan : LoanRecord) : X Z :=
  add64 (principal loan) (interest_of env loan).

(** The refinancing fee of a balance, as a checked [u128] computation. *)
Definition refinancing_fee_for (outstanding : Z) : option Z :=
  checked_mul128 outstanding REFINANCING_FEE_BPS ≫= fun v => checked_div v 10000.

Definition get_refinance_terms env (who : address) (duration : Z) : X RefinanceTerms :=
  do! require_initialized;
  let! loan := get_loan_of who in
  let! outstanding := calculate_outstanding_balance env loan in
  let! fee := ok_or (refinancing_fee_for outstanding) InvalidRefinanceTerms in
  do! reject_if (u64_max <? fee) InvalidRefinanceTerms;
  let! new_principal := ok_or (checked_add128 outstanding fee) InvalidRefinanceTerms in
  do! reject_if (u64_max <? new_principal) InvalidRefinanceTerms;
  let! due := add64 (timestamp env) duration in
  let! pool := get_pool (asset loan) in
  let! rate := pool_rate pool in
  ret (mkTerms outstanding new_principal fee new_principal rate duration due).

(** Move the pool's borrowed total from the old principal to the new one. *)
Definition rebase_borrowed (pool : PoolState) (old_principal new_principal : Z) : X Z :=
  if old_principal <? new_principal then
    let! additional := ok_or (checked_sub64 new_principal old_principal) InvalidRefinanceTerms in
    let! new_borrowed := ok_or (checked_add64 (total_borrowed pool) additional)
                           InvalidRefinanceTerms in
    do! reject_if (utilization_cap_bps pool
                   <? get_utilization_bps new_borrowed (total_deposits pool))
          UtilizationCapExceeded;
    ret new_borrowed
  else if new_principal <? old_principal then
    let! decrease := ok_or (checked_sub64 old_principal new_principal) InvalidRefinanceTerms in
    ok_or (checked_sub64 (total_borrowed pool) decrease) InvalidRefinanceTerms
  else ret (total_borrowed pool).

Definition refinance_loan env (who : address) (duration : Z) : X Z :=
  do! require_initialized;
  do! enter_reentrancy_guard;
  do! require_auth env who;
  let! old_loan := get_loan_of who in
  let! is_in_grace := is_in_grace_period env who in
  do! reject_if (negb is_in_grace) CannotRefinance;
  let! terms := get_refinance_terms env who duration in
  do! transfer env (asset old_loan) who (current_contract env) (rt_refinancing_fee terms);
  do! remove_loan who (loan_id old_loan);
  do! burn_loan_nft env (loan_id old_loan);
  let! id := increment_loan_id in
  let new_loan := mkLoan id who (asset old_loan) (rt_new_principal terms)
    (collateral_amount old_loan) (collateral_token old_loan) (timestamp env)
    (rt_new_due_date terms) (rt_new_interest_rate_bps terms) in
  do! put_loan new_loan;
  do! mint_loan_nft env new_loan;
  let! pool := get_pool (asset old_loan) in
  let! retained := ok_or (checked_add64 (retained_yield pool) (rt_refinancing_fee terms))
                     InvalidRefinanceTerms in
  let! borrowed := rebase_borrowed pool (principal old_loan) (rt_new_principal terms) in
  do! set_pool (asset old_loan)
        (pool <| retained_yield := retained |> <| total_borrowed := borrowed |>);
  do! emit (LoanRefinancedEvent (loan_id old_loan) id who (asset old_loan) (principal old_loan)
              (rt_new_principal terms) (rt_refinancing_fee terms) (interest_rate_bps old_loan)
              (rt_new_interest_rate_bps terms) (due_date old_loan) (rt_new_due_date terms)
              (timestamp env));
  do! exit_reentrancy_guard;
  ret id.

(** ** Consolidation *)

(** The running totals of [consolidate_loans]: outstanding, collateral, the
    common collateral token and asset, and the loans seen. *)
Record totals := mkTotals {
  tt_outstanding : Z; tt_collateral : Z; tt_token : option address;
  tt_asset : option address; tt_loans : list LoanRecord
}.
Definition no_totals : totals := mkTotals 0 0 None None [].

(** [if x.is_none() { x = Some(v) } else if x != Some(v) { Err }]. *)
Definition agree (x : option address) (v : address) : X (option address) :=
  do! reject_if (negb (bool_decide (x = None)) && negb (bool_decide (x = Some v)))
        InvalidRefinanceTerms;
  ret (Some v).

Definition consolidate_visit env (who : address) (acc : totals) (id : Z) : X totals :=
  let! l := load (fun s => k_LoanById s !! id) in
  let! loan := ok_or l LoanNotFound in
  do! reject_if (negb (bool_decide (borrower loan = who))) Unauthorized;
  let! grace_end := grace_period_end loan in
  do! reject_if (grace_end <? timestamp env) CannotRefinance;
  let! outstanding := calculate_outstanding_balance env loan in
  let! total_outstanding := add64 (tt_outstanding acc) outstanding in
  let! total_collateral := add64 (tt_collateral acc) (collateral_amount loan) in
  let! token := agree (tt_token acc) (collateral_token loan) in
  let! a := agree (tt_asset acc) (asset loan) in
  ret (mkTotals total_outstanding total_collateral token a (tt_loans acc ++ [loan])).

Definition close_loan env (who : address) (_ : unit) (loan : LoanRecord) : X unit :=
  do! save (fun s => s <| k_Loan := delete (borrower loan) (k_Loan s) |>);
  do! save (fun s => s <| k_LoanById := delete (loan_id loan) (k_LoanById s) |>);
  do! remove_user_loan who (loan_id loan);
  burn_loan_nft env (loan_id loan).

Definition consolidation_fee_for (outstanding : Z) : Z :=
  as_u64 (muldiv128 outstanding REFINANCING_FEE_BPS 10000).

Definition consolidate_loans env (who : address) (loan_ids : list Z) (duration : Z) : X Z :=
  do! require_initialized;
  do! enter_reentrancy_guard;
  do! require_auth env who;
  do! reject_if (bool_decide (loan_ids = []) || (10 <? Z.of_nat (length loan_ids))) InvalidAmount;
  let! tot := foldM (consolidate_visit env who) loan_ids no_totals in
  let! a := unwrap (tt_asset tot) in
  let fee := consolidation_fee_for (tt_outstanding tot) in
  let! new_principal := add64 (tt_outstanding tot) fee in
  do! transfer env a who (current_contract env) fee;
  do! foldM (close_loan env who) (tt_loans tot) tt;
  let! id := increment_loan_id in
  let! due := add64 (timestamp env) duration in
  let! pool := get_pool a in
  let! rate := pool_rate pool in
  let! token := unwrap (tt_token tot) in
  let new_loan := mkLoan id who a new_principal (tt_collateral tot) token
                    (timestamp env) due rate in
  do! put_loan new_loan;
  do! mint_loan_nft env new_loan;
  let! pool := get_pool a in
  let! retained := add64 (retained_yield pool) fee in
  do! set_pool a (pool <| retained_yield := retained |>);
  do! emit (LoansConsolidatedEvent loan_ids id who a (tt_outstanding tot) new_principal fee due
              (timestamp env));
  do! exit_reentrancy_guard;
  ret id.

(** ** Splitting *)

(** The collateral a part of [amount] out of [outstanding] gets. *)
Definition split_collateral (collateral amount outstanding : Z) : Z :=
  as_u64 (muldiv128 collateral (muldiv128 amount 10000 outstanding) 10000).

Definition split_part env (old_loan : LoanRecord) (who : address) (outstanding due rate : Z)
    (ids : list Z) (amount : Z) : X (list Z) :=
  let collateral := split_collateral (collateral_amount old_loan) amount outstanding in
  let! id := increment_loan_id in
  let new_loan := mkLoan id who (asset old_loan) amount collateral (collateral_token old_loan)
                    (timestamp env) due rate in
  do! put_loan new_loan;
  do! mint_loan_nft env new_loan;
  ret (ids ++ [id]).

Definition split_loan env (who : address) (split_amounts : list Z) (duration : Z) : X (list Z) :=
  do! require_initialized;
  do! enter_reentrancy_guard;
  do! require_auth env who;
  do! reject_if (bool_decide (split_amounts = []) || (5 <? Z.of_nat (length split_amounts)))
        InvalidAmount;
  let! old_loan := get_loan_of who in
  let! is_in_grace := is_in_grace_period env who in
  do! reject_if (negb is_in_grace) CannotRefinance;
  let! outstanding := calculate_outstanding_balance env old_loan in
  let! total := foldM add64 split_amounts 0 in
  do! reject_if (negb (total =? outstanding)) InvalidSplitAmounts;
  let fee := consolidation_fee_for outstanding in
  do! transfer env (asset old_loan) who (current_contract env) fee;
  do! remove_loan who (loan_id old_loan);
  do! burn_loan_nft env (loan_id old_loan);
  let! due := add64 (timestamp env) duration in
  let! pool := get_pool (asset old_loan) in
  let! rate := pool_rate pool in
  let! ids := foldM (split_part env old_loan who outstanding due rate) split_amounts [] in
  let! pool := get_pool (asset old_loan) in
  let! retained := add64 (retained_yield pool) fee in
  do! set_pool (asset old_loan) (pool <| retained_yield := retained |>);
  do! emit (LoanSplitEvent (loan_id old_loan) ids who (asset old_loan) (principal old_loan)
              split_amounts fee (timestamp env));
  do! exit_reentrancy_guard;
  ret ids.

(** * Inversion *)

Lemma get_loan_of_Ok who l w w' :
  get_loan_of who w = Ok l w' <-> k_Loan (st w) !! who = Some l /\ w' = w.
Proof.
  unfold get_loan_of. rewrite bind_Ok. setoid_rewrite load_Ok. setoid_rewrite ok_or_Ok.
  naive_solver.
Qed.
Lemma pool_rate_Ok p r w w' :
  pool_rate p w = Ok r w' <->
  r = rate_for (k_RateModel (st w)) p (get_utilization_bps (total_borrowed p) (total_deposits p)) /\
  w' = w.
Proof.
  unfold pool_rate. split; [intros Hr; run_inv; done|intros [-> ->]].
  by apply bind_Ok; eexists _, w; split; [apply load_Ok|apply ret_Ok].
Qed.
Lemma reserves_refl w : only_reserves w w.
Proof. exists (k_Reserve (st w)). by destruct w as [[] ? ? ? ?]. Qed.
Lemma track_reserve_Ok tok c am u w w' :
  track_reserve tok c am w = Ok u w' -> only_reserves w w'.
Proof.
  unfold track_reserve, has_reserve. intros Hr; run_bind Hr; run_inv.
  case_bool_decide; rewrite when_Ok in Hr; [|subst; apply reserves_refl].
  run_inv; eexists; done.
Qed.
Lemma untrack_reserve_Ok tok c am u w w' :
  untrack_reserve tok c am w = Ok u w' -> only_reserves w w'.
Proof.
  unfold untrack_reserve, has_reserve. intros Hr; run_bind Hr; run_inv.
  case_bool_decide; rewrite when_Ok in Hr; [|subst; apply reserves_refl].
  run_inv; eexists; done.
Qed.
Lemma interest_shares_Ok i r w w' :
  interest_shares i w = Ok r w' ->
  w' = w /\ exists prot, prot = as_u64 (muldiv128 i PROTOCOL_INTEREST_BPS 10000) /\
    let res := as_u64 (muldiv128 prot BAD_DEBT_RESERVE_BPS 10000) in
    u64 (i - prot) /\ r = (i - prot, saturating_sub prot res, res).
Proof. unfold interest_shares. intros Hr. run_inv. eauto. Qed.

(** The read-only operations. *)
Lemma is_in_grace_period_Ok env who b w w' :
  is_in_grace_period env who w = Ok b w' -> w' = w.
Proof.
  apply (keeps_Ok (fun w => w)). unfold is_in_grace_period, get_loan_of. keeps_tac.
Qed.
(** The late fee of a loan of [pool] at the time of [env], with the fees
    [accrued] recorded for it. *)
Definition late_fee_at env (l : LoanRecord) (pool : PoolState) (accrued : Z) : Z :=
  let e := due_date l + grace_period_seconds pool in
  let days := (timestamp env - e) / SECONDS_IN_DAY in
  if (timestamp env <=? e) || (days =? 0) then 0
  else if 0 <? accrued then accrued
  else late_fee_for (principal l) (late_fee_rate_bps pool) days.

Lemma calculate_late_fee_Ok env who f w w' :
  calculate_late_fee env who w = Ok f w' ->
  w' = w /\ exists l p, k_Loan (st w) !! who = Some l /\ k_PoolState (st w) !! asset l = Some p /\
    u64 (due_date l + grace_period_seconds p) /\
    f = late_fee_at env l p (default 0 (k_LateFeesAccrued (st w) !! loan_id l)).
Proof.
  unfold calculate_late_fee, late_fee_at. intros Hr.
  do 4 run_bind Hr. rewrite ?get_loan_of_Ok in *. run_inv. rewrite ?get_loan_of_Ok in *.
  split_ands; subst. simplify_eq.
  destruct (timestamp env <=? _) eqn:Ht; [run_inv; split; [done|]; do 2 eexists; by rewrite Ht|].
  destruct ((timestamp env - _) / _ =? 0) eqn:Hd;
    [run_inv; split; [done|]; do 2 eexists; by rewrite Ht, Hd|].
  run_bind Hr. run_inv. destruct (0 <? _) eqn:Ha; run_inv;
    (split; [done|]; do 2 eexists; by rewrite Ht, Hd, Ha).
Qed.
Lemma get_repayment_amount_ro env who r w w' :
  get_repayment_amount env who w = Ok r w' -> w' = w.
Proof.
  apply (keeps_Ok (fun w => w)). unfold get_repayment_amount, calculate_late_fee, get_loan_of.
  keeps_tac.
Qed.

(** The pool after a repayment of [interest] and [late_fee] on [principal]. *)
Definition repaid (p p' : PoolState) (pr i late : Z) : Prop :=
  exists prot res, prot = as_u64 (muldiv128 i PROTOCOL_INTEREST_BPS 10000) /\
    res = as_u64 (muldiv128 prot BAD_DEBT_RESERVE_BPS 10000) /\
    u64 (total_borrowed p - pr) /\ u64 (i - prot) /\
    p' = p <| total_borrowed := total_borrowed p - pr |>
           <| total_deposits := total_deposits p + (i - prot) |>
           <| retained_yield := retained_yield p + (saturating_sub prot res + late) |>
           <| bad_debt_reserve := bad_debt_reserve p + res |>.

Lemma credit_repayment_Ok p pr i late p' w w' :
  credit_repayment p pr i late w = Ok p' w' -> w' = w /\ repaid p p' pr i late.
Proof.
  unfold credit_repayment. intros Hr. do 2 run_bind Hr.
  match goal with Hi : interest_shares _ _ = _ |- _ =>
    apply interest_shares_Ok in Hi as (-> & ? & ? & ? & ->) end.
  run_inv. split; [done|]. do 2 eexists. split_and!; done.
Qed.

End loans.

#[global] Hint Rewrite @get_loan_of_Ok @pool_rate_Ok : run.
(** A read-only run ends in the state it started from. *)
Ltac not_same w w' := tryif constr_eq w w' then fail else idtac.
Ltac loans_extra :=
  match goal with
  | H : get_loan_of _ _ = Ok _ _ |- _ => apply get_loan_of_Ok in H
  | H : pool_rate _ _ = Ok _ _ |- _ => apply pool_rate_Ok in H
  | H : track_reserve _ _ _ _ = Ok _ _ |- _ => apply track_reserve_Ok in H; unfold only_reserves in H
  | H : untrack_reserve _ _ _ _ = Ok _ _ |- _ =>
    apply untrack_reserve_Ok in H; unfold only_reserves in H
  | H : is_in_grace_period _ _ ?w = Ok _ ?w' |- _ =>
    not_same w w'; let H' := fresh in pose proof (is_in_grace_period_Ok _ _ _ _ _ H) as H'; subst w'
  | H : calculate_late_fee _ _ _ = Ok _ _ |- _ =>
    apply calculate_late_fee_Ok in H; destruct H as (-> & ? & ? & ? & ? & ? & ->)
  | H : credit_repayment _ _ _ _ _ = Ok _ _ |- _ => apply credit_repayment_Ok in H
  | _ => lending_extra
  end.
Ltac run_extra ::= loans_extra.

(** * What the successful operations do *)


Section flows.
Context {T : Type} `{TokenOps T}.
Implicit Types (env : Env) (w : world T).

Lemma borrow_Ok env who a amount tok coll dur id w w' :
  borrow env who a amount tok coll dur w = Ok id w' ->
  exists p due rate rs ns t1 t2, let p' := p <| total_borrowed := total_borrowed p + amount |> in
    let l := mkLoan id who a amount coll tok (timestamp env) due rate in
    is_Some (k_Admin (st w)) /\
    k_PoolState (st w) !! a = Some p /\ is_paused p = false /\ who ∈ auths env /\
    amount <> 0 /\ coll <> 0 /\ user_loans (st w) who = [] /\
    ReentrancyLock (acl w) = None /\
    k_WhitelistedCollateral (st w) !! tok = Some true /\
    (forall l, k_DepositLedger (st w) !! (who, tok) = Some l -> l < sequence env) /\
    required_collateral_for amount (default 15000 (k_CollateralRatio (st w))) <= coll /\
    amount <= saturating_sub (total_deposits p) (total_borrowed p) /\
    u64 (total_borrowed p + amount) /\
    get_utilization_bps (total_borrowed p + amount) (total_deposits p) <= utilization_cap_bps p /\
    id = default 1 (k_NextLoanId (st w)) /\
    due = timestamp env + dur /\ u64 due /\
    rate = rate_for (k_RateModel (st w)) p'
             (get_utilization_bps (total_borrowed p + amount) (total_deposits p)) /\
    tk_transfer (toks w) (auths (sub_env env tok)) tok who (current_contract env) coll = Some t1 /\
    tk_transfer t1 (auths (sub_env env a)) a (current_contract env) who amount = Some t2 /\
    w' = w
      <| st := (st w)
         <| k_PoolState := <[a := p']> (k_PoolState (st w)) |>
         <| k_Reserve := rs |> <| k_NextLoanId := Some (id + 1) |>
         <| k_Loan := <[who := l]> (k_Loan (st w)) |>
         <| k_LoanById := <[id := l]> (k_LoanById (st w)) |>
         <| k_UserLoans := <[who := user_loans (st w) who ++ [id]]> (k_UserLoans (st w)) |> |>
      <| evs := evs w ++ [BorrowEvent id who a amount coll due;
                          CollateralDepositEvent id who tok coll] |>
      <| toks := t2 |> <| nfts := ns |>.
Proof.
  unfold borrow, is_collateral_whitelisted, get_collateral_ratio, set_pool.
  intros Hr. run_inv.
  bool_hyps.
  match goal with p : PoolState, rs : gmap address ReserveConfig, ns : nft_network |- _ =>
    eexists p, _, _, rs, ns, _, _ end.
  cbv zeta. split_and!; try done; [..|unlock].
Qed.

Lemma repay_Ok env who w total w' :
  repay env who w = Ok total w' ->
  exists l p p' rs t1 t2,
    let i := interest_of env l in
    let late := late_fee_at env l p (default 0 (k_LateFeesAccrued (st w) !! loan_id l)) in
    k_Loan (st w) !! who = Some l /\ who ∈ auths env /\ ReentrancyLock (acl w) = None /\
    k_PoolState (st w) !! asset l = Some p /\
    total = principal l + i + late /\ u64 total /\ repaid p p' (principal l) i late /\
    tk_transfer (toks w) (auths (sub_env env (asset l))) (asset l) who (current_contract env)
      total = Some t1 /\
    tk_transfer t1 (auths (sub_env env (collateral_token l))) (collateral_token l)
      (current_contract env) who (collateral_amount l) = Some t2 /\
    toks w' = t2 /\ acl w' = acl w /\
    st w' = (st w)
         <| k_PoolState := <[asset l := p']> (k_PoolState (st w)) |>
         <| k_Reserve := rs |>
         <| k_Loan := delete who (k_Loan (st w)) |>
         <| k_LoanById := delete (loan_id l) (k_LoanById (st w)) |>
         <| k_UserLoans := drop_user_loan (st w) who (loan_id l) |>
         <| k_LateFeesAccrued := delete (loan_id l) (k_LateFeesAccrued (st w)) |>.
Proof.
  unfold repay, set_pool, clear_late_fees. intros Hr. run_inv.
  merge_lookups.
  match goal with l : LoanRecord, rs : gmap address ReserveConfig |- _ =>
    eexists l, _, _, rs, _, _ end.
  cbv zeta. split_and!; try done; unlock.
Qed.

(** ** Refinancing *)
Definition terms_of env (s : store) (l : LoanRecord) (p : PoolState) (dur : Z)
    (tm : RefinanceTerms) : Prop :=
  let out := principal l + interest_of env l in
  u64 out /\ refinancing_fee_for out = Some (rt_refinancing_fee tm) /\
  rt_refinancing_fee tm <= u64_max /\
  rt_outstanding_balance tm = out /\ rt_new_principal tm = out + rt_refinancing_fee tm /\
  rt_total_required tm = rt_new_principal tm /\ u64 (rt_new_principal tm) /\
  rt_new_due_date tm = timestamp env + dur /\ u64 (timestamp env + dur) /\
  rt_new_interest_rate_bps tm =
    rate_for (k_RateModel s) p (get_utilization_bps (total_borrowed p) (total_deposits p)).

Lemma get_refinance_terms_Ok env who dur tm w w' :
  get_refinance_terms env who dur w = Ok tm w' ->
  w' = w /\ exists l p, k_Loan (st w) !! who = Some l /\
    k_PoolState (st w) !! asset l = Some p /\ terms_of env (st w) l p dur tm.
Proof.
  unfold get_refinance_terms, calculate_outstanding_balance. intros Hr. run_inv.
  unfold checked_add128 in *. match goal with Hc : checked _ _ = Some _ |- _ =>
    apply checked_Some in Hc as [-> ?] end. bool_hyps.
  split; [done|]. do 2 eexists. unfold terms_of. cbv zeta.
  split_and!; try done; simpl; ulia.
Qed.

Lemma is_in_grace_period_Ok' env who b w w' :
  is_in_grace_period env who w = Ok b w' ->
  w' = w /\ exists l p, k_Loan (st w) !! who = Some l /\ k_PoolState (st w) !! asset l = Some p /\
    b = (timestamp env <=? due_date l + grace_period_seconds p).
Proof. unfold is_in_grace_period. intros Hr. run_inv. eauto 6. Qed.

Lemma rebase_borrowed_Ok p old new b w w' :
  rebase_borrowed p old new w = Ok b w' ->
  w' = w /\ (u64 (total_borrowed p) -> b = total_borrowed p - old + new /\ u64 b) /\
  (old < new -> get_utilization_bps b (total_deposits p) <= utilization_cap_bps p).
Proof.
  unfold rebase_borrowed, checked_sub64, checked_add64.
  destruct (Z.ltb_spec old new); [|destruct (Z.ltb_spec new old)];
    intros Hr; run_inv; rewrite ?checked_Some in *; split_ands; bool_hyps; subst;
    split_and!; try done; try (intros; split; ulia); intros; try lia.
Qed.
End flows.

Ltac flows_extra :=
  match goal with
  | H : is_in_grace_period _ _ _ = Ok _ _ |- _ =>
    apply is_in_grace_period_Ok' in H; destruct H as (-> & ? & ? & ? & ? & ->)
  | H : get_refinance_terms _ _ _ _ = Ok _ _ |- _ =>
    apply get_refinance_terms_Ok in H; destruct H as (-> & ? & ? & ? & ? & ?)
  | H : rebase_borrowed _ _ _ _ = Ok _ _ |- _ =>
    apply rebase_borrowed_Ok in H; destruct H as (-> & ? & ?)
  | _ => loans_extra
  end.
Ltac run_extra ::= flows_extra.

Section contracts.
Context {T : Type} `{TokenOps T}.
Implicit Types (env : Env) (w : world T).

Lemma refinance_Ok env who dur id w w' :
  refinance_loan env who dur w = Ok id w' ->
  exists l p tm borrowed t1,
    let ul := drop_user_loan (st w) who (loan_id l) in
    let l' := mkLoan id who (asset l) (rt_new_principal tm) (collateral_amount l)
                (collateral_token l) (timestamp env) (rt_new_due_date tm)
                (rt_new_interest_rate_bps tm) in
    k_Loan (st w) !! who = Some l /\ who ∈ auths env /\ ReentrancyLock (acl w) = None /\
    k_PoolState (st w) !! asset l = Some p /\
    timestamp env <= due_date l + grace_period_seconds p /\
    terms_of env (st w) l p dur tm /\
    id = default 1 (k_NextLoanId (st w)) /\ u64 (retained_yield p + rt_refinancing_fee tm) /\
    (u64 (total_borrowed p) ->
     borrowed = total_borrowed p - principal l + rt_new_principal tm /\ u64 borrowed) /\
    (principal l < rt_new_principal tm ->
     get_utilization_bps borrowed (total_deposits p) <= utilization_cap_bps p) /\
    tk_transfer (toks w) (auths (sub_env env (asset l))) (asset l) who (current_contract env)
      (rt_refinancing_fee tm) = Some t1 /\
    toks w' = t1 /\ acl w' = acl w /\
    st w' = (st w)
         <| k_PoolState := <[asset l := p <| retained_yield := retained_yield p + rt_refinancing_fee tm |>
                                          <| total_borrowed := borrowed |>]> (k_PoolState (st w)) |>
         <| k_NextLoanId := Some (id + 1) |>
         <| k_Loan := <[who := l']> (delete who (k_Loan (st w))) |>
         <| k_LoanById := <[id := l']> (delete (loan_id l) (k_LoanById (st w))) |>
         <| k_UserLoans := <[who := default [] (ul !! who) ++ [id]]> ul |>.
Proof.
  unfold refinance_loan. intros Hr. run_inv. merge_lookups.
  unfold checked_add64 in *. rewrite ?checked_Some in *. split_ands. bool_hyps. subst.
  match goal with l : LoanRecord, tm : RefinanceTerms |- _ => eexists l, _, tm, _, _ end.
  cbv zeta. split_and!; try done; unlock.
Qed.

(** ** Liquidation *)
Lemma is_after_grace_period_Ok env l b w w' :
  is_after_grace_period env l w = Ok b w' ->
  w' = w /\ exists p, k_PoolState (st w) !! asset l = Some p /\
    b = (due_date l + grace_period_seconds p <? timestamp env).
Proof. unfold is_after_grace_period. intros Hr. run_inv. eauto. Qed.

Lemma liquidate_Ok env liq who amount w seize w' :
  liquidate env liq who amount w = Ok seize w' ->
  exists l p t1 t2, k_Loan (st w) !! who = Some l /\ liq ∈ auths env /\
    ReentrancyLock (acl w) = None /\ k_PoolState (st w) !! asset l = Some p /\
    amount <> 0 /\ amount <= principal l /\
    due_date l + grace_period_seconds p < timestamp env /\
    health_factor_of l < LIQUIDATION_THRESHOLD_BPS /\
    seize = collateral_to_seize_for amount /\ seize <= collateral_amount l /\
    u64 (total_deposits p + amount) /\
    tk_transfer (toks w) (auths (sub_env env (asset l))) (asset l) liq (current_contract env)
      amount = Some t1 /\
    tk_transfer t1 (auths (sub_env env (collateral_token l))) (collateral_token l)
      (current_contract env) liq seize = Some t2 /\
    toks w' = t2 /\ acl w' = acl w /\
    st w' = (st w) <| k_PoolState :=
      <[asset l := p <| total_borrowed := saturating_sub (total_borrowed p) amount |>
                     <| total_deposits := total_deposits p + amount |>]> (k_PoolState (st w)) |>.
Proof.
  unfold liquidate. intros Hr. run_bind Hr. apply with_guard_Ok in Hr as (Hl & w1 & Hr & ->).
  unfold liquidate_body in Hr. run_inv. change (ReentrancyLock (acl w) = None) in Hl.
  match goal with Hg : is_after_grace_period _ _ _ = _ |- _ =>
    apply is_after_grace_period_Ok in Hg as (-> & ? & ? & ->) end.
  run_inv. merge_lookups. bool_hyps. subst.
  do 4 eexists. split_and!; try done; unlock.
Qed.

Lemma liquidate_bad_debt_Ok env adm who w short w' :
  liquidate_bad_debt env adm who w = Ok short w' ->
  exists l p, k_Loan (st w) !! who = Some l /\ adm ∈ auths env /\ Admin ∈ roles_of (acl w) adm /\
    k_PoolState (st w) !! asset l = Some p /\
    due_date l + grace_period_seconds p < timestamp env /\
    let late := late_fee_at env l p (default 0 (k_LateFeesAccrued (st w) !! loan_id l)) in
    short = saturating_sub (principal l + interest_of env l + late) (collateral_amount l) /\
    (0 < short -> short <= bad_debt_reserve p) /\
    toks w' = toks w /\ acl w' = acl w /\
    st w' = (st w)
         <| k_PoolState := <[asset l :=
              p <| bad_debt_reserve := saturating_sub (bad_debt_reserve p) short |>
                <| total_borrowed := saturating_sub (total_borrowed p) (principal l) |>]>
              (k_PoolState (st w)) |>
         <| k_Loan := delete who (k_Loan (st w)) |>
         <| k_LoanById := delete (loan_id l) (k_LoanById (st w)) |>
         <| k_UserLoans := drop_user_loan (st w) who (loan_id l) |>
         <| k_LateFeesAccrued := delete (loan_id l) (k_LateFeesAccrued (st w)) |>.
Proof.
  unfold liquidate_bad_debt, get_repayment_amount, clear_late_fees. intros Hr. run_inv.
  merge_lookups. bool_hyps. subst. do 2 eexists. cbv zeta. split_and!; try done.
  intros Hs. match goal with Hb : _ && _ = false |- _ => apply andb_false_iff in Hb as [Hb|Hb] end;
    bool_hyps; lia.
Qed.

(** * Properties *)

Lemma required_collateral_eq amount ratio :
  u64 amount -> u32 ratio -> amount * ratio / 10000 <= u64_max ->
  required_collateral_for amount ratio = amount * ratio / 10000.
Proof.
  intros Ha Hr Hle. unfold required_collateral_for. rewrite muldiv128_eq; [|ulia..|unia].
  apply as_u64_small. split; [apply Z.div_pos; ulia|done].
Qed.

(** C19: A loan that is granted, where the amount times the collateral ratio over 10000
    fits in 64 bits (beyond, the requirement wraps around), is recorded with the requested
    terms as the borrower's only one, is collateralised at the configured ratio, fits in
    the unborrowed deposits and under the utilisation cap, and moves exactly the
    collateral in and the principal out. *)
Theorem borrow_contract `{!TokenLaws T} env who a amount tok coll dur w id w' :
  let ratio := default 15000 (k_CollateralRatio (st w)) in
  current_contract env ∉ auths env -> u64 amount -> u32 ratio ->
  amount * ratio / 10000 <= u64_max ->
  borrow env who a amount tok coll dur w = Ok id w' ->
  exists p l, pool_of w a = Some p /\ k_Loan (st w') !! who = Some l /\
    k_LoanById (st w') !! id = Some l /\ user_loans (st w') who = [id] /\
    (loan_id l, borrower l, asset l, collateral_token l) = (id, who, a, tok) /\
    (principal l, collateral_amount l, due_date l) = (amount, coll, timestamp env + dur) /\
    amount * ratio < (coll + 1) * 10000 /\
    amount <= total_deposits p - total_borrowed p /\
    get_utilization_bps (total_borrowed p + amount) (total_deposits p) <= utilization_cap_bps p /\
    pool_of w' a = Some (p <| total_borrowed := total_borrowed p + amount |>) /\
    forall t b, tk_balance (toks w') t b = tk_balance (toks w) t b +
      moved tok who (current_contract env) coll t b + moved a (current_contract env) who amount t b.
Proof.
  intros ratio Hself Ha Hra Hov Hr.
  apply borrow_Ok in Hr as (p & due & rate & rs & ns & t1 & t2 & Hr). cbv zeta in Hr.
  destruct_and! Hr. subst w'.
  assert (who <> current_contract env) as Hne by (intros ->; done).
  repeat match goal with Ht : tk_transfer _ _ _ _ _ _ = Some _ |- _ =>
    apply tk_transfer_spec in Ht as (_ & ? & Ht); [|done] end.
  match goal with Hc : required_collateral_for _ _ <= coll |- _ =>
    rewrite required_collateral_eq in Hc by done; apply div_le_mul in Hc; [|lia] end.
  match goal with Hu : user_loans (st w) who = [] |- _ => rename Hu into Hul end.
  eexists p, _. unfold pool_of; cbn. rewrite !lookup_insert_eq. split_and!; try done.
  - unfold user_loans in Hul |- *; cbn. rewrite lookup_insert_eq; simpl. by rewrite Hul.
  - by subst due.
  - unfold saturating_sub in *. unfold u64 in *. lia.
  - intros t b. repeat match goal with
    | Ht : forall _ _, tk_balance _ _ _ = _ |- _ => rewrite Ht; clear Ht end. done.
Qed.

(** The required collateral is truncated to 64 bits after the division: at the default
    ratio of 150 percent an amount of 12297829382473034411 requires no collateral at all.
    *)
Theorem required_collateral_wraps :
  u64 12297829382473034411 /\ required_collateral_for 12297829382473034411 15000 = 0.
Proof. split; [ulia|reflexivity]. Qed.

(** C22: A repayment costs principal, interest and late fee, closes the loan, returns the
    whole collateral, takes the principal off the borrowed total, and divides the interest
    exactly between depositors (all but a tenth), retained yield and bad-debt reserve; the
    late fee goes to the retained yield. *)
Theorem repay_contract `{!TokenLaws T} env who w total w' :
  current_contract env ∉ auths env ->
  repay env who w = Ok total w' ->
  exists l p p', k_Loan (st w) !! who = Some l /\ pool_of w (asset l) = Some p /\
    let i := interest_of env l in
    let late := late_fee_at env l p (default 0 (k_LateFeesAccrued (st w) !! loan_id l)) in
    total = principal l + i + late /\
    pool_of w' (asset l) = Some p' /\
    total_borrowed p' = total_borrowed p - principal l /\
    total_shares p' = total_shares p /\
    (** the interest goes to the depositors, the retained yield and the
        reserve, with nothing lost; a tenth at most leaves the depositors *)
    (total_deposits p' - total_deposits p)
      + (retained_yield p' - retained_yield p - late)
      + (bad_debt_reserve p' - bad_debt_reserve p) = i /\
    total_deposits p' - total_deposits p = i - i * 1000 / 10000 /\
    bad_debt_reserve p' - bad_debt_reserve p = i * 1000 / 10000 * 5000 / 10000 /\
    (** the loan is closed and the collateral is back *)
    k_Loan (st w') !! who = None /\ k_LoanById (st w') !! loan_id l = None /\
    forall t b, tk_balance (toks w') t b = tk_balance (toks w) t b +
      moved (asset l) who (current_contract env) total t b +
      moved (collateral_token l) (current_contract env) who (collateral_amount l) t b.
Proof.
  intros Hself Hr. apply repay_Ok in Hr as (l & p & p' & rs & t1 & t2 & Hr). cbv zeta in Hr.
  destruct Hr as (Hl & Hau & _ & Hp & -> & _ & Hrep & Ht1 & Ht2 & Htk & _ & Hst).
  assert (who <> current_contract env) as Hne by (intros ->; done).
  apply tk_transfer_spec in Ht1 as (_ & _ & Ht1); [|done].
  apply tk_transfer_spec in Ht2 as (_ & _ & Ht2); [|done].
  exists l, p, p'. unfold pool_of. rewrite Hst, Htk; cbn. rewrite lookup_insert_eq, !lookup_delete_eq.
  destruct Hrep as (prot & res & Hprot & Hres & _ & _ & ->).
  pose proof (calculate_interest_range (principal l) (interest_rate_bps l) (elapsed_of env l)) as Hi.
  fold (interest_of env l) in Hi.
  destruct (interest_parts (interest_of env l) Hi) as (Hpe & Hre & Hpi & Hrp).
  rewrite Hpe in Hprot; subst prot. rewrite Hre in Hres; subst res. cbn.
  split_and!; try done; try ulia.
  intros t b. rewrite Ht2, Ht1. lia.
Qed.

(** No late fee is due until a full day after the grace period; after d full days it is d
    times the daily fee, rounded down once per day. *)
Theorem late_fee_schedule env l p :
  u64 (principal l) -> u32 (late_fee_rate_bps p) -> u64 (timestamp env) ->
  0 <= due_date l -> 0 <= grace_period_seconds p ->
  let grace_end := due_date l + grace_period_seconds p in
  let daily := principal l * late_fee_rate_bps p / 10000 in
  daily <= u64_max ->
  (timestamp env < grace_end + SECONDS_IN_DAY -> late_fee_at env l p 0 = 0) /\
  (forall days, 0 < days -> daily * days <= u64_max ->
     grace_end + days * SECONDS_IN_DAY <= timestamp env < grace_end + (days + 1) * SECONDS_IN_DAY ->
     late_fee_at env l p 0 = daily * days).
Proof.
  intros Hp Hr Ht Hd Hg grace_end daily Hdl. unfold late_fee_at. fold grace_end.
  assert (0 < SECONDS_IN_DAY) as Hday by done. split.
  - intros Hlt. destruct (Z.leb_spec (timestamp env) grace_end); [done|]. simpl.
    rewrite Z.div_small by lia. done.
  - intros days Hdays Hov [Hlo Hhi].
    destruct (Z.leb_spec (timestamp env) grace_end); [nia|]. simpl.
    replace ((timestamp env - grace_end) / SECONDS_IN_DAY) with days.
    + destruct (Z.eqb_spec days 0); [lia|]. simpl. unfold late_fee_for.
      rewrite muldiv128_eq; [|ulia..|unia]. fold daily.
      assert (0 <= daily) by (apply Z.div_pos; ulia).
      rewrite (as_u64_small daily) by done. unfold checked_mul128. rewrite checked_in by (unfold_ranges; nia).
      simpl. apply as_u64_small. unfold u64. nia.
    + apply Z.div_unique with (r := timestamp env - grace_end - SECONDS_IN_DAY * days); lia.
Qed.

(** C29: A liquidation happens only after the grace period, for at most the principal, on
    a loan whose collateral is below 150 percent (provided that collateral times 10000
    over the principal fits in 32 bits, to which the health factor is truncated), seizes
    one and a half times the amount repaid, when that fits in 64 bits, and at most the
    collateral, and leaves the loan record as it was while it adds the amount to the
    deposits and takes it off the borrowed total. *)
Theorem liquidation_contract `{!TokenLaws T} env liq who amount w seize w' :
  current_contract env ∉ auths env ->
  liquidate env liq who amount w = Ok seize w' ->
  exists l p, k_Loan (st w) !! who = Some l /\ pool_of w (asset l) = Some p /\
    due_date l + grace_period_seconds p < timestamp env /\
    0 < amount <= principal l /\
    (u64 (collateral_amount l) -> collateral_amount l * 10000 / principal l <= u32_max ->
     collateral_amount l * 10000 < principal l * 15000) /\
    (u64 (amount * 15000 / 10000) -> seize = amount * 15000 / 10000) /\ seize <= collateral_amount l /\
    (** the loan is left as it was *)
    k_Loan (st w') !! who = Some l /\ k_LoanById (st w') = k_LoanById (st w) /\
    pool_of w' (asset l) = Some (p <| total_borrowed := saturating_sub (total_borrowed p) amount |>
                                   <| total_deposits := total_deposits p + amount |>) /\
    forall t b, tk_balance (toks w') t b = tk_balance (toks w) t b +
      moved (asset l) liq (current_contract env) amount t b +
      moved (collateral_token l) (current_contract env) liq seize t b.
Proof.
  intros Hself Hr. apply liquidate_Ok in Hr as (l & p & t1 & t2 & Hr).
  destruct Hr as (Hl & Hau & _ & Hp & Ha0 & Hal & Hg & Hh & Hs & Hsc & _ & Ht1 & Ht2 & Htk & _ & Hst).
  assert (liq <> current_contract env) as Hne by (intros ->; done).
  apply tk_transfer_spec in Ht1 as (_ & Hamt & Ht1); [|done].
  apply tk_transfer_spec in Ht2 as (_ & _ & Ht2); [|done].
  exists l, p. unfold pool_of. rewrite Hst, Htk; cbn. rewrite lookup_insert_eq.
  split_and!; try done; try lia.
  - intros Hu Hcap. unfold health_factor_of, LIQUIDATION_THRESHOLD_BPS in Hh.
    rewrite muldiv128_eq in Hh by unia.
    assert (0 <= collateral_amount l * 10000 / principal l) by (apply Z.div_pos; ulia).
    rewrite as_u32_small in Hh by ulia.
    pose proof (div_floor (collateral_amount l * 10000) (principal l) ltac:(lia)). nia.
  - intros Hu. rewrite Hs. unfold collateral_to_seize_for, checked_mul128.
    pose proof (div_floor (amount * 15000) 10000 ltac:(lia)).
    rewrite checked_in by unia. simpl. unfold checked_div; simpl. by apply as_u64_small.
  - intros t b. rewrite Ht2, Ht1. lia.
Qed.

(** Refinancing in good standing replaces the loan by one over the outstanding balance
    plus a half percent fee with the same collateral and a new due date, moves the
    borrowed total by the change of principal, and takes the fee from the borrower into
    the retained yield as well. *)
Theorem refinance_contract `{!TokenLaws T} env who dur w id w' :
  current_contract env ∉ auths env ->
  refinance_loan env who dur w = Ok id w' ->
  exists l l' p p', k_Loan (st w) !! who = Some l /\ k_Loan (st w') !! who = Some l' /\
    k_LoanById (st w') !! id = Some l' /\
    pool_of w (asset l) = Some p /\ pool_of w' (asset l) = Some p' /\
    let out := principal l + interest_of env l in
    let fee := out * 50 / 10000 in
    timestamp env <= due_date l + grace_period_seconds p /\
    principal l' = out + fee /\ due_date l' = timestamp env + dur /\
    (asset l', collateral_token l', collateral_amount l') =
      (asset l, collateral_token l, collateral_amount l) /\
    retained_yield p' = retained_yield p + fee /\
    (u64 (total_borrowed p) ->
     total_borrowed p' - principal l' = total_borrowed p - principal l) /\
    forall t b, tk_balance (toks w') t b = tk_balance (toks w) t b +
      moved (asset l) who (current_contract env) fee t b.
Proof.
  intros Hself Hr. apply refinance_Ok in Hr as (l & p & tm & borrowed & t1 & Hr). cbv zeta in Hr.
  destruct Hr as (Hl & Hau & _ & Hp & Hgr & Htm & Hid & _ & Hbr & _ & Ht & Htk & _ & Hst).
  assert (who <> current_contract env) as Hne by (intros ->; done).
  apply tk_transfer_spec in Ht as (_ & _ & Ht); [|done].
  destruct Htm as (Hout & Hfee & _ & _ & Hnp & _ & _ & Hdue & _).
  unfold refinancing_fee_for, checked_mul128, REFINANCING_FEE_BPS in Hfee.
  rewrite checked_in in Hfee by unia. simpl in Hfee. unfold checked_div in Hfee. simpl in Hfee.
  injection Hfee as Hfee.
  eexists l, _, p, _. unfold pool_of. rewrite Hst, Htk; cbn. rewrite !lookup_insert_eq.
  split_and!; try done; cbn; try congruence.
  - intros Hu. destruct (Hbr Hu) as [-> _]. lia.
Qed.

(** ** Splitting *)
Definition next_id (w : world T) : Z := default 1 (k_NextLoanId (st w)).

Lemma split_part_Ok env l who out due rate ids amount ids' w w' :
  split_part env l who out due rate ids amount w = Ok ids' w' ->
  let loan := mkLoan (next_id w) who (asset l) amount
    (split_collateral (collateral_amount l) amount out) (collateral_token l)
    (timestamp env) due rate in
  ids' = ids ++ [next_id w] /\ next_id w' = next_id w + 1 /\
  k_PoolState (st w') = k_PoolState (st w) /\ toks w' = toks w /\
  k_LoanById (st w') = <[next_id w := loan]> (k_LoanById (st w)) /\
  k_Loan (st w') = <[who := loan]> (k_Loan (st w)).
Proof. unfold split_part. intros Hr. run_inv. done. Qed.

Lemma split_parts_Ok env l who out due rate amounts ids ids' w w' :
  foldM (split_part env l who out due rate) amounts ids w = Ok ids' w' ->
  ids' = ids ++ seqZ (next_id w) (Z.of_nat (length amounts)) /\
  k_PoolState (st w') = k_PoolState (st w) /\ toks w' = toks w /\
  (forall i, i < next_id w -> k_LoanById (st w') !! i = k_LoanById (st w) !! i) /\
  (forall k a, amounts !! k = Some a ->
    k_LoanById (st w') !! (next_id w + Z.of_nat k) =
    Some (mkLoan (next_id w + Z.of_nat k) who (asset l) a
            (split_collateral (collateral_amount l) a out) (collateral_token l)
            (timestamp env) due rate)).
Proof.
  revert ids w. induction amounts as [|a amounts IH]; intros ids w; simpl; intros Hr.
  - run_inv. rewrite app_nil_r. split_and!; done.
  - run_bind Hr. match goal with Hp : split_part _ _ _ _ _ _ _ _ _ = _ |- _ =>
      apply split_part_Ok in Hp as (-> & Hn & Hps & Ht & Hl & _) end.
    apply IH in Hr as (-> & Hps' & Ht' & Hlo & Hat). rewrite Hn in *.
    split_and!; [|congruence|congruence| |].
    + rewrite <-app_assoc. f_equal. rewrite (seqZ_cons (next_id w)) by lia. simpl. repeat f_equal; lia.
    + intros i Hi. rewrite Hlo, Hl, lookup_insert_ne by lia. done.
    + intros [|k] b Hb; simpl in Hb.
      * injection Hb as ->. rewrite Z.add_0_r, Hlo, Hl by lia. apply lookup_insert_eq.
      * apply Hat in Hb. replace (next_id w + Z.of_nat (S k)) with (next_id w + 1 + Z.of_nat k) by lia.
        done.
Qed.

Lemma sum64_Ok amounts acc r w w' :
  foldM (add64 (E := LendingError)) amounts acc w = Ok r w' -> 0 <= acc ->
  w' = w /\ r = acc + foldr Z.add 0 amounts.
Proof.
  revert acc. induction amounts as [|a l IH]; intros acc; simpl; intros Hr Hacc.
  - run_inv. split; [done|lia].
  - run_bind Hr. run_inv. apply IH in Hr as [-> ->]; [|ulia]. split; [done|lia].
Qed.

(** The parts of the collateral never exceed the whole. *)
Lemma split_collateral_le c a out :
  u64 c -> 0 <= a <= out -> u64 out -> 0 < out ->
  0 <= split_collateral c a out /\ split_collateral c a out * 10000 * out <= c * (a * 10000).
Proof.
  intros Hc Ha Ho Hpos. unfold split_collateral.
  rewrite (muldiv128_eq a) by unia.
  pose proof (div_floor (a * 10000) out Hpos) as Hf.
  set (r := a * 10000 / out) in *. assert (0 <= r <= 10000).
  { split; [apply Z.div_pos; lia|]. apply div_le_mul; nia. }
  rewrite muldiv128_eq by unia. pose proof (div_floor (c * r) 10000 ltac:(lia)) as Hg.
  set (s := c * r / 10000) in *. assert (0 <= s <= c) by (split; [apply Z.div_pos; unia|unia]).
  rewrite as_u64_small by ulia. split; [lia|]. unfold u64 in *.
  assert (s * 10000 * out <= c * r * out) by nia. nia.
Qed.

Lemma split_collaterals_le c amounts out rest :
  u64 c -> u64 out -> 0 < out -> Forall (fun a => 0 <= a) amounts -> 0 <= rest ->
  foldr Z.add 0 amounts + rest = out ->
  0 <= foldr Z.add 0 ((fun a => split_collateral c a out) <$> amounts) /\
  foldr Z.add 0 ((fun a => split_collateral c a out) <$> amounts) * out
    <= c * foldr Z.add 0 amounts.
Proof.
  intros Hc Ho Hpos Hall. revert rest.
  induction Hall as [|a l Ha Hall IH]; intros rest Hrest Hsum; simpl in *; [lia|].
  destruct (IH (a + rest)) as [H1 H2]; [lia|lia|].
  assert (0 <= foldr Z.add 0 l).
  { clear -Hall. induction Hall; simpl; lia. }
  destruct (split_collateral_le c a out) as [H3 H4]; [done|lia|done|done|].
  set (S := foldr Z.add 0 (_ <$> l)) in *.
  match goal with |- context [foldr Z.add 0 ?m] => lazymatch m with list_fmap _ _ _ _ =>
    change (foldr Z.add 0 m) with S end end. split; [lia|].
    rewrite Z.mul_add_distr_r, Z.mul_add_distr_l. lia.
Qed.

(** Splitting a loan makes one loan per requested part, with consecutive identifiers, the
    parts adding up to the outstanding balance, each with its proportion of the
    collateral, and the parts of the collateral never exceeding the whole. *)
Theorem split_contract env who amounts dur w ids w' :
  Forall (fun a => 0 <= a) amounts ->
  split_loan env who amounts dur w = Ok ids w' ->
  exists l, k_Loan (st w) !! who = Some l /\
    let out := principal l + interest_of env l in
    (length amounts <= 5)%nat /\
    foldr Z.add 0 amounts = out /\
    ids = seqZ (next_id w) (Z.of_nat (length amounts)) /\
    (forall k a, amounts !! k = Some a -> exists m,
       k_LoanById (st w') !! (next_id w + Z.of_nat k) = Some m /\
       principal m = a /\ collateral_amount m = split_collateral (collateral_amount l) a out /\
       (borrower m, asset m, collateral_token m) = (who, asset l, collateral_token l)) /\
    (u64 (collateral_amount l) -> 0 < out ->
     foldr Z.add 0 ((fun a => split_collateral (collateral_amount l) a out) <$> amounts)
       <= collateral_amount l).
Proof.
  intros Hall. unfold split_loan, calculate_outstanding_balance. intros Hr. run_inv.
  merge_lookups. bool_hyps.
  match goal with Hs : foldM add64 _ _ _ = _ |- _ => apply sum64_Ok in Hs as [-> ->]; [|lia] end.
  match goal with Hs : foldM (split_part _ _ _ _ _ _) _ _ _ = _ |- _ =>
    apply split_parts_Ok in Hs as (-> & _ & _ & _ & Hat) end.
  match goal with l : LoanRecord |- _ => exists l end. cbv zeta. split_and!; try done; try lia.
  - intros k a Hk. eexists. split; [by apply Hat|done].
  - intros Hc Hpos. rename x into l.
    destruct (split_collaterals_le (collateral_amount l) amounts (principal l + interest_of env l) 0)
      as [_ Hle]; [done..|lia|lia|].
    apply (Z.mul_le_mono_pos_r _ _ (principal l + interest_of env l)); [done|].
    simpl in *. nia.
Qed.
End contracts.

(** * Witnesses *)
Section witnesses.
Import LendingExample.
Abbreviation W := (world MockToken.network).

(** Carol borrows 20000 against 30000; a year later she refinances or repays,
    or splits the loan while it is in good standing. *)
Definition lent : W := after (borrow (env_at 100 7) carol usd 20000 gold 30000 31536000) dep2.
Definition repaid_w : W := after (repay (env_at 31536100 8) carol) lent.
Definition refinanced : W := after (refinance_loan (env_at 31536100 8) carol 1000) lent.
Definition carols_loan : LoanRecord :=
  mkLoan 1 carol usd 20000 30000 gold 100 31536100 1201.

(** The same loan with a lower collateral requirement, long overdue. *)
Definition thin : W := dep2 <| st := (st dep2) <| k_CollateralRatio := Some 12000 |> |>.
Definition thin_loan : W := after (borrow (env_at 100 7) carol usd 20000 gold 24000 1000) thin.
Definition late_env : Env := env_at 10000000 9.

Lemma not_self t n : current_contract (env_at t n) ∉ auths (env_at t n).
Proof. by vm_compute. Qed.

Lemma borrow_contract_witness :
  exists l, k_Loan (st lent) !! carol = Some l /\ 20000 * 15000 < (30000 + 1) * 10000.
Proof.
  destruct (borrow_contract (env_at 100 7) carol usd 20000 gold 30000 31536000 dep2 1 lent)
    as (p & l & _ & Hl & _ & _ & _ & _ & Hc & _).
  - apply not_self.
  - vm_compute. split; congruence.
  - vm_compute. split; congruence.
  - vm_compute. congruence.
  - vm_compute. reflexivity.
  - exists l. split; [exact Hl|]. vm_compute. reflexivity.
Defined.

Lemma repay_contract_witness : k_Loan (st repaid_w) !! carol = None.
Proof.
  destruct (repay_contract (env_at 31536100 8) carol lent 22402 repaid_w)
    as (l & p & p' & _ & _ & Hr).
  - apply not_self.
  - vm_compute. reflexivity.
  - destruct Hr as (_ & _ & _ & _ & _ & _ & _ & Hn & _). exact Hn.
Defined.

Lemma late_fee_schedule_witness :
  late_fee_at (env_at (31536100 + 259200 + 2 * 86400 + 7) 9) carols_loan fresh_pool 0 = 2000.
Proof.
  destruct (late_fee_schedule (env_at (31536100 + 259200 + 2 * 86400 + 7) 9) carols_loan fresh_pool)
    as [_ Hd]; [vm_compute; split; congruence..|vm_compute; congruence|vm_compute; congruence|
      vm_compute; congruence|].
  rewrite (Hd 2); [reflexivity|lia|vm_compute; congruence|]. vm_compute. split; congruence.
Defined.

Lemma liquidation_contract_witness :
  exists l, k_Loan (st (after (liquidate late_env bob carol 10000) thin_loan)) !! carol = Some l.
Proof.
  destruct (liquidation_contract late_env bob carol 10000 thin_loan 15000
    (after (liquidate late_env bob carol 10000) thin_loan)) as (l & p & Hl).
  - apply not_self.
  - vm_compute. reflexivity.
  - exists l. apply Hl.
Defined.

Lemma refinance_contract_witness : exists l, k_Loan (st refinanced) !! carol = Some l.
Proof.
  destruct (refinance_contract (env_at 31536100 8) carol 1000 lent 2 refinanced)
    as (l & l' & p & p' & _ & Hl & _).
  - apply not_self.
  - vm_compute. reflexivity.
  - exists l'. exact Hl.
Defined.

Lemma split_contract_witness :
  foldr Z.add 0 [10000; 12402] = 22402 /\ (length [10000; 12402]%Z <= 5)%nat.
Proof.
  destruct (split_contract (env_at 31536100 8) carol [10000; 12402] 1000 lent [2; 3]
    (after (split_loan (env_at 31536100 8) carol [10000; 12402] 1000) lent)) as (l & _ & Hlen & _).
  - repeat constructor; lia.
  - vm_compute. reflexivity.
  - split; [reflexivity|exact Hlen].
Defined.
End witnesses.

End LendingLoans.
