(* ===== verification/LendingSolvency.v ===== *)
(** Solvency of the lending pool: the tokens the contract holds cover what it
    owes to depositors, borrowers and its own reserves, along every sequence of
    the lending operations. *)
From S2P Require Import Prelude Host AccessControl Token MockToken.
From S2P Require Import LendingTypes LendingMath LendingCore LendingExample LendingPool LendingLoans.
Import AccessControl LendingTypes LendingMath LendingCore LendingPool LendingLoans.

Module LendingSolvency.

(** What the open loans lock of a token and have out of an asset. *)
Definition collateral_of (tok : address) (_ : address) (l : LoanRecord) : Z :=
  if decide (collateral_token l = tok) then collateral_amount l else 0.
Definition principal_of (a : address) (_ : address) (l : LoanRecord) : Z :=
  if decide (asset l = a) then principal l else 0.
Definition collateral_in (s : store) (tok : address) : Z := msum (collateral_of tok) (k_Loan s).
Definition principal_out (s : store) (a : address) : Z := msum (principal_of a) (k_Loan s).

(** A pool owes its unborrowed deposits, its retained yield and its reserve. *)
Definition pool_owes (p : PoolState) : Z :=
  total_deposits p - total_borrowed p + retained_yield p + bad_debt_reserve p.
Definition owed (s : store) (a : address) : Z :=
  from_option pool_owes 0 (k_PoolState s !! a) + collateral_in s a.

Section solvency.
Context {T : Type} `{TokenLaws T}.
Context (self : address).
Implicit Types (env : Env) (w : world T).

(** The books: borrowed totals are the open principals, and a borrower with a
    loan has a loan identifier on record. *)
Record books (w : world T) : Prop := {
  bk_borrowed : forall a p, k_PoolState (st w) !! a = Some p ->
    u64 (total_borrowed p) /\ total_borrowed p = principal_out (st w) a;
  bk_pool : forall b l, k_Loan (st w) !! b = Some l -> is_Some (k_PoolState (st w) !! asset l);
  bk_open : forall b l, k_Loan (st w) !! b = Some l -> user_loans (st w) b <> [] /\ u64 (principal l)
}.
Definition covered (w : world T) : Prop :=
  forall a, owed (st w) a <= tk_balance (toks w) a self.
Definition solvent (w : world T) : Prop := books w /\ covered w.

(** A call by somebody else: the contract never authorises itself. *)
Definition outside (env : Env) : Prop := current_contract env = self /\ self ∉ auths env.

(** The foreign code of a flash-loan receiver: it cannot write this contract's
    storage and cannot move this contract's tokens. *)
Variable execute_operation :
  Env -> address -> Z -> Z -> address -> world T -> option (world T).
Definition receiver_confined : Prop := forall env r amount fee i w w',
  execute_operation env r amount fee i w = Some w' ->
  st w' = st w /\ forall tok, tk_balance (toks w) tok self <= tk_balance (toks w') tok self.

(** The lending operations, by anyone, in any order. *)
Inductive lending_step (w w' : world T) : Prop :=
  | s_deposit env d a x r : outside env -> deposit env d a x w = Ok r w' -> lending_step w w'
  | s_withdraw env d a x r : outside env -> withdraw env d a x w = Ok r w' -> lending_step w w'
  | s_priority env c a x r : outside env ->
      withdraw_priority env c a x w = Ok r w' -> lending_step w w'
  | s_fund env f a x r : outside env ->
      fund_retained_yield env f a x w = Ok r w' -> lending_step w w'
  | s_replenish env adm a x r : outside env ->
      replenish_bad_debt_reserve env adm a x w = Ok r w' -> lending_step w w'
  | s_payout env adm a to x r : outside env -> to <> self ->
      pay_from_reserve env adm a to x w = Ok r w' -> lending_step w w'
  | s_borrow env who a x tok c dur r : outside env -> u64 x ->
      borrow env who a x tok c dur w = Ok r w' -> lending_step w w'
  | s_repay env who r : outside env -> repay env who w = Ok r w' -> lending_step w w'
  | s_refinance env who dur r : outside env ->
      refinance_loan env who dur w = Ok r w' -> lending_step w w'
  | s_flash env i r a x u : outside env -> r <> self ->
      flash_loan execute_operation env i r a x w = Ok u w' -> lending_step w w'.

(** ** Helper lemmas *)

Lemma owed_pool_update s a p p' b :
  k_PoolState s !! a = Some p ->
  owed (s <| k_PoolState := <[a := p']> (k_PoolState s) |>) b =
  owed s b + (if decide (b = a) then pool_owes p' - pool_owes p else 0).
Proof.
  intros Hp. unfold owed, collateral_in; cbn. case_decide as Hd; [subst b|].
  - rewrite lookup_insert_eq, Hp. simpl. lia.
  - rewrite lookup_insert_ne by done. lia.
Qed.

(** Updating a pool without touching what is borrowed keeps the books. *)
Lemma books_pool_update w w' a p p' :
  books w -> k_PoolState (st w) !! a = Some p -> total_borrowed p' = total_borrowed p ->
  k_PoolState (st w') = <[a := p']> (k_PoolState (st w)) ->
  k_Loan (st w') = k_Loan (st w) -> k_UserLoans (st w') = k_UserLoans (st w) ->
  books w'.
Proof.
  intros [Hb Hpl Ho] Hp Hbw Hps Hl Hu.
  split; unfold principal_out, user_loans in *; rewrite ?Hps, ?Hl, ?Hu in *; [| |done].
  - intros b q [[<- <-]|[_ Hq]]%lookup_insert_Some; [rewrite Hbw; by apply Hb|by apply Hb].
  - intros b l Hb'. apply Hpl in Hb'. apply lookup_insert_is_Some.
    destruct (decide (a = asset l)); auto.
Qed.

(** A pool update paid for by one transfer keeps the pool covered. *)
Lemma covered_by_transfer w w' env a p p' from to amount :
  covered w -> k_PoolState (st w) !! a = Some p -> from <> to ->
  tk_transfer (toks w) (auths (sub_env env a)) a from to amount = Some (toks w') ->
  k_PoolState (st w') = <[a := p']> (k_PoolState (st w)) -> k_Loan (st w') = k_Loan (st w) ->
  pool_owes p' - pool_owes p <= moved a from to amount a self ->
  covered w'.
Proof.
  intros Hc Hp Hne Ht Hps Hl Hle b. apply tk_transfer_spec in Ht as (_ & _ & Ht); [|done].
  rewrite Ht. specialize (Hc b). pose proof (owed_pool_update (st w) a p p' b Hp) as Ho.
  unfold owed, collateral_in in *; cbn in Ho. rewrite Hps, Hl.
  destruct (decide (b = a)) as [->|Hba]; [lia|]. rewrite moved_other by auto. lia.
Qed.

Lemma outside_ne env a : outside env -> a ∈ auths env -> a <> self.
Proof. intros [_ Hs] Ha ->. done. Qed.

(** One pool rewritten, one transfer, the loans left alone. *)
Lemma solvent_transfer w w' env a p p' from to amount :
  solvent w -> k_PoolState (st w) !! a = Some p -> from <> to ->
  tk_transfer (toks w) (auths (sub_env env a)) a from to amount = Some (toks w') ->
  k_PoolState (st w') = <[a := p']> (k_PoolState (st w)) -> k_Loan (st w') = k_Loan (st w) ->
  k_UserLoans (st w') = k_UserLoans (st w) -> total_borrowed p' = total_borrowed p ->
  pool_owes p' - pool_owes p <= moved a from to amount a self ->
  solvent w'.
Proof.
  intros [Hb Hc]. split; [by eapply books_pool_update|by eapply covered_by_transfer].
Qed.

Ltac by_transfer :=
  unfold pool_owes; cbn;
  first [rewrite moved_to by (done || congruence) | rewrite moved_from by (done || congruence)];
  try ulia.

Lemma deposit_solvent env d a x r w w' :
  outside env -> deposit env d a x w = Ok r w' -> solvent w -> solvent w'.
Proof.
  intros Ho Hr Hs. apply deposit_Ok in Hr as (p & ts & t' & Hr). destruct_and! Hr. subst w'.
  pose proof (outside_ne _ _ Ho ltac:(eassumption)) as Hne. destruct Ho as [Hc _]. rewrite Hc in *.
  eapply solvent_transfer with (from := d) (to := self); try done. by_transfer.
Qed.

Lemma withdraw_solvent env d a x r w w' :
  outside env -> withdraw env d a x w = Ok r w' -> solvent w -> solvent w'.
Proof.
  intros Ho Hr Hs. apply withdraw_Ok in Hr as (p & t' & Hr). destruct_and! Hr. subst w'.
  pose proof (outside_ne _ _ Ho ltac:(eassumption)) as Hne. destruct Ho as [Hc _]. rewrite Hc in *.
  eapply solvent_transfer with (from := self) (to := d); try done. by_transfer.
Qed.

Lemma priority_solvent env c a x r w w' :
  outside env -> withdraw_priority env c a x w = Ok r w' -> solvent w -> solvent w'.
Proof.
  intros Ho Hr Hs. apply withdraw_priority_Ok in Hr as (p & t' & Hr). destruct_and! Hr. subst w'.
  pose proof (outside_ne _ _ Ho ltac:(eassumption)) as Hne. destruct Ho as [Hc _]. rewrite Hc in *.
  eapply solvent_transfer with (from := self) (to := c); try done. by_transfer.
Qed.

Lemma fund_solvent env f a x r w w' :
  outside env -> fund_retained_yield env f a x w = Ok r w' -> solvent w -> solvent w'.
Proof.
  intros Ho Hr Hs. apply fund_retained_yield_Ok in Hr as (p & t' & Hr). destruct_and! Hr. subst w' r.
  pose proof (outside_ne _ _ Ho ltac:(eassumption)) as Hne. destruct Ho as [Hc _]. rewrite Hc in *.
  eapply solvent_transfer with (from := f) (to := self); try done. by_transfer.
Qed.

Lemma replenish_solvent env adm a x r w w' :
  outside env -> replenish_bad_debt_reserve env adm a x w = Ok r w' -> solvent w -> solvent w'.
Proof.
  intros Ho Hr Hs. apply replenish_Ok in Hr as (p & t' & Hr). destruct_and! Hr. subst w' r.
  pose proof (outside_ne _ _ Ho ltac:(eassumption)) as Hne. destruct Ho as [Hc _]. rewrite Hc in *.
  eapply solvent_transfer with (from := adm) (to := self); try done. by_transfer.
Qed.

Lemma payout_solvent env adm a to x r w w' :
  outside env -> to <> self -> pay_from_reserve env adm a to x w = Ok r w' ->
  solvent w -> solvent w'.
Proof.
  intros Ho Hto Hr Hs. apply pay_from_reserve_Ok in Hr as (p & t' & Hr). destruct_and! Hr. subst w'.
  destruct Ho as [Hc _]. rewrite Hc in *.
  eapply solvent_transfer with (from := self) (to := to); try done. by_transfer.
Qed.

Lemma flash_solvent env i r a x u w w' :
  receiver_confined -> outside env -> r <> self ->
  flash_loan execute_operation env i r a x w = Ok u w' -> solvent w -> solvent w'.
Proof.
  intros Hrc [Hself _] Hne Hr [Hb Hc]. apply flash_loan_Ok in Hr as (_ & _ & _ & w1 & Hr & ->).
  apply flash_loan_inner_Ok in Hr as (p & t1 & w2 & Hr). cbv zeta in Hr. destruct_and! Hr. subst w1.
  rewrite Hself in *. destruct (Hrc _ _ _ _ _ _ _ ltac:(eassumption)) as [Hst Hbal].
  cbn in Hst, Hbal. split.
  - eapply (books_pool_update w _ a p
      (p <| total_deposits := total_deposits p + flash_fee x (default 9 (k_FlashLoanFeeBps (st w))) |>));
      try done; cbn; by rewrite ?Hst.
  - intros b. cbn. rewrite Hst.
    match goal with Ht : tk_transfer _ _ _ _ _ _ = Some _ |- _ =>
      apply tk_transfer_spec in Ht as (_ & _ & Ht); [|done] end.
    specialize (Hc b). specialize (Hbal b).
    match goal with Ht : forall _ _, tk_balance t1 _ _ = _ |- _ => rewrite Ht in Hbal end.
    unfold owed, collateral_in in *; cbn.
    destruct (decide (b = a)) as [->|Hba].
    + rewrite lookup_insert_eq. simpl.
      match goal with Hp : k_PoolState _ !! a = Some p |- _ => cbn in Hp; rewrite Hp in Hc end.
      simpl in Hc. unfold pool_owes in *; cbn in *. lia.
    + rewrite lookup_insert_ne by done. rewrite moved_other in Hbal by auto. cbn in Hbal. lia.
Qed.

(** ** Loans *)

Lemma msum_put (f : address -> LoanRecord -> Z) (m : gmap address LoanRecord) k l :
  m !! k = None -> msum f (<[k := l]> m) = f k l + msum f m.
Proof. apply msum_insert_fresh. Qed.

Lemma user_loans_insert s who ids b m :
  k_UserLoans s = <[who := ids]> m ->
  user_loans s b = if decide (b = who) then ids else default [] (m !! b).
Proof.
  unfold user_loans. intros ->. case_decide as Hd; [subst; by rewrite lookup_insert_eq|].
  by rewrite lookup_insert_ne.
Qed.

Lemma borrow_solvent env who a x tok c dur r w w' :
  outside env -> u64 x -> borrow env who a x tok c dur w = Ok r w' -> solvent w -> solvent w'.
Proof.
  intros Ho Hx Hr [[Hbb Hpl Hop] Hc].
  apply borrow_Ok in Hr as (p & due & rate & rs & ns & t1 & t2 & Hr). cbv zeta in Hr.
  destruct_and! Hr. subst w'.
  pose proof (outside_ne _ _ Ho ltac:(eassumption)) as Hne. destruct Ho as [Hself _].
  rewrite Hself in *.
  assert (k_Loan (st w) !! who = None) as Hnone.
  { destruct (k_Loan (st w) !! who) eqn:Hl; [|done]. by destruct (Hop _ _ Hl). }
  repeat match goal with Ht : tk_transfer _ _ _ _ _ _ = Some _ |- _ =>
    apply tk_transfer_spec in Ht as (_ & _ & Ht); [|done] end.
  split; [split|]; cbn.
  - intros b q. unfold principal_out; cbn. rewrite msum_put by done.
    unfold principal_of at 1; cbn.
    intros [[<- <-]|[Hba Hq]]%lookup_insert_Some; cbn.
    + rewrite decide_True by done. destruct (Hbb a p) as [? Hpo]; [done|].
      unfold principal_out in Hpo. split; [done|lia].
    + rewrite decide_False by done. by apply Hbb.
  - intros b l [[<- <-]|[_ Hl]]%lookup_insert_Some; cbn; apply lookup_insert_is_Some; [by left|].
    destruct (decide (a = asset l)); eauto.
  - intros b l Hl. erewrite (user_loans_insert _ who) by done.
    apply lookup_insert_Some in Hl as [[<- <-]|[Hbw Hl]]; [rewrite decide_True by done; split; [by destruct (user_loans _ _)|done]|].
    rewrite decide_False by done. by apply Hop.
  - intros b. specialize (Hc b). cbn. repeat match goal with
    | Ht : forall _ _, tk_balance _ _ _ = _ |- _ => rewrite Ht; clear Ht end.
    unfold owed, collateral_in in *; cbn. rewrite msum_put by done.
    unfold collateral_of at 1; cbn. unfold moved.
    destruct (decide (b = a)) as [->|Hba].
    + rewrite lookup_insert_eq. simpl.
      match goal with Hp : k_PoolState _ !! a = Some p |- _ => rewrite Hp in Hc end.
      simpl in Hc. unfold pool_owes in *; cbn in *. repeat case_decide; naive_solver lia.
    + rewrite lookup_insert_ne by done. repeat case_decide; naive_solver lia.
Qed.

(** The protocol's buckets never get more than was paid. *)
Lemma repaid_owes p p' pr i late :
  u64 i -> repaid p p' pr i late ->
  pool_owes p' = pool_owes p + pr + i + late /\ total_borrowed p' = total_borrowed p - pr /\
  u64 (total_borrowed p').
Proof.
  intros Hi (prot & res & Hprot & Hres & Hu & _ & ->).
  pose proof (muldiv128_part i PROTOCOL_INTEREST_BPS 10000 Hi
    ltac:(unfold PROTOCOL_INTEREST_BPS; lia) ltac:(ulia)) as Hp. rewrite <-Hprot in Hp.
  pose proof (muldiv128_part prot BAD_DEBT_RESERVE_BPS 10000 ltac:(ulia)
    ltac:(unfold BAD_DEBT_RESERVE_BPS; lia) ltac:(ulia)) as Hr. rewrite <-Hres in Hr.
  unfold pool_owes; cbn. split_and!; [ulia|done|done].
Qed.

Lemma user_loans_drop s who b id l :
  k_Loan s !! b = Some l -> b <> who -> default [] (drop_user_loan s who id !! b) = user_loans s b.
Proof.
  intros _ Hne. unfold drop_user_loan, user_loans.
  destruct (filter _ _); [by rewrite lookup_delete_ne|by rewrite lookup_insert_ne].
Qed.

Lemma repay_solvent env who r w w' :
  outside env -> repay env who w = Ok r w' -> solvent w -> solvent w'.
Proof.
  intros Ho Hr [[Hbb Hpl Hop] Hc].
  apply repay_Ok in Hr as (l & p & p' & rs & t1 & t2 & Hr). cbv zeta in Hr.
  destruct Hr as (Hl & Hau & _ & Hp & -> & _ & Hrep & Ht1 & Ht2 & Htk & _ & Hst).
  pose proof (outside_ne _ _ Ho Hau) as Hne. destruct Ho as [Hself _]. rewrite Hself in *.
  apply tk_transfer_spec in Ht1 as (_ & _ & Ht1); [|done].
  apply tk_transfer_spec in Ht2 as (_ & _ & Ht2); [|done].
  apply repaid_owes in Hrep as (How & Hbor & Hub); [|apply calculate_interest_range].
  split; [split|]; rewrite ?Htk, ?Hst; cbn.
  - intros b q. unfold principal_out; cbn. rewrite msum_delete, Hl. unfold principal_of at 2. simpl.
    intros [[<- <-]|[Hba Hq]]%lookup_insert_Some.
    + rewrite decide_True by done. destruct (Hbb _ _ Hp) as [_ Hpo]. unfold principal_out in Hpo.
      split; [done|lia].
    + rewrite decide_False by done. rewrite Z.sub_0_r. by apply Hbb.
  - intros b m [_ Hm]%lookup_delete_Some. apply lookup_insert_is_Some.
    destruct (decide (asset l = asset m)); eauto.
  - intros b m [Hbw Hm]%lookup_delete_Some. unfold user_loans; cbn.
    rewrite (user_loans_drop (st w) who b (loan_id l) m) by done. by apply Hop.
  - intros b. rewrite Htk, Hst, Ht2, Ht1. specialize (Hc b).
    unfold owed, collateral_in in *; cbn. rewrite msum_delete, Hl. unfold collateral_of at 2.
    unfold moved. simpl. destruct (decide (b = asset l)) as [->|Hba].
    + rewrite lookup_insert_eq. simpl. rewrite Hp in Hc. simpl in Hc.
      repeat case_decide; naive_solver lia.
    + rewrite lookup_insert_ne by done. repeat case_decide; naive_solver lia.
Qed.

Lemma refinance_solvent env who dur r w w' :
  outside env -> refinance_loan env who dur w = Ok r w' -> solvent w -> solvent w'.
Proof.
  intros Ho Hr [[Hbb Hpl Hop] Hc].
  apply refinance_Ok in Hr as (l & p & tm & borrowed & t1 & Hr). cbv zeta in Hr.
  destruct Hr as (Hl & Hau & _ & Hp & _ & Htm & -> & _ & Hbr & _ & Ht & Htk & _ & Hst).
  pose proof (outside_ne _ _ Ho Hau) as Hne. destruct Ho as [Hself _]. rewrite Hself in *.
  apply tk_transfer_spec in Ht as (_ & Hfee & Ht); [|done].
  destruct (Hbb _ _ Hp) as [Hub Hpo]. destruct (Hbr Hub) as [-> Hub'].
  destruct Htm as (_ & _ & _ & _ & Hnp & _ & Hunp & _).
  pose proof (calculate_interest_range (principal l) (interest_rate_bps l) (elapsed_of env l)) as Hi.
  fold (interest_of env l) in Hi.
  split; [split|]; rewrite ?Htk, ?Hst; cbn.
  - intros b q. unfold principal_out; cbn.
    rewrite msum_put by apply lookup_delete_eq. rewrite msum_delete, Hl. simpl.
    unfold principal_of at 1 3; cbn.
    intros [[<- <-]|[Hba Hq]]%lookup_insert_Some; cbn.
    + rewrite !decide_True by done. unfold principal_out in Hpo. split; [done|lia].
    + rewrite !decide_False by done. rewrite Z.sub_0_r. by apply Hbb.
  - intros b m [[<- <-]|[Hb Hm]]%lookup_insert_Some; cbn; apply lookup_insert_is_Some; [by left|].
    apply lookup_delete_Some in Hm as [_ Hm]. destruct (decide (asset l = asset m)); eauto.
  - intros b m Hm. erewrite (user_loans_insert _ who) by done.
    apply lookup_insert_Some in Hm as [[<- <-]|[Hb Hm]].
    + rewrite decide_True by done. split; [by destruct (default _ _)|done].
    + rewrite decide_False by done. apply lookup_delete_Some in Hm as [_ Hm].
      rewrite (user_loans_drop (st w) who b (loan_id l) m) by done. by apply Hop.
  - intros b. rewrite Htk, Hst, Ht. specialize (Hc b).
    unfold owed, collateral_in in *; cbn.
    rewrite msum_put by apply lookup_delete_eq. rewrite msum_delete, Hl. simpl.
    unfold collateral_of at 1 3; cbn. unfold moved. destruct (decide (b = asset l)) as [->|Hba].
    + rewrite lookup_insert_eq. simpl. rewrite Hp in Hc. simpl in Hc.
      unfold pool_owes in *; cbn. unfold u64 in Hi. repeat case_decide; naive_solver lia.
    + rewrite lookup_insert_ne by done. repeat case_decide; naive_solver lia.
Qed.

Lemma lending_step_solvent w w' :
  receiver_confined -> lending_step w w' -> solvent w -> solvent w'.
Proof.
  intros Hrc Hs. destruct Hs; eauto using deposit_solvent, withdraw_solvent, priority_solvent,
    fund_solvent, replenish_solvent, payout_solvent, borrow_solvent, repay_solvent,
    refinance_solvent, flash_solvent.
Qed.

(** C1: Along every sequence of deposits, withdrawals, priority withdrawals, yield
    funding, reserve top-ups and payouts, loans, repayments, refinancings and flash loans,
    the tokens the contract holds cover the unborrowed deposits, the retained yield, the
    bad-debt reserve and the collateral of every open loan, and a pool's borrowed total is
    the sum of the open principals. *)
Theorem lending_solvent w w' :
  receiver_confined -> solvent w -> rtc lending_step w w' ->
  (forall a, owed (st w') a <= tk_balance (toks w') a self) /\
  (forall a p, k_PoolState (st w') !! a = Some p ->
     total_borrowed p = principal_out (st w') a).
Proof.
  intros Hrc Hs Hsteps.
  assert (solvent w') as [[Hb _ _] Hc].
  { induction Hsteps; [done|]. eauto using lending_step_solvent. }
  split; [exact Hc|]. intros a p Hp. by apply Hb.
Qed.
End solvency.

(** * Witness: two deposits, a loan and a flash loan on the example deployment *)
Section witness.
Import LendingExample.

Definition confined (e : Env) (r : address) (amount fee : Z) (i : address)
    (w : world MockToken.network) : option (world MockToken.network) :=
  if decide (r = pool_contract) then None else honest_receiver e r amount fee i w.

Lemma confined_ok : receiver_confined pool_contract confined.
Proof.
  intros e r amount fee i w w' Hx. unfold confined, honest_receiver in Hx.
  case_decide; [done|]. destruct (tk_transfer _ _ _ _ _ _) as [t|] eqn:Ht; [|done].
  injection Hx as <-. split; [done|]. intros tok.
  apply tk_transfer_spec in Ht as (_ & Ha & Ht); [|done]. cbn. rewrite Ht.
  unfold moved. repeat case_decide; naive_solver lia.
Qed.

Lemma world0_pools : k_PoolState (st world0) = {[ usd := fresh_pool ]}.
Proof. reflexivity. Qed.
Lemma world0_loans : k_Loan (st world0) = ∅.
Proof. reflexivity. Qed.
Lemma network0_nonneg a who : who = pool_contract -> 0 <= MockToken.net_balance network0 a who.
Proof.
  intros ->. unfold MockToken.net_balance, network0.
  destruct (decide (a = usd)) as [->|Hu]; [rewrite lookup_insert_eq; vm_compute; congruence|].
  rewrite lookup_insert_ne by done. destruct (decide (a = gold)) as [->|Hg].
  - rewrite lookup_singleton_eq. vm_compute. congruence.
  - by rewrite lookup_singleton_ne.
Qed.

Lemma world0_solvent : solvent pool_contract world0.
Proof.
  split; [split|].
  - intros a p. rewrite world0_pools. intros [<- <-]%lookup_singleton_Some.
    unfold principal_out. rewrite world0_loans, msum_empty. simpl. unfold u64, u64_max. lia.
  - intros b l. by rewrite world0_loans, lookup_empty.
  - intros b l. by rewrite world0_loans, lookup_empty.
  - intros a. unfold owed, collateral_in. rewrite world0_pools, world0_loans, msum_empty.
    pose proof (network0_nonneg a pool_contract eq_refl) as Hn.
    change (tk_balance (toks world0)) with (MockToken.net_balance network0).
    destruct (decide (a = usd)) as [->|Hu].
    + rewrite lookup_singleton_eq. change (from_option pool_owes 0 (Some fresh_pool)) with 0. lia.
    + rewrite lookup_singleton_ne by done. simpl. lia.
Qed.

Definition flashed : world MockToken.network :=
  after (flash_loan confined (env_at 200 8) bob receiver usd 10000) lent.

Lemma outside_at t n : outside pool_contract (env_at t n).
Proof. by split; vm_compute. Qed.

Lemma lending_solvent_witness : owed (st flashed) usd <= tk_balance (toks flashed) usd pool_contract.
Proof.
  apply (lending_solvent pool_contract confined world0 flashed confined_ok world0_solvent).
  apply (rtc_l _ _ dep1).
  { apply (s_deposit _ _ _ _ (env_at 100 5) alice usd 50000 49000); [apply outside_at|].
    vm_compute. reflexivity. }
  apply (rtc_l _ _ dep2).
  { apply (s_deposit _ _ _ _ (env_at 100 6) bob usd 7001 7001); [apply outside_at|].
    vm_compute. reflexivity. }
  apply (rtc_l _ _ lent).
  { apply (s_borrow _ _ _ _ (env_at 100 7) carol usd 20000 gold 30000 31536000 1);
      [apply outside_at|vm_compute; split; congruence|]. vm_compute. reflexivity. }
  apply rtc_once.
  apply (s_flash _ _ _ _ (env_at 200 8) bob receiver usd 10000 tt); [apply outside_at|done|].
  vm_compute. reflexivity.
Defined.
End witness.

End LendingSolvency.
