(* ===== verification/LendingRewards.v ===== *)
(** Reward farming of the lending contract
    ([contracts/lending-contract/src/lib.rs]): staking of pool shares, the
    reward-per-token accumulator, claims. *)
From S2P Require Import Prelude Host AccessControl Token MockToken.
From S2P Require Import LendingTypes LendingMath LendingCore LendingExample LendingPool.
Import AccessControl LendingTypes LendingMath LendingCore LendingPool.

Module LendingRewards.

(** * The accumulator *)

(** [RewardPool] and [UserStake] as the functions read them: absent entries
    are created with defaults. *)
Definition reward_pool_of env (s : store) (a : address) : RewardPool :=
  default (mkRewardPool 0 DEFAULT_REWARD_RATE (timestamp env) 0 0) (k_RewardPool s !! a).
Definition stake_of (s : store) (user a : address) : UserStake :=
  default (mkStake 0 0 0 0) (k_UserStake s !! (user, a)).

(** The body of [update_reward_pool] on the record. *)
Definition accrue_rewards (rp : RewardPool) (now : Z) : RewardPool :=
  let time_elapsed := saturating_sub now (rp_last_update_time rp) in
  let rp' :=
    if (0 <? rp_total_staked rp) && (0 <? time_elapsed) then
      let rewards_per_token := default 0 (checked_mul64 time_elapsed (rp_reward_rate rp)) in
      let new_rewards := default 0 (checked_mul64 rewards_per_token (rp_total_staked rp)
                                    ≫= fun v => checked_div v REWARD_PRECISION) in
      rp <| rp_reward_per_token_stored :=
              default 0 (checked_add64 (rp_reward_per_token_stored rp) rewards_per_token) |>
         <| rp_total_rewards_distributed :=
              default 0 (checked_add64 (rp_total_rewards_distributed rp) new_rewards) |>
    else rp in
  rp' <| rp_last_update_time := now |>.

(** The value [calculate_pending_rewards] returns for a pool and a stake. *)
Definition pending_rewards (rp : RewardPool) (us : UserStake) : Z :=
  if us_amount us =? 0 then us_rewards us
  else
    let diff := saturating_sub (rp_reward_per_token_stored rp) (us_reward_per_token_paid us) in
    let pending := default 0 (checked_mul64 diff (us_amount us)
                              ≫= fun v => checked_div v REWARD_PRECISION) in
    default 0 (checked_add64 (us_rewards us) pending).

Section rewards.
Context {T : Type} `{TokenOps T}.
Abbreviation X A := (M (world T) LendingError A).
Implicit Types (env : Env) (w : world T).

(** * Operations *)

Definition set_reward_pool (a : address) (rp : RewardPool) : X unit :=
  save (fun s => s <| k_RewardPool := <[a := rp]> (k_RewardPool s) |>).
Definition set_stake (user a : address) (us : UserStake) : X unit :=
  save (fun s => s <| k_UserStake := <[(user, a) := us]> (k_UserStake s) |>).

Definition update_reward_pool env (a : address) : X unit :=
  let! reward_pool := load (fun s => reward_pool_of env s a) in
  set_reward_pool a (accrue_rewards reward_pool (timestamp env)).

Definition calculate_pending_rewards env (user a : address) : X Z :=
  do! update_reward_pool env a;
  let! reward_pool := load (fun s => reward_pool_of env s a) in
  let! user_stake := load (fun s => stake_of s user a) in
  ret (pending_rewards reward_pool user_stake).

Definition update_user_reward_debt env (user a : address) : X unit :=
  let! reward_pool := load (fun s => reward_pool_of env s a) in
  let! user_stake := load (fun s => stake_of s user a) in
  let! rewards := calculate_pending_rewards env user a in
  set_stake user a
    (user_stake <| us_reward_per_token_paid := rp_reward_per_token_stored reward_pool |>
                <| us_rewards := rewards |>).

Definition stake_lp_tokens env (user a : address) (amount : Z) : X unit :=
  do! require_initialized;
  do! require_auth env user;
  do! reject_if (amount =? 0) InvalidAmount;
  let! user_shares := get_shares a user in
  do! reject_if (user_shares <? amount) InsufficientShares;
  do! update_reward_pool env a;
  let! stored_pool := load (fun s => k_RewardPool s !! a) in
  let! reward_pool := unwrap stored_pool in
  let! stored_stake := load (fun s => k_UserStake s !! (user, a)) in
  let user_stake := default (mkStake 0 (rp_reward_per_token_stored reward_pool) 0 0) stored_stake in
  let user_stake := user_stake
    <| us_reward_per_token_paid := rp_reward_per_token_stored reward_pool |>
    <| us_rewards := 0 |>
    <| us_amount := default 0 (checked_add64 (us_amount user_stake) amount) |>
    <| us_stake_time := if us_stake_time user_stake =? 0 then timestamp env
                        else us_stake_time user_stake |> in
  do! set_reward_pool a (reward_pool <| rp_total_staked :=
        default 0 (checked_add64 (rp_total_staked reward_pool) amount) |>);
  do! set_stake user a user_stake;
  emit (StakedEvent user a amount (timestamp env)).

(** The stake left after [amount] of it is withdrawn. *)
Definition reduce_stake (us : UserStake) (amount : Z) : UserStake :=
  let us := us <| us_amount := saturating_sub (us_amount us) amount |> in
  if us_amount us =? 0
  then us <| us_reward_per_token_paid := 0 |> <| us_stake_time := 0 |> else us.

Definition unstake_lp_tokens env (user a : address) (amount : Z) : X unit :=
  do! require_initialized;
  do! require_auth env user;
  do! reject_if (amount =? 0) InvalidAmount;
  let! stored := load (fun s => k_UserStake s !! (user, a)) in
  let! user_stake := ok_or stored InsufficientStake in
  do! reject_if (us_amount user_stake <? amount) InsufficientStake;
  do! update_user_reward_debt env user a;
  let! stored := load (fun s => k_UserStake s !! (user, a)) in
  let! user_stake := unwrap stored in
  let rewards_to_claim := us_rewards user_stake in
  let! stored_pool := load (fun s => k_RewardPool s !! a) in
  let! reward_pool := unwrap stored_pool in
  do! set_reward_pool a (reward_pool <| rp_total_staked :=
        saturating_sub (rp_total_staked reward_pool) amount |>);
  do! set_stake user a (reduce_stake user_stake amount);
  emit (UnstakedEvent user a amount rewards_to_claim (timestamp env)).

Definition claim_rewards env (user a : address) : X Z :=
  do! require_initialized;
  do! require_auth env user;
  do! update_user_reward_debt env user a;
  let! stored := load (fun s => k_UserStake s !! (user, a)) in
  let! user_stake := ok_or stored NoRewardsToClaim in
  let rewards_to_claim := us_rewards user_stake in
  do! reject_if (rewards_to_claim =? 0) NoRewardsToClaim;
  do! set_stake user a (user_stake <| us_rewards := 0 |>);
  do! emit (RewardsClaimedEvent user a rewards_to_claim (timestamp env));
  ret rewards_to_claim.

Definition get_total_staked env (a : address) : X Z :=
  load (fun s => rp_total_staked (reward_pool_of env s a)).
Definition get_reward_rate env (a : address) : X Z :=
  load (fun s => rp_reward_rate (reward_pool_of env s a)).
Definition get_staked_balance (user a : address) : X Z := load (fun s => us_amount (stake_of s user a)).
Definition get_pending_rewards env (user a : address) : X Z := calculate_pending_rewards env user a.

Definition set_reward_rate env (admin a : address) (new_rate : Z) : X unit :=
  do! require_admin env admin;
  do! reject_if (new_rate =? 0) InvalidRewardRate;
  do! update_reward_pool env a;
  let! stored_pool := load (fun s => k_RewardPool s !! a) in
  let! reward_pool := unwrap stored_pool in
  do! set_reward_pool a (reward_pool <| rp_reward_rate := new_rate |>);
  emit (RewardRateUpdatedEvent a (rp_reward_rate reward_pool) new_rate (timestamp env)).

(** * Inversion *)
Lemma update_reward_pool_Ok env a u w w' :
  update_reward_pool env a w = Ok u w' ->
  w' = w <| st := (st w) <| k_RewardPool :=
    <[a := accrue_rewards (reward_pool_of env (st w) a) (timestamp env)]> (k_RewardPool (st w)) |> |>.
Proof. unfold update_reward_pool, set_reward_pool. intros Hr. by run_inv. Qed.

Lemma reward_pool_of_lookup env s a rp : k_RewardPool s !! a = Some rp -> reward_pool_of env s a = rp.
Proof. unfold reward_pool_of. by intros ->. Qed.

(** The pool after its interest to the present is folded in. *)
Definition accrued_pool env (s : store) (a : address) : RewardPool :=
  accrue_rewards (reward_pool_of env s a) (timestamp env).

Lemma calculate_pending_rewards_Ok env user a r w w' :
  calculate_pending_rewards env user a w = Ok r w' ->
  r = pending_rewards (accrued_pool env (st w) a) (stake_of (st w) user a) /\
  w' = w <| st := (st w) <| k_RewardPool :=
    <[a := accrued_pool env (st w) a]> (k_RewardPool (st w)) |> |>.
Proof.
  unfold calculate_pending_rewards. intros Hr. run_bind Hr.
  match goal with Hu : update_reward_pool _ _ _ = _ |- _ => apply update_reward_pool_Ok in Hu as -> end.
  run_inv. cbn. split; [|done].
  by rewrite (reward_pool_of_lookup _ _ _ (accrued_pool env (st w) a)) by apply lookup_insert_eq.
Qed.

(** The stake [update_user_reward_debt] writes. *)
Definition debt_updated env (s : store) (user a : address) : UserStake :=
  (stake_of s user a)
    <| us_reward_per_token_paid := rp_reward_per_token_stored (reward_pool_of env s a) |>
    <| us_rewards := pending_rewards (accrued_pool env s a) (stake_of s user a) |>.

Lemma update_debt_Ok env user a u w w' :
  update_user_reward_debt env user a w = Ok u w' ->
  w' = w <| st := (st w)
    <| k_RewardPool := <[a := accrued_pool env (st w) a]> (k_RewardPool (st w)) |>
    <| k_UserStake := <[(user, a) := debt_updated env (st w) user a]> (k_UserStake (st w)) |> |>.
Proof.
  unfold update_user_reward_debt, set_stake. intros Hr. do 3 run_bind Hr.
  match goal with Hc : calculate_pending_rewards _ _ _ _ = _ |- _ =>
    apply calculate_pending_rewards_Ok in Hc as [-> ->] end.
  by run_inv.
Qed.
End rewards.

Ltac rewards_extra :=
  match goal with
  | H : update_reward_pool _ _ _ = Ok _ _ |- _ => apply update_reward_pool_Ok in H
  | H : update_user_reward_debt _ _ _ _ = Ok _ _ |- _ => apply update_debt_Ok in H
  | H : calculate_pending_rewards _ _ _ _ = Ok _ _ |- _ => apply calculate_pending_rewards_Ok in H
  | H : set_stake _ _ _ _ = Ok _ _ |- _ => unfold set_stake in H
  | H : set_reward_pool _ _ _ = Ok _ _ |- _ => unfold set_reward_pool in H
  | _ => lending_extra
  end.
#[local] Ltac run_extra ::= rewards_extra.

Section inversions.
Context {T : Type} `{TokenOps T}.
Implicit Types (env : Env) (w : world T).

(** The stake [stake_lp_tokens] writes over [us], at the accumulator [rpt]. *)
Definition stake_added (us : UserStake) (amount rpt now : Z) : UserStake :=
  mkStake (default 0 (checked_add64 (us_amount us) amount)) rpt 0
    (if us_stake_time us =? 0 then now else us_stake_time us).

Lemma stake_Ok env user a amount u w w' :
  stake_lp_tokens env user a amount w = Ok u w' ->
  let rp := accrued_pool env (st w) a in
  user ∈ auths env /\ amount <> 0 /\ amount <= shares_of (st w) a user /\
  w' = w <| st := (st w)
    <| k_RewardPool := <[a := rp <| rp_total_staked :=
         default 0 (checked_add64 (rp_total_staked rp) amount) |>]> (k_RewardPool (st w)) |>
    <| k_UserStake := <[(user, a) := stake_added (stake_of (st w) user a) amount
         (rp_reward_per_token_stored rp) (timestamp env)]> (k_UserStake (st w)) |> |>
    <| evs := evs w ++ [StakedEvent user a amount (timestamp env)] |>.
Proof.
  unfold stake_lp_tokens, get_shares. intros Hr. run_inv. cbn in *. bool_hyps.
  rewrite lookup_insert_eq in *. simplify_eq. split_and!; [done..|].
  unfold stake_added, stake_of. rewrite insert_insert_eq.
  by destruct (k_UserStake (st w) !! (user, a)).
Qed.

Lemma unstake_Ok env user a amount u w w' :
  unstake_lp_tokens env user a amount w = Ok u w' ->
  let rp := accrued_pool env (st w) a in
  let us := debt_updated env (st w) user a in
  user ∈ auths env /\ amount <> 0 /\ is_Some (k_UserStake (st w) !! (user, a)) /\
  amount <= us_amount (stake_of (st w) user a) /\
  w' = w <| st := (st w)
    <| k_RewardPool := <[a := rp <| rp_total_staked :=
         saturating_sub (rp_total_staked rp) amount |>]> (k_RewardPool (st w)) |>
    <| k_UserStake := <[(user, a) := reduce_stake us amount]> (k_UserStake (st w)) |> |>
    <| evs := evs w ++ [UnstakedEvent user a amount (us_rewards us) (timestamp env)] |>.
Proof.
  unfold unstake_lp_tokens. intros Hr. run_inv. cbn in *. bool_hyps.
  rewrite !lookup_insert_eq in *. simplify_eq. rewrite !insert_insert_eq.
  split_and!; [done..|by eauto| |done].
  unfold stake_of. by match goal with Hs : k_UserStake _ !! _ = Some _ |- _ => rewrite Hs end.
Qed.

Lemma claim_rewards_Ok env user a r w w' :
  claim_rewards env user a w = Ok r w' ->
  let us := debt_updated env (st w) user a in
  is_Some (k_Admin (st w)) /\ user ∈ auths env /\ r = us_rewards us /\ r <> 0 /\
  w' = w <| st := (st w)
    <| k_RewardPool := <[a := accrued_pool env (st w) a]> (k_RewardPool (st w)) |>
    <| k_UserStake := <[(user, a) := us <| us_rewards := 0 |>]> (k_UserStake (st w)) |> |>
    <| evs := evs w ++ [RewardsClaimedEvent user a r (timestamp env)] |>.
Proof.
  unfold claim_rewards. intros Hr. run_inv. cbn in *. bool_hyps.
  rewrite !lookup_insert_eq in *. simplify_eq. by rewrite !insert_insert_eq.
Qed.

Lemma set_reward_rate_Ok env adm a rate u w w' :
  set_reward_rate env adm a rate w = Ok u w' ->
  let rp := accrued_pool env (st w) a in
  adm ∈ auths env /\ Admin ∈ roles_of (acl w) adm /\ rate <> 0 /\
  w' = w <| st := (st w) <| k_RewardPool := <[a := rp <| rp_reward_rate := rate |>]> (k_RewardPool (st w)) |> |>
    <| evs := evs w ++ [RewardRateUpdatedEvent a (rp_reward_rate rp) rate (timestamp env)] |>.
Proof.
  unfold set_reward_rate. intros Hr. run_inv. cbn in *. bool_hyps.
  rewrite !lookup_insert_eq in *. simplify_eq. by rewrite !insert_insert_eq.
Qed.

(** * The stake ledger *)

(** What the pool of [a] records as staked, and what its stakers hold. *)
Definition recorded_total (s : store) (a : address) : Z :=
  from_option rp_total_staked 0 (k_RewardPool s !! a).
Definition staked_in (a : address) (k : address * address) (us : UserStake) : Z :=
  if decide (snd k = a) then us_amount us else 0.
Definition staked_total (s : store) (a : address) : Z := msum (staked_in a) (k_UserStake s).

Definition stakes_balanced (s : store) : Prop :=
  (forall k us, k_UserStake s !! k = Some us -> 0 <= us_amount us) /\
  forall a, recorded_total s a = staked_total s a /\ staked_total s a <= u64_max.

Lemma accrue_total rp now : rp_total_staked (accrue_rewards rp now) = rp_total_staked rp.
Proof. unfold accrue_rewards. by destruct (_ && _). Qed.
Lemma accrued_total env s a : rp_total_staked (accrued_pool env s a) = recorded_total s a.
Proof.
  unfold accrued_pool. rewrite accrue_total. unfold reward_pool_of, recorded_total.
  by destruct (k_RewardPool s !! a).
Qed.

Lemma staked_total_insert s s' a user us b :
  k_UserStake s' = <[(user, a) := us]> (k_UserStake s) ->
  staked_total s' b = staked_total s b +
    (if decide (a = b) then us_amount us - us_amount (stake_of s user a) else 0).
Proof.
  intros Hs. unfold staked_total. rewrite Hs, msum_insert. unfold stake_of, staked_in. simpl.
  destruct (k_UserStake s !! (user, a)); simpl; case_decide; simpl; lia.
Qed.

Lemma stake_of_nonneg s user a : stakes_balanced s -> 0 <= us_amount (stake_of s user a).
Proof.
  intros [Hn _]. unfold stake_of. destruct (k_UserStake s !! (user, a)) eqn:Hu; simpl; [|lia].
  by eapply Hn.
Qed.

Lemma stake_of_le_total s user a : stakes_balanced s -> us_amount (stake_of s user a) <= staked_total s a.
Proof.
  intros [Hn _]. unfold staked_total.
  assert (forall k us, k_UserStake s !! k = Some us -> 0 <= staked_in a k us) as Hp.
  { intros k us Hk. unfold staked_in. case_decide; [by eapply Hn|lia]. }
  unfold stake_of. destruct (k_UserStake s !! (user, a)) as [us|] eqn:Hu; simpl.
  - pose proof (msum_lookup_le (staked_in a) _ _ us Hp Hu) as Hle.
    unfold staked_in in Hle at 1. simpl in Hle. by rewrite decide_True in Hle.
  - by apply msum_nonneg.
Qed.

Lemma balanced_pool s s' a rp :
  k_UserStake s' = k_UserStake s -> k_RewardPool s' = <[a := rp]> (k_RewardPool s) ->
  rp_total_staked rp = recorded_total s a ->
  stakes_balanced s -> stakes_balanced s'.
Proof.
  intros Hu Hp Ht [Hn Hb]. split; [by rewrite Hu|].
  intros b. destruct (Hb b) as [Hr Hm]. unfold recorded_total, staked_total in *.
  rewrite Hp, Hu. split; [|done]. destruct (decide (a = b)) as [<-|].
  - rewrite lookup_insert_eq. simpl. congruence.
  - by rewrite lookup_insert_ne.
Qed.

Lemma balanced_update s s' a user rp us :
  k_UserStake s' = <[(user, a) := us]> (k_UserStake s) ->
  k_RewardPool s' = <[a := rp]> (k_RewardPool s) ->
  rp_total_staked rp - recorded_total s a = us_amount us - us_amount (stake_of s user a) ->
  0 <= us_amount us -> rp_total_staked rp <= u64_max ->
  stakes_balanced s -> stakes_balanced s'.
Proof.
  intros Hu Hp Ht H0 Hmax [Hn Hb]. split.
  - intros k u. rewrite Hu. intros [[_ <-]|[_ Hk]]%lookup_insert_Some; [done|by eapply Hn].
  - intros b. destruct (Hb b) as [Hr Hm]. rewrite (staked_total_insert s s' a user us b Hu).
    unfold recorded_total at 1. rewrite Hp. destruct (decide (a = b)) as [<-|].
    + rewrite lookup_insert_eq. simpl. lia.
    + rewrite lookup_insert_ne by done. change (from_option _ _ _) with (recorded_total s b). lia.
Qed.

(** The staking entry points; a stake whose total would leave the machine
    width is not a step. *)
Inductive staking_step : world T -> world T -> Prop :=
  | staking_stake env user a amount w w' :
      u64 amount -> staked_total (st w) a + amount <= u64_max ->
      stake_lp_tokens env user a amount w = Ok tt w' -> staking_step w w'
  | staking_unstake env user a amount w w' :
      u64 amount -> unstake_lp_tokens env user a amount w = Ok tt w' -> staking_step w w'
  | staking_claim env user a r w w' :
      claim_rewards env user a w = Ok r w' -> staking_step w w'
  | staking_pending env user a r w w' :
      get_pending_rewards env user a w = Ok r w' -> staking_step w w'
  | staking_rate env adm a rate w w' :
      set_reward_rate env adm a rate w = Ok tt w' -> staking_step w w'.

Lemma reduce_stake_amount us amount :
  us_amount (reduce_stake us amount) = saturating_sub (us_amount us) amount.
Proof. unfold reduce_stake. by destruct (_ =? _). Qed.

Lemma staking_step_balanced w w' :
  staking_step w w' -> stakes_balanced (st w) -> stakes_balanced (st w').
Proof.
  intros Hs Hb. destruct Hs as [env user a amount w w' Ha Hmax Hr|env user a amount w w' Ha Hr
    |env user a r w w' Hr|env user a r w w' Hr|env adm a rate w w' Hr].
  - apply stake_Ok in Hr as (_ & _ & _ & ->).
    pose proof (stake_of_nonneg _ user a Hb). pose proof (stake_of_le_total _ user a Hb).
    destruct (proj2 Hb a) as [Hrec _].
    eapply (balanced_update (st w)); [reflexivity..| | | |done]; cbn -[accrued_pool stake_of];
      rewrite ?accrued_total; unfold checked_add64; rewrite !checked_in by ulia; simpl; ulia.
  - apply unstake_Ok in Hr as (_ & _ & _ & Hle & ->).
    pose proof (stake_of_le_total _ user a Hb). destruct (proj2 Hb a) as [Hrec Hmax].
    eapply (balanced_update (st w)); [reflexivity..| | | |done]; cbn -[accrued_pool stake_of];
      rewrite ?accrued_total, ?reduce_stake_amount; cbn; ulia.
  - apply claim_rewards_Ok in Hr as (_ & _ & _ & _ & ->). destruct (proj2 Hb a) as [Hrec Hmax].
    eapply (balanced_update (st w)); [reflexivity..| | | |done]; cbn -[accrued_pool stake_of]; rewrite ?accrued_total;
      [lia|by apply stake_of_nonneg|lia].
  - apply calculate_pending_rewards_Ok in Hr as [_ ->].
    eapply (balanced_pool (st w)); [reflexivity..| |done]. apply accrued_total.
  - apply set_reward_rate_Ok in Hr as (_ & _ & _ & ->).
    eapply (balanced_pool (st w)); [reflexivity..| |done]. apply accrued_total.
Qed.

Lemma empty_stakes_balanced s : k_RewardPool s = ∅ -> k_UserStake s = ∅ -> stakes_balanced s.
Proof.
  intros Hp Hu. split; [by rewrite Hu|]. intros a. unfold recorded_total, staked_total.
  rewrite Hp, Hu, msum_empty. done.
Qed.

(** An unstake within the recorded stake goes through. *)
Lemma unstake_runs env user a amount us w :
  is_Some (k_Admin (st w)) -> user ∈ auths env -> amount <> 0 ->
  k_UserStake (st w) !! (user, a) = Some us -> amount <= us_amount us ->
  exists w', unstake_lp_tokens env user a amount w = Ok tt w'.
Proof.
  intros [adm Hadm] Hau Ha Hus Hle. eexists. unfold unstake_lp_tokens, require_initialized,
    update_user_reward_debt, calculate_pending_rewards, update_reward_pool, set_reward_pool,
    set_stake, load, save, emit, require_auth, gets, modify, ok_or, unwrap, reject_if, panic_if,
    bind, ret.
  cbn. rewrite Hadm, (bool_decide_true (user ∈ auths env)) by done. cbn.
  apply Z.eqb_neq in Ha as ->. rewrite Hus. apply Z.ltb_ge in Hle as ->. cbn.
  rewrite !lookup_insert_eq. cbn. rewrite lookup_insert_eq. cbn. reflexivity.
Qed.

Lemma claim_runs env user a w :
  is_Some (k_Admin (st w)) -> user ∈ auths env ->
  us_rewards (debt_updated env (st w) user a) <> 0 ->
  exists w', claim_rewards env user a w = Ok (us_rewards (debt_updated env (st w) user a)) w'.
Proof.
  intros [adm Hadm] Hau Hne. eexists. unfold claim_rewards, require_initialized,
    update_user_reward_debt, calculate_pending_rewards, update_reward_pool, set_reward_pool,
    set_stake, load, save, emit, require_auth, gets, modify, ok_or, reject_if, panic_if,
    bind, ret.
  cbn. rewrite Hadm, (bool_decide_true (user ∈ auths env)) by done. cbn.
  rewrite !lookup_insert_eq. cbn. apply Z.eqb_neq in Hne.
  rewrite (reward_pool_of_lookup _ _ a (accrued_pool env (st w) a)) by apply lookup_insert_eq.
  cbn in Hne. unfold stake_of. cbn. fold (stake_of (st w) user a). rewrite Hne. reflexivity.
Qed.

Lemma accrue_again rp now : accrue_rewards (accrue_rewards rp now) now = accrue_rewards rp now.
Proof.
  unfold accrue_rewards at 1.
  replace (rp_last_update_time (accrue_rewards rp now)) with now by (unfold accrue_rewards; by destruct (_ && _)).
  replace (saturating_sub now now) with 0 by ulia. rewrite andb_false_r.
  unfold accrue_rewards. by destruct (_ && _).
Qed.

(** * Properties *)

(** C39: Along every sequence of staking calls from an empty stake ledger in which no
    stake takes an asset's total above 64 bits (where the code would reset the total), the
    staked total of an asset is the sum of its stakers' stakes, and whoever has staked an
    amount can withdraw it at any time: the call goes through and lowers stake and total
    by exactly that amount. *)
Theorem stake_ledger_sound w0 w :
  k_RewardPool (st w0) = ∅ -> k_UserStake (st w0) = ∅ -> rtc staking_step w0 w ->
  stakes_balanced (st w) /\
  forall env user a amount, is_Some (k_Admin (st w)) -> user ∈ auths env ->
    0 < amount <= us_amount (stake_of (st w) user a) ->
    exists w', unstake_lp_tokens env user a amount w = Ok tt w' /\
      us_amount (stake_of (st w') user a) = us_amount (stake_of (st w) user a) - amount /\
      recorded_total (st w') a = recorded_total (st w) a - amount.
Proof.
  intros Hp Hu Hr.
  assert (stakes_balanced (st w)) as Hb.
  { pose proof (empty_stakes_balanced _ Hp Hu) as Hb. clear Hp Hu.
    induction Hr as [|w0 w1 w Hs _ IH]; [done|]. by eapply IH, staking_step_balanced. }
  split; [done|]. intros env user a amount Hadm Hau Hle.
  destruct (k_UserStake (st w) !! (user, a)) as [us|] eqn:Hus.
  2:{ unfold stake_of in Hle. rewrite Hus in Hle. simpl in Hle. lia. }
  assert (us_amount (stake_of (st w) user a) = us_amount us) as He by (unfold stake_of; by rewrite Hus).
  destruct (unstake_runs env user a amount us w) as [w' Hr']; [done..|lia|done|lia|].
  exists w'. split; [done|]. apply unstake_Ok in Hr' as (_ & _ & _ & _ & ->).
  pose proof (stake_of_le_total _ user a Hb). destruct (proj2 Hb a) as [Hrec _].
  unfold stake_of at 1, recorded_total at 1. cbn -[accrued_pool stake_of].
  rewrite !lookup_insert_eq. cbn -[accrued_pool stake_of].
  rewrite reduce_stake_amount, accrued_total. cbn -[stake_of]. ulia.
Qed.

(** What a claim leaves for the next one. *)
Lemma claim_leaves env env' user a r w w' :
  claim_rewards env user a w = Ok r w' ->
  reward_pool_of env' (st w') a = accrued_pool env (st w) a /\
  stake_of (st w') user a = (debt_updated env (st w) user a) <| us_rewards := 0 |>.
Proof.
  intros Hr. apply claim_rewards_Ok in Hr as (_ & _ & _ & _ & ->).
  unfold reward_pool_of at 1, stake_of at 1. cbn -[accrued_pool stake_of debt_updated].
  by rewrite !lookup_insert_eq.
Qed.

Lemma claim_leaves_accrued env user a r w w' :
  claim_rewards env user a w = Ok r w' -> accrued_pool env (st w') a = accrued_pool env (st w) a.
Proof.
  intros Hr. unfold accrued_pool at 1. rewrite (proj1 (claim_leaves env env user a r w w' Hr)).
  apply accrue_again.
Qed.

Lemma pending_linear rp us diff :
  us_rewards us = 0 -> 0 <= us_amount us -> 0 <= diff ->
  rp_reward_per_token_stored rp = us_reward_per_token_paid us + diff ->
  diff * us_amount us <= u64_max -> 
  pending_rewards rp us = diff * us_amount us / REWARD_PRECISION.
Proof.
  intros Hr Ha Hd Hrp Hm. unfold pending_rewards. rewrite Hr.
  destruct (Z.eqb_spec (us_amount us) 0) as [->|]; [by rewrite Z.mul_0_r|].
  rewrite Hrp. unfold saturating_sub.
  replace (Z.max 0 (us_reward_per_token_paid us + diff - us_reward_per_token_paid us)) with diff by lia.
  assert (0 <= diff * us_amount us) by (by apply Z.mul_nonneg_nonneg).
  unfold checked_mul64, checked_add64. rewrite (checked_in _ (diff * _)) by lia. simpl.
  assert (0 <= diff * us_amount us / REWARD_PRECISION <= diff * us_amount us).
  { unfold REWARD_PRECISION. split; [apply Z.div_pos; nia|]. apply div_le_mul; nia. }
  unfold checked_div. simpl. rewrite checked_in by (unfold REWARD_PRECISION in *; lia). done.
Qed.

Lemma accrue_stored rp now :
  0 < rp_total_staked rp -> 0 <= rp_reward_rate rp -> 0 <= rp_reward_per_token_stored rp ->
  let earned := saturating_sub now (rp_last_update_time rp) * rp_reward_rate rp in
  rp_reward_per_token_stored rp + earned <= u64_max ->
  rp_reward_per_token_stored (accrue_rewards rp now) = rp_reward_per_token_stored rp + earned.
Proof.
  intros Ht Hr Hs earned Hm. unfold accrue_rewards. apply Z.ltb_lt in Ht as ->. simpl.
  destruct (Z.ltb_spec 0 (saturating_sub now (rp_last_update_time rp))) as [He|He]; cbn.
  - assert (0 <= earned) by (apply Z.mul_nonneg_nonneg; lia).
    unfold checked_mul64, checked_add64.
    rewrite (checked_in _ (_ * _)) by (fold earned; lia). cbn. fold earned.
    rewrite checked_in by lia. done.
  - replace earned with 0; [lia|]. unfold earned. assert (saturating_sub now (rp_last_update_time rp) = 0) as -> by ulia. lia.
Qed.

(** A claim pays the stake times the growth of the accumulator, but it keeps the
    accumulator's old value as the watermark: an immediate second claim pays the same
    interval again, and only the third is refused. *)
Theorem claim_pays_interval_twice env user a r w w1 :
  let rp := reward_pool_of env (st w) a in
  let us := stake_of (st w) user a in
  let earned := saturating_sub (timestamp env) (rp_last_update_time rp) * rp_reward_rate rp in
  us_rewards us = 0 -> us_reward_per_token_paid us = rp_reward_per_token_stored rp ->
  0 <= us_amount us -> 0 <= rp_reward_rate rp -> 0 <= rp_reward_per_token_stored rp ->
  0 < rp_total_staked rp ->
  rp_reward_per_token_stored rp + earned <= u64_max -> earned * us_amount us <= u64_max ->
  claim_rewards env user a w = Ok r w1 ->
  r = earned * us_amount us / REWARD_PRECISION /\
  exists w2, claim_rewards env user a w1 = Ok r w2 /\
    forall r' w3, claim_rewards env user a w2 <> Ok r' w3.
Proof.
  intros rp us earned H0 Hp Ha Hr Hs Ht Hm1 Hm2 Hc.
  assert (0 <= earned) by (unfold earned; apply Z.mul_nonneg_nonneg; [ulia|done]).
  pose proof (accrue_stored rp (timestamp env) Ht Hr Hs Hm1) as Hst. fold earned in Hst.
  change (accrue_rewards rp (timestamp env)) with (accrued_pool env (st w) a) in Hst.
  pose proof (claim_leaves env env user a r w w1 Hc) as [Hrp1 Hus1].
  pose proof (claim_leaves_accrued _ _ _ _ _ _ Hc) as Hap1.
  apply claim_rewards_Ok in Hc as (Hadm & Hau & Hreq & Hne & Hw1).
  assert (r = earned * us_amount us / REWARD_PRECISION) as Hrv.
  { rewrite Hreq. cbn -[accrued_pool stake_of]. fold us. apply pending_linear; [done..|congruence|done]. }
  split; [done|].
  (* the second claim sees the same accumulator and the old watermark *)
  assert (us_rewards (debt_updated env (st w1) user a) = r) as Hr2.
  { rewrite Hrv. cbn -[accrued_pool stake_of]. rewrite Hap1, Hus1.
    by rewrite (pending_linear _ _ earned). }
  destruct (claim_runs env user a w1) as [w2 Hc2]; [by rewrite Hw1|done|by rewrite Hr2|].
  rewrite Hr2 in Hc2. exists w2. split; [done|]. intros r' w3 Hc3.
  pose proof (claim_leaves env env user a r w1 w2 Hc2) as [Hrp2 Hus2].
  pose proof (claim_leaves_accrued _ _ _ _ _ _ Hc2) as Hap2.
  apply claim_rewards_Ok in Hc3 as (_ & _ & Hreq3 & Hne3 & _). apply Hne3. rewrite Hreq3.
  cbn -[accrued_pool stake_of]. rewrite Hap2, Hus2, Hap1.
  rewrite (pending_linear _ _ 0); try done; cbn -[accrued_pool stake_of].
  - by rewrite Hus1.
  - rewrite Hrp1. lia.
Qed.
End inversions.

(** * Witnesses *)
Section witnesses.
Import LendingExample.

(** Alice stakes 10000 of her shares. *)
Definition staked : world MockToken.network :=
  after (stake_lp_tokens (env_at 100 6) alice usd 10000) dep1.

Lemma stake_ledger_sound_witness :
  stakes_balanced (st staked) /\
  exists w', unstake_lp_tokens (env_at 200 9) alice usd 4000 staked = Ok tt w'.
Proof.
  destruct (stake_ledger_sound dep1 staked) as [Hb Hu].
  - vm_compute. reflexivity.
  - vm_compute. reflexivity.
  - apply rtc_once. apply (staking_stake (env_at 100 6) alice usd 10000).
    + vm_compute. split; congruence.
    + vm_compute. congruence.
    + vm_compute. reflexivity.
  - split; [exact Hb|]. destruct (Hu (env_at 200 9) alice usd 4000) as (w' & Hw & _).
    + vm_compute. eauto.
    + apply (bool_decide_unpack _). vm_compute. exact I.
    + vm_compute. split; congruence.
    + exists w'. exact Hw.
Defined.

Lemma claim_pays_interval_twice_witness :
  exists w2, claim_rewards (env_at 200 9) alice usd
    (after (claim_rewards (env_at 200 9) alice usd) staked) = Ok 1000000 w2.
Proof.
  destruct (claim_pays_interval_twice (env_at 200 9) alice usd 1000000 staked
    (after (claim_rewards (env_at 200 9) alice usd) staked)) as [_ (w2 & Hw & _)].
  all: try (vm_compute; reflexivity); try (vm_compute; congruence).
  exists w2. exact Hw.
Defined.
End witnesses.

End LendingRewards.
