(* ===== verification/LendingInsurance.v ===== *)
(** Loan insurance of the lending contract
    ([contracts/lending-contract/src/lib.rs]): premiums, policies, claims,
    cancellation with a pro-rata refund, and the insurance fund. *)
From S2P Require Import Prelude Host AccessControl Token MockToken.
From S2P Require Import LendingTypes LendingMath LendingCore LendingExample LendingPool.
From S2P Require Import LendingLoans.
Import AccessControl LendingTypes LendingMath LendingCore LendingPool.

Module LendingInsurance.

Definition empty_fund : InsuranceFund := mkFund 0 0 0.

(** [amount * rate / 10000] in [u128], cast to [u64]. *)
Definition premium_for (amount rate_bps : Z) : option Z :=
  option_map as_u64 (checked_mul128 amount rate_bps ≫= fun v => checked_div v 10000).

(** The part of the premium that [cancel_insurance] gives back at [now]. *)
Definition refund_for (ins : LoanInsurance) (now : Z) : Z :=
  if now <? ins_expires_at ins then
    let total_duration := saturating_sub (ins_expires_at ins) (ins_purchase_time ins) in
    let elapsed := saturating_sub now (ins_purchase_time ins) in
    let remaining := saturating_sub total_duration elapsed in
    if 0 <? total_duration then
      as_u64 (default 0 (checked_mul128 (ins_premium_paid ins) remaining
                         ≫= fun v => checked_div v total_duration))
    else 0
  else 0.

(** A policy that covers its loan at [now]. *)
Definition in_force (ins : LoanInsurance) (now : Z) : bool :=
  negb (ins_claimed ins) && (now <? ins_expires_at ins).

Section insurance.
Context {T : Type} `{TokenOps T}.
Abbreviation X A := (M (world T) LendingError A).
Implicit Types (env : Env) (w : world T).

(** * Operations *)

Definition init_insurance_fund_if_needed : X unit :=
  do! save (fun s => match k_InsuranceFund s with
                     | None => s <| k_InsuranceFund := Some empty_fund |>
                     | Some _ => s end);
  save (fun s => match k_InsurancePremiumRate s with
                 | None => s <| k_InsurancePremiumRate := Some DEFAULT_INSURANCE_PREMIUM_RATE_BPS |>
                 | Some _ => s end).

Definition premium_rate : X Z :=
  load (fun s => default DEFAULT_INSURANCE_PREMIUM_RATE_BPS (k_InsurancePremiumRate s)).
Definition load_fund : X InsuranceFund := load (fun s => default empty_fund (k_InsuranceFund s)).
Definition set_fund (f : InsuranceFund) : X unit :=
  save (fun s => s <| k_InsuranceFund := Some f |>).
Definition set_insurance (id : Z) (i : LoanInsurance) : X unit :=
  save (fun s => s <| k_Insurance := <[id := i]> (k_Insurance s) |>).
Definition underlying_token : X address := let! t := load k_Token in unwrap t.

Definition get_insurance_premium (loan_amount : Z) : X Z :=
  do! init_insurance_fund_if_needed;
  let! rate := premium_rate in
  ok_or (premium_for loan_amount rate) InvalidAmount.

Definition set_insurance_premium_rate env (admin : address) (rate_bps : Z) : X unit :=
  do! require_admin env admin;
  do! reject_if (10000 <? rate_bps) InvalidAmount;
  do! init_insurance_fund_if_needed;
  save (fun s => s <| k_InsurancePremiumRate := Some rate_bps |>).

Definition purchase_loan_insurance env (who : address) (id : Z) : X Z :=
  do! require_auth env who;
  do! init_insurance_fund_if_needed;
  let! l := load (fun s => k_LoanById s !! id) in
  let! loan := ok_or l LoanNotFound in
  do! reject_if (negb (bool_decide (borrower loan = who))) Unauthorized;
  let! existing := load (fun s => k_Insurance s !! id) in
  do! reject_if (bool_decide (is_Some existing)) InsuranceAlreadyPurchased;
  let! rate := premium_rate in
  let! premium := ok_or (premium_for (principal loan) rate) InvalidAmount in
  do! reject_if (premium =? 0) InvalidInsuranceAmount;
  let! token := underlying_token in
  do! transfer env token who (current_contract env) premium;
  let coverage_amount := principal loan in
  let! expires_at := LendingCore.grace_period_end loan in
  do! set_insurance id (mkInsurance id who coverage_amount premium rate (timestamp env)
                          expires_at false);
  let! fund := load_fund in
  do! set_fund (fund
        <| if_total_premiums_collected := saturating_add64 (if_total_premiums_collected fund) premium |>
        <| if_available_balance := saturating_add64 (if_available_balance fund) premium |>);
  do! emit (InsurancePurchasedEvent id who coverage_amount premium rate expires_at (timestamp env));
  ret premium.

Definition is_loan_insured env (id : Z) : X bool :=
  let! i := load (fun s => k_Insurance s !! id) in
  match i with
  | Some ins => ret (in_force ins (timestamp env))
  | None => ret false
  end.

Definition get_insurance_coverage env (id : Z) : X Z :=
  let! i := load (fun s => k_Insurance s !! id) in
  match i with
  | Some ins => ret (if in_force ins (timestamp env) then ins_coverage_amount ins else 0)
  | None => ret 0
  end.

Definition get_insurance_details (id : Z) : X (option LoanInsurance) :=
  load (fun s => k_Insurance s !! id).

Definition claim_insurance env (id : Z) : X Z :=
  let! i := load (fun s => k_Insurance s !! id) in
  let! insurance := ok_or i InsuranceNotFound in
  do! reject_if (ins_claimed insurance) InsuranceAlreadyClaimed;
  let! l := load (fun s => k_LoanById s !! id) in
  let! loan := ok_or l LoanNotFound in
  let! grace_end := LendingCore.grace_period_end loan in
  do! reject_if (timestamp env <=? grace_end) InvalidAmount;
  let! f := load k_InsuranceFund in
  let! fund := ok_or f InsuranceNotFound in
  let claim_amount := ins_coverage_amount insurance in
  do! reject_if (if_available_balance fund <? claim_amount) InsufficientInsuranceFund;
  do! set_insurance id (insurance <| ins_claimed := true |>);
  do! set_fund (fund
        <| if_total_claims_paid := saturating_add64 (if_total_claims_paid fund) claim_amount |>
        <| if_available_balance := saturating_sub (if_available_balance fund) claim_amount |>);
  do! emit (InsuranceClaimedEvent id (ins_borrower insurance) claim_amount
              (ins_coverage_amount insurance) (timestamp env));
  ret claim_amount.

(** The payment part of a cancellation. *)
Definition pay_refund env (who : address) (refund_amount : Z) : X unit :=
  let! fund := load_fund in
  do! set_fund (fund <| if_available_balance :=
                          saturating_sub (if_available_balance fund) refund_amount |>);
  let! token := underlying_token in
  client_transfer env token (current_contract env) who refund_amount.

Definition cancel_insurance env (who : address) (id : Z) : X Z :=
  do! require_auth env who;
  let! i := load (fun s => k_Insurance s !! id) in
  let! insurance := ok_or i InsuranceNotFound in
  do! reject_if (negb (bool_decide (ins_borrower insurance = who))) Unauthorized;
  do! reject_if (ins_claimed insurance) InsuranceAlreadyClaimed;
  let refund_amount := refund_for insurance (timestamp env) in
  do! save (fun s => s <| k_Insurance := delete id (k_Insurance s) |>);
  do! when (0 <? refund_amount) (pay_refund env who refund_amount);
  do! emit (InsuranceCancelledEvent id who refund_amount (timestamp env));
  ret refund_amount.

Definition get_insurance_fund_state : X InsuranceFund :=
  do! init_insurance_fund_if_needed;
  load_fund.

Definition deposit_to_insurance_fund env (admin : address) (amount : Z) : X unit :=
  do! require_admin env admin;
  do! reject_if (amount =? 0) InvalidAmount;
  do! init_insurance_fund_if_needed;
  let! token := underlying_token in
  do! transfer env token admin (current_contract env) amount;
  let! fund := load_fund in
  set_fund (fund <| if_available_balance := saturating_add64 (if_available_balance fund) amount |>).

Definition withdraw_from_insurance_fund env (admin : address) (amount : Z) : X unit :=
  do! require_admin env admin;
  do! reject_if (amount =? 0) InvalidAmount;
  do! init_insurance_fund_if_needed;
  let! f := load k_InsuranceFund in
  let! fund := ok_or f InsuranceNotFound in
  do! reject_if (if_available_balance fund <? amount) InsufficientLiquidity;
  do! set_fund (fund <| if_available_balance := saturating_sub (if_available_balance fund) amount |>);
  let! token := underlying_token in
  client_transfer env token (current_contract env) admin amount.

(** * Inversion *)
Definition fund_initialised (s : store) : store :=
  s <| k_InsuranceFund := Some (default empty_fund (k_InsuranceFund s)) |>
    <| k_InsurancePremiumRate :=
         Some (default DEFAULT_INSURANCE_PREMIUM_RATE_BPS (k_InsurancePremiumRate s)) |>.

Lemma init_fund_Ok u w w' :
  init_insurance_fund_if_needed w = Ok u w' -> w' = w <| st := fund_initialised (st w) |>.
Proof.
  unfold init_insurance_fund_if_needed, fund_initialised. intros Hr. run_inv. destruct w as [s ? ? ? ?].
  destruct s as [? ? ? ? ? ? ? ? ? ? ? ? ? ? ? ? ? [?|] [?|] ? ? ? ? ? ? ? ? ? ?]; reflexivity.
Qed.

Lemma grace_end_Ok l e w w' :
  LendingCore.grace_period_end l w = Ok e w' ->
  exists p, k_PoolState (st w) !! asset l = Some p /\ e = due_date l + grace_period_seconds p /\ w' = w.
Proof. intros Hr. apply LendingCore.grace_period_end_Ok in Hr as (p & ? & ? & _ & ?). eauto. Qed.

Lemma pay_refund_Ok env who r u w w' :
  pay_refund env who r w = Ok u w' ->
  exists tok t', k_Token (st w) = Some tok /\
    tk_transfer (toks w) (auths (sub_env env tok)) tok (current_contract env) who r = Some t' /\
    w' = w <| st := (st w) <| k_InsuranceFund :=
           Some ((default empty_fund (k_InsuranceFund (st w))) <| if_available_balance :=
             saturating_sub (if_available_balance (default empty_fund (k_InsuranceFund (st w)))) r |>) |> |>
         <| toks := t' |>.
Proof.
  unfold pay_refund, load_fund, set_fund, underlying_token. intros Hr. run_inv. eauto.
Qed.
End insurance.

Ltac insurance_extra :=
  match goal with
  | H : init_insurance_fund_if_needed _ = Ok _ _ |- _ => apply init_fund_Ok in H
  | H : LendingCore.grace_period_end _ _ = Ok _ _ |- _ => apply grace_end_Ok in H
  | H : load_fund _ = Ok _ _ |- _ => unfold load_fund in H
  | H : premium_rate _ = Ok _ _ |- _ => unfold premium_rate in H
  | H : set_fund _ _ = Ok _ _ |- _ => unfold set_fund in H
  | H : set_insurance _ _ _ = Ok _ _ |- _ => unfold set_insurance in H
  | H : underlying_token _ = Ok _ _ |- _ => unfold underlying_token in H
  | _ => lending_extra
  end.
#[local] Ltac run_extra ::= insurance_extra.

Section inversions.
Context {T : Type} `{TokenOps T}.
Implicit Types (env : Env) (w : world T).

(** The fund as the functions read it. *)
Definition fund_of (s : store) : InsuranceFund := default empty_fund (k_InsuranceFund s).
Definition available (s : store) : Z := if_available_balance (fund_of s).

Lemma purchase_Ok env who id premium w w' :
  purchase_loan_insurance env who id w = Ok premium w' ->
  exists l p rate tok t', k_LoanById (st w) !! id = Some l /\ borrower l = who /\
    k_Insurance (st w) !! id = None /\ k_Token (st w) = Some tok /\ who ∈ auths env /\
    k_PoolState (st w) !! asset l = Some p /\
    premium_for (principal l) rate = Some premium /\ premium <> 0 /\
    tk_transfer (toks w) (auths (sub_env env tok)) tok who (current_contract env) premium = Some t' /\
    toks w' = t' /\
    st w' = (fund_initialised (st w))
      <| k_Insurance := <[id := mkInsurance id who (principal l) premium rate (timestamp env)
                                  (due_date l + grace_period_seconds p) false]> (k_Insurance (st w)) |>
      <| k_InsuranceFund := Some ((fund_of (st w))
           <| if_total_premiums_collected :=
                saturating_add64 (if_total_premiums_collected (fund_of (st w))) premium |>
           <| if_available_balance := saturating_add64 (available (st w)) premium |>) |>.
Proof.
  unfold purchase_loan_insurance. intros Hr. run_inv. cbn in *. bool_hyps.
  do 5 eexists. split_and!; try done.
  match goal with Hn : ~ is_Some _ |- _ => by apply eq_None_not_Some in Hn end.
Qed.

Lemma claim_insurance_Ok env id r w w' :
  claim_insurance env id w = Ok r w' ->
  exists ins l p, k_Insurance (st w) !! id = Some ins /\ ins_claimed ins = false /\
    k_LoanById (st w) !! id = Some l /\ k_PoolState (st w) !! asset l = Some p /\
    due_date l + grace_period_seconds p < timestamp env /\
    r = ins_coverage_amount ins /\ r <= available (st w) /\
    w' = w <| st := (st w)
      <| k_Insurance := <[id := ins <| ins_claimed := true |>]> (k_Insurance (st w)) |>
      <| k_InsuranceFund := Some ((fund_of (st w))
           <| if_total_claims_paid := saturating_add64 (if_total_claims_paid (fund_of (st w))) r |>
           <| if_available_balance := saturating_sub (available (st w)) r |>) |> |>
      <| evs := evs w ++ [InsuranceClaimedEvent id (ins_borrower ins) r r (timestamp env)] |>.
Proof.
  unfold claim_insurance. intros Hr. run_inv. cbn in *. bool_hyps.
  unfold available, fund_of. match goal with Hf : k_InsuranceFund _ = Some _ |- _ => rewrite Hf end.
  do 3 eexists. split_and!; done.
Qed.

Lemma cancel_insurance_Ok env who id r w w' :
  cancel_insurance env who id w = Ok r w' ->
  exists ins, k_Insurance (st w) !! id = Some ins /\ ins_claimed ins = false /\
    ins_borrower ins = who /\ who ∈ auths env /\ r = refund_for ins (timestamp env) /\
    k_Insurance (st w') = delete id (k_Insurance (st w)) /\
    k_Token (st w') = k_Token (st w) /\ k_LoanById (st w') = k_LoanById (st w) /\
    ((r <= 0 /\ toks w' = toks w /\ available (st w') = available (st w)) \/
     (0 < r /\ available (st w') = saturating_sub (available (st w)) r /\
      exists tok t', k_Token (st w) = Some tok /\
        tk_transfer (toks w) (auths (sub_env env tok)) tok (current_contract env) who r = Some t' /\
        toks w' = t')).
Proof.
  unfold cancel_insurance. intros Hr. run_bind Hr. do 5 run_bind Hr.
  match goal with Hw : when _ _ _ = _ |- _ => idtac | _ => run_bind Hr end.
  match goal with Hw : when (0 <? ?x) _ _ = _ |- _ =>
    apply when_Ok in Hw; destruct (Z.ltb_spec 0 x) end.
  - match goal with Hp : pay_refund _ _ _ _ = _ |- _ => apply pay_refund_Ok in Hp as (? & ? & ? & ? & ->) end.
    run_inv. cbn in *. bool_hyps. eexists. split_and!; try done. right. eauto 10.
  - subst. run_inv. cbn in *. bool_hyps. eexists. split_and!; try done. left. auto.
Qed.

Lemma deposit_fund_Ok env adm amount u w w' :
  deposit_to_insurance_fund env adm amount w = Ok u w' ->
  exists tok t', k_Token (st w) = Some tok /\ adm ∈ auths env /\
    tk_transfer (toks w) (auths (sub_env env tok)) tok adm (current_contract env) amount = Some t' /\
    toks w' = t' /\
    st w' = (fund_initialised (st w)) <| k_InsuranceFund := Some ((fund_of (st w))
       <| if_available_balance := saturating_add64 (available (st w)) amount |>) |>.
Proof.
  unfold deposit_to_insurance_fund. intros Hr. run_inv. cbn in *. do 2 eexists. split_and!; done.
Qed.

Lemma withdraw_fund_Ok env adm amount u w w' :
  withdraw_from_insurance_fund env adm amount w = Ok u w' ->
  exists tok t', k_Token (st w) = Some tok /\ adm ∈ auths env /\ amount <= available (st w) /\
    tk_transfer (toks w) (auths (sub_env env tok)) tok (current_contract env) adm amount = Some t' /\
    toks w' = t' /\
    st w' = (fund_initialised (st w)) <| k_InsuranceFund := Some ((fund_of (st w))
       <| if_available_balance := saturating_sub (available (st w)) amount |>) |>.
Proof.
  unfold withdraw_from_insurance_fund. intros Hr. run_inv. cbn in *. bool_hyps.
  match goal with Hs : Some _ = Some _ |- _ => injection Hs as <- end.
  do 2 eexists. split_and!; done.
Qed.

Lemma set_premium_rate_Ok env adm rate u w w' :
  set_insurance_premium_rate env adm rate w = Ok u w' ->
  adm ∈ auths env /\ rate <= 10000 /\
  w' = w <| st := (fund_initialised (st w)) <| k_InsurancePremiumRate := Some rate |> |>.
Proof. unfold set_insurance_premium_rate. intros Hr. run_inv. bool_hyps. done. Qed.

(** * The fund is backed by tokens *)

(** The token entry points of the fund, run by others than the contract; a
    cancellation is a step when the fund covers its refund. *)
Inductive insurance_step (self : address) : world T -> world T -> Prop :=
  | insurance_purchase env who id r w w' :
      current_contract env = self -> self ∉ auths env ->
      purchase_loan_insurance env who id w = Ok r w' -> insurance_step self w w'
  | insurance_claim env id r w w' :
      claim_insurance env id w = Ok r w' -> insurance_step self w w'
  | insurance_cancel env who id ins r w w' :
      current_contract env = self -> self ∉ auths env ->
      k_Insurance (st w) !! id = Some ins ->
      refund_for ins (timestamp env) <= available (st w) ->
      cancel_insurance env who id w = Ok r w' -> insurance_step self w w'
  | insurance_deposit env adm amount w w' :
      current_contract env = self -> self ∉ auths env ->
      deposit_to_insurance_fund env adm amount w = Ok tt w' -> insurance_step self w w'
  | insurance_withdraw env adm amount w w' :
      current_contract env = self -> self ∉ auths env ->
      withdraw_from_insurance_fund env adm amount w = Ok tt w' -> insurance_step self w w'
  | insurance_rate env adm rate w w' :
      set_insurance_premium_rate env adm rate w = Ok tt w' -> insurance_step self w w'.

(** Loans and policies carry [u64] amounts, the fund never goes below zero. *)
Definition insurable (s : store) : Prop :=
  0 <= available s /\
  (forall id l, k_LoanById s !! id = Some l -> 0 <= principal l) /\
  (forall id ins, k_Insurance s !! id = Some ins -> 0 <= ins_coverage_amount ins).

(** What the contract holds of [tok] beyond the fund. *)
Definition margin (self tok : address) (w : world T) : Z :=
  tk_balance (toks w) tok self - available (st w).

Lemma refund_nonneg ins now : 0 <= refund_for ins now.
Proof.
  unfold refund_for. destruct (_ <? _); [|done]. destruct (_ <? _); [|done].
  apply as_u64_range.
Qed.

Context `{!TokenLaws T}.

Lemma paid_in t au tok from to amount t' :
  from <> to -> tk_transfer t au tok from to amount = Some t' ->
  0 <= amount /\ tk_balance t' tok to = tk_balance t tok to + amount.
Proof.
  intros Hne Ht. apply tk_transfer_spec in Ht as (_ & Ha & Hb); [|done].
  rewrite Hb, moved_to by done. lia.
Qed.
Lemma paid_out t au tok from to amount t' :
  from <> to -> tk_transfer t au tok from to amount = Some t' ->
  0 <= amount /\ tk_balance t' tok from = tk_balance t tok from - amount.
Proof.
  intros Hne Ht. apply tk_transfer_spec in Ht as (_ & Ha & Hb); [|done].
  rewrite Hb, moved_from by done. lia.
Qed.

Lemma available_some s f : k_InsuranceFund s = Some f -> available s = if_available_balance f.
Proof. unfold available, fund_of. by intros ->. Qed.

(** Read the fund a run has just written. *)
Ltac read_fund :=
  match goal with
  | |- context [available ?s] =>
    let v := eval cbn -[fund_of available default] in (k_InsuranceFund s) in
    match v with Some ?f => rewrite (available_some s f eq_refl) end
  end.

Lemma insurance_step_backed self w w' tok :
  k_Token (st w) = Some tok -> insurable (st w) -> insurance_step self w w' ->
  k_Token (st w') = Some tok /\ insurable (st w') /\ margin self tok w <= margin self tok w'.
Proof.
  intros Htok (H0 & Hl & Hi) Hs. unfold margin, insurable.
  destruct Hs as [env who id r w w' <- Hself Hr|env id r w w' Hr|env who id ins r w w' <- Hself Hins Hc Hr
    |env adm amount w w' <- Hself Hr|env adm amount w w' <- Hself Hr|env adm rate w w' Hr].
  - apply purchase_Ok in Hr as (l & p & rate & tok' & t' & Hln & _ & _ & Htok' & Hau & _ & _ & _ & Ht & -> & ->).
    simplify_eq. apply paid_in in Ht as [Ha ->]; [|by intros ->].
    read_fund. cbn -[available].
    split_and!; try done; try ulia.
    intros id' i' [[_ <-]|[_ Hk]]%lookup_insert_Some; cbn; eauto.
  - apply claim_insurance_Ok in Hr as (ins & l & p & Hins & _ & _ & _ & _ & Hr & Hle & ->).
    read_fund. cbn -[available].
    pose proof (Hi _ _ Hins). split_and!; try done; try ulia.
    intros id' i' [[_ <-]|[_ Hk]]%lookup_insert_Some; cbn; eauto.
  - apply cancel_insurance_Ok in Hr as (ins' & Hins' & _ & _ & Hau & Hr & Hdel & Htk & Hlb & Hpay).
    simplify_eq. rewrite Htk, Hlb, Hdel.
    assert (forall id' i', delete id (k_Insurance (st w)) !! id' = Some i' ->
      0 <= ins_coverage_amount i') by (intros ? ? [_ ?]%lookup_delete_Some; eauto).
    destruct Hpay as [(_ & -> & ->)|(_ & -> & tok' & t' & Htok' & Ht & ->)]; [split_and!; done|].
    simplify_eq. apply paid_out in Ht as [Ha ->]; [|by intros <-]. split_and!; try done; ulia.
  - apply deposit_fund_Ok in Hr as (tok' & t' & Htok' & Hau & Ht & -> & ->).
    simplify_eq. apply paid_in in Ht as [Ha ->]; [|by intros ->].
    read_fund. cbn -[available]. split_and!; try done; ulia.
  - apply withdraw_fund_Ok in Hr as (tok' & t' & Htok' & Hau & Hle & Ht & -> & ->).
    simplify_eq. apply paid_out in Ht as [Ha ->]; [|by intros <-].
    read_fund. cbn -[available]. split_and!; try done; ulia.
  - apply set_premium_rate_Ok in Hr as (_ & _ & ->).
    read_fund. cbn -[available]. fold (fund_of (st w)).
    change (if_available_balance (fund_of (st w))) with (available (st w)). split_and!; done || lia.
Qed.

(** * Properties *)

(** C33: Along every sequence of purchases, claims, cancellations whose refund the fund
    covers, deposits, withdrawals and rate changes, the insurance fund's available balance
    is never negative and never more than the tokens the contract holds. *)
Theorem insurance_fund_backed self tok w0 w :
  k_Token (st w0) = Some tok -> insurable (st w0) -> rtc (insurance_step self) w0 w ->
  available (st w0) <= tk_balance (toks w0) tok self ->
  0 <= available (st w) <= tk_balance (toks w) tok self.
Proof.
  intros Htok Hi Hs Hb.
  assert (insurable (st w) /\ margin self tok w0 <= margin self tok w) as [[? _] Hm].
  { clear Hb. induction Hs as [w|w0 w1 w Hs _ IH]; [done|].
    destruct (insurance_step_backed _ _ _ tok Htok Hi Hs) as (Htok1 & Hi1 & Hm).
    destruct (IH Htok1 Hi1) as [? ?]. split; [done|lia]. }
  unfold margin in Hm. lia.
Qed.

(** An insurance claim succeeds only after the grace period of an existing loan, once per
    policy and within the fund, and books the coverage as paid without moving any token or
    changing the loan; at that time the policy is already reported as expired. *)
Theorem claim_insurance_contract env id r w w' :
  claim_insurance env id w = Ok r w' ->
  exists ins l p, k_Insurance (st w) !! id = Some ins /\ k_LoanById (st w) !! id = Some l /\
    pool_of w (asset l) = Some p /\ due_date l + grace_period_seconds p < timestamp env /\
    r = ins_coverage_amount ins /\ r <= available (st w) /\
    available (st w') = saturating_sub (available (st w)) r /\
    toks w' = toks w /\ k_Loan (st w') = k_Loan (st w) /\
    (forall env' r' w'', claim_insurance env' id w' <> Ok r' w'') /\
    (ins_expires_at ins = due_date l + grace_period_seconds p ->
     is_loan_insured env id w = Ok false w /\ get_insurance_coverage env id w = Ok 0 w).
Proof.
  intros Hr. apply claim_insurance_Ok in Hr as (ins & l & p & Hins & Hcl & Hl & Hp & Hg & -> & Hle & ->).
  exists ins, l, p. split_and!; try done.
  - intros env' r' w'' Hr. apply claim_insurance_Ok in Hr as (ins' & _ & _ & Hins' & Hc' & _).
    cbn in Hins'. rewrite lookup_insert_eq in Hins'. injection Hins' as <-. done.
  - intros He. assert (in_force ins (timestamp env) = false) as Hf.
    { unfold in_force. rewrite He. apply andb_false_iff. right. apply Z.ltb_ge. lia. }
    unfold is_loan_insured, get_insurance_coverage, bind, load, gets, ret.
    by rewrite Hins, Hf.
Qed.

(** Cancelling a policy returns its owner the premium times the remaining share of its
    term, never more than the premium, and removes the policy. *)
Theorem cancel_refund_prorata env who id r w w' ins :
  k_Insurance (st w) !! id = Some ins ->
  u64 (ins_premium_paid ins) -> u64 (ins_purchase_time ins) -> u64 (ins_expires_at ins) ->
  ins_purchase_time ins <= timestamp env -> current_contract env ∉ auths env ->
  cancel_insurance env who id w = Ok r w' ->
  ins_borrower ins = who /\ ins_claimed ins = false /\ k_Insurance (st w') !! id = None /\
  r = (if timestamp env <? ins_expires_at ins
       then ins_premium_paid ins * (ins_expires_at ins - timestamp env)
            / (ins_expires_at ins - ins_purchase_time ins) else 0) /\
  0 <= r <= ins_premium_paid ins /\
  available (st w') = (if decide (r = 0) then available (st w) else saturating_sub (available (st w)) r) /\
  forall tok, k_Token (st w) = Some tok ->
    tk_balance (toks w') tok who = tk_balance (toks w) tok who + r.
Proof.
  intros Hins Hpr Hpt Hex Hnow Hself Hr.
  apply cancel_insurance_Ok in Hr as (ins' & Hins' & Hcl & Hb & Hau & Hr & Hdel & _ & _ & Hpay).
  simplify_eq.
  assert (refund_for ins (timestamp env) = if timestamp env <? ins_expires_at ins
       then ins_premium_paid ins * (ins_expires_at ins - timestamp env)
            / (ins_expires_at ins - ins_purchase_time ins) else 0) as Hrf.
  { unfold refund_for. destruct (Z.ltb_spec (timestamp env) (ins_expires_at ins)); [|done].
    destruct (Z.ltb_spec 0 (saturating_sub (ins_expires_at ins) (ins_purchase_time ins))); [|ulia].
    assert (0 <= ins_premium_paid ins * (ins_expires_at ins - timestamp env)
            / (ins_expires_at ins - ins_purchase_time ins) <= ins_premium_paid ins).
    { apply mul_frac_le; ulia. }
    replace (saturating_sub (saturating_sub _ _) _) with (ins_expires_at ins - timestamp env) by ulia.
    replace (saturating_sub _ _) with (ins_expires_at ins - ins_purchase_time ins) by ulia.
    unfold checked_mul128. rewrite checked_in by unia. simpl. unfold checked_div.
    destruct (Z.eqb_spec (ins_expires_at ins - ins_purchase_time ins) 0); [lia|]. simpl.
    apply as_u64_small. ulia. }
  assert (0 <= refund_for ins (timestamp env) <= ins_premium_paid ins) as Hle.
  { rewrite Hrf. destruct (Z.ltb_spec (timestamp env) (ins_expires_at ins)); [|ulia].
    apply mul_frac_le; ulia. }
  split_and!; try done; try lia.
  - rewrite Hdel. apply lookup_delete_eq.
  - destruct Hpay as [(? & _ & ->)|(? & -> & _)]; case_decide; done || lia.
  - intros tok Htok. destruct Hpay as [(? & -> & _)|(_ & _ & tok' & t' & Htok' & Ht & ->)]; [lia|].
    simplify_eq. apply tk_transfer_spec in Ht as (_ & _ & Ht).
    2:{ intros He. by rewrite He in Hself. }
    rewrite Ht, moved_to; [done|]. intros He. by rewrite He in Hself.
Qed.
End inversions.

(** * Witnesses *)
Section witnesses.
Import LendingExample LendingLoans.

(** Carol insures her loan, the administrator tops the fund up. *)
Definition insured : world MockToken.network :=
  after (purchase_loan_insurance (env_at 100 8) carol 1) lent.
Definition funded : world MockToken.network :=
  after (deposit_to_insurance_fund (env_at 100 8) admin 30000) insured.
Definition policy : LoanInsurance := mkInsurance 1 carol 20000 400 200 100 31795300 false.

Lemma insurance_fund_backed_witness :
  0 <= available (st funded) <= tk_balance (toks funded) usd pool_contract.
Proof.
  apply (insurance_fund_backed pool_contract usd lent funded).
  - vm_compute. reflexivity.
  - split; [vm_compute; congruence|]. split.
    + intros id l Hl.
      assert (k_LoanById (st lent) = {[ 1 := carols_loan ]}) as Hb by (vm_compute; reflexivity).
      rewrite Hb in Hl. apply lookup_singleton_Some in Hl as [_ <-]. vm_compute. congruence.
    + intros id ins Hi.
      assert (k_Insurance (st lent) = ∅) as Hb by (vm_compute; reflexivity).
      rewrite Hb in Hi. discriminate Hi.
  - eapply (rtc_l _ _ insured); [|apply rtc_once].
    + apply (insurance_purchase _ (env_at 100 8) carol 1 400); [reflexivity|apply not_self|].
      vm_compute. reflexivity.
    + apply (insurance_deposit _ (env_at 100 8) admin 30000); [reflexivity|apply not_self|].
      vm_compute. reflexivity.
  - vm_compute. congruence.
Defined.

Lemma claim_insurance_contract_witness :
  is_loan_insured (env_at 31800000 9) 1 funded = Ok false funded.
Proof.
  destruct (claim_insurance_contract (env_at 31800000 9) 1 20000 funded
    (after (claim_insurance (env_at 31800000 9) 1) funded)) as (ins & l & p & Hi & Hl & Hp & Hr).
  - vm_compute. reflexivity.
  - apply Hr. clear Hr. vm_compute in Hi, Hl, Hp. simplify_eq. reflexivity.
Defined.

Lemma cancel_refund_prorata_witness :
  k_Insurance (st (after (cancel_insurance (env_at 15897700 9) carol 1) funded)) !! 1 = None /\
  0 <= 200 <= ins_premium_paid policy.
Proof.
  destruct (cancel_refund_prorata (env_at 15897700 9) carol 1 200 funded
    (after (cancel_insurance (env_at 15897700 9) carol 1) funded) policy)
    as (_ & _ & Hn & _ & Hle & _).
  all: try (vm_compute; reflexivity); try (vm_compute; split; congruence); try apply not_self.
  - vm_compute. congruence.
  - split; [exact Hn|exact Hle].
Defined.

(** The fund may be emptied first: the refund is then paid out of the other
    tokens of the contract. *)
Definition drained : world MockToken.network :=
  after (withdraw_from_insurance_fund (env_at 100 9) admin 400) insured.
Lemma cancel_pays_from_deposits :
  available (st drained) = 0 /\
  exists w', cancel_insurance (env_at 101 9) carol 1 drained = Ok 399 w' /\
    tk_balance (toks w') usd pool_contract = tk_balance (toks drained) usd pool_contract - 399.
Proof. split; [vm_compute; reflexivity|]. eexists. split; vm_compute; reflexivity. Qed.
End witnesses.

End LendingInsurance.
