(* ===== verification/LendingYield.v ===== *)
(** Plan-yield positions of the lending contract
    ([contracts/lending-contract/src/lib.rs]): the supply rate, accrual,
    registration, single and batched claims against the retained yield. *)
From S2P Require Import Prelude Host AccessControl Token MockToken.
From S2P Require Import LendingTypes LendingMath LendingCore LendingExample LendingPool.
From S2P Require Import LendingLoans.
Import AccessControl LendingTypes LendingMath LendingCore LendingPool.

Module LendingYield.

(** The supply-side rate of a pool: the borrow rate times the utilisation,
    less the reserve factor. *)
Definition supply_rate_of (model : option RateModel) (pool : PoolState) : Z :=
  let utilization_bps := get_utilization_bps (total_borrowed pool) (total_deposits pool) in
  let borrow_rate := rate_for model pool utilization_bps in
  let reserve_factor := match model with
                        | Some m => rm_reserve_factor_bps m
                        | None => reserve_factor_bps pool end in
  as_u32 (default 0
    (checked_mul128 borrow_rate utilization_bps ≫= fun v =>
     checked_mul128 v (saturating_sub 10000 reserve_factor) ≫= fun v =>
     checked_div v (10000 * 10000))).

(** What a position has accrued at [now] when its pool supplies at [rate]. *)
Definition accrued_at (position : PlanYieldPosition) (rate now : Z) : Z :=
  let elapsed := saturating_sub now (py_last_harvest_at position) in
  if (elapsed =? 0) || (py_principal position =? 0) || negb (py_active position) then 0
  else
    let rate_bps := saturating_add32 rate (py_boost_bps position) in
    if rate_bps =? 0 then 0
    else simulate_plan_yield (py_principal position) rate_bps elapsed.

(** ** Bounds of the supply rate *)

Lemma utilization_in_bps p :
  0 <= total_borrowed p -> 0 <= total_deposits p ->
  0 <= get_utilization_bps (total_borrowed p) (total_deposits p) <= 10000.
Proof.
  intros Hb Hd. unfold get_utilization_bps.
  set (den := saturating_add128 _ _). assert (0 <= den) by (unfold den; ulia).
  destruct (Z.eqb_spec den 0); [lia|]. unfold checked_div. destruct (Z.eqb_spec den 0); [lia|].
  simpl. assert (0 <= saturating_mul128 (total_borrowed p) 10000) by ulia.
  pose proof (Z.div_pos (saturating_mul128 (total_borrowed p) 10000) den ltac:(lia) ltac:(lia)).
  rewrite as_u32_small by ulia. lia.
Qed.

(** The parameters a rate curve is made of are unsigned. *)
Definition rates_unsigned (model : option RateModel) (p : PoolState) : Prop :=
  0 <= total_borrowed p /\ 0 <= total_deposits p /\ 0 <= base_rate_bps p /\
  0 <= reserve_factor_bps p /\
  match model with
  | Some m => 0 <= rm_base_rate_bps m /\ 0 <= rm_slope1_bps m /\ 0 <= rm_slope2_bps m /\
              0 <= rm_reserve_factor_bps m
  | None => True
  end.

Lemma rate_for_u32 model p u : rates_unsigned model p -> u32 (rate_for model p u).
Proof.
  assert (forall a b, 0 <= a -> u32 (saturating_add32 a (as_u32 b))) as Hs.
  { intros a b Ha. pose proof (as_u32_range b). ulia. }
  intros (_ & _ & Hb & _ & Hm). destruct model as [m|]; simpl.
  - destruct Hm as (Hb' & H1 & H2 & _). unfold two_slope_rate.
    destruct (_ =? 0); [ulia|]. destruct (_ <=? _); apply Hs; ulia.
  - by apply Hs.
Qed.

(** The supply rate is the borrow rate times the utilisation less the reserve factor, with
    no overflow, and lies between zero and the borrow rate. *)
Theorem supply_rate_below_borrow_rate model p :
  rates_unsigned model p ->
  let u := get_utilization_bps (total_borrowed p) (total_deposits p) in
  let factor := match model with Some m => rm_reserve_factor_bps m | None => reserve_factor_bps p end in
  supply_rate_of model p = rate_for model p u * u * saturating_sub 10000 factor / 100000000 /\
  0 <= supply_rate_of model p <= rate_for model p u.
Proof.
  intros Hr u factor. pose proof (rate_for_u32 model p u Hr) as Hb.
  assert (0 <= u <= 10000) as Hu by (apply utilization_in_bps; apply Hr).
  assert (0 <= factor) as Hf.
  { unfold factor. destruct Hr as (_ & _ & _ & ? & Hm). by destruct model; [apply Hm|]. }
  set (b := rate_for model p u) in *. set (k := saturating_sub 10000 factor).
  assert (0 <= k <= 10000) as Hk by (unfold k; ulia).
  assert (0 <= b) as Hb0 by apply Hb.
  assert (0 <= b * u <= b * 10000) as H1 by nia.
  assert (0 <= b * u * k <= b * 100000000) as H2 by nia.
  assert (0 <= b * u * k / 100000000 <= b) as H3.
  { split; [apply Z.div_pos; lia|]. apply div_le_mul; lia. }
  assert (supply_rate_of model p = b * u * k / 100000000) as ->; [|done].
  unfold supply_rate_of. fold u. fold b. fold factor. fold k. unfold checked_mul128.
  rewrite checked_in by ulia. simpl. rewrite checked_in by ulia. simpl.
  apply as_u32_small. ulia.
Qed.

Section yield.
Context {T : Type} `{TokenOps T}.
Abbreviation X A := (M (world T) LendingError A).
Implicit Types (env : Env) (w : world T).

(** * Operations *)

Definition supply_rate_bps_for (a : address) : X Z :=
  let! pool := get_pool a in
  let! model := load k_RateModel in
  ret (supply_rate_of model pool).

Definition accrued_for_position env (position : PlanYieldPosition) : X Z :=
  let elapsed := saturating_sub (timestamp env) (py_last_harvest_at position) in
  if (elapsed =? 0) || (py_principal position =? 0) || negb (py_active position) then ret 0
  else
    let! rate := supply_rate_bps_for (py_asset position) in
    let rate_bps := saturating_add32 rate (py_boost_bps position) in
    if rate_bps =? 0 then ret 0
    else ret (simulate_plan_yield (py_principal position) rate_bps elapsed).

Definition set_position (plan_id : Z) (p : PlanYieldPosition) : X unit :=
  save (fun s => s <| k_PlanYield := <[plan_id := p]> (k_PlanYield s) |>).
Definition load_position (plan_id : Z) : X PlanYieldPosition :=
  let! p := load (fun s => k_PlanYield s !! plan_id) in ok_or p PlanYieldNotRegistered.

Definition plan_index (s : store) : list Z := default [] (k_PlanYieldIndex s).

Definition index_plan_yield (plan_id : Z) : X unit :=
  let! index := load plan_index in
  if bool_decide (plan_id ∈ index) then ret tt
  else
    do! reject_if (MAX_PLAN_YIELD_POSITIONS <=? Z.of_nat (length index)) TooManyYieldPositions;
    save (fun s => s <| k_PlanYieldIndex := Some (index ++ [plan_id]) |>).

(** The position a re-registration leaves. *)
Definition reregistered (prior : PlanYieldPosition) (a : address) (principal now : Z)
  : PlanYieldPosition :=
  prior <| py_asset := a |> <| py_principal := principal |>
        <| py_last_harvest_at := now |> <| py_active := true |>.

Definition register_plan_yield env (caller : address) (plan_id : Z) (a : address)
    (principal : Z) : X unit :=
  do! require_initialized;
  do! require_not_paused;
  do! require_plan_yield_caller env caller;
  let! _pool := get_pool a in
  let now := timestamp env in
  let! existing := load (fun s => k_PlanYield s !! plan_id) in
  let! position :=
    match existing with
    | Some prior => ret (reregistered prior a principal now)
    | None =>
      do! index_plan_yield plan_id;
      ret (mkPosition plan_id a principal now 0 0 0 now 0 true)
    end in
  do! set_position plan_id position;
  emit (PlanYieldRegisteredEvent plan_id a principal now).

Definition get_plan_yield_position (plan_id : Z) : X (option PlanYieldPosition) :=
  load (fun s => k_PlanYield s !! plan_id).

Definition get_accrued_plan_yield env (plan_id : Z) : X Z :=
  do! require_initialized;
  let! position := load_position plan_id in
  let! accrued := accrued_for_position env position in
  let! pool := get_pool (py_asset position) in
  ret (Z.min accrued (retained_yield pool)).

(** The position after a harvest of [payout] at [now]. *)
Definition harvested (position : PlanYieldPosition) (payout now : Z) : PlanYieldPosition :=
  position <| py_last_harvest_at := now |> <| py_last_harvest_amount := payout |>
           <| py_harvest_count := saturating_add32 (py_harvest_count position) 1 |>
           <| py_total_harvested := saturating_add64 (py_total_harvested position) payout |>.

Definition claim_plan_yield_inner env (caller : address) (plan_id : Z) : X Z :=
  do! require_initialized;
  do! require_not_paused;
  do! check_plan_yield_caller caller;
  let! position := load_position plan_id in
  do! reject_if (negb (py_active position)) PlanYieldInactive;
  let! pool := get_pool (py_asset position) in
  do! reject_if (is_paused pool) PoolPaused;
  let! accrued := accrued_for_position env position in
  let payout := Z.min accrued (retained_yield pool) in
  do! reject_if (payout =? 0) NoYieldAccrued;
  do! set_pool (py_asset position)
        (pool <| retained_yield := saturating_sub (retained_yield pool) payout |>);
  let now := timestamp env in
  let position := harvested position payout now in
  do! set_position plan_id position;
  do! emit (PlanYieldClaimedEvent plan_id (py_asset position) payout
              (py_total_harvested position) now);
  ret payout.

Definition claim_plan_yield env (caller : address) (plan_id : Z) : X Z :=
  do! require_auth env caller;
  claim_plan_yield_inner env caller plan_id.

(** One plan of a batch: an [Err] counts as zero. *)
Definition claim_or_zero env (caller : address) (results : list Z) (plan_id : Z) : X (list Z) :=
  let! claimed := attempt (claim_plan_yield_inner env caller plan_id) in
  ret (results ++ [match claimed with ROk v => v | RErr _ => 0 end]).

Definition claim_plan_yield_batch env (caller : address) (plan_ids : list Z) : X (list Z) :=
  do! require_initialized;
  do! require_not_paused;
  do! reject_if (MAX_YIELD_CLAIM_BATCH <? Z.of_nat (length plan_ids)) TooManyYieldPositions;
  do! require_auth env caller;
  foldM (claim_or_zero env caller) plan_ids [].

Definition get_registered_plan_ids : X (list Z) := load plan_index.
Definition get_plan_yield_count : X Z :=
  let! ids := get_registered_plan_ids in ret (Z.of_nat (length ids)).

Definition unregister_plan_yield env (caller : address) (plan_id : Z) : X unit :=
  do! require_initialized;
  do! require_plan_yield_caller env caller;
  let! position := load_position plan_id in
  do! set_position plan_id (position <| py_active := false |> <| py_principal := 0 |>);
  emit (PlanYieldUnregisteredEvent plan_id (py_asset position) (py_total_harvested position)
          (timestamp env)).

Definition set_plan_yield_boost env (admin : address) (plan_id boost_bps : Z) : X unit :=
  do! require_initialized;
  do! require_admin env admin;
  do! reject_if (MAX_YIELD_BOOST_BPS <? boost_bps) InvalidYieldBoost;
  let! position := load_position plan_id in
  do! set_position plan_id (position <| py_boost_bps := boost_bps |>);
  emit (PlanYieldBoostSetEvent plan_id (py_boost_bps position) boost_bps).

Definition get_plan_yield_rate (plan_id : Z) : X Z :=
  do! require_initialized;
  let! position := load_position plan_id in
  let! rate := supply_rate_bps_for (py_asset position) in
  ret (saturating_add32 rate (py_boost_bps position)).

Definition project_plan_yield (plan_id horizon_secs : Z) : X Z :=
  do! require_initialized;
  let! position := load_position plan_id in
  let! rate := get_plan_yield_rate plan_id in
  ret (simulate_plan_yield (py_principal position) rate horizon_secs).

(** The worker's ping.  Storage lifetimes are not modelled, so renewing one
    changes nothing; the calls of the entry points above ignore its result. *)
Definition extend_ttl (plan_id : Z) : X unit :=
  let! p := load (fun s => k_PlanYield s !! plan_id) in
  reject_if (bool_decide (p = None)) PlanYieldNotRegistered.

(** One entry of the scan of [get_plan_yield_stats]. *)
Definition add_position_stats (a : address) (st0 : PlanYieldStats) (plan_id : Z)
  : X PlanYieldStats :=
  let! p := load (fun s => k_PlanYield s !! plan_id) in
  match p with
  | Some position =>
    if bool_decide (py_asset position = a) then
      let! n := unwrap (checked u32_max (ps_position_count st0 + 1)) in
      let! act := if py_active position
                  then unwrap (checked u32_max (ps_active_count st0 + 1))
                  else ret (ps_active_count st0) in
      ret (mkStats (ps_asset st0) n act
             (if py_active position
              then saturating_add64 (ps_total_principal st0) (py_principal position)
              else ps_total_principal st0)
             (saturating_add64 (ps_total_harvested st0) (py_total_harvested position))
             (ps_available_yield st0))
    else ret st0
  | None => ret st0
  end.
Definition get_plan_yield_stats (a : address) : X PlanYieldStats :=
  do! require_initialized;
  let! pool := get_pool a in
  let! ids := get_registered_plan_ids in
  foldM (add_position_stats a) ids (mkStats a 0 0 0 0 (retained_yield pool)).

(** * Inversion *)
Lemma load_position_Ok id p w w' :
  load_position id w = Ok p w' -> k_PlanYield (st w) !! id = Some p /\ w' = w.
Proof. unfold load_position. intros Hr. by run_inv. Qed.

Lemma supply_rate_bps_for_Ok a r w w' :
  supply_rate_bps_for a w = Ok r w' ->
  exists p, pool_of w a = Some p /\ r = supply_rate_of (k_RateModel (st w)) p /\ w' = w.
Proof. unfold supply_rate_bps_for. intros Hr. run_inv. by eexists. Qed.

(** The accrual of a position in a world. *)
Definition accrual env w (pos : PlanYieldPosition) (p : PoolState) : Z :=
  accrued_at pos (supply_rate_of (k_RateModel (st w)) p) (timestamp env).

Lemma accrued_Ok env pos p r w w' :
  k_PoolState (st w) !! py_asset pos = Some p ->
  accrued_for_position env pos w = Ok r w' -> r = accrual env w pos p /\ w' = w.
Proof.
  unfold accrued_for_position, accrual, accrued_at, pool_of. intros Hp Hr.
  destruct (_ || _); [by run_inv|]. run_bind Hr.
  match goal with Hs : supply_rate_bps_for _ _ = _ |- _ =>
    apply supply_rate_bps_for_Ok in Hs as (q & Hq & -> & ->) end.
  unfold pool_of in Hq. simplify_eq. cbv zeta in Hr. destruct (_ =? 0); by run_inv.
Qed.

Lemma accrued_runs env pos p w :
  pool_of w (py_asset pos) = Some p ->
  accrued_for_position env pos w = Ok (accrual env w pos p) w.
Proof.
  unfold accrued_for_position, accrual, accrued_at, pool_of. intros Hp.
  destruct (_ || _); [done|]. unfold supply_rate_bps_for, get_pool, bind, load, gets.
  rewrite Hp. simpl. by destruct (_ =? 0).
Qed.

Lemma accrued_nonneg pos rate now : 0 <= accrued_at pos rate now.
Proof.
  unfold accrued_at. destruct (_ || _); [done|]. destruct (_ =? 0); [done|].
  unfold simulate_plan_yield. set (x := default 0 _). unfold checked.
  destruct ((0 <=? x) && _) eqn:Hb; [|done]. apply andb_true_iff in Hb as [Hx%Z.leb_le _]. done.
Qed.

Lemma claim_inner_Ok env caller id r w w' :
  claim_plan_yield_inner env caller id w = Ok r w' ->
  exists pos p, k_PlanYield (st w) !! id = Some pos /\ py_active pos = true /\
    pool_of w (py_asset pos) = Some p /\ is_paused p = false /\ is_Some (k_Admin (st w)) /\
    (k_InheritanceContract (st w) = Some caller \/ Admin ∈ roles_of (acl w) caller) /\
    r = Z.min (accrual env w pos p) (retained_yield p) /\ r <> 0 /\
    w' = w <| st := (st w)
      <| k_PoolState := <[py_asset pos := p <| retained_yield := saturating_sub (retained_yield p) r |>]>
                          (k_PoolState (st w)) |>
      <| k_PlanYield := <[id := harvested pos r (timestamp env)]> (k_PlanYield (st w)) |> |>
      <| evs := evs w ++ [PlanYieldClaimedEvent id (py_asset pos) r
           (py_total_harvested (harvested pos r (timestamp env))) (timestamp env)] |>.
Proof.
  unfold claim_plan_yield_inner, set_position, set_pool. intros Hr.
  do 3 run_bind Hr. repeat match goal with
  | Hc : check_plan_yield_caller _ _ = _ |- _ => apply check_plan_yield_caller_Ok in Hc as [? ->] end.
  run_bind Hr. match goal with Hl : load_position _ _ = _ |- _ => apply load_position_Ok in Hl as [? ->] end.
  run_bind Hr. run_bind Hr. run_bind Hr. run_bind Hr.
  repeat match goal with
  | Hp : get_pool _ _ = Ok _ _ |- _ => apply get_pool_Ok in Hp as [? ->]
  | Hp : reject_if _ _ _ = Ok _ _ |- _ => apply reject_if_Ok in Hp as [? ->]
  end.
  match goal with Hp : accrued_for_position _ _ _ = Ok _ _, Hq : k_PoolState _ !! _ = Some _ |- _ =>
    destruct (accrued_Ok _ _ _ _ _ _ Hq Hp) as [-> ->]; clear Hp end.
  cbv zeta in Hr. run_inv. bool_hyps. do 2 eexists. split_and!; done.
Qed.

Lemma keeps_not_paused : keeps (fun w => w) (require_not_paused (T := T)).
Proof. apply keeps_zoom_all. unfold AccessControl.require_not_paused. keeps_tac. Qed.
Lemma keeps_check_caller c : keeps (fun w => w) (check_plan_yield_caller (T := T) c).
Proof.
  unfold check_plan_yield_caller. apply keeps_bind; [apply keeps_load|intros linked].
  case_bool_decide; [apply keeps_ret|].
  apply keeps_zoom_all. unfold require_role, has_role. keeps_tac.
Qed.

Lemma claim_inner_clean env caller id : clean (claim_plan_yield_inner env caller id).
Proof.
  unfold claim_plan_yield_inner.
  do 8 (apply clean_bind; [first [apply keeps_not_paused|apply keeps_check_caller|
    unfold load_position, accrued_for_position, supply_rate_bps_for; solve [keeps_tac]]|intros ?]).
  apply clean_bind; [apply keeps_reject_if|intros ?].
  apply clean_no_err. do 3 (apply no_err_bind; [apply no_err_modify|intros ?]). apply no_err_ret.
Qed.

Lemma claim_or_zero_Ok env caller acc id res w w' :
  claim_or_zero env caller acc id w = Ok res w' ->
  exists v, res = acc ++ [v] /\
    ((v = 0 /\ w' = w) \/ claim_plan_yield_inner env caller id w = Ok v w').
Proof.
  unfold claim_or_zero. intros Hr. run_bind Hr. apply ret_Ok in Hr as [-> ->].
  match goal with Ha : attempt _ _ = Ok ?r _ |- _ => apply attempt_Ok in Ha; destruct r as [v|e] end.
  - eauto.
  - match goal with Hf : _ = Fail _ _ |- _ => apply claim_inner_clean in Hf as -> end. eauto.
Qed.

(** What registering writes: the position, and the index when it is new. *)
Lemma register_Ok env caller id a principal u w w' :
  register_plan_yield env caller id a principal w = Ok u w' ->
  exists q idx, is_Some (k_PoolState (st w) !! a) /\ caller ∈ auths env /\
    (k_InheritanceContract (st w) = Some caller \/ Admin ∈ roles_of (acl w) caller) /\
    py_asset q = a /\ py_principal q = principal /\ py_last_harvest_at q = timestamp env /\
    py_active q = true /\
    py_total_harvested q = from_option py_total_harvested 0 (k_PlanYield (st w) !! id) /\
    (if k_PlanYield (st w) !! id is Some _ then idx = k_PlanYieldIndex (st w)
     else if bool_decide (id ∈ plan_index (st w)) then idx = k_PlanYieldIndex (st w)
     else (length (plan_index (st w)) < 200)%nat /\ idx = Some (plan_index (st w) ++ [id])) /\
    w' = w <| st := (st w) <| k_PlanYieldIndex := idx |>
                           <| k_PlanYield := <[id := q]> (k_PlanYield (st w)) |> |>
           <| evs := evs w ++ [PlanYieldRegisteredEvent id a principal (timestamp env)] |>.
Proof.
  unfold register_plan_yield, set_position, require_plan_yield_caller. intros Hr.
  do 3 run_bind Hr. match goal with Hc : bind (require_auth _ _) _ _ = _ |- _ => run_bind Hc end.
  match goal with Hc : check_plan_yield_caller _ _ = _ |- _ =>
    apply check_plan_yield_caller_Ok in Hc as [? ->] end.
  do 2 run_bind Hr. cbv zeta in Hr. repeat match goal with
  | Hi : require_initialized _ = _ |- _ => apply require_initialized_Ok in Hi as [? ->]
  | Hi : require_not_paused _ = _ |- _ => apply require_not_paused_Ok' in Hi as (? & ? & ->)
  | Hi : require_auth _ _ _ = _ |- _ => apply require_auth_Ok in Hi as [? ->]
  | Hl : load _ _ = _ |- _ => apply load_Ok in Hl as [-> ->]
  end.
  run_bind Hr. match goal with Hp : get_pool _ _ = _ |- _ => apply get_pool_Ok in Hp as [? ->] end.
  match goal with Hm : match ?o with Some _ => _ | None => _ end _ = Ok _ _ |- _ =>
    destruct o as [prior|] eqn:Hprior end.
  - run_inv. exists (reregistered prior a principal (timestamp env)), (k_PlanYieldIndex (st w)).
    split_and!; done.
  - match goal with Hi : bind (index_plan_yield _) _ _ = _ |- _ =>
      run_bind Hi; apply ret_Ok in Hi as [-> ->] end.
    match goal with Hi : index_plan_yield _ _ = _ |- _ => unfold index_plan_yield in Hi; run_bind Hi;
      match goal with Hl : load _ _ = _ |- _ => apply load_Ok in Hl as [-> ->] end end.
    eexists (mkPosition id a principal (timestamp env) 0 0 0 (timestamp env) 0 true), _.
    case_bool_decide.
    + run_inv. split_and!; done.
    + run_inv. bool_hyps. unfold MAX_PLAN_YIELD_POSITIONS in *.
      split_and!; done || lia.
Qed.

Lemma unregister_Ok env caller id u w w' :
  unregister_plan_yield env caller id w = Ok u w' ->
  exists q, k_PlanYield (st w) !! id = Some q /\ caller ∈ auths env /\
    w' = w <| st := (st w) <| k_PlanYield :=
             <[id := q <| py_active := false |> <| py_principal := 0 |>]> (k_PlanYield (st w)) |> |>
           <| evs := evs w ++ [PlanYieldUnregisteredEvent id (py_asset q) (py_total_harvested q)
                                 (timestamp env)] |>.
Proof.
  unfold unregister_plan_yield, set_position, require_plan_yield_caller. intros Hr.
  do 2 run_bind Hr. match goal with Hc : bind (require_auth _ _) _ _ = _ |- _ => run_bind Hc end.
  match goal with Hc : check_plan_yield_caller _ _ = _ |- _ =>
    apply check_plan_yield_caller_Ok in Hc as [? ->] end.
  run_bind Hr. match goal with Hl : load_position _ _ = _ |- _ => apply load_position_Ok in Hl as [? ->] end.
  run_inv. eexists. split_and!; done.
Qed.

Lemma set_boost_Ok env adm id b u w w' :
  set_plan_yield_boost env adm id b w = Ok u w' ->
  exists q, k_PlanYield (st w) !! id = Some q /\ adm ∈ auths env /\ b <= MAX_YIELD_BOOST_BPS /\
    w' = w <| st := (st w) <| k_PlanYield :=
             <[id := q <| py_boost_bps := b |>]> (k_PlanYield (st w)) |> |>
           <| evs := evs w ++ [PlanYieldBoostSetEvent id (py_boost_bps q) b] |>.
Proof.
  unfold set_plan_yield_boost, set_position. intros Hr. do 4 run_bind Hr.
  match goal with Hl : load_position _ _ = _ |- _ => apply load_position_Ok in Hl as [? ->] end.
  run_inv. bool_hyps. eexists. split_and!; done.
Qed.

Lemma batch_Ok env caller ids rs w w' :
  claim_plan_yield_batch env caller ids w = Ok rs w' ->
  (length ids <= 25)%nat /\ caller ∈ auths env /\ foldM (claim_or_zero env caller) ids [] w = Ok rs w'.
Proof.
  unfold claim_plan_yield_batch, MAX_YIELD_CLAIM_BATCH. intros Hr. do 4 run_bind Hr.
  run_inv. bool_hyps. split_and!; try done. lia.
Qed.

(** * Conservation of the retained yield *)

Definition retained_sum (s : store) : Z := msum (fun _ p => retained_yield p) (k_PoolState s).
Definition harvested_sum (s : store) : Z := msum (fun _ q => py_total_harvested q) (k_PlanYield s).

(** Amounts are unsigned and the lifetime total stays in the machine width. *)
Definition yield_sane (s : store) : Prop :=
  (forall a p, k_PoolState s !! a = Some p -> 0 <= retained_yield p) /\
  (forall id q, k_PlanYield s !! id = Some q -> 0 <= py_total_harvested q) /\
  retained_sum s + harvested_sum s <= u64_max.

(** [s'] keeps [s] sane and moves [r] from the retained to the harvested total. *)
Definition moves_yield (r : Z) (s s' : store) : Prop :=
  yield_sane s -> yield_sane s' /\ retained_sum s' = retained_sum s - r /\
                  harvested_sum s' = harvested_sum s + r.

Lemma moves_yield_trans r1 r2 s1 s2 s3 :
  moves_yield r1 s1 s2 -> moves_yield r2 s2 s3 -> moves_yield (r1 + r2) s1 s3.
Proof.
  intros H1 H2 Hs. destruct (H1 Hs) as (Hs2 & ? & ?). destruct (H2 Hs2) as (? & ? & ?).
  split_and!; [done|lia|lia].
Qed.

(** Writing a position that keeps the plan's lifetime total. *)
Lemma moves_position id q s s' :
  k_PoolState s' = k_PoolState s -> k_PlanYield s' = <[id := q]> (k_PlanYield s) ->
  py_total_harvested q = from_option py_total_harvested 0 (k_PlanYield s !! id) ->
  moves_yield 0 s s'.
Proof.
  intros Hp Hq Ht (Hr & Hh & Hm).
  assert (harvested_sum s' = harvested_sum s) as Hs.
  { unfold harvested_sum. rewrite Hq, msum_insert. simpl. rewrite Ht.
    destruct (k_PlanYield s !! id); simpl; lia. }
  assert (0 <= py_total_harvested q).
  { rewrite Ht. destruct (k_PlanYield s !! id) eqn:Hid; simpl; [by eapply Hh|lia]. }
  unfold yield_sane, retained_sum in *. rewrite Hs, Hp, Hq. split_and!; try done; try lia.
  intros id' q' [[_ <-]|[_ ?]]%lookup_insert_Some; [done|by eapply Hh].
Qed.

Lemma claim_moves env caller id r w w' :
  claim_plan_yield_inner env caller id w = Ok r w' -> moves_yield r (st w) (st w').
Proof.
  intros Hr (Hs & Hh & Hm).
  apply claim_inner_Ok in Hr as (pos & p & Hpos & _ & Hp & _ & _ & _ & Hr & Hne & ->).
  unfold pool_of in Hp. pose proof (Hs _ _ Hp) as Hry. pose proof (Hh _ _ Hpos) as Hth.
  pose proof (accrued_nonneg pos (supply_rate_of (k_RateModel (st w)) p) (timestamp env)) as Ha.
  fold (accrual env w pos p) in Ha.
  pose proof (msum_lookup_le (fun _ p => retained_yield p) _ _ _ Hs Hp) as Hle1.
  pose proof (msum_lookup_le (fun _ q => py_total_harvested q) _ _ _ Hh Hpos) as Hle2.
  cbv beta in Hle1, Hle2. fold (retained_sum (st w)) in Hle1. fold (harvested_sum (st w)) in Hle2.
  assert (saturating_sub (retained_yield p) r = retained_yield p - r) as Hsub by ulia.
  assert (saturating_add64 (py_total_harvested pos) r = py_total_harvested pos + r) as Hadd by ulia.
  unfold yield_sane, retained_sum, harvested_sum. cbn. rewrite !msum_insert, Hp, Hpos. cbn.
  rewrite Hsub, Hadd. fold (retained_sum (st w)) (harvested_sum (st w)).
  split_and!; try lia.
  - intros a q [[_ <-]|[_ ?]]%lookup_insert_Some; [cbn; ulia|by eapply Hs].
  - intros a q [[_ <-]|[_ ?]]%lookup_insert_Some; [cbn; ulia|by eapply Hh].
Qed.

(** A batch of claims hands out what the pools lose, one result per plan. *)
Lemma batch_moves env caller ids acc rs w w' :
  foldM (claim_or_zero env caller) ids acc w = Ok rs w' ->
  exists vs, rs = acc ++ vs /\ length vs = length ids /\
    moves_yield (foldr Z.add 0 vs) (st w) (st w').
Proof.
  revert acc w. induction ids as [|id ids IH]; intros acc w Hr; simpl in Hr.
  - apply ret_Ok in Hr as [-> ->]. exists []. rewrite app_nil_r. split_and!; [done..|].
    intros ?. simpl. split_and!; [done|lia|lia].
  - run_bind Hr. match goal with Hc : claim_or_zero _ _ _ _ _ = Ok _ _ |- _ =>
      apply claim_or_zero_Ok in Hc as (v & -> & Hv) end.
    apply IH in Hr as (vs & -> & Hl & Hm). exists (v :: vs). rewrite <-app_assoc.
    split_and!; [done|simpl; lia|]. simpl. eapply moves_yield_trans; [|exact Hm].
    destruct Hv as [[-> ->]|Hv]; [|by eapply claim_moves].
    intros ?. split_and!; [done|lia|lia].
Qed.

(** * The registry of positions *)
Definition registry_sound (s : store) : Prop :=
  NoDup (plan_index s) /\ (length (plan_index s) <= 200)%nat /\
  forall id, id ∈ plan_index s <-> is_Some (k_PlanYield s !! id).

Lemma registry_position id q s s' :
  is_Some (k_PlanYield s !! id) -> k_PlanYieldIndex s' = k_PlanYieldIndex s ->
  k_PlanYield s' = <[id := q]> (k_PlanYield s) -> registry_sound s -> registry_sound s'.
Proof.
  intros Hid Hi Hq (Hn & Hl & He). unfold registry_sound, plan_index. rewrite Hi, Hq.
  split_and!; [done..|]. intros id'. unfold plan_index in He. rewrite He.
  rewrite lookup_insert_is_Some. destruct (decide (id = id')) as [<-|]; naive_solver.
Qed.

Lemma claim_registry env caller id r w w' :
  claim_plan_yield_inner env caller id w = Ok r w' -> registry_sound (st w) -> registry_sound (st w').
Proof.
  intros Hr. apply claim_inner_Ok in Hr as (pos & p & Hpos & _ & _ & _ & _ & _ & _ & _ & ->).
  by eapply registry_position.
Qed.

Lemma batch_registry env caller ids acc rs w w' :
  foldM (claim_or_zero env caller) ids acc w = Ok rs w' ->
  registry_sound (st w) -> registry_sound (st w').
Proof.
  revert acc w. induction ids as [|id ids IH]; intros acc w Hr Hs; simpl in Hr.
  - by apply ret_Ok in Hr as [_ ->].
  - run_bind Hr. match goal with Hc : claim_or_zero _ _ _ _ _ = Ok _ _ |- _ =>
      apply claim_or_zero_Ok in Hc as (v & -> & [[-> ->]|Hv]) end.
    + by eapply IH.
    + eapply IH; [done|]. by eapply claim_registry.
Qed.

Inductive yield_step : world T -> world T -> Prop :=
  | yield_register env c id a principal w w' :
      register_plan_yield env c id a principal w = Ok tt w' -> yield_step w w'
  | yield_unregister env c id w w' :
      unregister_plan_yield env c id w = Ok tt w' -> yield_step w w'
  | yield_boost env adm id b w w' :
      set_plan_yield_boost env adm id b w = Ok tt w' -> yield_step w w'
  | yield_claim env c id r w w' :
      claim_plan_yield env c id w = Ok r w' -> yield_step w w'
  | yield_batch env c ids rs w w' :
      claim_plan_yield_batch env c ids w = Ok rs w' -> yield_step w w'.

Lemma claim_yield_Ok env c id r w w' :
  claim_plan_yield env c id w = Ok r w' ->
  c ∈ auths env /\ claim_plan_yield_inner env c id w = Ok r w'.
Proof. unfold claim_plan_yield. intros Hr. run_bind Hr. run_inv. done. Qed.

Lemma yield_step_moves w w' : yield_step w w' -> exists r, moves_yield r (st w) (st w').
Proof.
  intros [env c id a pr u u' Hr|env c id u u' Hr|env adm id b u u' Hr|env c id r u u' Hr|env c ids rs u u' Hr].
  - apply register_Ok in Hr as (q & idx & _ & _ & _ & _ & _ & _ & _ & Ht & _ & ->).
    exists 0. by eapply (moves_position id q).
  - apply unregister_Ok in Hr as (q & Hq & _ & ->). exists 0.
    eapply (moves_position id); [done..|]. by rewrite Hq.
  - apply set_boost_Ok in Hr as (q & Hq & _ & _ & ->). exists 0.
    eapply (moves_position id); [done..|]. by rewrite Hq.
  - apply claim_yield_Ok in Hr as [_ Hr]. exists r. by eapply claim_moves.
  - apply batch_Ok in Hr as (_ & _ & Hr). apply batch_moves in Hr as (vs & _ & _ & Hm). eauto.
Qed.

Lemma yield_step_registry w w' : yield_step w w' -> registry_sound (st w) -> registry_sound (st w').
Proof.
  intros [env c id a pr u u' Hr|env c id u u' Hr|env adm id b u u' Hr|env c id r u u' Hr|env c ids rs u u' Hr] Hs.
  - apply register_Ok in Hr as (q & idx & _ & _ & _ & _ & _ & _ & _ & _ & Hi & ->).
    destruct (k_PlanYield (st u) !! id) eqn:Hid.
    { subst idx. by eapply (registry_position id q); [by eexists|..]. }
    destruct Hs as (Hn & Hl & He). case_bool_decide as Hin.
    { apply He in Hin as [? ?]. congruence. }
    destruct Hi as [Hlt ->]. unfold registry_sound. cbn. split_and!.
    + apply NoDup_app. split_and!; [done| |apply NoDup_singleton].
      intros x Hx ->%list_elem_of_singleton. done.
    + rewrite length_app. simpl. lia.
    + intros x. rewrite elem_of_app, list_elem_of_singleton, He, lookup_insert_is_Some.
      destruct (decide (id = x)); naive_solver.
  - apply unregister_Ok in Hr as (q & Hq & _ & ->). eapply (registry_position id); eauto.
  - apply set_boost_Ok in Hr as (q & Hq & _ & _ & ->). eapply (registry_position id); eauto.
  - apply claim_yield_Ok in Hr as [_ Hr]. by eapply claim_registry.
  - apply batch_Ok in Hr as (_ & _ & Hr). by eapply batch_registry.
Qed.

(** * Properties *)

(** C38: From a state in which retained yields and harvests are not negative and the
    retained yield of all pools plus the lifetime harvests of all plans fits in 64 bits,
    along every sequence of registrations, boosts, single and batched claims, that sum
    stays constant, and a batch returns one result per plan which add up to what the pools
    lost. *)
Theorem harvest_never_mints w0 w :
  yield_sane (st w0) -> rtc yield_step w0 w ->
  yield_sane (st w) /\
  retained_sum (st w) + harvested_sum (st w) = retained_sum (st w0) + harvested_sum (st w0) /\
  forall env c ids rs w', claim_plan_yield_batch env c ids w = Ok rs w' ->
    length rs = length ids /\ foldr Z.add 0 rs = retained_sum (st w) - retained_sum (st w').
Proof.
  intros Hs Hr.
  assert (yield_sane (st w) /\
    retained_sum (st w) + harvested_sum (st w) = retained_sum (st w0) + harvested_sum (st w0)) as [Hw Heq].
  { induction Hr as [w|w0 w1 w Hst _ IH]; [done|].
    apply yield_step_moves in Hst as [r Hm]. destruct (Hm Hs) as (Hs1 & ? & ?).
    destruct (IH Hs1). split; [done|lia]. }
  split_and!; [done..|]. intros env c ids rs w' Hb. apply batch_Ok in Hb as (_ & _ & Hb).
  apply batch_moves in Hb as (vs & -> & Hl & Hm). destruct (Hm Hw) as (_ & ? & _).
  simpl. split; [done|lia].
Qed.

(** A claim of plan yield is signed by the linked vault or an administrator, pays the
    smaller of the accrued interest and the retained yield, exactly what the preview
    promised, takes it out of the retained yield, moves no token, advances the watermark,
    and a second claim at that time is refused for every caller. *)
Theorem claim_plan_yield_contract env c id r w w' :
  claim_plan_yield env c id w = Ok r w' ->
  exists pos p, k_PlanYield (st w) !! id = Some pos /\ py_active pos = true /\
    pool_of w (py_asset pos) = Some p /\ is_paused p = false /\ c ∈ auths env /\
    (k_InheritanceContract (st w) = Some c \/ Admin ∈ roles_of (acl w) c) /\
    r = Z.min (accrual env w pos p) (retained_yield p) /\
    get_accrued_plan_yield env id w = Ok r w /\
    (0 <= retained_yield p ->
     pool_of w' (py_asset pos) = Some (p <| retained_yield := retained_yield p - r |>)) /\
    k_PlanYield (st w') = <[id := harvested pos r (timestamp env)]> (k_PlanYield (st w)) /\
    toks w' = toks w /\
    (forall env' c' r' w'', timestamp env' <= timestamp env -> 
       (forall a q, pool_of w a = Some q -> 0 <= retained_yield q) ->
       claim_plan_yield env' c' id w' <> Ok r' w'').
Proof.
  intros Hr. apply claim_yield_Ok in Hr as [Hau Hr].
  apply claim_inner_Ok in Hr as (pos & p & Hpos & Hact & Hp & Hpa & [adm Hadm] & Hrole & Hrv & Hne & Hw').
  exists pos, p. pose proof (accrued_nonneg pos (supply_rate_of (k_RateModel (st w)) p) (timestamp env)) as Ha.
  fold (accrual env w pos p) in Ha. split_and!; try done.
  - unfold get_accrued_plan_yield.
    rewrite (bind_step _ _ w tt w) by (apply require_initialized_Ok; split; [by eexists|done]).
    rewrite (bind_step _ _ w pos w) by (unfold load_position, bind, load, gets; cbn; by rewrite Hpos).
    rewrite (bind_step _ _ w _ w (accrued_runs _ _ p _ Hp)).
    rewrite (bind_step _ _ w p w) by (by apply get_pool_Ok). by rewrite Hrv.
  - intros H0. subst w'. unfold pool_of; cbn. rewrite lookup_insert_eq.
    assert (saturating_sub (retained_yield p) r = retained_yield p - r) as -> by ulia. done.
  - by subst w'.
  - by subst w'.
  - intros env' c' r' w'' Ht Hpools Hr'. apply claim_yield_Ok in Hr' as [_ Hr'].
    apply claim_inner_Ok in Hr' as (pos' & p' & Hpos' & _ & Hp' & _ & _ & _ & Hrv' & Hne' & _).
    subst w'. cbn in Hpos'. rewrite lookup_insert_eq in Hpos'. injection Hpos' as <-.
    apply Hne'. rewrite Hrv'. unfold accrual, accrued_at.
    assert (saturating_sub (timestamp env') (py_last_harvest_at (harvested pos r (timestamp env))) = 0)
      as -> by (cbn; ulia). cbn.
    unfold pool_of in Hp', Hpools. cbn in Hp'. rewrite lookup_insert_eq in Hp'. injection Hp' as <-.
    cbn. ulia.
Qed.

(** The index of registered plans lists exactly the plans that have a position, each once,
    and never more than 200; a new plan is refused when it is full. *)
Theorem plan_registry_sound w0 w :
  registry_sound (st w0) -> rtc yield_step w0 w ->
  registry_sound (st w) /\
  forall env c id a pr w', length (plan_index (st w)) = 200%nat -> k_PlanYield (st w) !! id = None ->
    register_plan_yield env c id a pr w <> Ok tt w'.
Proof.
  intros Hs Hr. assert (registry_sound (st w)) as Hw.
  { induction Hr as [w|w0 w1 w Hst _ IH]; [done|]. by eapply IH, yield_step_registry. }
  split; [done|]. intros env c id a pr w' Hl Hid Hreg.
  apply register_Ok in Hreg as (q & idx & _ & _ & _ & _ & _ & _ & _ & _ & Hi & _).
  rewrite Hid in Hi. destruct Hw as (_ & _ & He). case_bool_decide as Hin.
  - apply He in Hin as [? ?]. congruence.
  - destruct Hi as [? _]. lia.
Qed.
End yield.

(** * Witnesses *)
Section witnesses.
Import LendingExample LendingLoans.
Abbreviation W := (world MockToken.network).

(** Two plans register on the pool Carol borrowed from; their yield is funded. *)
Definition registered : W :=
  after (register_plan_yield (env_at 100 8) admin 7 usd 5000)
    (after (register_plan_yield (env_at 100 8) admin 8 usd 300) lent).
Definition with_yield : W :=
  after (fund_retained_yield (env_at 100 8) admin usd 600) registered.

Lemma lent_sane : yield_sane (st lent) /\ registry_sound (st lent).
Proof.
  assert (k_PoolState (st lent) = {[ usd := default fresh_pool (k_PoolState (st lent) !! usd) ]})
    as Hp by (vm_compute; reflexivity).
  assert (k_PlanYield (st lent) = ∅) as Hq by (vm_compute; reflexivity).
  split.
  - split_and!.
    + intros a p Ha. rewrite Hp in Ha. apply lookup_singleton_Some in Ha as [_ <-]. vm_compute. congruence.
    + intros id q Hid. rewrite Hq in Hid. discriminate Hid.
    + vm_compute. congruence.
  - unfold registry_sound. assert (plan_index (st lent) = []) as -> by (vm_compute; reflexivity).
    rewrite Hq. split_and!; [constructor|simpl; lia|]. intros id.
    rewrite lookup_empty. split; [by intros ?%elem_of_nil|by intros [? ?]].
Qed.

Lemma registered_steps : rtc yield_step lent registered.
Proof.
  eapply rtc_l; [|apply rtc_once].
  - apply (yield_register (env_at 100 8) admin 8 usd 300). vm_compute. reflexivity.
  - apply (yield_register (env_at 100 8) admin 7 usd 5000). vm_compute. reflexivity.
Qed.

Lemma supply_rate_below_borrow_rate_witness :
  0 <= supply_rate_of None (default fresh_pool (pool_of lent usd)) <= 1201.
Proof.
  destruct (supply_rate_below_borrow_rate None (default fresh_pool (pool_of lent usd))) as [_ Hb].
  - repeat split; vm_compute; congruence.
  - exact Hb.
Defined.

Lemma harvest_never_mints_witness : yield_sane (st registered).
Proof.
  destruct (harvest_never_mints lent registered) as [Hs _].
  - exact (proj1 lent_sane).
  - exact registered_steps.
  - exact Hs.
Defined.

Lemma plan_registry_sound_witness : registry_sound (st registered).
Proof.
  destruct (plan_registry_sound lent registered) as [Hs _].
  - exact (proj2 lent_sane).
  - exact registered_steps.
  - exact Hs.
Defined.

Lemma claim_plan_yield_contract_witness :
  get_accrued_plan_yield (env_at 31536100 9) 7 with_yield = Ok 189 with_yield.
Proof.
  destruct (claim_plan_yield_contract (env_at 31536100 9) admin 7 189 with_yield (after (claim_plan_yield (env_at 31536100 9) admin 7) with_yield))
    as (pos & p & _ & _ & _ & _ & _ & _ & _ & Hg & _).
  - vm_compute. reflexivity.
  - exact Hg.
Defined.
End witnesses.

End LendingYield.
