(* ===== verification/LendingAdmin.v ===== *)
(** Set-up and administration of the lending contract
    ([contracts/lending-contract/src/lib.rs]): initialisation, pools, roles,
    pause, whitelists, rate model, linked contracts, wrapped tokens, upgrade,
    and the plain views. *)
From S2P Require Import Prelude Host AccessControl Token MockToken.
From S2P Require Import LendingTypes LendingMath LendingCore LendingExample LendingPool.
From S2P Require Import LendingLoans LendingInsurance LendingYield.
Import AccessControl LendingTypes LendingMath LendingCore LendingPool.

Module LendingAdmin.

(** * The linked vault *)
Section vault.
Context {T : Type} `{TokenOps T}.

(** [verify_plan_ownership] of the linked vault, a foreign contract. *)
Variable vault_verify_plan_ownership : address -> Z -> address -> option bool.
Definition verify_plan_ownership (plan_id : Z) (caller : address) : M (world T) LendingError bool :=
  let! linked := load k_InheritanceContract in
  match linked with
  | Some contract => unwrap (vault_verify_plan_ownership contract plan_id caller)
  | None => ret false
  end.
End vault.

Section admin.
Context {T : Type} `{TokenOps T}.
Abbreviation X A := (M (world T) LendingError A).
Implicit Types (env : Env) (w : world T).

(** * Set-up *)

Definition new_pool (base multiplier cap : Z) : PoolState :=
  mkPool 0 0 0 base multiplier cap 0 0 DEFAULT_GRACE_PERIOD_SECONDS DEFAULT_LATE_FEE_RATE_BPS
    1000 0 false.
Definition new_reward_pool env : RewardPool := mkRewardPool 0 DEFAULT_REWARD_RATE (timestamp env) 0 0.

Definition initialize env (admin token : address) (base multiplier ratio cap : Z) : X unit :=
  do! require_auth env admin;
  let! stored := load k_Admin in
  do! reject_if (bool_decide (is_Some stored)) AlreadyInitialized;
  do! save (fun s => s <| k_Admin := Some admin |>);
  do! save (fun s => s <| k_Token := Some token |>);
  do! save (fun s => s <| k_SupportedAssets := Some [token] |>);
  do! save (fun s => s <| k_CollateralRatio := Some ratio |>);
  do! set_pool token (new_pool base multiplier cap);
  do! save (fun s => s <| k_RewardPool := <[token := new_reward_pool env]> (k_RewardPool s) |>);
  do! save (fun s => s <| k_InsuranceFund := Some (mkFund 0 0 0) |>);
  do! save (fun s => s <| k_InsurancePremiumRate := Some DEFAULT_INSURANCE_PREMIUM_RATE_BPS |>);
  zoom (AccessControl.assign_role admin Admin).

Definition supported (s : store) : list address := default [] (k_SupportedAssets s).

Definition add_asset_pool env (admin a : address) (base multiplier cap : Z) : X unit :=
  do! require_admin env admin;
  let! assets := load supported in
  do! reject_if (existsb (fun x => bool_decide (x = a)) assets) AlreadyInitialized;
  do! save (fun s => s <| k_SupportedAssets := Some (assets ++ [a]) |>);
  do! set_pool a (new_pool base multiplier cap);
  save (fun s => s <| k_RewardPool := <[a := new_reward_pool env]> (k_RewardPool s) |>).

(** * Roles and pause *)
Definition assign_role env (admin a : address) (role : Role) : X unit :=
  do! require_admin env admin;
  zoom (AccessControl.assign_role a role).
Definition revoke_role env (admin a : address) (role : Role) : X unit :=
  do! require_admin env admin;
  zoom (AccessControl.revoke_role a role).
Definition has_role (a : address) (role : Role) : X bool := zoom (AccessControl.has_role a role).
Definition get_roles (a : address) : X (list Role) := gets (fun w => roles_of (acl w) a).

Definition pause_asset_pool env (admin a : address) (paused : bool) : X unit :=
  do! require_admin env admin;
  let! pool := get_pool a in
  set_pool a (pool <| is_paused := paused |>).
Definition pause env (admin : address) : X unit :=
  do! require_admin env admin;
  zoom pause_contract.
Definition unpause env (admin : address) : X unit :=
  do! require_admin env admin;
  zoom unpause_contract.
Definition is_paused_contract : X bool := gets (fun w => is_contract_paused (acl w)).

(** * Parameters *)
Definition set_nft_token env (admin nft_token : address) : X unit :=
  do! require_admin env admin;
  save (fun s => s <| k_NFTToken := Some nft_token |>).

Definition whitelist_collateral env (admin token : address) : X unit :=
  do! require_admin env admin;
  save (fun s => s <| k_WhitelistedCollateral := <[token := true]> (k_WhitelistedCollateral s) |>).
Definition remove_collateral env (admin token : address) : X unit :=
  do! require_admin env admin;
  save (fun s => s <| k_WhitelistedCollateral := delete token (k_WhitelistedCollateral s) |>).

Definition add_reserve env (admin token : address) (ltv threshold : Z) : X unit :=
  do! require_admin env admin;
  do! reject_if ((ltv =? 0) || (threshold =? 0)) InvalidAmount;
  let! existing := load (fun s => k_Reserve s !! token) in
  do! reject_if (bool_decide (is_Some existing)) ReserveAlreadyExists;
  do! set_reserve token (mkReserve token ltv threshold 0 0 true);
  do! save (fun s => s <| k_WhitelistedCollateral := <[token := true]> (k_WhitelistedCollateral s) |>);
  emit (ReserveAddedEvent token ltv threshold).

Definition set_grace_period env (admin a : address) (seconds : Z) : X unit :=
  do! require_admin env admin;
  let! pool := get_pool a in
  set_pool a (pool <| grace_period_seconds := seconds |>).
Definition set_late_fee_rate env (admin a : address) (rate : Z) : X unit :=
  do! require_admin env admin;
  let! pool := get_pool a in
  set_pool a (pool <| late_fee_rate_bps := rate |>).

Definition set_rate_model env (admin : address) (base optimal slope1 slope2 factor : Z) : X unit :=
  do! require_admin env admin;
  do! reject_if ((optimal =? 0) || (10000 <=? optimal)) InvalidRateModel;
  do! reject_if (10000 <=? factor) InvalidRateModel;
  do! save (fun s => s <| k_RateModel := Some (mkRateModel base optimal slope1 slope2 factor) |>);
  emit (RateModelUpdatedEvent base optimal slope1 slope2 factor admin (timestamp env)).

Definition set_inheritance_contract env (admin contract : address) : X unit :=
  do! require_admin env admin;
  do! save (fun s => s <| k_InheritanceContract := Some contract |>);
  emit (ContractLinkedEvent LinkInherit contract).
Definition set_governance_contract env (admin contract : address) : X unit :=
  do! require_admin env admin;
  do! save (fun s => s <| k_GovernanceContract := Some contract |>);
  emit (ContractLinkedEvent LinkGov contract).

(** ** Wrapped tokens *)
Definition wrapped (s : store) : list address := default [] (k_supp_wrp s).
Definition is_wrapped_token_supported (token : address) : X bool :=
  load (fun s => existsb (fun x => bool_decide (x = token)) (wrapped s)).
Definition get_wrapped_tokens : X (list address) := load wrapped.
Definition add_supported_wrapped_token env (admin token : address) : X unit :=
  do! require_admin env admin;
  let! tokens := load wrapped in
  do! reject_if (existsb (fun x => bool_decide (x = token)) tokens) AssetNotSupported;
  do! save (fun s => s <| k_supp_wrp := Some (tokens ++ [token]) |>);
  emit (WrappedTokenEvent true token).
Definition remove_wrapped_token env (admin token : address) : X unit :=
  do! require_admin env admin;
  let! tokens := load wrapped in
  let found := existsb (fun x => bool_decide (x = token)) tokens in
  let updated := filter (fun x => x <> token) tokens in
  do! reject_if (negb found) AssetNotSupported;
  do! save (fun s => s <| k_supp_wrp := Some updated |>);
  emit (WrappedTokenEvent false token).

(** ** Upgrade: the code behind the address is replaced by the host, the
    storage stays. *)
Definition version : X Z := load (fun s => default CONTRACT_VERSION (k_Version s)).
Definition upgrade env (admin : address) : X unit :=
  do! require_initialized;
  do! require_admin env admin;
  let! old_version := version in
  let! new_version := unwrap (checked u32_max (old_version + 1)) in
  do! save (fun s => s <| k_Version := Some new_version |>);
  emit (ContractUpgradedEvent old_version new_version admin (timestamp env)).

(** * Views *)
Definition get_admin : X (option address) := load k_Admin.
Definition get_supported_assets : X (list address) := load supported.
Definition get_loan (who : address) : X (option LoanRecord) := load (fun s => k_Loan s !! who).
Definition get_loan_by_id (id : Z) : X (option LoanRecord) := load (fun s => k_LoanById s !! id).
Definition get_user_loan_ids (user : address) : X (list Z) := load (fun s => user_loans s user).
Definition get_grace_period (a : address) : X Z :=
  let! pool := get_pool a in ret (grace_period_seconds pool).
Definition get_late_fee_rate (a : address) : X Z :=
  let! pool := get_pool a in ret (late_fee_rate_bps pool).
Definition get_reserve_factor (a : address) : X Z :=
  let! pool := get_pool a in ret (reserve_factor_bps pool).
Definition get_reserve_balance (a : address) : X Z :=
  let! pool := get_pool a in ret (bad_debt_reserve pool).
Definition get_protocol_revenue (a : address) : X Z :=
  let! pool := get_pool a in ret (total_protocol_revenue pool).

(** A parameter of the rate model, or a fallback of the bootstrap pool. *)
Definition model_or_pool (f : RateModel -> Z) (g : PoolState -> Z) : X Z :=
  do! require_initialized;
  let! model := load k_RateModel in
  match model with
  | Some m => ret (f m)
  | None =>
    let! token := LendingInsurance.underlying_token in
    let! pool := get_pool token in
    ret (g pool)
  end.
Definition get_base_rate : X Z := model_or_pool rm_base_rate_bps base_rate_bps.
Definition get_optimal_utilization : X Z :=
  model_or_pool rm_optimal_utilization_bps utilization_cap_bps.
Definition get_slope1 : X Z := model_or_pool rm_slope1_bps multiplier_bps.
Definition get_slope2 : X Z :=
  model_or_pool rm_slope2_bps (fun p => Z.min u32_max (multiplier_bps p * 10)).
Definition simulate_rate (utilization_bps : Z) : X Z :=
  model_or_pool (fun m => two_slope_rate m utilization_bps)
    (fun p => calculate_dynamic_rate (base_rate_bps p) (multiplier_bps p) utilization_bps).

Definition get_borrow_rate : X Z :=
  do! require_initialized;
  let! token := LendingInsurance.underlying_token in
  let! pool := get_pool token in
  let! model := load k_RateModel in
  ret (rate_for model pool (get_utilization_bps (total_borrowed pool) (total_deposits pool))).
Definition get_supply_rate : X Z :=
  do! require_initialized;
  let! token := LendingInsurance.underlying_token in
  let! pool := get_pool token in
  let utilization_bps := get_utilization_bps (total_borrowed pool) (total_deposits pool) in
  let! borrow_rate := get_borrow_rate in
  let! model := load k_RateModel in
  let reserve_factor := match model with
                        | Some m => rm_reserve_factor_bps m
                        | None => reserve_factor_bps pool end in
  ret (as_u32 (default 0 (checked_mul128 (default 0 (checked_mul128 borrow_rate utilization_bps))
                            (saturating_sub 10000 reserve_factor)) / (10000 * 10000))).

(** * Administration as one call *)

Inductive admin_call :=
  | AddAssetPool (a : address) (base multiplier cap : Z)
  | AssignRole (a : address) (role : Role)
  | RevokeRole (a : address) (role : Role)
  | PauseAssetPool (a : address) (paused : bool)
  | Pause | Unpause
  | SetNftToken (nft : address)
  | WhitelistCollateral (token : address)
  | RemoveCollateral (token : address)
  | AddReserve (token : address) (ltv threshold : Z)
  | SetGracePeriod (a : address) (seconds : Z)
  | SetLateFeeRate (a : address) (rate : Z)
  | SetRateModel (base optimal slope1 slope2 factor : Z)
  | SetFlashLoanFee (fee : Z)
  | WhitelistReceiver (receiver : address)
  | RemoveReceiver (receiver : address)
  | SetReserveFactor (a : address) (factor : Z)
  | SetInheritance (contract : address)
  | SetGovernance (contract : address)
  | AddWrapped (token : address)
  | RemoveWrapped (token : address)
  | Upgrade.

Definition run_admin env (adm : address) (c : admin_call) : X unit :=
  match c with
  | AddAssetPool a b m cap => add_asset_pool env adm a b m cap
  | AssignRole a r => assign_role env adm a r
  | RevokeRole a r => revoke_role env adm a r
  | PauseAssetPool a b => pause_asset_pool env adm a b
  | Pause => pause env adm
  | Unpause => unpause env adm
  | SetNftToken n => set_nft_token env adm n
  | WhitelistCollateral t => whitelist_collateral env adm t
  | RemoveCollateral t => remove_collateral env adm t
  | AddReserve t l th => add_reserve env adm t l th
  | SetGracePeriod a g => set_grace_period env adm a g
  | SetLateFeeRate a r => set_late_fee_rate env adm a r
  | SetRateModel b o s1 s2 f => set_rate_model env adm b o s1 s2 f
  | SetFlashLoanFee f => set_flash_loan_fee env adm f
  | WhitelistReceiver r => whitelist_flash_loan_receiver env adm r
  | RemoveReceiver r => remove_flash_loan_receiver env adm r
  | SetReserveFactor a f => set_reserve_factor env adm a f
  | SetInheritance c => set_inheritance_contract env adm c
  | SetGovernance c => set_governance_contract env adm c
  | AddWrapped t => add_supported_wrapped_token env adm t
  | RemoveWrapped t => remove_wrapped_token env adm t
  | Upgrade => upgrade env adm
  end.

(** * Framing *)

(** The books of a pool. *)
Definition accounts (p : PoolState) : Z * Z * Z * Z * Z * Z :=
  (total_deposits p, total_shares p, total_borrowed p, retained_yield p, bad_debt_reserve p,
   total_protocol_revenue p).

(** Every pool is on the list of supported assets. *)
Definition pools_listed (s : store) : Prop :=
  forall a, is_Some (k_PoolState s !! a) -> a ∈ supported s.

(** What users own: the parts of the world administration must not touch. *)
Definition user_state (w : world T) :=
  (toks w, k_Shares (st w), k_Loan (st w), k_LoanById (st w), k_UserLoans (st w),
   k_LateFeesAccrued (st w), k_UserStake (st w), k_Insurance (st w), k_InsuranceFund (st w),
   k_PlanYield (st w), k_DepositLedger (st w)).

(** [w'] differs from [w] by configuration only. *)
Definition configures (w w' : world T) : Prop :=
  user_state w' = user_state w /\
  (pools_listed (st w) -> pools_listed (st w')) /\
  forall a p, pool_of w a = Some p -> pools_listed (st w) ->
    exists p', pool_of w' a = Some p' /\ accounts p' = accounts p.

(** No pool is written at all. *)
Lemma configures_same w w' :
  user_state w' = user_state w -> k_PoolState (st w') = k_PoolState (st w) ->
  k_SupportedAssets (st w') = k_SupportedAssets (st w) -> configures w w'.
Proof.
  intros Hu Hp Hs. split_and!; [done| |].
  - unfold pools_listed, supported. by rewrite Hp, Hs.
  - intros a p Ha _. unfold pool_of. rewrite Hp. eauto.
Qed.

(** One pool gets new parameters. *)
Lemma configures_pool w w' a p p' :
  user_state w' = user_state w -> k_PoolState (st w) !! a = Some p ->
  k_PoolState (st w') = <[a := p']> (k_PoolState (st w)) -> accounts p' = accounts p ->
  k_SupportedAssets (st w') = k_SupportedAssets (st w) -> configures w w'.
Proof.
  intros Hu Hp Hp' Hac Hs. split_and!; [done| |].
  - unfold pools_listed, supported. rewrite Hp', Hs. intros Hl b. rewrite lookup_insert_is_Some.
    intros [<-|[_ ?]]; [apply Hl; by eexists|by apply Hl].
  - intros b q Hb _. unfold pool_of in *. rewrite Hp'. destruct (decide (a = b)) as [<-|].
    + rewrite lookup_insert_eq. assert (q = p) as -> by congruence. eauto.
    + rewrite lookup_insert_ne by done. eauto.
Qed.

(** The authority behind an administrative call. *)
Definition administers env (w : world T) (adm : address) : Prop :=
  adm ∈ auths env /\ (Admin ∈ roles_of (acl w) adm \/ k_Admin (st w) = Some adm).

(** A role or pause change inside the access-control state. *)
Lemma zoom_configures {A} (m : M AccessControl.state LendingError A) x w w' :
  zoom m w = Ok x w' -> configures w w'.
Proof. rewrite zoom_Ok. intros (s & _ & ->). by apply configures_same. Qed.

Lemma require_admin_administers env adm w u w' :
  require_admin env adm w = Ok u w' -> administers env w adm /\ w' = w.
Proof. intros Hr. apply require_admin_Ok in Hr as (? & ? & ->). split; [split|]; auto. Qed.

Lemma existsb_In (x : address) xs : existsb (fun y => bool_decide (y = x)) xs = true <-> x ∈ xs.
Proof.
  rewrite existsb_exists. setoid_rewrite bool_decide_eq_true. setoid_rewrite <-list_elem_of_In.
  naive_solver.
Qed.

Lemma add_pool_configures a b m cap env w u w' :
  (let! assets := load supported in
   do! reject_if (existsb (fun x => bool_decide (x = a)) assets) AlreadyInitialized;
   do! save (fun s => s <| k_SupportedAssets := Some (assets ++ [a]) |>);
   do! set_pool a (new_pool b m cap);
   save (fun s => s <| k_RewardPool := <[a := new_reward_pool env]> (k_RewardPool s) |>)) w
    = Ok u w' -> configures w w'.
Proof.
  intros Hr. unfold set_pool in Hr. run_inv.
  match goal with He : existsb _ _ = false |- _ =>
    assert (a ∉ supported (st w)) as Hnew by (rewrite <-existsb_In; congruence) end.
  split_and!; [done| |].
  - unfold pools_listed, supported in *. cbn. intros Hl c. rewrite lookup_insert_is_Some, elem_of_app.
    intros [<-|[_ Hc]]; [right; by apply list_elem_of_singleton|left; by apply Hl].
  - intros c p Hc Hl. unfold pool_of in *. cbn.
    assert (a <> c) by (intros <-; apply Hnew, Hl; by eexists).
    rewrite lookup_insert_ne by done. eauto.
Qed.

Lemma run_admin_configures env adm c w w' :
  run_admin env adm c w = Ok tt w' -> administers env w adm /\ configures w w'.
Proof.
  destruct c; simpl; intros Hr;
    try (apply set_reserve_factor_Ok in Hr as (p & Hp & ? & ? & _ & ->); split;
         [split; auto|by eapply configures_pool]);
    try (unfold upgrade in Hr; run_bind Hr;
         match goal with Hi : require_initialized _ = _ |- _ => apply require_initialized_Ok in Hi as [_ ->] end);
    run_bind Hr;
    match goal with Ha : require_admin _ _ _ = _ |- _ => apply require_admin_administers in Ha as [? ->] end;
    (split; [done|]).
  all: try (by eapply zoom_configures).
  all: try (by unfold set_reserve, version in Hr; cbv zeta in Hr; run_inv; apply configures_same).
  all: try (unfold set_pool in Hr; run_inv; by eapply configures_pool).
  by eapply add_pool_configures.
Qed.

Lemma assign_role_holds {E} (a : address) (r : Role) (s s' : AccessControl.state) u :
  @AccessControl.assign_role E a r s = Ok u s' -> r ∈ roles_of s' a.
Proof.
  unfold AccessControl.assign_role, bind, gets. destruct (holds r (roles_of s a)) eqn:Hh.
  - intros [= <- <-]. by apply holds_spec.
  - intros [= <- <-]. unfold roles_of; cbn. rewrite lookup_insert_eq. simpl.
    apply elem_of_app. right. by apply list_elem_of_singleton.
Qed.

Lemma initialize_Ok env adm tok b m r cap w u w' :
  initialize env adm tok b m r cap w = Ok u w' ->
  k_Admin (st w) = None /\ adm ∈ auths env /\
  exists s', AccessControl.assign_role (E := LendingError) adm Admin (acl w) = Ok tt s' /\
    w' = w <| st := (st w)
      <| k_Admin := Some adm |> <| k_Token := Some tok |> <| k_SupportedAssets := Some [tok] |>
      <| k_CollateralRatio := Some r |>
      <| k_PoolState := <[tok := new_pool b m cap]> (k_PoolState (st w)) |>
      <| k_RewardPool := <[tok := new_reward_pool env]> (k_RewardPool (st w)) |>
      <| k_InsuranceFund := Some (mkFund 0 0 0) |>
      <| k_InsurancePremiumRate := Some DEFAULT_INSURANCE_PREMIUM_RATE_BPS |> |>
      <| acl := s' |>.
Proof.
  intros Hr. unfold initialize, set_pool in Hr.
  do 11 run_bind Hr. apply zoom_Ok in Hr as (s' & Hs' & ->). run_inv. bool_hyps.
  split_and!; [by apply eq_None_not_Some|done|]. by exists s'.
Qed.

(** * Properties *)

(** Every administrative call is signed by an administrator and changes configuration
    only: balances, shares, loans, stakes, policies and plan positions stay, every pool
    keeps its books, and no pool is created twice. *)
Theorem administration_keeps_funds env adm c w w' :
  pools_listed (st w) -> run_admin env adm c w = Ok tt w' ->
  administers env w adm /\ user_state w' = user_state w /\ pools_listed (st w') /\
  forall a p, pool_of w a = Some p ->
    exists p', pool_of w' a = Some p' /\ accounts p' = accounts p.
Proof.
  intros Hl Hr. apply run_admin_configures in Hr as [Ha (Hu & Hp & Hk)].
  split_and!; [done|done|by apply Hp|]. intros a p Hap. by apply Hk.
Qed.

(** Initialisation needs a fresh contract and the administrator's signature, opens an
    empty pool for the token, and is refused ever after. *)
Theorem initialize_once_only env adm tok b m r cap w w' :
  initialize env adm tok b m r cap w = Ok tt w' ->
  k_Admin (st w) = None /\ adm ∈ auths env /\ k_Admin (st w') = Some adm /\
  Admin ∈ roles_of (acl w') adm /\ pool_of w' tok = Some (new_pool b m cap) /\
  (forall env' adm' tok' b' m' r' cap' w'',
     initialize env' adm' tok' b' m' r' cap' w' <> Ok tt w'').
Proof.
  intros Hr. apply initialize_Ok in Hr as (Hn & Hau & s' & Hs' & ->).
  split_and!; try done.
  - by eapply assign_role_holds.
  - unfold pool_of. cbn. by rewrite lookup_insert_eq.
  - intros env' adm' tok' b' m' r' cap' w'' Hr'. by apply initialize_Ok in Hr' as (? & _).
Qed.
End admin.

(** * Witnesses *)
Section witnesses.
Import LendingExample LendingLoans.

Lemma administration_keeps_funds_witness :
  exists p', pool_of (after (run_admin (env_at 100 9) admin (AddAssetPool gold 500 2000 8000)) lent) usd
    = Some p' /\ total_borrowed p' = 20000.
Proof.
  destruct (administration_keeps_funds (env_at 100 9) admin (AddAssetPool gold 500 2000 8000) lent
    (after (run_admin (env_at 100 9) admin (AddAssetPool gold 500 2000 8000)) lent))
    as (_ & _ & _ & Hk).
  - intros a Ha.
    assert (k_PoolState (st lent) = {[ usd := default fresh_pool (k_PoolState (st lent) !! usd) ]})
      as Hp by (vm_compute; reflexivity).
    rewrite Hp in Ha. apply lookup_singleton_is_Some in Ha as <-.
    apply (bool_decide_unpack _). vm_compute. exact I.
  - vm_compute. reflexivity.
  - destruct (Hk usd (default fresh_pool (k_PoolState (st lent) !! usd))) as (p' & Hp' & Hac).
    + vm_compute. reflexivity.
    + exists p'. split; [exact Hp'|]. vm_compute in Hac. injection Hac as _ _ Hb _ _ _. exact Hb.
Defined.

Definition blank : world MockToken.network := mkWorld _ empty_store AccessControl.empty [] network0 ∅.
Lemma initialize_once_only_witness :
  forall w'', initialize (env_at 2 2) bob gold 1 2 3 4
    (after (initialize (env_at 1 1) admin usd 500 2000 15000 8000) blank) <> Ok tt w''.
Proof.
  destruct (initialize_once_only (env_at 1 1) admin usd 500 2000 15000 8000 blank
    (after (initialize (env_at 1 1) admin usd 500 2000 15000 8000) blank)) as (_ & _ & _ & _ & _ & Hn).
  - vm_compute. reflexivity.
  - exact (Hn (env_at 2 2) bob gold 1 2 3 4).
Defined.
End witnesses.

End LendingAdmin.
