(* ===== verification/LendingSystem.v ===== *)
(** The lending contract as one system: every entry point that changes state,
    as a call of one step relation, with the invariants that hold along every
    sequence of invocations, including the ones a flash-loan receiver makes
    from inside its callback. *)
From S2P Require Import Prelude Host AccessControl Token MockToken.
From S2P Require Import LendingTypes LendingMath LendingCore LendingExample LendingPool.
From S2P Require Import LendingLoans LendingRewards LendingInsurance LendingYield LendingAdmin.
Import AccessControl LendingTypes LendingMath LendingCore LendingPool LendingLoans.
Import LendingRewards LendingInsurance LendingYield LendingAdmin.

Module LendingSystem.

(** * Calls *)

Inductive call :=
  | Initialize (adm tok : address) (base multiplier ratio cap : Z)
  | Administer (adm : address) (c : admin_call)
  | Deposit (d a : address) (amount : Z)
  | Withdraw (d a : address) (shares : Z)
  | WithdrawPriority (c a : address) (amount : Z)
  | FundRetainedYield (f a : address) (amount : Z)
  | PayFromReserve (adm a to : address) (amount : Z)
  | Replenish (adm a : address) (amount : Z)
  | AccrueInterest (id : Z)
  | FlashLoan (i r a : address) (amount : Z)
  | Borrow (who a : address) (amount : Z) (tok : address) (collateral duration : Z)
  | Repay (who : address)
  | Liquidate (liquidator who : address) (amount : Z)
  | LiquidateBadDebt (adm who : address)
  | Refinance (who : address) (duration : Z)
  | Consolidate (who : address) (ids : list Z) (duration : Z)
  | Split (who : address) (amounts : list Z) (duration : Z)
  | Stake (user a : address) (amount : Z)
  | Unstake (user a : address) (amount : Z)
  | ClaimRewards (user a : address)
  | PendingRewards (user a : address)
  | SetRewardRate (adm a : address) (rate : Z)
  | SetPremiumRate (adm : address) (rate : Z)
  | Purchase (who : address) (id : Z)
  | ClaimInsurance (id : Z)
  | CancelInsurance (who : address) (id : Z)
  | DepositFund (adm : address) (amount : Z)
  | WithdrawFund (adm : address) (amount : Z)
  | RegisterYield (c : address) (id : Z) (a : address) (principal : Z)
  | UnregisterYield (c : address) (id : Z)
  | BoostYield (adm : address) (id boost : Z)
  | ClaimYield (c : address) (id : Z)
  | ClaimYieldBatch (c : address) (ids : list Z).

Section system.
Context {T : Type} `{TokenOps T}.
Abbreviation X A := (M (world T) LendingError A).
Implicit Types (env : Env) (w : world T).
Variable execute_operation :
  Env -> address -> Z -> Z -> address -> world T -> option (world T).

Definition discard {A} (m : X A) : X unit := do! m; ret tt.

Definition run_call env (c : call) : X unit :=
  match c with
  | Initialize adm tok b m r cap => initialize env adm tok b m r cap
  | Administer adm c => run_admin env adm c
  | Deposit d a x => discard (deposit env d a x)
  | Withdraw d a x => discard (withdraw env d a x)
  | WithdrawPriority c a x => discard (withdraw_priority env c a x)
  | FundRetainedYield f a x => discard (fund_retained_yield env f a x)
  | PayFromReserve adm a to x => pay_from_reserve env adm a to x
  | Replenish adm a x => discard (replenish_bad_debt_reserve env adm a x)
  | AccrueInterest id => accrue_interest_with_reserve env id
  | FlashLoan i r a x => flash_loan execute_operation env i r a x
  | Borrow who a x tok col dur => discard (borrow env who a x tok col dur)
  | Repay who => discard (repay env who)
  | Liquidate l who x => discard (liquidate env l who x)
  | LiquidateBadDebt adm who => discard (liquidate_bad_debt env adm who)
  | Refinance who dur => discard (refinance_loan env who dur)
  | Consolidate who ids dur => discard (consolidate_loans env who ids dur)
  | Split who xs dur => discard (split_loan env who xs dur)
  | Stake u a x => stake_lp_tokens env u a x
  | Unstake u a x => unstake_lp_tokens env u a x
  | ClaimRewards u a => discard (claim_rewards env u a)
  | PendingRewards u a => discard (get_pending_rewards env u a)
  | SetRewardRate adm a r => set_reward_rate env adm a r
  | SetPremiumRate adm r => set_insurance_premium_rate env adm r
  | Purchase who id => discard (purchase_loan_insurance env who id)
  | ClaimInsurance id => discard (claim_insurance env id)
  | CancelInsurance who id => discard (cancel_insurance env who id)
  | DepositFund adm x => deposit_to_insurance_fund env adm x
  | WithdrawFund adm x => withdraw_from_insurance_fund env adm x
  | RegisterYield c id a pr => register_plan_yield env c id a pr
  | UnregisterYield c id => unregister_plan_yield env c id
  | BoostYield adm id b => set_plan_yield_boost env adm id b
  | ClaimYield c id => discard (claim_plan_yield env c id)
  | ClaimYieldBatch c ids => discard (claim_plan_yield_batch env c ids)
  end.

Lemma discard_Ok {A} (m : X A) u w w' : discard m w = Ok u w' -> exists a, m w = Ok a w'.
Proof. unfold discard. intros Hr. run_bind Hr. apply ret_Ok in Hr as [_ ->]. eauto. Qed.

(** One step: an invocation that returns, or activity of the token and NFT
    contracts that does not involve this contract's storage. *)
Inductive sys_step (w w' : world T) : Prop :=
  | sys_call env c : run_call env c w = Ok tt w' -> sys_step w w'
  | sys_world t n : w' = w <| toks := t |> <| nfts := n |> -> sys_step w w'.

(** * Framing *)

(** The part of the world the share ledger and the access control live in. *)
Definition core (w : world T) :=
  (k_PoolState (st w), k_Shares (st w), k_SupportedAssets (st w), k_Admin (st w), acl w).

(** [w'] differs from [w] in no share, share total, pool list or role. *)
Definition plain (w w' : world T) : Prop :=
  k_Shares (st w') = k_Shares (st w) /\
  (forall a, total_shares <$> k_PoolState (st w') !! a = total_shares <$> k_PoolState (st w) !! a) /\
  k_SupportedAssets (st w') = k_SupportedAssets (st w) /\ k_Admin (st w') = k_Admin (st w) /\
  acl w' = acl w.

Lemma plain_core w w' : core w' = core w -> plain w w'.
Proof. intros [= Hp Hs Hl Ha Hac]. unfold plain. by rewrite Hp, Hs, Hl, Ha, Hac. Qed.
Lemma plain_refl w : plain w w.
Proof. by apply plain_core. Qed.
Lemma plain_trans w1 w2 w3 : plain w1 w2 -> plain w2 w3 -> plain w1 w3.
Proof.
  intros (? & Ht1 & ? & ? & ?) (? & Ht2 & ? & ? & ?). split_and!; congruence.
Qed.

(** One pool rewritten without touching its share total. *)
Lemma plain_pool w w' a p p' :
  k_PoolState (st w) !! a = Some p -> total_shares p' = total_shares p ->
  k_PoolState (st w') = <[a := p']> (k_PoolState (st w)) ->
  k_Shares (st w') = k_Shares (st w) -> k_SupportedAssets (st w') = k_SupportedAssets (st w) ->
  k_Admin (st w') = k_Admin (st w) -> acl w' = acl w -> plain w w'.
Proof.
  intros Hp Ht Hps Hs Hl Ha Hac. split_and!; try done. intros b. rewrite Hps.
  destruct (decide (a = b)) as [<-|]; [|by rewrite lookup_insert_ne].
  rewrite lookup_insert_eq, Hp. simpl. congruence.
Qed.

Lemma configured_plain w w' :
  k_Shares (st w') = k_Shares (st w) -> k_PoolState (st w') = k_PoolState (st w) ->
  k_SupportedAssets (st w') = k_SupportedAssets (st w) -> k_Admin (st w') = k_Admin (st w) ->
  acl w' = acl w -> plain w w'.
Proof. intros Hs Hp Hl Ha Hac. apply plain_core. unfold core. congruence. Qed.

Lemma keeps_close_loan env who u l : keeps core (close_loan env who u l).
Proof.
  unfold close_loan, burn_loan_nft, remove_user_loan, call_nft. keeps_tac.
Qed.
Lemma keeps_split_part env l who out due rate ids x :
  keeps core (split_part env l who out due rate ids x).
Proof.
  unfold split_part, increment_loan_id, get_next_loan_id, put_loan, mint_loan_nft, add_user_loan, call_nft.
  keeps_tac.
Qed.
Lemma keeps_visit env who acc id : keeps core (consolidate_visit env who acc id).
Proof. unfold consolidate_visit, calculate_outstanding_balance, agree. keeps_tac. Qed.

(** Read the framing of the loops of [consolidate_loans] and [split_loan]. *)
Ltac loop_cores :=
  repeat match goal with
  | Hf : foldM (consolidate_visit _ _) _ _ _ = _ |- _ =>
    apply (keeps_Ok core) in Hf; [|apply keeps_foldM; intros; apply keeps_visit]
  | Hf : foldM (close_loan _ _) _ _ _ = _ |- _ =>
    apply (keeps_Ok core) in Hf; [|apply keeps_foldM; intros; apply keeps_close_loan]
  | Hf : foldM (split_part _ _ _ _ _ _) _ _ _ = _ |- _ =>
    apply (keeps_Ok core) in Hf; [|apply keeps_foldM; intros; apply keeps_split_part]
  | Hf : foldM add64 _ _ _ = _ |- _ => apply sum64_Ok in Hf; [destruct Hf as [-> _]|lia]
  end;
  unfold core in *; cbn in *; simplify_eq.

(** The lock is put back: the access-control state ends as it began. *)
Lemma relock (s : AccessControl.state) :
  ReentrancyLock s = None ->
  mkState (Roles s) (Blacklisted s) None (Paused s) (PauseLock s) (ActiveOps s) (ContractVersion s) = s.
Proof. destruct s; cbn. by intros ->. Qed.

(** A run whose last effect on the pools is one rewritten pool. *)
Ltac pool_plain :=
  match goal with |- plain _ ?w' =>
    let v := eval cbn in (k_PoolState (st w')) in
    lazymatch v with
    | <[?a := ?p']> _ =>
      match goal with Hp : k_PoolState _ !! a = Some ?p |- _ =>
        eapply (plain_pool _ _ a p p'); cbn; [congruence|done|congruence|congruence..|] end
    end
  end.
Ltac acl_back :=
  repeat match goal with Ha : acl _ = _ |- _ => rewrite Ha; clear Ha end; cbn; by apply relock.

Lemma consolidate_plain env who ids dur r w w' :
  consolidate_loans env who ids dur w = Ok r w' -> plain w w' /\ ReentrancyLock (acl w) = None.
Proof.
  unfold consolidate_loans, set_pool. intros Hr. run_inv. bool_hyps. split; [|done]. loop_cores.
  pool_plain. acl_back.
Qed.

Lemma split_plain env who xs dur r w w' :
  split_loan env who xs dur w = Ok r w' -> plain w w' /\ ReentrancyLock (acl w) = None.
Proof.
  unfold split_loan, set_pool, calculate_outstanding_balance. intros Hr. run_inv. bool_hyps.
  split; [|done]. loop_cores. pool_plain. acl_back.
Qed.

(** The calls that touch the share ledger, the pool list or the roles. *)
Definition loud (c : call) : bool :=
  match c with
  | Initialize _ _ _ _ _ _ | Administer _ _ | Deposit _ _ _ | Withdraw _ _ _ | FlashLoan _ _ _ _ => true
  | _ => false
  end.

(** A pool of the final state named by the last store. *)
Ltac one_pool :=
  match goal with
  | Hp : k_PoolState _ !! ?a = Some ?p |- plain _ _ =>
    eapply (plain_pool _ _ a p); cbn; [done| |done..]; done
  | _ => apply plain_core; unfold core; cbn; done
  end.

(** The same when only the final store is described. *)
Ltac st_pool Hst Hac Hp :=
  eapply (plain_pool _ _ _ _ _ Hp); rewrite ?Hst; cbn; [|done..|exact Hac].

Lemma keeps_any {A B} (f : world T -> B) (m : X A) : keeps (fun w => w) m -> keeps f m.
Proof. intros Hm w. specialize (Hm w). by destruct (m w) as [a w'|e w'|]; [rewrite Hm..|]. Qed.
Lemma keeps_require_admin {B} (f : world T -> B) env adm : keeps f (require_admin (T := T) env adm).
Proof.
  apply keeps_any. unfold require_admin. apply keeps_bind; [apply keeps_require_auth|intros _].
  apply keeps_zoom_all. unfold require_role, AccessControl.has_role. keeps_tac.
Qed.

(** The insurance functions write nothing of the core. *)
Ltac insurance_keeps Hr :=
  apply (keeps_Ok core) in Hr;
  [by apply plain_core
  |unfold set_insurance_premium_rate, purchase_loan_insurance, claim_insurance, cancel_insurance,
     deposit_to_insurance_fund, withdraw_from_insurance_fund, pay_refund, load_fund, premium_rate,
     init_insurance_fund_if_needed, LendingInsurance.underlying_token;
   repeat first [apply keeps_require_admin | keeps_step | apply keeps_modify; by intros [[] ? ? ? ?];
                 repeat case_match]].

Lemma batch_plain env c ids acc rs w w' :
  foldM (claim_or_zero env c) ids acc w = Ok rs w' -> plain w w'.
Proof.
  revert acc w. induction ids as [|id ids IH]; intros acc w Hr; simpl in Hr.
  - apply ret_Ok in Hr as [_ ->]. apply plain_refl.
  - run_bind Hr. match goal with Hc : claim_or_zero _ _ _ _ _ = Ok _ _ |- _ =>
      apply claim_or_zero_Ok in Hc as (v & -> & [[-> ->]|Hv]) end; [by eapply IH|].
    apply IH in Hr. eapply plain_trans; [|exact Hr].
    apply claim_inner_Ok in Hv as (pos & p & _ & _ & Hp & _ & _ & _ & _ & _ & ->).
    unfold pool_of in Hp. one_pool.
Qed.

Lemma quiet_plain env c w w' :
  loud c = false -> run_call env c w = Ok tt w' -> plain w w'.
Proof.
  destruct c; try done; intros _; simpl; intros Hr; try (apply discard_Ok in Hr as [r Hr]).
  - apply withdraw_priority_Ok in Hr as (p & t' & Hp & _ & _ & _ & _ & _ & _ & ->). one_pool.
  - apply fund_retained_yield_Ok in Hr as (p & t' & Hp & _ & _ & _ & _ & _ & _ & ->). one_pool.
  - apply pay_from_reserve_Ok in Hr as (p & t' & Hp & _ & _ & _ & _ & ->). one_pool.
  - apply replenish_Ok in Hr as (p & t' & Hp & _ & _ & _ & _ & ->). one_pool.
  - apply accrue_Ok in Hr as (a & p & ry & bdr & rev & Hp & ->). one_pool.
  - apply borrow_Ok in Hr as (p & due & rate & rs & ns & t1 & t2 & Hr). cbv zeta in Hr.
    destruct_and! Hr. subst w'. one_pool.
  - apply repay_Ok in Hr as (l & p & p' & rs & t1 & t2 & Hr). cbv zeta in Hr.
    destruct Hr as (_ & _ & _ & Hp & _ & _ & (prot & res & _ & _ & _ & _ & Hp') & _ & _ & _ & Hac & Hst).
    st_pool Hst Hac Hp. by rewrite Hp'.
  - apply liquidate_Ok in Hr as (l & p & t1 & t2 & _ & _ & _ & Hp & _ & _ & _ & _ & _ & _ & _ & _ & _ & _ & Hac & Hst).
    st_pool Hst Hac Hp. done.
  - apply liquidate_bad_debt_Ok in Hr as (l & p & _ & _ & _ & Hp & _ & Hr). cbv zeta in Hr.
    destruct Hr as (_ & _ & _ & Hac & Hst). st_pool Hst Hac Hp. done.
  - apply refinance_Ok in Hr as (l & p & tm & b & t1 & Hr). cbv zeta in Hr.
    destruct Hr as (_ & _ & _ & Hp & _ & _ & _ & _ & _ & _ & _ & _ & Hac & Hst).
    st_pool Hst Hac Hp. done.
  - by apply consolidate_plain in Hr as [? _].
  - by apply split_plain in Hr as [? _].
  - apply stake_Ok in Hr as (_ & _ & _ & ->). one_pool.
  - apply unstake_Ok in Hr as (_ & _ & _ & _ & ->). one_pool.
  - apply claim_rewards_Ok in Hr as (_ & _ & _ & _ & ->). one_pool.
  - apply calculate_pending_rewards_Ok in Hr as [_ ->]. one_pool.
  - apply set_reward_rate_Ok in Hr as (_ & _ & _ & ->). one_pool.
  - insurance_keeps Hr.
  - insurance_keeps Hr.
  - insurance_keeps Hr.
  - insurance_keeps Hr.
  - insurance_keeps Hr.
  - insurance_keeps Hr.
  - apply register_Ok in Hr as (q & idx & _ & _ & _ & _ & _ & _ & _ & _ & _ & ->). one_pool.
  - apply unregister_Ok in Hr as (q & _ & _ & ->). one_pool.
  - apply set_boost_Ok in Hr as (q & _ & _ & _ & ->). one_pool.
  - apply claim_yield_Ok in Hr as [_ Hr].
    apply claim_inner_Ok in Hr as (pos & p & _ & _ & Hp & _ & _ & _ & _ & _ & ->).
    unfold pool_of in Hp. one_pool.
  - apply batch_Ok in Hr as (_ & _ & Hr). by eapply batch_plain.
Qed.

(** ** Administrative calls *)
Definition admin_frame (w w' : world T) : Prop :=
  k_Admin (st w') = k_Admin (st w) /\ ReentrancyLock (acl w') = ReentrancyLock (acl w) /\
  forall a p', pool_of w a = None -> pool_of w' a = Some p' -> total_shares p' = 0.

Lemma frame_same w w' :
  k_Admin (st w') = k_Admin (st w) -> ReentrancyLock (acl w') = ReentrancyLock (acl w) ->
  k_PoolState (st w') = k_PoolState (st w) -> admin_frame w w'.
Proof. intros Ha Hl Hp. split_and!; [done..|]. intros a p'. unfold pool_of. rewrite Hp. congruence. Qed.

Lemma frame_pool w w' a p p' :
  k_PoolState (st w) !! a = Some p -> k_PoolState (st w') = <[a := p']> (k_PoolState (st w)) ->
  k_Admin (st w') = k_Admin (st w) -> acl w' = acl w -> admin_frame w w'.
Proof.
  intros Hp Hps Ha Hac. split_and!; [done|by rewrite Hac|]. intros b q. unfold pool_of. rewrite Hps.
  destruct (decide (a = b)) as [<-|]; [congruence|]. rewrite lookup_insert_ne by done. congruence.
Qed.

Lemma zoom_frame {A} (m : M AccessControl.state LendingError A) x w w' :
  (forall s s' u, m s = Ok u s' -> ReentrancyLock s' = ReentrancyLock s) ->
  zoom m w = Ok x w' -> admin_frame w w'.
Proof. intros Hm. rewrite zoom_Ok. intros (s & Hs & ->). apply frame_same; [done| |done]. by eapply Hm. Qed.

Lemma assign_role_lock a r (s s' : AccessControl.state) u :
  AccessControl.assign_role (E := LendingError) a r s = Ok u s' -> ReentrancyLock s' = ReentrancyLock s.
Proof.
  unfold AccessControl.assign_role, bind, gets, modify, ret. by destruct (holds _ _); intros [= <- <-].
Qed.
Lemma revoke_role_lock a r (s s' : AccessControl.state) u :
  AccessControl.revoke_role (E := LendingError) a r s = Ok u s' ->
  ReentrancyLock s = None /\ ReentrancyLock s' = None.
Proof.
  unfold AccessControl.revoke_role, reentrancy_enter_or_panic, reentrancy_exit, bind, gets, modify,
    panic_if, trap, ret. destruct (locked s) eqn:Hl; [done|]. intros [= <- <-].
  split; [by apply locked_false|done].
Qed.
Lemma pause_lock_free (s s' : AccessControl.state) u :
  pause_contract (E := LendingError) s = Ok u s' \/ unpause_contract (E := LendingError) s = Ok u s' ->
  ReentrancyLock s' = ReentrancyLock s.
Proof.
  unfold pause_contract, unpause_contract, bind, gets, modify, when, trap, ret.
  intros [Hr|Hr]; [destruct (negb _); [done|]|]; by injection Hr as <- <-.
Qed.

Lemma run_admin_frame env adm c w w' : run_admin env adm c w = Ok tt w' -> admin_frame w w'.
Proof.
  destruct c; simpl; intros Hr;
    try (apply set_reserve_factor_Ok in Hr as (p & Hp & ? & ? & _ & ->); by eapply frame_pool);
    try (unfold upgrade in Hr; run_bind Hr;
         match goal with Hi : require_initialized _ = _ |- _ => apply require_initialized_Ok in Hi as [_ ->] end);
    run_bind Hr;
    match goal with Ha : require_admin _ _ _ = _ |- _ => apply require_admin_administers in Ha as [? ->] end.
  all: try (by unfold set_reserve, version in Hr; cbv zeta in Hr; run_inv; apply frame_same).
  all: try (unfold set_pool in Hr; run_inv; by eapply frame_pool).
  - unfold set_pool in Hr. run_inv. split_and!; [done..|]. intros b p'. unfold pool_of. cbn.
    destruct (decide (a = b)) as [<-|].
    + rewrite lookup_insert_eq. by intros _ [= <-].
    + rewrite lookup_insert_ne by done. congruence.
  - eapply zoom_frame; [|exact Hr]. intros. by eapply assign_role_lock.
  - eapply zoom_frame; [|exact Hr]. intros s s' v Hs. apply revoke_role_lock in Hs as [-> ->]. done.
  - eapply zoom_frame; [|exact Hr]. intros. eapply pause_lock_free. eauto.
  - eapply zoom_frame; [|exact Hr]. intros. eapply pause_lock_free. eauto.
Qed.

(** * The share ledger *)

Definition shares_in (a : address) (k : address * address) (n : Z) : Z :=
  if decide (snd k = a) then n else 0.
Definition user_shares (s : store) (a : address) : Z := msum (shares_in a) (k_Shares s).

(** What a pool of [n] shares in total owes to users holding [u] of them: none
    yet, or all but the locked minimum liquidity. *)
Definition shares_match (n u : Z) : Prop := (n = 0 /\ u = 0) \/ n = MINIMUM_LIQUIDITY + u.
Definition share_books (s : store) : Prop :=
  (forall k n, k_Shares s !! k = Some n -> 0 <= n) /\
  forall a, shares_match (from_option total_shares 0 (k_PoolState s !! a)) (user_shares s a).

Record ledger_inv (w : world T) : Prop := {
  li_books : share_books (st w);
  li_listed : pools_listed (st w);
  li_fresh : k_Admin (st w) = None ->
    k_PoolState (st w) = ∅ /\ forall a, Admin ∉ roles_of (acl w) a
}.

(** What a receiver may change while the lock is held. *)
Definition frozen (w w' : world T) : Prop :=
  k_Shares (st w') = k_Shares (st w) /\
  ReentrancyLock (acl w') = ReentrancyLock (acl w) /\
  forall a p, pool_of w a = Some p ->
    exists p', pool_of w' a = Some p' /\ total_shares p' = total_shares p.

Lemma user_shares_insert s s' a d n b :
  k_Shares s' = <[(d, a) := n]> (k_Shares s) ->
  user_shares s' b = user_shares s b + (if decide (a = b) then n - shares_of s a d else 0).
Proof.
  intros Hs. unfold user_shares, shares_of. rewrite Hs, msum_insert. unfold shares_in; simpl.
  destruct (k_Shares s !! (d, a)); simpl; case_decide; simpl; lia.
Qed.

Lemma user_shares_nonneg s a : share_books s -> 0 <= user_shares s a.
Proof.
  intros [Hn _]. apply msum_nonneg. intros k n Hk. unfold shares_in. case_decide; [by eapply Hn|lia].
Qed.
Lemma shares_of_bounds s a d : share_books s -> 0 <= shares_of s a d <= user_shares s a.
Proof.
  intros Hb. pose proof (user_shares_nonneg s a Hb) as H0. destruct Hb as [Hn _].
  unfold shares_of. destruct (k_Shares s !! (d, a)) as [n|] eqn:Hd; simpl; [|lia].
  split; [by eapply Hn|].
  assert (forall k m, k_Shares s !! k = Some m -> 0 <= shares_in a k m) as Hp.
  { intros k m Hk. unfold shares_in. case_decide; [by eapply Hn|lia]. }
  pose proof (msum_lookup_le (shares_in a) _ _ n Hp Hd) as Hle.
  unfold shares_in in Hle at 1. simpl in Hle. by rewrite decide_True in Hle.
Qed.

(** A pool and a user's shares rewritten together. *)
Lemma books_update s s' a d p p' n :
  k_PoolState s !! a = Some p -> k_PoolState s' = <[a := p']> (k_PoolState s) ->
  k_Shares s' = <[(d, a) := n]> (k_Shares s) -> 0 <= n ->
  shares_match (total_shares p') (user_shares s a + (n - shares_of s a d)) ->
  share_books s -> share_books s'.
Proof.
  intros Hp Hps Hs Hn0 Hm [Hn Hb]. split.
  - intros k m. rewrite Hs. intros [[_ <-]|[_ ?]]%lookup_insert_Some; [done|by eapply Hn].
  - intros b. rewrite (user_shares_insert s s' a d n b Hs), Hps.
    destruct (decide (a = b)) as [<-|].
    + by rewrite lookup_insert_eq.
    + rewrite lookup_insert_ne by done. replace (user_shares s b + 0) with (user_shares s b) by lia.
      apply Hb.
Qed.

Lemma deposit_inv env d a x w r w' :
  deposit env d a x w = Ok r w' -> ledger_inv w ->
  ledger_inv w' /\ ReentrancyLock (acl w) = None /\ ReentrancyLock (acl w') = None.
Proof.
  intros Hr [Hb Hl Hf].
  apply deposit_Ok in Hr as (p & ts & t' & Hp & _ & _ & _ & Hne & Hlk & Hm & _ & _ & Hu & _ & ->).
  split; [|done]. pose proof (user_shares_nonneg _ a Hb) as H0.
  pose proof (proj2 Hb a) as Hma. rewrite Hp in Hma. simpl in Hma. split.
  - eapply (books_update (st w) _ a d p); cbn; [done|done|done| | |done]; [unfold u64 in Hu; lia|].
    replace (_ + (_ - _)) with (user_shares (st w) a + r) by lia.
    unfold mints, shares_match, MINIMUM_LIQUIDITY in *.
    destruct (Z.eqb_spec (total_shares p) 0); cbn; lia.
  - unfold pools_listed, supported in *; cbn. intros b. rewrite lookup_insert_is_Some.
    intros [<-|[_ ?]]; apply Hl; [by eexists|done].
  - cbn. intros Ha. destruct (Hf Ha) as [He _]. rewrite He in Hp. discriminate Hp.
Qed.

Lemma withdraw_inv env d a x w r w' :
  withdraw env d a x w = Ok r w' -> ledger_inv w ->
  ledger_inv w' /\ ReentrancyLock (acl w) = None /\ ReentrancyLock (acl w') = None.
Proof.
  intros Hr [Hb Hl Hf].
  apply withdraw_Ok in Hr
    as (p & t' & Hp & _ & _ & _ & Hle & Hlk & _ & Ham & Hne & _ & _ & _ & Hu & _ & ->).
  split; [|done]. pose proof (proj2 Hb a) as Hma. rewrite Hp in Hma. simpl in Hma.
  assert (total_shares p <> 0).
  { intros Hz. apply Hne. rewrite Ham. unfold assets_for_shares. by rewrite Hz. }
  split.
  - eapply (books_update (st w) _ a d p); cbn; [done|done|done| | |done]; [unfold u64 in Hu; lia|].
    unfold shares_match in *. right. cbn. lia.
  - unfold pools_listed, supported in *; cbn. intros b. rewrite lookup_insert_is_Some.
    intros [<-|[_ ?]]; apply Hl; [by eexists|done].
  - cbn. intros Ha. destruct (Hf Ha) as [He _]. rewrite He in Hp. discriminate Hp.
Qed.

Lemma plain_inv w w' : plain w w' -> ledger_inv w -> ledger_inv w'.
Proof.
  intros (Hs & Ht & Hsup & Ha & Hac) [[Hn Hb] Hl Hf].
  assert (forall a, is_Some (k_PoolState (st w') !! a) <-> is_Some (k_PoolState (st w) !! a)) as Hsome.
  { intros a. rewrite <-!(fmap_is_Some total_shares), Ht. done. }
  split.
  - split; [by rewrite Hs|]. intros a. unfold user_shares. rewrite Hs.
    specialize (Hb a). specialize (Ht a). unfold user_shares in Hb.
    destruct (k_PoolState (st w') !! a), (k_PoolState (st w) !! a); simplify_eq/=; congruence.
  - intros a Hp. unfold supported. rewrite Hsup. by apply Hl, Hsome.
  - rewrite Ha, Hac. intros Hadm. destruct (Hf Hadm) as [He Hr]. split; [|done].
    apply map_empty. intros a. apply eq_None_not_Some. rewrite Hsome, He. by intros [? ?].
Qed.

Lemma plain_frozen w w' : plain w w' -> frozen w w'.
Proof.
  intros (Hs & Ht & _ & _ & Hac). split_and!; [done|by rewrite Hac|]. intros a p Hp.
  specialize (Ht a). unfold pool_of in *. rewrite Hp in Ht.
  destruct (k_PoolState (st w') !! a) as [p'|]; simplify_eq/=. eauto.
Qed.

Lemma admin_inv env adm c w w' :
  run_admin env adm c w = Ok tt w' -> ledger_inv w -> ledger_inv w' /\ frozen w w'.
Proof.
  intros Hr [Hb Hl Hf]. pose proof (run_admin_frame _ _ _ _ _ Hr) as (Hadm & Hlk & Hnew).
  apply run_admin_configures in Hr as [[_ Hau] (Hu & Hl' & Hp)].
  assert (k_Shares (st w') = k_Shares (st w)) as Hs by (unfold user_state in Hu; congruence).
  assert (frozen w w') as Hfr.
  { split_and!; [done..|]. intros a p Ha. destruct (Hp a p Ha Hl) as (p' & Hp' & Hacc).
    exists p'. split; [done|]. unfold accounts in Hacc. congruence. }
  split; [|done]. split.
  - destruct Hb as [Hn Hb]. split; [by rewrite Hs|]. intros a. unfold user_shares. rewrite Hs.
    specialize (Hb a). unfold user_shares in Hb. destruct Hfr as (_ & _ & Hfr).
    destruct (k_PoolState (st w) !! a) as [p|] eqn:Ha.
    + destruct (Hfr a p Ha) as (p' & Hp' & Ht). unfold pool_of in Hp'. rewrite Hp'. simpl in *.
      by rewrite Ht.
    + destruct (k_PoolState (st w') !! a) as [p'|] eqn:Ha'; [|done]. simpl.
      by rewrite (Hnew a p' Ha Ha').
  - by apply Hl'.
  - rewrite Hadm. intros Hno. destruct (Hf Hno) as [_ Hroles]. exfalso.
    destruct Hau as [Hau|Hau]; [by eapply Hroles|congruence].
Qed.

Lemma initialize_inv env adm tok b m r cap w w' :
  initialize env adm tok b m r cap w = Ok tt w' -> ledger_inv w -> ledger_inv w' /\ frozen w w'.
Proof.
  intros Hr [Hb Hl Hf]. apply initialize_Ok in Hr as (Hn & _ & s' & Hs' & ->).
  destruct (Hf Hn) as [He _]. split.
  - split.
    + destruct Hb as [Hn0 Hb]. split; [done|]. intros a. specialize (Hb a). cbn. rewrite He in *.
      unfold user_shares in *. cbn. destruct (decide (tok = a)) as [<-|].
      * by rewrite lookup_insert_eq.
      * by rewrite lookup_insert_ne.
    + unfold pools_listed, supported; cbn. rewrite He. intros a [? Ha%lookup_singleton_Some].
      destruct Ha as [<- _]. by apply list_elem_of_singleton.
    + done.
  - split_and!; [done|by eapply assign_role_lock|]. intros a p. unfold pool_of. by rewrite He.
Qed.

(** ** Steps while the lock is held *)

Lemma frozen_refl w : frozen w w.
Proof. split_and!; eauto. Qed.
Lemma frozen_trans w1 w2 w3 : frozen w1 w2 -> frozen w2 w3 -> frozen w1 w3.
Proof.
  intros (Hs1 & Hl1 & Hp1) (Hs2 & Hl2 & Hp2). split_and!; [congruence..|].
  intros a p Hp. destruct (Hp1 a p Hp) as (q & Hq & Ht). destruct (Hp2 a q Hq) as (q' & Hq' & Ht').
  exists q'. split; [done|congruence].
Qed.

Lemma locked_step w w' :
  ReentrancyLock (acl w) <> None -> sys_step w w' -> ledger_inv w -> ledger_inv w' /\ frozen w w'.
Proof.
  intros Hl [env c Hr|t n ->] Hi.
  2:{ assert (plain w (w <| toks := t |> <| nfts := n |>)) by by apply plain_core.
      split; [by eapply plain_inv|by apply plain_frozen]. }
  destruct (loud c) eqn:Hc.
  - destruct c; try discriminate Hc; simpl in Hr; try (apply discard_Ok in Hr as [r Hr]).
    + by eapply initialize_inv.
    + by eapply admin_inv.
    + by apply deposit_inv in Hr as (_ & ? & _).
    + by apply withdraw_inv in Hr as (_ & ? & _).
    + by apply flash_loan_Ok in Hr as (_ & _ & ? & _).
  - apply quiet_plain in Hr; [|done]. split; [by eapply plain_inv|by apply plain_frozen].
Qed.

Lemma locked_steps w w' :
  rtc sys_step w w' -> ReentrancyLock (acl w) <> None -> ledger_inv w ->
  ledger_inv w' /\ frozen w w'.
Proof.
  induction 1 as [w|w w1 w2 Hs _ IH]; intros Hl Hi; [split; [done|apply frozen_refl]|].
  destruct (locked_step _ _ Hl Hs Hi) as [Hi1 Hf1].
  destruct IH as [Hi2 Hf2]; [by rewrite (proj1 (proj2 Hf1))|done|].
  split; [done|by eapply frozen_trans].
Qed.

(** The ledger does not depend on the lock. *)
Lemma inv_lock w l : ledger_inv w -> ledger_inv (w <| acl := (acl w) <| ReentrancyLock := l |> |>).
Proof. intros [Hb Hl Hf]. by split. Qed.

(** A flash-loan receiver is a contract: its callback consists of invocations
    of contracts, among them this one. *)
Definition receiver_acts : Prop := forall env r amount fee i w w',
  execute_operation env r amount fee i w = Some w' -> rtc sys_step w w'.

Lemma flash_inv env i r a x w w' :
  receiver_acts -> flash_loan execute_operation env i r a x w = Ok tt w' ->
  ledger_inv w -> ledger_inv w' /\ ReentrancyLock (acl w') = None.
Proof.
  intros Hact Hr Hi. apply flash_loan_Ok in Hr as (_ & _ & _ & w1 & Hr & ->).
  split; [|done]. apply inv_lock.
  apply flash_loan_inner_Ok in Hr as (p & t1 & w2 & Hr). cbv zeta in Hr.
  destruct Hr as (Hp & _ & _ & _ & _ & _ & Hex & _ & _ & ->). apply Hact in Hex.
  apply locked_steps in Hex as [Hi2 (_ & _ & Hfr)]; [|done|].
  2:{ apply (plain_inv (w <| acl := (acl w) <| ReentrancyLock := Some true |> |>)).
      - by apply plain_core.
      - by apply inv_lock. }
  destruct (Hfr a p) as (p' & Hp' & Ht); [done|]. unfold pool_of in Hp'.
  eapply plain_inv; [|exact Hi2]. eapply (plain_pool _ _ a p'); cbn; [done| |done..]. by rewrite Ht.
Qed.

Lemma free_step w w' :
  receiver_acts -> sys_step w w' -> ReentrancyLock (acl w) = None -> ledger_inv w ->
  ledger_inv w' /\ ReentrancyLock (acl w') = None.
Proof.
  intros Hact [env c Hr|t n ->] Hl Hi.
  2:{ split; [|done]. eapply plain_inv; [|exact Hi]. by apply plain_core. }
  destruct (loud c) eqn:Hc.
  - destruct c; try discriminate Hc; simpl in Hr; try (apply discard_Ok in Hr as [r Hr]).
    + apply initialize_inv in Hr as [? (_ & -> & _)]; done.
    + apply admin_inv in Hr as [? (_ & -> & _)]; done.
    + by apply deposit_inv in Hr as (? & _ & ?).
    + by apply withdraw_inv in Hr as (? & _ & ?).
    + by eapply flash_inv.
  - apply quiet_plain in Hr; [|done]. split; [by eapply plain_inv|].
    destruct Hr as (_ & _ & _ & _ & ->). done.
Qed.

Lemma reachable_inv w0 w :
  receiver_acts -> st w0 = empty_store -> acl w0 = AccessControl.empty -> rtc sys_step w0 w ->
  ledger_inv w /\ ReentrancyLock (acl w) = None.
Proof.
  intros Hact Hst Hac Hs.
  assert (ledger_inv w0 /\ ReentrancyLock (acl w0) = None) as [Hi Hl].
  { rewrite Hac. split; [|done]. split; rewrite ?Hst, ?Hac.
    - split; [intros k n Hk; discriminate Hk|]. intros a. by left.
    - intros a [? Ha]. discriminate Ha.
    - intros _. split; [done|]. intros a. by intros ?%elem_of_nil. }
  clear Hst Hac. induction Hs as [w|w0 w1 w Hstep _ IH]; [done|].
  destruct (free_step _ _ Hact Hstep Hl Hi) as [? ?]. by apply IH.
Qed.

(** The calls that take the reentrancy lock. *)
Definition guarded (c : call) : bool :=
  match c with
  | Deposit _ _ _ | Withdraw _ _ _ | WithdrawPriority _ _ _ | FlashLoan _ _ _ _
  | Borrow _ _ _ _ _ _ | Repay _ | Liquidate _ _ _ | Refinance _ _ | Consolidate _ _ _
  | Split _ _ _ => true
  | _ => false
  end.

Lemma guarded_needs_lock env c w w' :
  guarded c = true -> run_call env c w = Ok tt w' -> ReentrancyLock (acl w) = None.
Proof.
  destruct c; try discriminate 1; intros _; simpl; intros Hr; try (apply discard_Ok in Hr as [r' Hr]).
  - apply deposit_Ok in Hr as (? & ? & ? & _ & _ & _ & _ & _ & ? & _). done.
  - apply withdraw_Ok in Hr as (? & ? & _ & _ & _ & _ & _ & ? & _). done.
  - apply withdraw_priority_Ok in Hr as (? & ? & _ & _ & _ & _ & _ & ? & _). done.
  - apply flash_loan_Ok in Hr as (_ & _ & ? & _). done.
  - apply borrow_Ok in Hr as (p & due & rate & rs & ns & t1 & t2 & Hr). cbv zeta in Hr.
    by destruct_and! Hr.
  - apply repay_Ok in Hr as (? & ? & ? & ? & ? & ? & _ & _ & ? & _). done.
  - apply liquidate_Ok in Hr as (? & ? & ? & ? & _ & _ & ? & _). done.
  - apply refinance_Ok in Hr as (? & ? & ? & ? & ? & _ & _ & ? & _). done.
  - by apply consolidate_plain in Hr as [_ ?].
  - by apply split_plain in Hr as [_ ?].
Qed.

(** * Properties *)

(** C14: Along every sequence of invocations of the whole contract from a fresh
    deployment, with flash-loan receivers that call back into it, every pool is on the
    asset list and its share total is the sum of the users' shares plus the locked minimum
    liquidity, nobody's shares exceed that sum, and the reentrancy lock is free between
    invocations. *)
Theorem share_ledger_sound w0 w :
  receiver_acts -> st w0 = empty_store -> acl w0 = AccessControl.empty -> rtc sys_step w0 w ->
  ReentrancyLock (acl w) = None /\
  (forall a p, pool_of w a = Some p -> a ∈ supported (st w) /\
     shares_match (total_shares p) (user_shares (st w) a)) /\
  forall d a, 0 <= shares_of (st w) a d <= user_shares (st w) a.
Proof.
  intros Hact Hst Hac Hs.
  destruct (reachable_inv w0 w Hact Hst Hac Hs) as [Hi Hl].
  split_and!; [done| |].
  - intros a p Hp. split; [apply Hi; by eexists|]. pose proof (proj2 (li_books _ Hi) a) as Hm.
    unfold pool_of in Hp. by rewrite Hp in Hm.
  - intros d a. apply shares_of_bounds, Hi.
Qed.

(** While the reentrancy lock is held, any number of calls back into the contract leave
    the lock held, every user's shares and every pool's share total as they were, and
    every guarded entry point is refused. *)
Theorem callback_freezes_shares w w' :
  ledger_inv w -> ReentrancyLock (acl w) <> None -> rtc sys_step w w' ->
  ReentrancyLock (acl w') = ReentrancyLock (acl w) /\
  k_Shares (st w') = k_Shares (st w) /\
  (forall a p, pool_of w a = Some p ->
     exists p', pool_of w' a = Some p' /\ total_shares p' = total_shares p) /\
  forall env c w'', guarded c = true -> run_call env c w' <> Ok tt w''.
Proof.
  intros Hi Hl Hs. destruct (locked_steps _ _ Hs Hl Hi) as [_ (Hsh & Hlk & Hp)].
  split_and!; [done..|]. intros env c w'' Hc Hr. rewrite <-Hlk in Hl. by eapply Hl, guarded_needs_lock.
Qed.
End system.

(** * Witnesses *)
Section witnesses.
Import LendingExample.
Abbreviation W := (world MockToken.network).

Lemma honest_receiver_acts : receiver_acts honest_receiver.
Proof.
  intros env r amount fee i w w' Hex. unfold honest_receiver in Hex.
  destruct (tk_transfer _ _ _ _ _ _) as [t|]; [|discriminate Hex]. injection Hex as <-.
  apply rtc_once. apply (sys_world _ _ _ t (nfts w)). by destruct w.
Qed.

(** A fresh deployment: initialised, a receiver whitelisted, a deposit made. *)
Definition opened : W :=
  after (deposit (env_at 3 3) alice usd 50000)
    (after (run_admin (env_at 2 2) admin (WhitelistReceiver receiver))
       (after (initialize (env_at 1 1) admin usd 500 2000 15000 8000) blank)).

Lemma opened_steps : rtc (sys_step honest_receiver) blank opened.
Proof.
  eapply rtc_l; [apply (sys_call _ _ _ (env_at 1 1) (Initialize admin usd 500 2000 15000 8000));
                 vm_compute; reflexivity|].
  eapply rtc_l; [apply (sys_call _ _ _ (env_at 2 2) (Administer admin (WhitelistReceiver receiver)));
                 vm_compute; reflexivity|].
  apply rtc_once. apply (sys_call _ _ _ (env_at 3 3) (Deposit alice usd 50000)). vm_compute. reflexivity.
Qed.

Lemma share_ledger_sound_witness :
  exists p, pool_of opened usd = Some p /\ total_shares p = 50000 /\
    shares_match 50000 (user_shares (st opened) usd).
Proof.
  destruct (share_ledger_sound honest_receiver blank opened) as (_ & Hp & _).
  - exact honest_receiver_acts.
  - reflexivity.
  - reflexivity.
  - exact opened_steps.
  - destruct (Hp usd (default fresh_pool (pool_of opened usd))) as [_ Hm].
    + vm_compute. reflexivity.
    + eexists. split; [vm_compute; reflexivity|]. split; [reflexivity|exact Hm].
Defined.

(** The deployment as a receiver finds it: the lock is held. *)
Definition inside : W := opened <| acl := (acl opened) <| ReentrancyLock := Some true |> |>.
Lemma callback_freezes_shares_witness :
  ReentrancyLock (acl inside) <> None /\
  forall w'', run_call honest_receiver (env_at 4 4) (Withdraw alice usd 10) inside <> Ok tt w''.
Proof.
  split; [discriminate|]. intros w''.
  destruct (callback_freezes_shares honest_receiver inside inside) as (_ & _ & _ & Hg).
  - apply inv_lock.
    apply (reachable_inv honest_receiver blank opened honest_receiver_acts eq_refl eq_refl opened_steps).
  - discriminate.
  - apply rtc_refl.
  - apply Hg. reflexivity.
Defined.
End witnesses.

End LendingSystem.
