(* ===== verification/BackendChain.v ===== *)
(** Where the backend meets the contract: the calls the backend's client makes
    are the inheritance contract's, and the events and the trigger record that
    the contract produces are read back by the backend as what happened. *)
From S2P Require Import Prelude Host AccessControl Token PlanVault InheritanceTypes.
From S2P Require Import InheritanceCore InheritanceEmergency InheritanceTriggers InheritanceExample MockToken.
From S2P Require Import Text StellarXdr BackendTypes StellarSubmit Watchdog LoanLifecycle.
Import Text StellarXdr InheritanceTypes InheritanceCore InheritanceTriggers.

Module BackendChain.

(** * The contract's interface on the wire *)

(** [#[contracttype]] structures are maps whose keys are the field names in
    alphabetical order. *)
Definition struct (fields : list (string * ScVal)) : ScVal :=
  Map (Some (map (fun kv => (Symbol (lit kv.1), kv.2)) fields)).

Definition encode_trigger (t : InheritanceTriggerInfo) : ScVal := struct
  [ ("liquidation_triggered", Bool (liquidation_triggered t));
    ("loan_freeze_active", Bool (loan_freeze_active t));
    ("original_loaned", U64 (original_loaned t));
    ("recall_attempted", Bool (recall_attempted t));
    ("recalled_amount", U64 (recalled_amount t));
    ("settled_amount", U64 (settled_amount t));
    ("triggered_at", U64 (triggered_at t)) ]%string.
(** [Option<T>] is the value itself or nothing. *)
Definition encode_option {A} (encode : A -> ScVal) (o : option A) : ScVal := from_option encode Void o.

(** The events of the operations the backend follows. *)
Definition encode_event (c : ContractId) (e : event) : option ContractEvent :=
  match e with
  | EVault (InheritanceTriggeredEvent id at_ loans) => Some (mkEvent (Some c)
      [Symbol (lit "INHERIT"); Symbol (lit "TRIGGER")]
      (struct [("outstanding_loans", U64 loans); ("plan_id", U64 id); ("triggered_at", U64 at_)]%string))
  | EVault (LoanFreezeEvent id at_) => Some (mkEvent (Some c)
      [Symbol (lit "LOAN"); Symbol (lit "FREEZE")]
      (struct [("frozen_at", U64 at_); ("plan_id", U64 id)]%string))
  | EVault (LoanRecallEvent id recalled remaining) => Some (mkEvent (Some c)
      [Symbol (lit "LOAN"); Symbol (lit "RECALL")]
      (struct [("plan_id", U64 id); ("recalled_amount", U64 recalled); ("remaining_loaned", U64 remaining)]%string))
  | EVault (LiquidationFallbackEvent id settled claimable) => Some (mkEvent (Some c)
      [Symbol (lit "LOAN"); Symbol (lit "LIQUIDAT")]
      (struct [("claimable_amount", U64 claimable); ("plan_id", U64 id); ("settled_amount", U64 settled)]%string))
  | _ => None
  end.

(** The call an invocation makes, by the contract's signatures. *)
Definition contract_call (account : list Z -> address) (function : text) (args : list ScVal)
  : option trigger_call :=
  match args with
  | [Account a; U64 id] =>
    if bool_decide (function = lit "trigger_inheritance") then Some (Trigger (account a) id)
    else if bool_decide (function = lit "freeze_loans") then Some (FreezeLoans (account a) id)
    else if bool_decide (function = lit "liquidation_fallback") then Some (Liquidation (account a) id)
    else None
  | [Account a; U64 id; U64 n] =>
    if bool_decide (function = lit "recall_loan") then Some (RecallLoan (account a) id n) else None
  | _ => None
  end.

(** * The calls *)

(** A request that carries an invocation. *)
Definition invocation (r : BackendTypes.request) : option (text * list ScVal) :=
  match r with
  | BackendTypes.Simulate f args | BackendTypes.Send _ f args => Some (f, args)
  | _ => None
  end.

Section calls.
Context {D : Type} `{StellarSubmit.Signer} (account : list Z -> address).
Abbreviation B := (BackendTypes.backend D).
Implicit Types (w : B) (ctx : StellarSubmit.SorobanContext).

(** Every invocation among the requests sent on the way is the call [c]. *)
Definition only_calls (c : trigger_call) w w' : Prop :=
  exists sent, BackendTypes.requests w' = BackendTypes.requests w ++ sent /\
    Forall (fun r => match invocation r with
                     | Some fa => contract_call account fa.1 fa.2 = Some c
                     | None => True
                     end) sent.
#[local] Instance only_calls_preorder c : PreOrder (only_calls c).
Proof.
  split.
  - intros w. exists []. by rewrite app_nil_r.
  - intros w1 w2 w3 (s1 & Hr1 & H1) (s2 & Hr2 & H2). exists (s1 ++ s2).
    rewrite Hr2, Hr1, app_assoc. split; [done|]. by apply Forall_app.
Qed.

Lemma http_only_calls c {E} r :
  match invocation r with Some fa => contract_call account fa.1 fa.2 = Some c | None => True end ->
  moves (only_calls c) (BackendTypes.http r : M B E _).
Proof.
  intros Hr w. unfold BackendTypes.http. cbn. destruct w as [d fs [|a rest] t n ca rq bs]; cbn;
    (exists [r]; split; [done|by repeat constructor]).
Qed.
Lemma quiet_only_calls c {E A} (m : M B E A) : keeps BackendTypes.requests m -> moves (only_calls c) m.
Proof.
  intros Hk. eapply keeps_moves; [exact Hk|]. intros w w' Hr. exists []. by rewrite app_nil_r.
Qed.

Lemma await_only_calls c fuel ctx hash deadline :
  moves (only_calls c) (StellarSubmit.await_loop fuel ctx hash deadline : M B _ _).
Proof.
  induction fuel as [|fuel IH]; [by intros w|]. cbn [StellarSubmit.await_loop].
  apply moves_bind; [exact _| |].
  - unfold StellarSubmit.poll. apply moves_bind; [exact _|by apply http_only_calls|]. intros a. repeat moves_step.
  - intros [o|]; [by moves_step|]. apply moves_bind; [exact _|moves_step|]. intros now.
    apply moves_bind; [exact _|moves_step|]. intros _. apply moves_bind; [exact _| |by intros _].
    apply quiet_only_calls, keeps_modify. by intros [].
Qed.

(** What is built carries the invocation asked for. *)
Lemma build_then c s v fee f args {A} (k : StellarSubmit.Transaction -> M B _ A) :
  (forall tx, StellarSubmit.tx_function tx = f -> StellarSubmit.tx_args tx = args -> moves (only_calls c) (k tx)) ->
  moves (only_calls c) (bind (StellarSubmit.build_transaction s v fee f args) k).
Proof.
  intros Hk. unfold StellarSubmit.build_transaction. destruct (_ && _); cbn [negb reject_if].
  - intros w. by apply Hk.
  - intros w. cbn. exists []. by rewrite app_nil_r.
Qed.

Lemma invoke_only_calls c ctx f args :
  contract_call account f args = Some c ->
  moves (only_calls c) (StellarSubmit.invoke_contract (Some ctx) f args : M B _ _).
Proof.
  intros Hc. unfold StellarSubmit.invoke_contract, StellarSubmit.next_sequence, StellarSubmit.simulate,
    StellarSubmit.send_transaction, StellarSubmit.decoded, StellarSubmit.await_transaction, StellarSubmit.soroban.
  repeat first [ apply await_only_calls | apply http_only_calls; done
               | apply http_only_calls; cbn; congruence
               | apply build_then; intros ? ? ? | moves_step ].
Qed.

(** The four calls of the client reach the contract as the four entry points, with the
    plan and the amount given. *)
Theorem client_calls_contract ctx id n w :
  let self := account (StellarSubmit.public_key ctx) in
  let called {A} (m : M B BackendTypes.StellarSubmitError A) c :=
    match m w with Ok _ w' | Fail _ w' => only_calls c w w' | Trap => True end in
  called (StellarSubmit.trigger_inheritance (Some ctx) id) (Trigger self id) /\
  called (StellarSubmit.freeze_loans (Some ctx) id) (FreezeLoans self id) /\
  called (StellarSubmit.recall_loan (Some ctx) id n) (RecallLoan self id n) /\
  called (StellarSubmit.liquidation_fallback (Some ctx) id) (Liquidation self id).
Proof.
  cbv zeta. split_and!.
  all: apply (invoke_only_calls _ ctx); vm_compute; reflexivity.
Qed.
End calls.

(** * What the contract reports *)

Section reports.
Context {T L : Type} `{TokenOps T}.
Abbreviation W := (world T L).
Implicit Types (w : W) (env : Env) (ctx : StellarSubmit.SorobanContext).

(** The events a poll brings back of a call that ran from [w] to [w']. *)
Definition reports (c : ContractId) w w' (es : list ContractEvent) : Prop :=
  exists new, evs w' = evs w ++ new /\ mapM (encode_event c) new = Some es.

Lemma trigger_plan_events env id u w w' :
  trigger_plan env id w = Ok u w' -> exists plan,
    P (plans w) !! id = Some plan /\
    evs w' = evs w ++ [EVault (InheritanceTriggeredEvent id (timestamp env) (total_loaned plan));
                       EVault (LoanFreezeEvent id (timestamp env))].
Proof.
  unfold trigger_plan. intros Hr. do 4 run_bind Hr. run_bind Hr.
  repeat match goal with
  | Hc : require_not_held _ _ = _ |- _ => apply require_not_held_Ok in Hc as [[??] ->]
  | Hc : not_triggered _ _ = _ |- _ => apply not_triggered_Ok in Hc as [? ->]
  | Hc : record_trigger _ _ _ _ = _ |- _ => apply record_trigger_Ok in Hc as ->
  end.
  run_inv. eexists. split; [done|]. unfold triggered_now. cbn. by rewrite <-app_assoc.
Qed.
(** What a successful call leaves of the log and the plans. *)
Definition shown w := (evs w, P (plans w)).

Lemma may_trigger_shown env a id w w' : may_trigger env a id w = Ok true w' -> shown w' = shown w.
Proof.
  unfold may_trigger. intros Hr. run_bind Hr. match goal with Hg : get_admin _ = _ |- _ => apply get_admin_Ok in Hg as [-> ->] end.
  case_bool_decide; [run_inv; done|]. run_bind Hr.
  match goal with Hg : require_plan _ _ = _ |- _ => apply require_plan_Ok in Hg as [? ->] end.
  case_bool_decide; [run_inv; done|]. run_bind Hr.
  match goal with Hg : InheritanceEmergency.get_emergency_access _ _ _ = _ |- _ =>
    apply InheritanceEmergency.get_emergency_access_Ok in Hg as [-> ->] end.
  destruct (Eac (triggers (InheritanceEmergency.expire env id w)) !! id) as [r|] eqn:He; [|by apply ret_Ok in Hr as [? _]].
  assert (w' = InheritanceEmergency.expire env id w) as ->.
  { case_bool_decide; [by run_inv|by apply ret_Ok in Hr as [? _]]. }
  unfold InheritanceEmergency.expire in *. destruct (InheritanceEmergency.access_expired env w id); [|done].
  cbn in He. by rewrite lookup_delete_eq in He.
Qed.
Lemma trigger_events env a id u w w' :
  trigger_inheritance env a id w = Ok u w' -> exists plan,
    P (plans w) !! id = Some plan /\
    evs w' = evs w ++ [EVault (InheritanceTriggeredEvent id (timestamp env) (total_loaned plan));
                       EVault (LoanFreezeEvent id (timestamp env))].
Proof.
  unfold trigger_inheritance. intros Hr. do 5 run_bind Hr.
  match goal with Ht : trigger_plan _ _ _ = Ok _ _ |- _ => apply trigger_plan_events in Ht as (plan & Hp & He) end.
  match goal with Hj : reject_if _ _ _ = Ok _ _ |- _ => apply reject_if_Ok in Hj as [Hauth ->] end.
  destruct x3; [|done]. match goal with Hm : may_trigger _ _ _ _ = Ok _ _ |- _ => apply may_trigger_shown in Hm end.
  match goal with Hm : shown _ = shown ?x |- _ => assert (shown x = shown w) as Hs by (run_inv; done); rewrite Hs in Hm end.
  assert (evs w' = evs x8) as Hx by (run_inv; done).
  unfold shown in *. exists plan. split; congruence.
Qed.

(** The outcome of a call's transaction passes its verification, and its
    numbers are read back. *)
Definition confirmed ctx (o : InvocationOutcome) (topics : list text) (id : Z) (fields : list (string * Z)) : Prop :=
  LoanLifecycle.verify_loan_event (Some ctx) o id topics = ROk tt /\
  Forall (fun f => forall d a, LoanLifecycle.event_field_or (Some ctx) o topics (lit f.1) d a = f.2) fields.

(** A structure's events are found by their own topics and read by their fields. *)
Lemma find_own c ts fields es :
  find_event (mkEvent (Some c) (map Symbol ts) (struct fields) :: es) c ts =
  Some (mkEvent (Some c) (map Symbol ts) (struct fields)).
Proof.
  unfold find_event. cbn [find]. enough (event_matches c ts (mkEvent (Some c) (map Symbol ts) (struct fields)) = true) as -> by done.
  unfold event_matches. cbn. rewrite bool_decide_eq_true_2 by done. cbn. rewrite length_map.
  rewrite bool_decide_eq_false_2 by lia. cbn. induction ts as [|t ts IH]; cbn; [done|].
  by rewrite bool_decide_eq_true_2.
Qed.
Lemma find_other c ts us d es :
  forallb (fun te => matches_symbol te.1 te.2) (combine us ts) = false ->
  find_event (mkEvent (Some c) us d :: es) c ts = find_event es c ts.
Proof. intros Hn. unfold find_event. cbn [find]. unfold event_matches at 1. cbn. by rewrite Hn, andb_false_r. Qed.

(** The verifications, by the event found. *)
Lemma confirmed_found ctx o ts id event read :
  find_event (outcome_events o) (StellarSubmit.contract ctx) ts = Some event ->
  event_u64_field event (lit "plan_id") = Some id ->
  Forall (fun f => event_u64_field event (lit f.1) = Some f.2) read ->
  confirmed ctx o ts id read.
Proof.
  intros Hf Hid Hread. unfold confirmed, LoanLifecycle.verify_loan_event, LoanLifecycle.event_field_or,
    StellarSubmit.client_contract. simpl fmap. cbv iota beta. split.
  - by rewrite Hf, Hid, Z.eqb_refl.
  - eapply Forall_impl; [exact Hread|]. intros [name v] Hv d a. simpl in *. by rewrite Hf, Hv.
Qed.
Lemma triggered_found ctx o id event :
  find_event (outcome_events o) (StellarSubmit.contract ctx) Watchdog.TRIGGER_EVENT_TOPICS = Some event ->
  event_u64_field event (lit "plan_id") = Some id ->
  Watchdog.verify_trigger_event (Some ctx) o id = ROk tt.
Proof.
  intros Hf Hid. unfold Watchdog.verify_trigger_event, StellarSubmit.client_contract. simpl fmap.
  unfold rok_or, rbind. by rewrite Hf, Hid, Z.eqb_refl.
Qed.

Lemma freeze_events env a id u w w' :
  freeze_loans env a id w = Ok u w' -> evs w' = evs w ++ [EVault (LoanFreezeEvent id (timestamp env))].
Proof. unfold freeze_loans. intros Hr. run_inv. done. Qed.
Lemma recall_events env a id n u w w' :
  recall_loan env a id n w = Ok u w' -> exists plan, P (plans w') !! id = Some plan /\
    evs w' = evs w ++ [EVault (LoanRecallEvent id n (total_loaned plan))].
Proof. unfold recall_loan. intros Hr. run_inv. eexists. split; [apply lookup_insert_eq|done]. Qed.
Lemma liquidation_events env a id u w w' :
  liquidation_fallback env a id w = Ok u w' -> exists plan, P (plans w) !! id = Some plan /\
    evs w' = evs w ++ [EVault (LiquidationFallbackEvent id (total_loaned plan)
                                 (saturating_sub (total_amount plan) (total_loaned plan)))].
Proof. unfold liquidation_fallback. intros Hr. run_inv. by eexists. Qed.

(** C10: The contract and the backend agree on the events: whenever one of the four calls
    the backend makes succeeds in the contract, the events the contract emits pass the
    verification the watchdog and the loan handlers apply to them, for this plan and with
    the amounts the contract books. *)
Theorem calls_confirmed env a id n ctx hash value w w' :
  let c := StellarSubmit.contract ctx in
  let reported (post : InvocationOutcome -> Prop) :=
    exists es, reports c w w' es /\ post (mkOutcome hash es value) in
  (run_trigger env (Trigger a id) w = Ok tt w' -> reported (fun o =>
     Watchdog.verify_trigger_event (Some ctx) o id = ROk tt /\ confirmed ctx o LoanLifecycle.FREEZE_EVENT_TOPICS id [])) /\
  (run_trigger env (FreezeLoans a id) w = Ok tt w' -> reported (fun o =>
     confirmed ctx o LoanLifecycle.FREEZE_EVENT_TOPICS id [])) /\
  (run_trigger env (RecallLoan a id n) w = Ok tt w' -> exists plan, P (plans w') !! id = Some plan /\
     reported (fun o => confirmed ctx o LoanLifecycle.RECALL_EVENT_TOPICS id
       [("recalled_amount", n); ("remaining_loaned", total_loaned plan)]%string)) /\
  (run_trigger env (Liquidation a id) w = Ok tt w' -> exists plan, P (plans w) !! id = Some plan /\
     reported (fun o => confirmed ctx o LoanLifecycle.LIQUIDATE_EVENT_TOPICS id
       [("settled_amount", total_loaned plan)]%string)).
Proof.
  cbv zeta. unfold run_trigger. split_and!.
  - intros (plan & _ & He)%trigger_events. eexists. split; [eexists; split; [exact He|reflexivity]|]. split.
    + eapply triggered_found; [apply (find_own _ Watchdog.TRIGGER_EVENT_TOPICS)|reflexivity].
    + eapply confirmed_found; [simpl outcome_events; rewrite find_other by reflexivity;
        apply (find_own _ LoanLifecycle.FREEZE_EVENT_TOPICS)|reflexivity|done].
  - intros He%freeze_events. eexists. split; [eexists; split; [exact He|reflexivity]|].
    eapply confirmed_found; [apply (find_own _ LoanLifecycle.FREEZE_EVENT_TOPICS)|reflexivity|done].
  - intros (plan & Hp & He)%recall_events. exists plan. split; [done|].
    eexists. split; [eexists; split; [exact He|reflexivity]|].
    eapply confirmed_found; [apply (find_own _ LoanLifecycle.RECALL_EVENT_TOPICS)|reflexivity|by repeat constructor].
  - intros (plan & Hp & He)%liquidation_events. exists plan. split; [done|].
    eexists. split; [eexists; split; [exact He|reflexivity]|].
    eapply confirmed_found; [apply (find_own _ LoanLifecycle.LIQUIDATE_EVENT_TOPICS)|reflexivity|by repeat constructor].
Qed.

(** * The amount on loan *)

(** What the backend reads as outstanding of a triggered plan is what the
    contract's plan has on loan. *)
Definition tracked w (id : Z) : Prop := forall plan, P (plans w) !! id = Some plan ->
  0 <= total_loaned plan /\ forall info, It (triggers w) !! id = Some info ->
    parse_outstanding_loaned (encode_option encode_trigger (Some info)) = Some (total_loaned plan) /\
    0 <= settled_amount info.

Lemma parse_encoded info :
  parse_outstanding_loaned (encode_option encode_trigger (Some info)) =
  Some (if liquidation_triggered info then 0
        else saturating_sub (saturating_sub (original_loaned info) (recalled_amount info)) (settled_amount info)).
Proof. destruct info as [t f ra [] o r s]; vm_compute; reflexivity. Qed.
Lemma parse_absent : parse_outstanding_loaned (encode_option encode_trigger None) = None.
Proof. reflexivity. Qed.

Lemma tracked_other w w' id :
  P (plans w') !! id = P (plans w) !! id -> It (triggers w') !! id = It (triggers w) !! id ->
  tracked w id -> tracked w' id.
Proof. unfold tracked. by intros -> ->. Qed.
Lemma tracked_triggered env w v id j plan :
  P (plans w) !! j = Some plan -> P (plans v) = P (plans w) -> It (triggers v) = It (triggers w) ->
  tracked w id -> tracked (triggered_now env j plan v) id.
Proof.
  intros Hj HP HI Ht. destruct (decide (id = j)) as [->|Hn].
  - intros p Hp. cbn in Hp. rewrite lookup_insert_eq in Hp. injection Hp as <-. destruct (Ht plan Hj) as [Hl _].
    split; [done|]. intros info Hi. cbn in Hi. rewrite lookup_insert_eq in Hi. injection Hi as <-.
    rewrite parse_encoded. cbn. split; [f_equal|]; ulia.
  - apply (tracked_other w); [..|done]; unfold triggered_now; cbn; by rewrite lookup_insert_ne, ?HP, ?HI.
Qed.
(** What [tracked] reads. *)
Definition loan_books w := (P (plans w), It (triggers w)).
Lemma may_trigger_books env a id : keeps loan_books (may_trigger env a id).
Proof. ih_keeps. Qed.
Lemma collect_books env cfg signers l : keeps loan_books (foldM (collect_guardian env cfg) signers l).
Proof. ih_keeps. Qed.
(** Triggered after steps that left the books alone. *)
Lemma tracked_triggers env w0 w v w' id j plan :
  P (plans v) !! j = Some plan -> loan_books w0 = loan_books w -> loan_books v = loan_books w0 ->
  loan_books w' = loan_books (triggered_now env j plan v) ->
  tracked w id -> tracked w' id.
Proof.
  intros Hj H0 Hv Hw Ht. rewrite H0 in Hv. injection Hv as HP HI. injection Hw as HP' HI'.
  eapply (tracked_other (triggered_now env j plan v)); [by rewrite HP'|by rewrite HI'|].
  apply (tracked_triggered env w); [congruence|done..].
Qed.

Lemma tracked_update w w' id j p i p' i' :
  P (plans w) !! j = Some p -> It (triggers w) !! j = Some i ->
  P (plans w') = <[j := p']> (P (plans w)) -> It (triggers w') = <[j := i']> (It (triggers w)) ->
  (let outstanding (t : InheritanceTriggerInfo) :=
     if liquidation_triggered t then 0
     else saturating_sub (saturating_sub (original_loaned t) (recalled_amount t)) (settled_amount t) in
   0 <= total_loaned p -> outstanding i = total_loaned p -> 0 <= settled_amount i ->
   0 <= total_loaned p' /\ outstanding i' = total_loaned p' /\ 0 <= settled_amount i') ->
  tracked w id -> tracked w' id.
Proof.
  intros Hp Hi HP HI Hstep Ht. destruct (decide (id = j)) as [->|Hn].
  - intros p1 Hp1. rewrite HP, lookup_insert_eq in Hp1. injection Hp1 as <-.
    destruct (Ht p Hp) as [Hl Hti]. destruct (Hti i Hi) as [Hq Hs]. rewrite parse_encoded in Hq. injection Hq as Hq.
    destruct (Hstep Hl Hq Hs) as (Hl' & Hq' & Hs'). split; [done|]. intros i1 Hi1.
    rewrite HI, lookup_insert_eq in Hi1. injection Hi1 as <-. rewrite parse_encoded. by rewrite <-Hq'.
  - apply (tracked_other w); [..|done]; by rewrite ?HP, ?HI, lookup_insert_ne.
Qed.

(** C35: What the backend reads back from the contract as outstanding stays the amount the
    contract has on loan for the plan, through every one of the calls the backend makes.
    *)
Theorem outstanding_tracked env c id w w' :
  run_trigger env c w = Ok tt w' -> tracked w id -> tracked w' id.
Proof.
  intros Hr Ht. destruct c; cbn in Hr.
  all: try (unfold set_trigger_conditions, add_time_trigger, add_inactivity_trigger, add_oracle_trigger,
    add_health_trigger, record_activity, submit_oracle_trigger, submit_health_trigger, config_with,
    oracle_config in Hr; run_inv; exact Ht).
  - apply auto_trigger_Ok in Hr as [->|(plan & es & Hp & _ & _ & ->)]; [done|].
    by apply (tracked_triggered env w w).
  - unfold trigger_inheritance in Hr. run_inv.
    match goal with Hm : may_trigger _ _ _ ?v = Ok _ ?u |- _ =>
      apply (keeps_Ok _ _ _ _ _ (may_trigger_books _ _ _)) in Hm; by eapply (tracked_triggers env v w u) end.
  - unfold guardian_emergency_trigger in Hr. run_inv.
    match goal with Hm : foldM _ _ _ ?v = Ok _ ?u |- _ =>
      apply (keeps_Ok _ _ _ _ _ (collect_books _ _ _ _)) in Hm; by eapply (tracked_triggers env v w u) end.
  - unfold freeze_loans in Hr. run_inv. 
    eapply (tracked_update w _ id plan_id x.1 x.2); [done..| |exact Ht]. cbn. by intros ? -> ?.
  - unfold recall_loan in Hr. run_inv. eapply (tracked_update w _ id plan_id); [done..| |exact Ht]; cbn in *.
    intros Hpos Hout Hs. bool_hyps. destruct (liquidation_triggered _); [lia|]. split_and!; ulia.
  - unfold liquidation_fallback in Hr. run_inv. eapply (tracked_update w _ id plan_id); [done..| |exact Ht]; cbn in *.
    intros Hpos Hout Hs. split_and!; ulia.
Qed.
End reports.

(** * A run *)

Section example.
Import InheritanceExample.

(** Alice's plan with 500 on loan, triggered and partly recalled. *)
Definition lent : W := funded <| plans := (plans funded) <| P :=
  alter (fun p => p <| total_loaned := 500 |>) 1 (P (plans funded)) |> |>.
Definition run_at (t : Z) (c : trigger_call) (w : W) : W := after (run_trigger (env_at t [admin]) c) w.
Definition recalled : W := run_at 30 (RecallLoan admin 1 200) (run_at 20 (Trigger admin 1) lent).
Definition chain_ctx : StellarSubmit.SorobanContext := StellarSubmit.mkContext [1] [2] 1 1.

Lemma outstanding_tracked_witness :
  (It (triggers recalled) !! 1) ≫= (fun info => parse_outstanding_loaned (encode_option encode_trigger (Some info)))
  = Some 300.
Proof.
  assert (tracked recalled 1) as Ht.
  { apply (outstanding_tracked (env_at 30 [admin]) (RecallLoan admin 1 200) 1 (run_at 20 (Trigger admin 1) lent)).
    - vm_compute. reflexivity.
    - apply (outstanding_tracked (env_at 20 [admin]) (Trigger admin 1) 1 lent).
      + vm_compute. reflexivity.
      + intros plan Hp. vm_compute in Hp. injection Hp as <-. split; [by vm_compute|]. intros info Hi. by vm_compute in Hi. }
  destruct (P (plans recalled) !! 1) as [plan|] eqn:Hp; [|exfalso; by vm_compute in Hp].
  assert (total_loaned plan = 300) as Hl by (vm_compute in Hp; by injection Hp as <-).
  destruct (It (triggers recalled) !! 1) as [info|] eqn:Hi; [|exfalso; by vm_compute in Hi].
  destruct (Ht plan Hp) as [_ Htr]. destruct (Htr info Hi) as [Hq _]. rewrite <-Hl. exact Hq.
Defined.

Lemma calls_confirmed_witness :
  exists es, reports [1] lent (run_at 20 (Trigger admin 1) lent) es /\
    Watchdog.verify_trigger_event (Some chain_ctx) (mkOutcome (lit "h") es None) 1 = ROk tt.
Proof.
  destruct (calls_confirmed (env_at 20 [admin]) admin 1 0 chain_ctx (lit "h") None lent (run_at 20 (Trigger admin 1) lent))
    as [Ht _].
  destruct Ht as (es & Hr & Hv & _); [vm_compute; reflexivity|]. by exists es.
Defined.
End example.
End BackendChain.
